(* ===== verification/_CoqProject ===== *)
-Q . S2P
Prelude.v
JsNum.v
JsString.v
JsText.v
JsUri.v
JsNumText.v
Markup.v
JsArray.v
Effect.v
Waypoints.v
BoundingBox.v
SelfCheck.v
MapView.v
Lifecycle.v
Geocode.v
Middleware.v
Page.v
Session.v
System.v
Render.v
App.v
Journey.v
