(* ===== verification/Prelude.v ===== *)
(** * Journey planner: a verification development

    The program is a single-page route planner (a React page over the
    MapLibre widget and the Nominatim geocoder) and an edge middleware.
    All of its state lives in one component, [Home]
    (src/unnamed/part_000), which the wrapper [App]
    (src/unnamed/part_001) renders under the configuration of
    src/next.config.js; the middleware is src/middleware.ts and its
    earlier revision src/unnamed/part_002.

    ** Parts of the program and the files that model them

    - [Prelude] (this file): the scope [jp_scope], the tactics and the hint
      databases of the development, and lemmas on lists and options that
      several components share.  It models no code.
    - [JsNum]: the ordering of JavaScript numbers, IEEE-754 binary64
      with NaN, the two zeros and the infinities.  The interface [JsOrder]
      states the laws the program relies on when it compares coordinates
      with [<] and [>]; the instance on [spec_float] discharges them.
    - [JsString]: strings as sequences of UTF-16 code units, literals of
      the source text, and the decimal form of a count ([String(n)]).
    - [JsText]: the string operations [geocodeScenes] calls:
      [split(/\n+/)], [trim], [Boolean] on a string and
      [encodeURIComponent] (code points of the UTF-16 units, their UTF-8
      octets, percent escapes), as the language defines them.
    - [JsUri]: [decodeURIComponent], the inverse the language defines
      for [encodeURIComponent] and the way a service reads a name back:
      escapes to octets ([unescape]), UTF-8 sequences to code points with
      their validity checks ([utf8_decode]), code points to UTF-16 units
      ([utf16]).  The program does not call it; it is the reference the
      encoder is checked against.
    - [JsNumText]: numbers and their texts.  [parseFloat] (called at
      part_000 line 224) skips leading white space, reads the longest
      prefix that is a decimal literal ([read_literal]: sign, [Infinity] or
      digits with an optional point and exponent) and rounds its value to
      the nearest binary64 number ([num_of_decimal]); [toFixed] (line 376)
      writes the nearest multiple of [10^-f] ([scaled]) with [f] decimals
      ([fixed_text]).
    - [Markup]: React elements as data.  A [node] is a text or an element
      with its props and children; [controls] are the buttons and text
      areas of a tree and [offered] the events a user can raise on it;
      [by_class] are the elements of a class, [text_of] the text of a tree,
      [refs] the references it attaches, and [well_keyed] says that no two
      siblings have the same key.
    - [JsArray]: JavaScript arrays as the program uses them: a list of
      slots (a hole, [undefined], or a value), reading at any integer index,
      writing inside, at and beyond the length, spreading, [forEach] and
      [map] visits, and the [update] a React state setter receives ([Same]
      reference or a [Fresh] array).
    - [Effect]: the monad in which effects and handlers that touch the
      widget are written: a state, and a result that is a value or a
      thrown error; [throw], [try_catch], [for_each]; the rules by which an
      invariant of the state is carried through a computation
      ([preserves]).
    - [Waypoints]: the waypoint store, the [waypoints] state of [Home]
      and the three handlers that change it: the map click handler
      (part_000 lines 140-146), [moveWaypoint] (268-276) and [clearRoute]
      (282-284), with the wholesale replace of [geocodeScenes] (233-234).
      Module [StoreSpec] is the abstract store of the specification on plain
      lists; the refinement theorems relate the handlers to it.
    - [BoundingBox]: the scan of [geocodeScenes] (240-250) that computes
      the box handed to [map.fitBounds], over any numbers that satisfy
      [JsOrder].
    - [SelfCheck]: the effect of lines 306-337 that runs at mount: the
      sample array and its swap, the scan of three coordinates, and the two
      [console.assert] calls, as a computation [selfCheck] over the
      console.
    - [MapView]: the map widget and the adapter around it.  The widget
      is an external library: its state ([widget], [marker]) and its calls
      ([Map_new], [map_addSource], [marker_remove], ...) are modelled from
      the interface the specification gives, as what the page can observe.
      The adapter is the page's code over that state: the mount effect
      (part_000 lines 46-156) as [mountEffect], [onImported], [onLoad] and
      [mountCleanup], the render effect (164-194) as [renderEffect] with
      its [forEach] callback [addMarker], and [toggleTerrain] (291-300).
      The state [dom] holds the page's references ([mapContainerRef],
      [mapRef], [markersRef], [maplibreRef], one [isMounted] variable per
      run of the mount effect) and every map and marker ever created.
      [Map_new] is given the container among its options (line 57) and
      throws when it is [null], as the widget's constructor does.  The
      style the map is created with ([map_options_initial], lines 56-101)
      and the source and layers added at [load] (lines 109-135) are data
      with every field the code writes: tiles, tile size, attribution,
      zoom range, encoding, and the [layout] and [paint] properties as
      [style_value]s.  [style_ok] is what the widget asks of a style
      (distinct layer identifiers, every layer on a source of the style,
      the terrain on an elevation model), and [styled] is the style of a
      map of the page before and after its [load] event.
    - [Lifecycle]: the callbacks the mount effect leaves behind (the
      [then] of the import, the [load] listener, the cleanup) and the
      effects, as events on a [view]: the state of [MapView] with the
      imports and [load] events still pending.  [view_handler] runs the
      adapter's code for an event, [view_enabled] says when the event can
      happen, [phase_of] is the phase of the specification's state machine
      (Uninitialized, Loading, Ready) and [phase_after] its transition.
      An import resolves or fails: line 51 has a [then] and no [catch],
      so a failed import runs no code of the page and only stops being
      pending.  React attaches the container of
      the map (line 369) before it runs the mount effect and detaches it at
      unmount, before the cleanup runs.
    - [Geocode]: [geocodeScenes] (part_000 lines 202-260).
      [parse_names] is the reading of the text area (203-206); [lookup] is
      one turn of the loop with its [try]/[catch] (212-231), over the state
      [geo] of the run (the local array, the alerts, the console, the
      requests made); [finish] is the replace of the waypoints and the
      [fitBounds] call (233-259).  The service is a parameter, a function
      from the number of a request and its URL to a [reply]; a reply with
      a first result carries the texts of its [lon] and [lat], which the
      loop reads with [parseFloat].  [lookup_result] and [lookup_all] state
      what the specification asks of each name and of the batch;
      [search_query] is what a service reads as the parameter [q] of the
      URL of a request.
    - [Middleware]: the request filter.  [middleware] and
      [config_matcher] are src/middleware.ts (the forwarding with its
      fallback, lines 9-19, and the pattern of line 7, read as the
      framework reads it: a prefix of the path that none of the listed
      alternatives matches); [getClientInfo], [middleware_previous] and
      [config_matcher_previous] are the earlier revision
      (src/unnamed/part_002).  Whether a call of [NextResponse.next()]
      fails is a parameter.
    - [Page]: [Home] as a whole.  The state [page] is the four [useState]
      cells (part_000 lines 15-37) beside the [view] of [Lifecycle], with
      the runs of [geocodeScenes] that are between two awaits
      ([pg_runs]) and the console ([pg_console]).  [render_rows] is the
      list of lines 370-395; [page_handler] gives each event of the page
      its code: the five events of the map's life (the mount runs the
      mount effect, the render effect and [selfCheck]), the two text
      areas, the store's handlers, the terrain toggle, the start of a run
      of [geocodeScenes] and each reply of the service to it; [commit] is
      what React does after a handler changed the waypoints (the render,
      then the render effect); [page_enabled] says which events can
      happen in a state.  A run of [geocodeScenes] is cut at its awaits:
      [run_ahead] makes the turns of the loop that end before their
      request (a name [encodeURIComponent] rejects goes to the [catch]
      block at once), [run_on] takes the loop to its next request or to
      [run_end] (lines 233-259), and [geocode_step] is the rest of a turn
      from the reply on, followed by [run_on].
    - [Session]: sequences of events of the page.  [run_left] is the
      number of replies a run of [geocodeScenes] still waits for,
      [replies_of] counts the replies to a run in a sequence of events and
      [replies_in] lists them, [run_reply] is what one reply does to its
      run, [replies_to] lists the replies a service gives to the requests
      of a batch, and [terrain_agrees] says that the widget's terrain is
      what the flag [terrainEnabled] says.
    - [System]: the system the specification describes, which has no
      code of its own: a [system] is a store of waypoints, a terrain flag
      and a phase of the adapter; an [action] is one of its operations
      ([append], [moveAt] and [clear] of [StoreSpec], [replaceAll], the
      toggle, a move of the adapter), [system_step] its effect and
      [system_enabled] where the specification allows it.  [abstract]
      reads the state of the system off a page, and [actions_of] says which
      operations an event of [Page] performs.
    - [Render]: the value [Home] returns (part_000 lines 339-397) as a
      [node] whose handlers are the events of [Page] they raise: the
      heading and the paragraph, the two text areas, the three buttons, the
      container of the map and one [row_node] per row of [render_rows];
      [row_text] is what a row reads.
    - [App]: the wrapper [App] (src/unnamed/part_001) and the record
      [nextConfig] (src/next.config.js).  [first_mount] is the sequence of
      mounts React makes for the first render: one in production, and
      under [reactStrictMode] in development a mount, an unmount and a
      second mount.
    - [Journey]: the parts together.  [listed] is the lines of the list
      as the user reads them; the theorems follow one click on "Geocode
      Scenes" through [Geocode], [Page], [MapView] and [Render].

    ** How state and operations correspond to the code

    A handler that calls [setWaypoints (fun prev => ...)] is a function from
    the previous array to an [update]; [apply_update] is what React does with
    it.  Indices and directions are [Z], because the code receives arbitrary
    numbers and guards only some of them; array positions are [nat].
    Coordinates are pairs [(lon, lat)] of binary64 values.  Strings are
    sequences of UTF-16 code units.  An effect or a handler that calls the
    widget is a computation [eff dom A]: a function from the state to an
    outcome ([Ok] with a value, or [Throw] with the error) and the state it
    leaves; a callback the code registers (the import's [then], the [load]
    listener, the cleanup) is a computation of its own, run when its event
    arrives.  An [await] of [geocodeScenes] ends the handler of one event;
    what follows the [await] is the handler of the reply, so every order
    in which replies, clicks and the events of the map can arrive is a
    sequence of events of [Page].  A handler written in the markup is the
    event it raises, so that [Render] and [Page] speak of the same events.

    ** What the theorems show

    - [JsNum]: [<] on binary64 is a strict weak order away from NaN, and
      every comparison with NaN is false.
    - [JsNumText]: [parseFloat] gives NaN exactly on the texts that do not
      start with a number, and reads the text of a count as that count;
      the integer [toFixed] writes is the nearest, the larger of two as
      near; [parseFloat] reads what [toFixed] wrote as the number nearest
      to the digits shown.
    - [JsUri]: [decodeURIComponent] reads back every well-formed string
      that [encodeURIComponent] encoded, so the encoder is injective.
    - [Markup]: the events a tree offers are those its controls raise
      ([offered_controls]); markup without handlers offers none; children
      made from a list with distinct keys are well keyed.
    - [JsArray]: reading after writing, lengths, and that a dense array of
      values stays one under in-range writes.
    - [Waypoints]: each handler refines the abstract store whenever the
      user interface can invoke it; [moveWaypoint] is an involution, a
      permutation and a no-op at the ends; an index outside the array, which
      the guard does not test, leaves [undefined] in the array.
    - [BoundingBox]: the box contains every non-NaN point, is attained,
      equals the fold of [min]/[max], and degenerates as the code does on
      NaN input.
    - [SelfCheck]: both assertions hold, so the effect is silent; what it
      asserts on equals what [moveWaypoint] and the scan compute on the
      same data, although the effect calls neither.
    - [MapView]: every handler keeps the references and the widget
      consistent ([dom_ok]); with a map, the render effect leaves one marker
      per waypoint, labelled by position, and the line through the
      coordinates; on an array holding [undefined] it throws half-way;
      without a map it does nothing, and nothing applies the waypoints once
      the map arrives; [toggleTerrain] twice restores a widget that agreed
      with the flag, which the widget the page creates does not; the cleanup
      releases the map and the markers, and an import that resolves after it
      creates nothing; every call of the adapter keeps the style of the
      maps ([styled]), the [load] callback completes it, and a map with
      that style has one the widget accepts ([style_ok]).
    - [Lifecycle]: the invariant [view_ok] holds in every state the
      events reach, in any order (so at most one map is alive, the one in
      [mapRef], also under the double mount of strict mode), and every map
      has the style of the page, the first one until its [load] event and
      the full one after it ([view_styled]); the phase
      after an event is the one [phase_after] gives, forwards or back to
      Uninitialized; a pending import that resolves makes the adapter
      Ready, and one that fails leaves it Uninitialized until the page is
      mounted again; on a loaded map the render effect shows the whole
      route; an import that finds its run mounted finds the container
      attached, so the constructor of the map does not throw.
    - [Geocode]: the names read are non-empty, on one line and trimmed,
      and names written one per line are read back; the pattern [/\n+/]
      reads the same names as a split at every newline; the encoded name
      cannot change the shape of the request URL, and the service reads
      from the URL the name that was typed; the loop never throws and
      computes [lookup_all], one waypoint or one alert per name, in order;
      a batch without result leaves the page alone, and a batch with
      results replaces the waypoints and fits the map to the box of the
      scan; a result whose text is no number is collected with NaN for a
      coordinate and without any report.
    - [Middleware]: the address [getClientInfo] reports is the first,
      trimmed entry of [x-forwarded-for] or else [x-real-ip], never an
      empty string; the filter never looks at the request and forwards it,
      marks the response when the first [NextResponse.next()] fails, and
      fails only when the second fails too; the matcher leaves out the
      framework's paths, and a few more because its dots are not escaped.
    - [Page]: the invariant [page_ok] holds in every state the page
      reaches by its events, in any order and with runs of [geocodeScenes]
      interleaved with clicks and moves: the page has not crashed, the
      console is empty, the waypoints are a dense array the list can
      render, a map that exists shows a marker per waypoint and, once
      loaded, their line, and every map has the style of the page; the
      list has one row per waypoint with the two end buttons disabled.
    - [Session]: a run of [geocodeScenes] ends: whatever events
      interleave, it waits for one reply less after each reply to it and
      for none after as many as it had requests to make, and it is what
      the replies to it make of it, whatever else happens; a run whose
      replies come with no other event in between leaves the page where
      [geocodeScenes] of [Geocode], run as one function, says; the reply
      that ends a run replaces whatever the store held, clicks and other
      runs included, so the run that ends last decides the route; a reply
      that comes after the unmount touches no map, while its run goes on
      with its requests and alerts; the terrain button
      establishes the agreement of widget and flag, every event but the
      creation of a map keeps it, and a new map breaks it.
    - [System]: the page implements the system of the specification.
      Every sequence of events of the page is a sequence of operations of
      the system, each allowed where it happens, and [abstract] commutes
      with them: nothing but these operations moves the store, the flag or
      the phase; a batch is seen only as one [replaceAll] at its last
      reply; the terrain button toggles only when there is a map.
    - [Render]: on a page that renders, the events the markup offers are
      exactly the events of typing and of the buttons that [page_enabled]
      allows; [Home] throws exactly on waypoints that hold [undefined], and
      otherwise its markup has one row per slot visited, distinct keys
      among siblings and the container of the map as its one reference;
      the map is created in the container [Home] renders, never without
      one.
    - [App]: under [nextConfig], in production and in development, and
      whatever the order in which the imports settle, the first mount ends
      with one map, created by the run that is still mounted, when the
      import of that run resolves, and with no map and a page that stands
      when it fails.
    - [Journey]: after a click on "Geocode Scenes", when the last reply
      to its run arrives and whatever events came in between, the places
      the service located are the waypoints and the lines of the list, and
      on a map that is there the markers, the box the map was asked to show
      and, once it has loaded, the route line.

    ** Bounds

    No definition uses fuel: every loop of the modelled code is a traversal
    of a finite array or of a text and is structural recursion here; the
    loop of [geocodeScenes], which is suspended at each [await], is shown
    to end by the measure [run_left].  Array lengths are unbounded
    naturals; the engine's limit of 2^32-1 elements is written out where a
    write at an index could reach it ([arr_set]).  Numbers are binary64
    ([spec_float] with precision 53 and maximal exponent 1024); the digits
    and exponents of a decimal literal are unbounded integers, so
    [parseFloat] rounds the exact value of the literal once.

    ** Not modelled

    The MapLibre widget, tile sources, the DOM, [fetch] and React's
    scheduler are external; their observable effect on the program's own
    state is modelled where a component depends on it, their internals are
    not.  The geocoding service is a parameter, and so is the order in
    which React and the browser deliver events: the theorems hold for
    every service and every order.  The two awaits of a turn of the loop
    ([fetch] and [res.json()]) are one reply: nothing of the page changes
    between them.  React drops the state of a component it unmounts; the
    page here keeps it, as the second mount of strict mode finds it, so
    the states reached after an unmount include those of a page that no
    longer exists.  Through the unmount that strict mode simulates React
    keeps the container of the map attached; here every unmount detaches
    it and the next mount attaches it again, which no callback can tell
    apart, since the container is read only by the import callback of a
    run that is mounted.  For a number of magnitude [10^21] or
    more [toFixed] returns what [Number::toString] writes; that text is
    the parameter [number_to_string], because the language leaves its
    least significant digit to the engine.  The language lets [parseFloat]
    replace the digits after the twentieth by zeros before it rounds;
    [parseFloat] here rounds the exact value, as the engines do.  Styles
    and attributes of the markup are carried as text: layout, focus and
    the reconciliation of a tree with the one before it are React's and
    are not modelled.  What the browser does with the rejection of an
    import that nobody handles (a report on its console) is not modelled.
    The flag [trailingSlash]
    and the import of the style sheet in [App] concern the framework's
    routing and the look of the page and are carried only as data.  The
    framework's compilation of the matcher pattern into a regular
    expression is not modelled: [matcher] states what the compiled pattern
    accepts. *)

From Stdlib Require Import ZArith Lia.
From stdpp Require Export base tactics option list numbers.

Declare Scope jp_scope.
Delimit Scope jp_scope with jp.

(** ** Hint databases

    [jp] collects the lemmas that close the routine side conditions of the
    development (lengths, lookups, definedness); [jp_len] is a rewrite
    database that normalises lengths of the list operations used to model
    array writes. *)

Create HintDb jp discriminated.
#[export] Hint Constants Opaque : jp.

Create Rewrite HintDb jp_len.
#[export] Hint Rewrite @length_app @length_insert @length_replicate
  @length_fmap @length_take @length_drop @length_cons @length_nil : jp_len.

(** ** Tactics *)

(** [len]: normalise every list length in the goal and the hypotheses,
    then hand the arithmetic to [lia]. *)
Ltac len := autorewrite with jp_len in *; simpl in *; try lia.

(** [split_if]: split on the boolean test the goal is stuck on. *)
Ltac split_if :=
  match goal with
  | |- context [if ?b then _ else _] =>
      let E := fresh "Hguard" in destruct b eqn:E
  end.

(** [bool_to_prop]: turn boolean facts about [Z] and [nat] comparisons in
    the context into propositions [lia] understands. *)
Ltac bool_to_prop :=
  repeat match goal with
  | H : (_ <? _)%Z = true |- _ => apply Z.ltb_lt in H
  | H : (_ <? _)%Z = false |- _ => apply Z.ltb_ge in H
  | H : (_ <=? _)%Z = true |- _ => apply Z.leb_le in H
  | H : (_ <=? _)%Z = false |- _ => apply Z.leb_gt in H
  | H : (_ >=? _)%Z = _ |- _ => rewrite Z.geb_leb in H
  | H : (_ >? _)%Z = _ |- _ => rewrite Z.gtb_ltb in H
  | H : (_ =? _)%Z = true |- _ => apply Z.eqb_eq in H
  | H : (_ =? _)%Z = false |- _ => apply Z.eqb_neq in H
  | H : (_ || _) = true |- _ => apply orb_true_iff in H
  | H : (_ || _) = false |- _ => apply orb_false_iff in H; destruct H
  | H : (_ && _) = true |- _ => apply andb_true_iff in H; destruct H
  | H : (_ && _) = false |- _ => apply andb_false_iff in H
  end.

(** ** Shared lemmas on lists *)

Section list_facts.
Context {A : Type}.
Implicit Types (l : list A) (x y : A) (i j : nat).

(** Writing two positions of a list, each with the other's value. *)
Definition list_swap (i j : nat) (l : list A) : list A :=
  match l !! i, l !! j with
  | Some x, Some y => <[j:=x]> (<[i:=y]> l)
  | _, _ => l
  end.

Lemma list_swap_length i j l : length (list_swap i j l) = length l.
Proof. unfold list_swap. repeat case_match; len. Qed.

Lemma list_swap_perm i j l : list_swap i j l ≡ₚ l.
Proof.
  unfold list_swap. repeat case_match; try done.
  by apply Permutation_insert_swap.
Qed.

Lemma list_swap_lookup_l i j l x y :
  l !! i = Some x → l !! j = Some y → list_swap i j l !! i = Some y.
Proof.
  intros Hi Hj. unfold list_swap. rewrite Hi, Hj.
  destruct (decide (i = j)) as [->|Hne].
  - rewrite list_lookup_insert_eq by (len; by eapply lookup_lt_Some). congruence.
  - rewrite list_lookup_insert_ne by done.
    by rewrite list_lookup_insert_eq by by eapply lookup_lt_Some.
Qed.

Lemma list_swap_lookup_r i j l x y :
  l !! i = Some x → l !! j = Some y → list_swap i j l !! j = Some x.
Proof.
  intros Hi Hj. unfold list_swap. rewrite Hi, Hj.
  rewrite list_lookup_insert_eq; [done|]. len. by eapply lookup_lt_Some.
Qed.

Lemma list_swap_lookup_ne i j k l :
  k ≠ i → k ≠ j → list_swap i j l !! k = l !! k.
Proof.
  intros Hi Hj. unfold list_swap. repeat case_match; try done.
  by rewrite !list_lookup_insert_ne by done.
Qed.

Lemma list_swap_oob i j l :
  length l ≤ i ∨ length l ≤ j → list_swap i j l = l.
Proof.
  intros H. unfold list_swap.
  destruct (l !! i) eqn:Hi, (l !! j) eqn:Hj; try done.
  apply lookup_lt_Some in Hi, Hj. lia.
Qed.

Lemma list_swap_sym i j l : list_swap i j l = list_swap j i l.
Proof.
  unfold list_swap.
  destruct (l !! i) as [x|] eqn:Hi, (l !! j) as [y|] eqn:Hj; try done.
  destruct (decide (i = j)) as [->|Hne]; [congruence|].
  by rewrite list_insert_insert_ne.
Qed.

Lemma list_swap_involutive i j l : list_swap i j (list_swap i j l) = l.
Proof.
  destruct (l !! i) as [x|] eqn:Hi, (l !! j) as [y|] eqn:Hj;
    try (unfold list_swap at 2; rewrite ?Hi, ?Hj;
         unfold list_swap; by rewrite ?Hi, ?Hj).
  apply list_eq; intros k.
  destruct (decide (k = i)) as [->|Hki].
  - erewrite list_swap_lookup_l, Hi; eauto using list_swap_lookup_l, list_swap_lookup_r.
  - destruct (decide (k = j)) as [->|Hkj].
    + erewrite list_swap_lookup_r, Hj; eauto using list_swap_lookup_l, list_swap_lookup_r.
    + by rewrite !list_swap_lookup_ne.
Qed.

End list_facts.

Lemma list_swap_fmap {A B} (f : A → B) (i j : nat) (l : list A) :
  f <$> list_swap i j l = list_swap i j (f <$> l).
Proof.
  unfold list_swap. rewrite !list_lookup_fmap.
  destruct (l !! i), (l !! j); simpl; try done.
  by rewrite !list_fmap_insert.
Qed.

#[export] Hint Rewrite @list_swap_length : jp_len.
#[export] Hint Resolve list_swap_perm : jp.
