(* ===== verification/JsNum.v ===== *)
(** * JsNum: the ordering of JavaScript numbers

    The program compares coordinates with [<] and [>] only.  A JavaScript
    number is an IEEE-754 binary64 value: finite values, two zeros, two
    infinities and NaN.  This file states what the program may assume of the
    comparison as the interface [JsOrder], derives the order-theoretic
    consequences once against the interface, and gives the instance on the
    standard library's [spec_float], for which [SFltb] is the comparison the
    language specifies.  Nothing here is floating-point arithmetic: the
    program never adds or multiplies coordinates. *)

From Stdlib Require Import ZArith Lia SpecFloat.
From S2P Require Import Prelude.

(** ** The interface *)

Class JsOrder (T : Type) := {
  js_lt : T → T → bool;
  js_nan : T → bool;
  js_lt_nan_l x y : js_nan x = true → js_lt x y = false;
  js_lt_nan_r x y : js_nan y = true → js_lt x y = false;
  js_lt_irrefl x : js_lt x x = false;
  js_lt_trans x y z : js_lt x y = true → js_lt y z = true → js_lt x z = true;
  js_lt_negtrans x y z :
    js_nan y = false → js_lt x y = false → js_lt y z = false → js_lt x z = false;
}.

#[global] Hint Mode JsOrder ! : typeclass_instances.

Notation "x <? y" := (js_lt x y) : jp_scope.
Notation "x >? y" := (js_lt y x) : jp_scope.

Section order.
Context `{JsOrder T}.
Implicit Types x y z : T.
Local Open Scope jp_scope.

(** [x ⊑ y]: both are numbers and [y < x] is false. *)
Definition js_le (x y : T) : Prop :=
  js_nan x = false ∧ js_nan y = false ∧ (y <? x) = false.

(** [x === y] on numbers: neither is below the other.  The two zeros are
    related and NaN is related to nothing, itself included. *)
Definition js_eqv (x y : T) : Prop := js_le x y ∧ js_le y x.

(** SameValueZero: [===] made reflexive at NaN. *)
Definition js_same (x y : T) : Prop :=
  (js_nan x = true ∧ js_nan y = true) ∨ js_eqv x y.

(** The smaller and the larger of two numbers as the program's conditional
    assignments compute them: [if (v < m) m = v] and [if (v > m) m = v]. *)
Definition js_min_step (m v : T) : T := if v <? m then v else m.
Definition js_max_step (m v : T) : T := if v >? m then v else m.

(** [x === y] on numbers, as a test. *)
Definition js_strict_eq (x y : T) : bool :=
  negb (js_nan x) && negb (js_nan y) && negb (x <? y) && negb (y <? x).

Lemma js_lt_not_nan x y : (x <? y) = true → js_nan x = false ∧ js_nan y = false.
Proof.
  intros Hlt. split; apply not_true_is_false; intros Hn.
  - by rewrite js_lt_nan_l in Hlt.
  - by rewrite js_lt_nan_r in Hlt.
Qed.

Lemma js_lt_asym x y : (x <? y) = true → (y <? x) = false.
Proof.
  intros Hxy. apply not_true_is_false; intros Hyx.
  pose proof (js_lt_trans _ _ _ Hxy Hyx) as Hxx.
  by rewrite js_lt_irrefl in Hxx.
Qed.

Lemma js_le_refl x : js_nan x = false → js_le x x.
Proof. intros Hx. repeat split; auto using js_lt_irrefl. Qed.

Lemma js_le_trans x y z : js_le x y → js_le y z → js_le x z.
Proof.
  intros (Hx & Hy & Hyx) (_ & Hz & Hzy). repeat split; [done..|].
  by apply js_lt_negtrans with y.
Qed.

Lemma js_le_total x y :
  js_nan x = false → js_nan y = false → js_le x y ∨ js_le y x.
Proof.
  intros Hx Hy. destruct (y <? x) eqn:Hyx.
  - right. repeat split; [done..|]. by apply js_lt_asym.
  - left. by repeat split.
Qed.

Lemma js_lt_le x y : (x <? y) = true → js_le x y.
Proof.
  intros Hlt. destruct (js_lt_not_nan _ _ Hlt).
  repeat split; [done..|]. by apply js_lt_asym.
Qed.

Lemma js_le_not_nan_l x y : js_le x y → js_nan x = false.
Proof. by intros (? & ? & ?). Qed.

Lemma js_le_not_nan_r x y : js_le x y → js_nan y = false.
Proof. by intros (? & ? & ?). Qed.

Lemma js_lt_le_trans x y z : (x <? y) = true → js_le y z → (x <? z) = true.
Proof.
  intros Hxy (Hy & Hz & Hzy). destruct (x <? z) eqn:Hxz; [done|].
  by rewrite (js_lt_negtrans x z y Hz Hxz Hzy) in Hxy.
Qed.

Lemma js_le_lt_trans x y z : js_le x y → (y <? z) = true → (x <? z) = true.
Proof.
  intros (Hx & Hy & Hyx) Hyz. destruct (x <? z) eqn:Hxz; [done|].
  by rewrite (js_lt_negtrans y x z Hx Hyx Hxz) in Hyz.
Qed.

(** *** The conditional assignments *)

Lemma js_min_step_nan_r m v : js_nan v = true → js_min_step m v = m.
Proof. intros Hv. unfold js_min_step. by rewrite js_lt_nan_l. Qed.

Lemma js_max_step_nan_r m v : js_nan v = true → js_max_step m v = m.
Proof. intros Hv. unfold js_max_step. by rewrite js_lt_nan_r. Qed.

Lemma js_min_step_nan_l m v : js_nan m = true → js_min_step m v = m.
Proof. intros Hm. unfold js_min_step. by rewrite js_lt_nan_r. Qed.

Lemma js_max_step_nan_l m v : js_nan m = true → js_max_step m v = m.
Proof. intros Hm. unfold js_max_step. by rewrite js_lt_nan_l. Qed.

Lemma js_min_step_cases m v : js_min_step m v = m ∨ js_min_step m v = v.
Proof. unfold js_min_step. split_if; auto. Qed.

Lemma js_max_step_cases m v : js_max_step m v = m ∨ js_max_step m v = v.
Proof. unfold js_max_step. split_if; auto. Qed.

Lemma js_min_step_not_nan m v :
  js_nan m = false → js_nan (js_min_step m v) = false.
Proof.
  intros Hm. unfold js_min_step. split_if; [|done].
  by apply js_lt_not_nan in Hguard as [? _].
Qed.

Lemma js_max_step_not_nan m v :
  js_nan m = false → js_nan (js_max_step m v) = false.
Proof.
  intros Hm. unfold js_max_step. split_if; [|done].
  by apply js_lt_not_nan in Hguard as [_ ?].
Qed.

Lemma js_min_step_le_l m v : js_nan m = false → js_le (js_min_step m v) m.
Proof.
  intros Hm. unfold js_min_step. split_if.
  - by apply js_lt_le.
  - by apply js_le_refl.
Qed.

Lemma js_min_step_le_r m v :
  js_nan m = false → js_nan v = false → js_le (js_min_step m v) v.
Proof.
  intros Hm Hv. unfold js_min_step. split_if.
  - by apply js_le_refl.
  - by repeat split.
Qed.

Lemma js_max_step_ge_l m v : js_nan m = false → js_le m (js_max_step m v).
Proof.
  intros Hm. unfold js_max_step. split_if.
  - by apply js_lt_le.
  - by apply js_le_refl.
Qed.

Lemma js_max_step_ge_r m v :
  js_nan m = false → js_nan v = false → js_le v (js_max_step m v).
Proof.
  intros Hm Hv. unfold js_max_step. split_if.
  - by apply js_le_refl.
  - by repeat split.
Qed.

(** *** [===] and SameValueZero *)

Lemma js_eqv_sym x y : js_eqv x y → js_eqv y x.
Proof. by intros [? ?]. Qed.

Lemma js_eqv_trans x y z : js_eqv x y → js_eqv y z → js_eqv x z.
Proof. intros [? ?] [? ?]. split; by eapply js_le_trans. Qed.

Lemma js_eqv_refl x : js_nan x = false → js_eqv x x.
Proof. intros. split; by apply js_le_refl. Qed.

Lemma js_strict_eq_spec x y : js_strict_eq x y = true ↔ js_eqv x y.
Proof.
  unfold js_strict_eq, js_eqv, js_le.
  rewrite !andb_true_iff, !negb_true_iff.
  split; [intros [[[? ?] ?] ?]|intros [(? & ? & ?) (? & ? & ?)]]; by split_and!.
Qed.

Lemma js_same_nan x y : js_same x y → js_nan x = js_nan y.
Proof.
  intros [[-> ->]|[Hxy _]]; [done|].
  by rewrite (js_le_not_nan_l _ _ Hxy), (js_le_not_nan_r _ _ Hxy).
Qed.

#[export] Instance js_same_equiv : Equivalence js_same.
Proof.
  split.
  - intros x. destruct (js_nan x) eqn:Hx; [by left|right; by apply js_eqv_refl].
  - intros x y [[? ?]|?]; [by left|right; by apply js_eqv_sym].
  - intros x y z Hxy Hyz.
    pose proof (js_same_nan _ _ Hxy) as Hn1.
    pose proof (js_same_nan _ _ Hyz) as Hn2.
    destruct Hxy as [[Hx Hy]|Hxy]; [left; split; congruence|].
    destruct Hyz as [[Hy _]|Hyz]; [|right; by eapply js_eqv_trans].
    destruct Hxy as [Hle _]. apply js_le_not_nan_r in Hle. congruence.
Qed.

#[export] Instance js_lt_proper : Proper (js_same ==> js_same ==> eq) js_lt.
Proof.
  assert (∀ x x' y y', js_same x x' → js_same y y' →
    (x <? y) = true → (x' <? y') = true) as Himp.
  { intros x x' y y' Hx Hy Hlt.
    destruct (js_lt_not_nan _ _ Hlt) as [Hnx Hny].
    destruct Hx as [[? _]|[_ Hx]]; [congruence|].
    destruct Hy as [[? _]|[Hy _]]; [congruence|].
    eapply js_le_lt_trans; [done|]. by eapply js_lt_le_trans. }
  intros x x' Hx y y' Hy.
  destruct (x <? y) eqn:E1, (x' <? y') eqn:E2; try done.
  - by rewrite (Himp x x' y y') in E2.
  - symmetry in Hx, Hy. by rewrite (Himp x' x y' y) in E1.
Qed.

#[export] Instance js_nan_proper : Proper (js_same ==> eq) js_nan.
Proof. intros x y. apply js_same_nan. Qed.

#[export] Instance js_min_step_proper :
  Proper (js_same ==> js_same ==> js_same) js_min_step.
Proof.
  intros m m' Hm v v' Hv. unfold js_min_step.
  rewrite (js_lt_proper _ _ Hv _ _ Hm). by split_if.
Qed.

#[export] Instance js_max_step_proper :
  Proper (js_same ==> js_same ==> js_same) js_max_step.
Proof.
  intros m m' Hm v v' Hv. unfold js_max_step.
  rewrite (js_lt_proper _ _ Hm _ _ Hv). by split_if.
Qed.

End order.

#[export] Hint Resolve js_le_refl js_lt_le js_min_step_le_l js_min_step_le_r
  js_max_step_ge_l js_max_step_ge_r js_min_step_not_nan js_max_step_not_nan : jp.

(** ** The instance: binary64 *)

(** A JavaScript number. *)
Abbreviation jsnum := spec_float.

(** The value [NaN]. *)
Abbreviation NaN := S754_nan.

(** The value of an integer literal of the source text. *)
Definition num_of_Z (z : Z) : jsnum := binary_normalize 53 1024 z 0 false.

Definition sf_nan (f : jsnum) : bool :=
  match f with S754_nan => true | _ => false end.

(** Position of a non-NaN value in the order: sign class first, then
    exponent and mantissa, both negated for negative values. *)
Definition sf_rank (f : jsnum) : Z * Z * Z :=
  match f with
  | S754_infinity true => (-2, 0, 0)
  | S754_finite true m e => (-1, - e, - Z.pos m)
  | S754_zero _ | S754_nan => (0, 0, 0)
  | S754_finite false m e => (1, e, Z.pos m)
  | S754_infinity false => (2, 0, 0)
  end%Z.

Definition lex3_lt (a b : Z * Z * Z) : Prop :=
  (a.1.1 < b.1.1 ∨ a.1.1 = b.1.1 ∧
    (a.1.2 < b.1.2 ∨ a.1.2 = b.1.2 ∧ a.2 < b.2))%Z.

Lemma compare_cont_cases (m1 m2 : positive) :
  (PosDef.Pos.compare_cont Eq m1 m2 = Lt ∧ Z.pos m1 < Z.pos m2)%Z ∨
  (PosDef.Pos.compare_cont Eq m1 m2 = Eq ∧ m1 = m2) ∨
  (PosDef.Pos.compare_cont Eq m1 m2 = Gt ∧ Z.pos m2 < Z.pos m1)%Z.
Proof.
  change (PosDef.Pos.compare_cont Eq m1 m2) with (m1 ?= m2)%positive.
  destruct (Pos.compare_spec m1 m2); auto with lia.
Qed.

Lemma SFltb_rank (x y : jsnum) :
  SFltb x y = true ↔
  sf_nan x = false ∧ sf_nan y = false ∧ lex3_lt (sf_rank x) (sf_rank y).
Proof.
  unfold SFltb, lex3_lt.
  destruct x as [[]|[]| |[] m1 e1], y as [[]|[]| |[] m2 e2]; simpl;
    try (split; [done|intros (? & ? & ?); lia]);
    try (split; [intros _; repeat split; lia|done]).
  all: destruct (Z.compare_spec e1 e2) as [->|?|?];
    destruct (compare_cont_cases m1 m2) as [[E ?]|[[E ->]|[E ?]]];
    rewrite ?E; simpl;
    (split; [intros ?; repeat split; try done; lia|intros (_ & _ & ?); try done; lia]).
Qed.

Lemma SFltb_false_rank (x y : jsnum) :
  sf_nan x = false → sf_nan y = false →
  SFltb x y = false ↔ ¬ lex3_lt (sf_rank x) (sf_rank y).
Proof.
  intros Hx Hy. rewrite <-not_true_iff_false, SFltb_rank.
  split; [intros Hn Hl; by apply Hn|intros Hn (_ & _ & Hl); by apply Hn].
Qed.

#[export, refine] Instance jsnum_order : JsOrder jsnum :=
  {| js_lt := SFltb; js_nan := sf_nan |}.
Proof.
  - intros x y Hx. apply not_true_is_false. rewrite SFltb_rank.
    intros (? & _). congruence.
  - intros x y Hy. apply not_true_is_false. rewrite SFltb_rank.
    intros (_ & ? & _). congruence.
  - intros x. apply not_true_is_false. rewrite SFltb_rank.
    unfold lex3_lt. intros (_ & _ & ?). lia.
  - intros x y z. rewrite !SFltb_rank. unfold lex3_lt.
    intros (? & ? & ?) (_ & ? & ?). repeat split; [done..|lia].
  - intros x y z Hy Hxy Hyz.
    destruct (sf_nan x) eqn:Hx.
    { apply not_true_is_false. rewrite SFltb_rank. intros (? & _). congruence. }
    destruct (sf_nan z) eqn:Hz.
    { apply not_true_is_false. rewrite SFltb_rank. intros (_ & ? & _). congruence. }
    rewrite SFltb_false_rank in * by done. unfold lex3_lt in *. lia.
Defined.
