(* ===== verification/JsString.v ===== *)
(** * JsString: JavaScript strings

    A JavaScript string is a sequence of UTF-16 code units.  The program
    builds waypoint names from a literal and the decimal form of a count and
    otherwise passes names around unchanged.  This file holds the string
    type, literals of the source text, and the conversion of a natural
    number to its decimal digits. *)

From Stdlib Require Import ZArith Lia Decimal DecimalNat.
From Stdlib Require Ascii String.
From S2P Require Import Prelude.
Export String.StringSyntax.

(** A UTF-16 code unit, below 65536 in a well-formed string. *)
Abbreviation code_unit := N.
Abbreviation jsstring := (list N).

Definition str_wf (s : jsstring) : Prop := Forall (λ c, (c < 65536)%N) s.

(** A literal of the source text, all of whose characters are ASCII. *)
Definition str_lit (s : String.string) : jsstring :=
  Ascii.N_of_ascii <$> String.list_ascii_of_string s.
Arguments str_lit s%_string_scope.

(** The code units of a sequence of decimal digits. *)
Fixpoint uint_units (d : Decimal.uint) : jsstring :=
  match d with
  | Nil => []
  | D0 d => 48%N :: uint_units d
  | D1 d => 49%N :: uint_units d
  | D2 d => 50%N :: uint_units d
  | D3 d => 51%N :: uint_units d
  | D4 d => 52%N :: uint_units d
  | D5 d => 53%N :: uint_units d
  | D6 d => 54%N :: uint_units d
  | D7 d => 55%N :: uint_units d
  | D8 d => 56%N :: uint_units d
  | D9 d => 57%N :: uint_units d
  end.

(** [String(n)] and [`${n}`] for a non-negative integer [n] below 10^21,
    which every array length is: the decimal digits, no sign, no exponent. *)
Definition str_of_nat (n : nat) : jsstring := uint_units (Nat.to_uint n).

Lemma uint_units_inj d1 d2 : uint_units d1 = uint_units d2 → d1 = d2.
Proof.
  revert d2. induction d1; intros []; intros [=]; f_equal; auto.
Qed.

#[export] Instance str_of_nat_inj : Inj (=) (=) str_of_nat.
Proof.
  intros n m Hnm. by apply Unsigned.to_uint_inj, uint_units_inj.
Qed.

Lemma uint_units_wf d : str_wf (uint_units d).
Proof. induction d; constructor; done || lia. Qed.

Lemma str_of_nat_wf n : str_wf (str_of_nat n).
Proof. apply uint_units_wf. Qed.

Lemma str_lit_wf s : str_wf (str_lit s).
Proof.
  apply Forall_fmap, Forall_true. intros c; simpl.
  pose proof (Ascii.N_ascii_bounded c). lia.
Qed.

Lemma str_wf_app s1 s2 : str_wf (s1 ++ s2) ↔ str_wf s1 ∧ str_wf s2.
Proof. apply Forall_app. Qed.

#[export] Hint Resolve str_of_nat_wf str_lit_wf : jp.
