(* ===== verification/JsText.v ===== *)
(** * JsText: the string operations the page calls

    [geocodeScenes] (src/unnamed/part_000, lines 203-216) cuts the text area
    into names with [split(/\n+/)], [trim] and [filter(Boolean)], and puts
    each name into a URL with [encodeURIComponent].  This file holds those
    operations on strings of UTF-16 code units, as the language defines
    them. *)

From Stdlib Require Import ZArith NArith Lia.
From S2P Require Import Prelude JsString.

(** ** Lines *)

Definition newline : code_unit := 10%N.

Definition is_newline (c : code_unit) : bool := (c =? newline)%N.

(** [s.split(/\n+/)]: the pieces between runs of newlines.  A run at the
    start or at the end leaves an empty piece there; the empty string gives
    one empty piece.  [in_run] says that the unit before was a newline of
    the current run; [piece] is the piece being read, reversed. *)
Fixpoint split_newlines_from (in_run : bool) (piece : jsstring) (s : jsstring)
    : list jsstring :=
  match s with
  | [] => [reverse piece]
  | c :: s =>
      if is_newline c then
        if in_run then split_newlines_from true piece s
        else reverse piece :: split_newlines_from true [] s
      else split_newlines_from false (c :: piece) s
  end.

Definition split_newlines (s : jsstring) : list jsstring :=
  split_newlines_from false [] s.

(** [s.split('\n')], the reference the pattern is compared with: a piece
    between any two newlines, empty ones included. *)
Fixpoint split_each_newline (s : jsstring) : list jsstring :=
  match s with
  | [] => [[]]
  | c :: s =>
      match split_each_newline s with
      | piece :: pieces =>
          if is_newline c then [] :: piece :: pieces else (c :: piece) :: pieces
      | [] => []
      end
  end.

(** ** Trimming *)

(** White space and line terminators, the units [trim] removes. *)
Definition is_space (c : code_unit) : bool :=
  ((9 <=? c) && (c <=? 13) || (c =? 32) || (c =? 160) || (c =? 5760)
   || (8192 <=? c) && (c <=? 8202) || (c =? 8232) || (c =? 8233)
   || (c =? 8239) || (c =? 8287) || (c =? 12288) || (c =? 65279))%N.

Fixpoint trim_start (s : jsstring) : jsstring :=
  match s with
  | [] => []
  | c :: s' => if is_space c then trim_start s' else s
  end.

Definition trim_end (s : jsstring) : jsstring := reverse (trim_start (reverse s)).

Definition trim (s : jsstring) : jsstring := trim_end (trim_start s).

(** A string that neither starts nor ends with white space. *)
Definition trimmed (s : jsstring) : Prop :=
  (∀ c, head s = Some c → is_space c = false) ∧
  (∀ c, list.last s = Some c → is_space c = false).

(** [Boolean(s)] for a string: whether it is not empty. *)
Definition str_truthy (s : jsstring) : bool :=
  match s with [] => false | _ => true end.

(** ** Percent-encoding *)

Definition is_high_surrogate (c : code_unit) : bool :=
  ((55296 <=? c) && (c <=? 56319))%N.
Definition is_low_surrogate (c : code_unit) : bool :=
  ((56320 <=? c) && (c <=? 57343))%N.

(** The code points of a string; [None] when a surrogate has no partner. *)
Fixpoint code_points (s : jsstring) : option (list N) :=
  match s with
  | [] => Some []
  | c :: s' =>
      if is_high_surrogate c then
        match s' with
        | d :: s'' =>
            if is_low_surrogate d
            then cps ← code_points s'';
                 Some (((c - 55296) * 1024 + (d - 56320) + 65536)%N :: cps)
            else None
        | [] => None
        end
      else if is_low_surrogate c then None
      else cps ← code_points s'; Some (c :: cps)
  end.

(** The UTF-8 octets of a code point. *)
Definition utf8 (cp : N) : list N :=
  if (cp <? 128)%N then [cp]
  else if (cp <? 2048)%N then [192 + cp / 64; 128 + cp mod 64]%N
  else if (cp <? 65536)%N then
    [224 + cp / 4096; 128 + (cp / 64) mod 64; 128 + cp mod 64]%N
  else [240 + cp / 262144; 128 + (cp / 4096) mod 64;
        128 + (cp / 64) mod 64; 128 + cp mod 64]%N.

(** The characters [encodeURIComponent] leaves as they are: letters,
    digits and [- _ . ! ~ * ' ( )]. *)
Definition is_unreserved (c : N) : bool :=
  ((65 <=? c) && (c <=? 90) || (97 <=? c) && (c <=? 122)
   || (48 <=? c) && (c <=? 57)
   || (c =? 45) || (c =? 95) || (c =? 46) || (c =? 33) || (c =? 126)
   || (c =? 42) || (c =? 39) || (c =? 40) || (c =? 41))%N.

(** An upper-case hexadecimal digit. *)
Definition hex_digit (d : N) : code_unit :=
  if (d <? 10)%N then (48 + d)%N else (55 + d)%N.

(** [%XX] for an octet. *)
Definition percent (b : N) : jsstring := [37%N; hex_digit (b / 16); hex_digit (b mod 16)].

Definition encode_code_point (cp : N) : jsstring :=
  if is_unreserved cp then [cp] else utf8 cp ≫= percent.

(** [encodeURIComponent(s)]; [None] is the [URIError] on a lone
    surrogate. *)
Definition encodeURIComponent (s : jsstring) : option jsstring :=
  cps ← code_points s; Some (cps ≫= encode_code_point).

(** The units an encoded component is made of: unreserved characters,
    the percent sign and upper-case hexadecimal digits. *)
Definition is_uri_unit (c : code_unit) : bool :=
  (is_unreserved c || (c =? 37) || (48 <=? c) && (c <=? 57)
   || (65 <=? c) && (c <=? 70))%N.

(** A unit that is not half of a surrogate pair. *)
Definition no_surrogate (c : code_unit) : Prop :=
  is_high_surrogate c = false ∧ is_low_surrogate c = false.

(** ** Lines: lemmas *)

Section lines.
Implicit Types (s piece : jsstring) (c : code_unit).

Lemma is_newline_spec c : is_newline c = true ↔ c = newline.
Proof. apply N.eqb_eq. Qed.

Lemma split_each_newline_cons s : ∃ piece pieces, split_each_newline s = piece :: pieces.
Proof.
  induction s as [|c s (p & ps & IH)]; simpl; [by eexists _, _|].
  rewrite IH. destruct (is_newline c); by eexists _, _.
Qed.

(** The pieces hold no newline. *)
Lemma split_newlines_from_no_newline in_run piece s :
  newline ∉ piece →
  Forall (λ p, newline ∉ p) (split_newlines_from in_run piece s).
Proof.
  revert in_run piece. induction s as [|c s IH]; intros in_run piece Hp; simpl.
  { constructor; [|done]. by rewrite elem_of_reverse. }
  destruct (is_newline c) eqn:Hc.
  - destruct in_run; [by apply IH|]. constructor; [by rewrite elem_of_reverse|].
    apply IH, not_elem_of_nil.
  - apply IH. rewrite not_elem_of_cons. split; [|done].
    intros <-. by rewrite (proj2 (is_newline_spec _)) in Hc.
Qed.

Lemma split_newlines_no_newline s : Forall (λ p, newline ∉ p) (split_newlines s).
Proof. apply split_newlines_from_no_newline, not_elem_of_nil. Qed.

(** Reading a piece without newlines. *)
Lemma split_newlines_from_app in_run piece p s :
  newline ∉ p → p ≠ [] →
  split_newlines_from in_run piece (p ++ s)
  = split_newlines_from false (reverse p ++ piece) s.
Proof.
  revert in_run piece. induction p as [|c p IH]; intros in_run piece Hp Hne; [done|].
  apply not_elem_of_cons in Hp as [Hc Hp]. simpl.
  destruct (is_newline c) eqn:Hnl; [by apply is_newline_spec in Hnl|].
  destruct p as [|d p]; [done|].
  rewrite IH by done. f_equal.
  by rewrite (reverse_cons (d :: p) c), <-app_assoc.
Qed.

End lines.

(** ** Trimming: lemmas *)

Section trimming.
Implicit Types (s t : jsstring) (c : code_unit).

Lemma trim_start_head s c : head (trim_start s) = Some c → is_space c = false.
Proof.
  induction s as [|d s IH]; simpl; [done|].
  destruct (is_space d) eqn:Hd; [done|]. by intros [= <-].
Qed.

Lemma trim_start_id s :
  (∀ c, head s = Some c → is_space c = false) → trim_start s = s.
Proof. destruct s as [|c s]; simpl; [done|]. intros H. by rewrite H. Qed.

Lemma trim_start_nil s : trim_start s = [] ↔ Forall (λ c, is_space c = true) s.
Proof.
  induction s as [|c s IH]; simpl; [by split|].
  destruct (is_space c) eqn:Hc.
  - rewrite IH. split; [by constructor|by inversion 1].
  - split; [done|]. inversion 1; congruence.
Qed.

Lemma trim_start_app s c t :
  is_space c = false → trim_start (s ++ c :: t) = trim_start s ++ c :: t.
Proof.
  intros Hc. induction s as [|d s IH]; simpl; [by rewrite Hc|].
  by destruct (is_space d).
Qed.

Lemma trim_start_suffix s : trim_start s `suffix_of` s.
Proof.
  induction s as [|c s IH]; simpl; [done|].
  destruct (is_space c); [by apply suffix_cons_r|done].
Qed.

Lemma trim_end_cons s c : is_space c = false → trim_end (c :: s) = c :: trim_end s.
Proof.
  intros Hc. unfold trim_end. rewrite reverse_cons, trim_start_app by done.
  by rewrite reverse_app.
Qed.

Lemma trim_end_prefix s : trim_end s `prefix_of` s.
Proof.
  unfold trim_end. destruct (trim_start_suffix (reverse s)) as [k Hk].
  exists (reverse k). apply (inj reverse).
  by rewrite reverse_app, !reverse_involutive.
Qed.

Lemma trim_trimmed s : trimmed (trim s).
Proof.
  unfold trim. split.
  - destruct (trim_start s) as [|d t] eqn:Hs; [done|].
    assert (is_space d = false) as Hd by (apply (trim_start_head s); by rewrite Hs).
    rewrite trim_end_cons by done. by intros c [= <-].
  - intros c. unfold trim_end. rewrite last_reverse. apply trim_start_head.
Qed.

Lemma trimmed_trim s : trimmed s → trim s = s.
Proof.
  intros [Hh Hl]. unfold trim, trim_end. rewrite (trim_start_id s) by done.
  rewrite trim_start_id, reverse_involutive; [done|].
  intros c. rewrite head_reverse. apply Hl.
Qed.

Lemma trim_idemp s : trim (trim s) = trim s.
Proof. apply trimmed_trim, trim_trimmed. Qed.

Lemma trim_nil s : trim s = [] ↔ Forall (λ c, is_space c = true) s.
Proof.
  unfold trim. split.
  - intros Hs. destruct (trim_start s) as [|d t] eqn:Ht; [by apply trim_start_nil|].
    rewrite trim_end_cons in Hs; [done|].
    apply (trim_start_head s). by rewrite Ht.
  - intros Hs. by rewrite (proj2 (trim_start_nil s)).
Qed.

Lemma elem_of_trim s c : c ∈ trim s → c ∈ s.
Proof.
  intros Hc. unfold trim in Hc.
  destruct (trim_end_prefix (trim_start s)) as [k1 Hk1].
  destruct (trim_start_suffix s) as [k2 Hk2].
  rewrite Hk2, Hk1, !elem_of_app. tauto.
Qed.

End trimming.

(** ** Percent-encoding: lemmas *)

Section encoding.
Implicit Types (s : jsstring) (c cp b : N).

Lemma hex_digit_uri d : (d < 16)%N → is_uri_unit (hex_digit d) = true.
Proof.
  intros Hd. unfold hex_digit, is_uri_unit, is_unreserved.
  destruct (d <? 10)%N eqn:H10; repeat case_bool_decide;
    rewrite ?orb_true_iff, ?andb_true_iff, ?N.leb_le, ?N.eqb_eq;
    apply N.ltb_lt in H10 || apply N.ltb_ge in H10; lia.
Qed.

Lemma percent_uri b : (b < 256)%N → Forall (λ c, is_uri_unit c = true) (percent b).
Proof.
  intros Hb. repeat constructor; apply hex_digit_uri.
  - apply N.Div0.div_lt_upper_bound. lia.
  - by apply N.mod_lt.
Qed.

Lemma utf8_octets cp : (cp < 1114112)%N → Forall (λ b, (b < 256)%N) (utf8 cp).
Proof.
  intros Hcp. unfold utf8.
  repeat (case_match; [repeat constructor|]); repeat constructor;
    repeat match goal with H : (_ <? _)%N = _ |- _ =>
      apply N.ltb_lt in H || apply N.ltb_ge in H end;
    try (pose proof (N.mod_lt cp 64); pose proof (N.mod_lt (cp / 64) 64);
         pose proof (N.mod_lt (cp / 4096) 64)); try lia.
  all: try (assert (cp / 64 < 32)%N by (apply N.Div0.div_lt_upper_bound; lia); lia).
  all: try (assert (cp / 4096 < 16)%N by (apply N.Div0.div_lt_upper_bound; lia); lia).
  all: try (assert (cp / 262144 < 5)%N by (apply N.Div0.div_lt_upper_bound; lia); lia).
Qed.

Lemma encode_code_point_uri cp :
  (cp < 1114112)%N → Forall (λ c, is_uri_unit c = true) (encode_code_point cp).
Proof.
  intros Hcp. unfold encode_code_point. destruct (is_unreserved cp) eqn:Hu.
  - constructor; [|done]. unfold is_uri_unit. by rewrite Hu.
  - apply Forall_bind. eapply list.Forall_impl; [by apply utf8_octets|].
    intros b Hb. by apply percent_uri.
Qed.

Lemma code_points_bound s cps :
  str_wf s → code_points s = Some cps → Forall (λ cp, (cp < 1114112)%N) cps.
Proof.
  revert cps. induction s as [s IH] using (induction_ltof1 _ length).
  unfold ltof, str_wf in *. intros cps Hwf. destruct s as [|c s]; simpl.
  { by intros [= <-]. }
  apply list.Forall_cons in Hwf as [Hc Hwf].
  destruct (is_high_surrogate c) eqn:Hh.
  - destruct s as [|d s]; [done|]. apply list.Forall_cons in Hwf as [Hd Hwf].
    destruct (is_low_surrogate d) eqn:Hl; [|done].
    destruct (code_points s) as [cps'|] eqn:Hs; [|done]. intros [= <-].
    constructor; [|apply (IH s); simpl; auto with lia].
    unfold is_high_surrogate, is_low_surrogate in *.
    apply andb_true_iff in Hh as [?%N.leb_le ?%N.leb_le].
    apply andb_true_iff in Hl as [?%N.leb_le ?%N.leb_le]. lia.
  - destruct (is_low_surrogate c); [done|].
    destruct (code_points s) as [cps'|] eqn:Hs; [|done]. intros [= <-].
    constructor; [lia|]. apply (IH s); simpl; auto with lia.
Qed.

Lemma encodeURIComponent_uri s u :
  str_wf s → encodeURIComponent s = Some u → Forall (λ c, is_uri_unit c = true) u.
Proof.
  intros Hwf. unfold encodeURIComponent.
  destruct (code_points s) as [cps|] eqn:Hs; [|done]. intros [= <-].
  apply Forall_bind. eapply list.Forall_impl; [by eapply code_points_bound|].
  intros cp Hcp. by apply encode_code_point_uri.
Qed.

Lemma code_points_app s1 s2 :
  Forall no_surrogate s1 → code_points (s1 ++ s2) = (s1 ++.) <$> code_points s2.
Proof.
  induction 1 as [|c s1 [Hh Hl] _ IH]; simpl.
  { by destruct (code_points s2). }
  rewrite Hh, Hl, IH. by destruct (code_points s2).
Qed.

Lemma code_points_no_surrogate s : Forall no_surrogate s → code_points s = Some s.
Proof.
  intros Hs. rewrite <-(app_nil_r s) at 1. rewrite code_points_app by done.
  simpl. by rewrite app_nil_r.
Qed.

Lemma is_unreserved_no_surrogate c : is_unreserved c = true → no_surrogate c.
Proof.
  unfold is_unreserved, no_surrogate, is_high_surrogate, is_low_surrogate.
  rewrite !orb_true_iff, !andb_true_iff, !andb_false_iff, !N.leb_le, !N.eqb_eq,
    !N.leb_gt. lia.
Qed.

Lemma encodeURIComponent_unreserved s :
  Forall (λ c, is_unreserved c = true) s → encodeURIComponent s = Some s.
Proof.
  intros Hs. unfold encodeURIComponent. rewrite code_points_no_surrogate.
  - simpl. f_equal. induction Hs as [|c s Hc _ IH]; [done|].
    rewrite bind_cons, IH. unfold encode_code_point. by rewrite Hc.
  - eapply list.Forall_impl; [done|]. apply is_unreserved_no_surrogate.
Qed.

Lemma low_not_high c : is_low_surrogate c = true → is_high_surrogate c = false.
Proof.
  unfold is_high_surrogate, is_low_surrogate.
  rewrite andb_true_iff, andb_false_iff, !N.leb_le, !N.leb_gt. lia.
Qed.

(** A low surrogate that no high surrogate precedes, and a high surrogate
    that no low surrogate follows, make the encoding fail. *)
Lemma encodeURIComponent_lone_low s1 c s2 :
  Forall no_surrogate s1 → is_low_surrogate c = true →
  encodeURIComponent (s1 ++ c :: s2) = None.
Proof.
  intros Hs1 Hc. unfold encodeURIComponent. rewrite code_points_app by done. simpl.
  by rewrite Hc, low_not_high.
Qed.

Lemma encodeURIComponent_lone_high s1 c s2 :
  Forall no_surrogate s1 → is_high_surrogate c = true →
  (∀ d, head s2 = Some d → is_low_surrogate d = false) →
  encodeURIComponent (s1 ++ c :: s2) = None.
Proof.
  intros Hs1 Hc Hd. unfold encodeURIComponent. rewrite code_points_app by done.
  simpl. rewrite Hc. destruct s2 as [|d s2]; [done|]. by rewrite (Hd d).
Qed.

End encoding.
