(* ===== verification/JsUri.v ===== *)
(** * JsUri: reading a percent-encoded component back

    [geocodeScenes] (src/unnamed/part_000, line 214) puts each name into
    the URL of its request with [encodeURIComponent].  The service reads
    the name back by the inverse the language defines,
    [decodeURIComponent]: each [%XX] is an octet, the octets are UTF-8, and
    every other unit stands for itself.  This file holds that decoder as
    the reference for the encoder of [JsText], and shows that it gives back
    every name that was encoded, so that no two names share an encoding. *)

From Stdlib Require Import ZArith NArith Lia.
From S2P Require Import Prelude JsString JsText.

(** ** The decoder *)

(** The value of a hexadecimal digit, of either case. *)
Definition hex_value (c : code_unit) : option N :=
  if ((48 <=? c) && (c <=? 57))%N then Some (c - 48)%N
  else if ((65 <=? c) && (c <=? 70))%N then Some (c - 55)%N
  else if ((97 <=? c) && (c <=? 102))%N then Some (c - 87)%N
  else None.

(** What a component is made of: units that stand for themselves and the
    octets of escapes. *)
Inductive token : Type :=
| Unit (c : code_unit)
| Octet (b : N).

(** The tokens of a component; [None] is the [URIError] on a [%] that
    two hexadecimal digits do not follow. *)
Fixpoint unescape (s : jsstring) : option (list token) :=
  match s with
  | [] => Some []
  | c :: s' =>
      if (c =? 37)%N then
        match s' with
        | h1 :: h2 :: rest =>
            hi ← hex_value h1; lo ← hex_value h2; ts ← unescape rest;
            Some (Octet (16 * hi + lo) :: ts)
        | _ => None
        end
      else ts ← unescape s'; Some (Unit c :: ts)
  end.

(** The six low bits of a continuation octet [10xxxxxx]; an unescaped
    unit is no continuation. *)
Definition trail (t : token) : option N :=
  match t with
  | Octet b => if ((128 <=? b) && (b <? 192))%N then Some (b - 128)%N else None
  | Unit _ => None
  end.

(** A code point that UTF-8 encodes in a sequence of its length: at least
    [least], below 17 planes, and no surrogate. *)
Definition scalar (least cp : N) : option N :=
  if ((least <=? cp) && (cp <? 1114112))%N
     && negb (is_high_surrogate cp || is_low_surrogate cp)
  then Some cp else None.

(** The UTF-16 code units of a code point. *)
Definition utf16 (cp : N) : jsstring :=
  if (cp <? 65536)%N then [cp]
  else [55296 + (cp - 65536) / 1024; 56320 + (cp - 65536) mod 1024]%N.

(** The string of a sequence of tokens: a unit is itself, an octet below
    128 is its character, and an octet [110xxxxx], [1110xxxx] or
    [11110xxx] starts a sequence of two, three or four octets that must be
    the UTF-8 encoding of a code point. *)
Fixpoint utf8_decode (ts : list token) : option jsstring :=
  match ts with
  | [] => Some []
  | Unit c :: ts => s ← utf8_decode ts; Some (c :: s)
  | Octet b :: ts =>
      if (b <? 128)%N then s ← utf8_decode ts; Some (b :: s)
      else if (b <? 192)%N then None
      else if (b <? 224)%N then
        match ts with
        | t1 :: ts =>
            b1 ← trail t1; cp ← scalar 128 ((b - 192) * 64 + b1);
            s ← utf8_decode ts; Some (utf16 cp ++ s)
        | _ => None
        end
      else if (b <? 240)%N then
        match ts with
        | t1 :: t2 :: ts =>
            b1 ← trail t1; b2 ← trail t2;
            cp ← scalar 2048 ((b - 224) * 4096 + b1 * 64 + b2);
            s ← utf8_decode ts; Some (utf16 cp ++ s)
        | _ => None
        end
      else if (b <? 248)%N then
        match ts with
        | t1 :: t2 :: t3 :: ts =>
            b1 ← trail t1; b2 ← trail t2; b3 ← trail t3;
            cp ← scalar 65536 ((b - 240) * 262144 + b1 * 4096 + b2 * 64 + b3);
            s ← utf8_decode ts; Some (utf16 cp ++ s)
        | _ => None
        end
      else None
  end.

(** [decodeURIComponent(s)]; [None] is the [URIError]. *)
Definition decodeURIComponent (s : jsstring) : option jsstring :=
  unescape s ≫= utf8_decode.

(** The tokens of the encoding of a code point. *)
Definition tokens_of (cp : N) : list token :=
  if is_unreserved cp then [Unit cp] else Octet <$> utf8 cp.

(** A code point of a well-formed string: below 17 planes, no surrogate. *)
Definition is_scalar (cp : N) : Prop := scalar 0 cp = Some cp.

(** ** Lemmas *)

#[local] Ltac Zify.zify_post_hook ::= Z.to_euclidean_division_equations.

(** Decides the comparisons of a goal by arithmetic. *)
#[local] Ltac compare :=
  repeat match goal with
    | |- context [(?a <? ?b)%N] => destruct (N.ltb_spec a b); try lia
    | |- context [(?a <=? ?b)%N] => destruct (N.leb_spec a b); try lia
    | |- context [(?a =? ?b)%N] => destruct (N.eqb_spec a b); try lia
    end.

(** Turns what is known of surrogates into bounds. *)
#[local] Ltac surrogates :=
  unfold is_high_surrogate, is_low_surrogate in *;
  repeat match goal with
    | H : (_ && _)%bool = true |- _ => apply andb_true_iff in H as [?%N.leb_le ?%N.leb_le]
    | H : (_ && _)%bool = false |- _ => apply andb_false_iff in H as [?%N.leb_gt|?%N.leb_gt]
    end.

Section decoding.
Implicit Types (s rest : jsstring) (c cp b d : N) (ts : list token).

Lemma is_scalar_spec cp :
  is_scalar cp ↔ (cp < 55296 ∨ 57343 < cp < 1114112)%N.
Proof.
  unfold is_scalar, scalar, is_high_surrogate, is_low_surrogate.
  compare; cbn; split; (done || lia).
Qed.

Lemma scalar_least least cp :
  is_scalar cp → (least ≤ cp)%N → scalar least cp = Some cp.
Proof.
  rewrite is_scalar_spec. unfold scalar, is_high_surrogate, is_low_surrogate.
  intros. compare; cbn; (done || lia).
Qed.

Lemma hex_value_digit d : (d < 16)%N → hex_value (hex_digit d) = Some d.
Proof.
  intros Hd. unfold hex_value, hex_digit.
  destruct (N.ltb_spec d 10); compare; cbn; f_equal; lia.
Qed.

Lemma unescape_percent b rest :
  (b < 256)%N →
  unescape (percent b ++ rest) = ts ← unescape rest; Some (Octet b :: ts).
Proof.
  intros Hb. cbn [percent app unescape N.eqb Pos.eqb].
  rewrite !hex_value_digit by lia. cbn [mbind option_bind].
  by replace (16 * (b / 16) + b mod 16)%N with b by lia.
Qed.

Lemma unescape_octets (bs : list N) rest :
  Forall (λ b, (b < 256)%N) bs →
  unescape ((bs ≫= percent) ++ rest)
  = ts ← unescape rest; Some ((Octet <$> bs) ++ ts).
Proof.
  induction 1 as [|b bs Hb _ IH]; cbn [mbind list_bind fmap list_fmap app].
  { by destruct (unescape rest). }
  rewrite <-(assoc_L (++)), unescape_percent, IH by done.
  by destruct (unescape rest).
Qed.

Lemma unescape_unreserved c rest :
  is_unreserved c = true →
  unescape (c :: rest) = ts ← unescape rest; Some (Unit c :: ts).
Proof.
  intros Hc. cbn [unescape]. by destruct (N.eqb_spec c 37) as [->|]; [vm_compute in Hc|].
Qed.

Lemma unescape_code_point cp rest :
  (cp < 1114112)%N →
  unescape (encode_code_point cp ++ rest)
  = ts ← unescape rest; Some (tokens_of cp ++ ts).
Proof.
  intros Hcp. unfold encode_code_point, tokens_of. destruct (is_unreserved cp) eqn:Hu.
  - by apply unescape_unreserved.
  - by apply unescape_octets, utf8_octets.
Qed.

Lemma unescape_encoded (cps : list N) :
  Forall (λ cp, (cp < 1114112)%N) cps →
  unescape (cps ≫= encode_code_point) = Some (cps ≫= tokens_of).
Proof.
  induction 1 as [|cp cps Hcp _ IH]; [done|].
  cbn [mbind list_bind]. by rewrite unescape_code_point, IH.
Qed.

(** The sequences of two, three and four octets. *)
Lemma utf8_decode_tokens cp ts :
  is_scalar cp →
  utf8_decode (tokens_of cp ++ ts) = s ← utf8_decode ts; Some (utf16 cp ++ s).
Proof.
  intros Hsc. pose proof (proj1 (is_scalar_spec cp) Hsc) as Hcp.
  unfold tokens_of. destruct (is_unreserved cp) eqn:Hu.
  { assert (cp < 128)%N by (revert Hu; unfold is_unreserved; compare; (done || lia)).
    unfold utf16. by compare. }
  unfold utf8. compare; cbn [fmap list_fmap app utf8_decode trail].
  - unfold utf16. by compare.
  - compare. cbn [andb mbind option_bind].
    replace ((192 + cp / 64 - 192) * 64 + (128 + cp mod 64 - 128))%N with cp by lia.
    by rewrite scalar_least by (done || lia).
  - compare. cbn [andb mbind option_bind].
    replace ((224 + cp / 4096 - 224) * 4096 + (128 + (cp / 64) mod 64 - 128) * 64
             + (128 + cp mod 64 - 128))%N with cp by lia.
    by rewrite scalar_least by (done || lia).
  - compare. cbn [andb mbind option_bind].
    replace ((240 + cp / 262144 - 240) * 262144
             + (128 + (cp / 4096) mod 64 - 128) * 4096
             + (128 + (cp / 64) mod 64 - 128) * 64 + (128 + cp mod 64 - 128))%N
      with cp by lia.
    by rewrite scalar_least by (done || lia).
Qed.

Lemma utf8_decode_encoded (cps : list N) :
  Forall is_scalar cps → utf8_decode (cps ≫= tokens_of) = Some (cps ≫= utf16).
Proof.
  induction 1 as [|cp cps Hcp _ IH]; [done|].
  cbn [mbind list_bind]. by rewrite utf8_decode_tokens, IH.
Qed.

(** The code points of a well-formed string are scalar values, and their
    UTF-16 units are the string. *)
Lemma code_points_utf16 s (cps : list N) :
  str_wf s → code_points s = Some cps →
  Forall is_scalar cps ∧ cps ≫= utf16 = s.
Proof.
  revert cps. induction s as [s IH] using (induction_ltof1 _ length).
  unfold ltof, str_wf in *. intros cps Hwf. destruct s as [|c s]; simpl.
  { by intros [= <-]. }
  apply list.Forall_cons in Hwf as [Hc Hwf].
  destruct (is_high_surrogate c) eqn:Hh.
  - destruct s as [|d s]; [done|]. apply list.Forall_cons in Hwf as [Hd Hwf].
    destruct (is_low_surrogate d) eqn:Hl; [|done].
    destruct (code_points s) as [cps'|] eqn:Hs; [|done]. intros [= <-].
    destruct (IH s ltac:(simpl; lia) cps' Hwf Hs) as [Hsc <-]. surrogates.
    split; [constructor; [apply is_scalar_spec; lia|done]|].
    cbn [mbind list_bind]. unfold utf16 at 1. compare. cbn [app].
    f_equal; [lia|f_equal; lia].
  - destruct (is_low_surrogate c) eqn:Hl; [done|].
    destruct (code_points s) as [cps'|] eqn:Hs; [|done]. intros [= <-].
    destruct (IH s ltac:(simpl; lia) cps' Hwf Hs) as [Hsc <-]. surrogates.
    all: split; [constructor; [apply is_scalar_spec; lia|done]|].
    all: cbn [mbind list_bind]; unfold utf16 at 1; by compare.
Qed.

End decoding.

(** ** The round trip *)

Section round_trip.
Implicit Types (s name q : jsstring).

(** What [encodeURIComponent] makes of a well-formed string,
    [decodeURIComponent] reads back. *)
Lemma decodeURIComponent_encodeURIComponent s q :
  str_wf s → encodeURIComponent s = Some q → decodeURIComponent q = Some s.
Proof.
  intros Hwf. unfold encodeURIComponent, decodeURIComponent.
  destruct (code_points s) as [cps|] eqn:Hs; [|done]. intros [= <-].
  destruct (code_points_utf16 s cps Hwf Hs) as [Hsc <-].
  rewrite unescape_encoded by by eapply code_points_bound.
  by apply utf8_decode_encoded.
Qed.

(** No two strings have the same encoding. *)
Lemma encodeURIComponent_inj s1 s2 q :
  str_wf s1 → str_wf s2 →
  encodeURIComponent s1 = Some q → encodeURIComponent s2 = Some q → s1 = s2.
Proof.
  intros Hwf1 Hwf2 Hq1%decodeURIComponent_encodeURIComponent
    Hq2%decodeURIComponent_encodeURIComponent; congruence.
Qed.

End round_trip.
