(* ===== verification/JsNumText.v ===== *)
(** * JsNumText: numbers read from text and written as text

    [geocodeScenes] reads the coordinates of a result with [parseFloat]
    (src/unnamed/part_000, line 224) and the list shows them with
    [toFixed(4)] (line 376).  This file holds the two conversions between
    strings of UTF-16 code units and binary64 numbers, as the language
    defines them: the longest decimal literal a text starts with, its exact
    value rounded to the nearest number, ties to even; and the decimal
    digits of the nearest multiple of a power of ten, the larger on a
    tie. *)

From Stdlib Require Import ZArith NArith Lia SpecFloat DecimalPos DecimalN.
From S2P Require Import Prelude JsNum JsString JsText.

(** ** Digits *)

Definition is_digit (c : code_unit) : bool := ((48 <=? c) && (c <=? 57))%N.

Definition digit_value (c : code_unit) : Z := Z.of_N c - 48.

(** A text made of decimal digits. *)
Definition all_digits (s : jsstring) : Prop := Forall (λ c, is_digit c = true) s.

(** The value of a run of decimal digits, most significant first. *)
Definition digits_value (ds : jsstring) : Z :=
  foldl (λ n c, 10 * n + digit_value c)%Z 0%Z ds.

(** The longest run of digits a text starts with, and what follows it. *)
Fixpoint span_digits (s : jsstring) : jsstring * jsstring :=
  match s with
  | c :: s' =>
      if is_digit c then let '(ds, r) := span_digits s' in (c :: ds, r)
      else ([], s)
  | [] => ([], [])
  end.

(** Whether [s] starts with the units of [p]. *)
Fixpoint starts_with (p s : jsstring) : bool :=
  match p, s with
  | [], _ => true
  | c :: p', d :: s' => (c =? d)%N && starts_with p' s'
  | _ :: _, [] => false
  end.

(** ** Reading: [parseFloat] *)

(** A decimal literal: an infinity, or a sign with digits and a power of
    ten, standing for [digits * 10 ^ exponent]. *)
Inductive literal : Type :=
| LitInfinity (negative : bool)
| LitDecimal (negative : bool) (digits exponent : Z).

(** An optional sign. *)
Definition read_sign (s : jsstring) : bool * jsstring :=
  match s with
  | c :: r => if (c =? 45)%N then (true, r)
              else if (c =? 43)%N then (false, r) else (false, s)
  | [] => (false, [])
  end.

(** The exponent part: [e] or [E], an optional sign and at least one
    digit.  Without digits there is no exponent part and the [e] belongs
    to what follows the literal. *)
Definition read_exponent (s : jsstring) : Z :=
  match s with
  | c :: r =>
      if (c =? 101)%N || (c =? 69)%N then
        let '(negative, r) := read_sign r in
        match span_digits r with
        | ([], _) => 0
        | (ds, _) => if negative then - digits_value ds else digits_value ds
        end
      else 0
  | [] => 0
  end%Z.

(** The digits after a decimal point, when the text starts with one. *)
Definition read_fraction (s : jsstring) : jsstring * jsstring :=
  match s with
  | c :: r => if (c =? 46)%N then span_digits r else ([], s)
  | [] => ([], [])
  end.

(** The longest literal a text starts with: a sign, then [Infinity], or
    digits with a point somewhere among them or next to them, then an
    exponent part.  There is none when no digit stands before or after the
    point. *)
Definition read_literal (s : jsstring) : option literal :=
  let '(negative, r) := read_sign s in
  if starts_with (str_lit "Infinity") r then Some (LitInfinity negative)
  else
    let '(int_part, r) := span_digits r in
    let '(fraction, r) := read_fraction r in
    match int_part ++ fraction with
    | [] => None
    | ds => Some (LitDecimal negative (digits_value ds)
                    (read_exponent r - Z.of_nat (length fraction)))
    end.

(** The number nearest to [digits * 10 ^ exponent], ties to even.  With a
    negative exponent the quotient is computed with enough binary digits
    for the rounding to see on which side of a midpoint the value lies. *)
Definition num_of_decimal (negative : bool) (digits exponent : Z) : jsnum :=
  match digits, exponent with
  | Zpos m, Zneg k =>
      let '(q, e, l) := SFdiv_core_binary 53 1024 (Zpos m) 0 (10 ^ Zpos k) 0 in
      binary_round_aux 53 1024 negative q e l
  | Zpos m, _ => binary_round 53 1024 negative (Z.to_pos (Zpos m * 10 ^ exponent)) 0
  | _, _ => S754_zero negative
  end.

Definition literal_value (l : literal) : jsnum :=
  match l with
  | LitInfinity negative => S754_infinity negative
  | LitDecimal negative digits exponent => num_of_decimal negative digits exponent
  end.

(** [parseFloat(s)]: white space is skipped, whatever follows the literal
    is ignored, and a text that starts with no literal gives NaN. *)
Definition parseFloat (s : jsstring) : jsnum :=
  match read_literal (trim_start s) with
  | Some l => literal_value l
  | None => S754_nan
  end.

(** ** Writing: [toFixed] *)

(** The decimal digits of a natural number, most significant first. *)
Definition digits_of (n : Z) : jsstring := uint_units (N.to_uint (Z.to_N n)).

(** The integer [n] for which [n / 10 ^ f] is nearest to [m * 2 ^ e], the
    larger one when two are as near. *)
Definition scaled (f : nat) (m : positive) (e : Z) : Z :=
  let v := (Zpos m * 10 ^ Z.of_nat f)%Z in
  match e with
  | Zneg k => (v + 2 ^ (Zpos k - 1)) / 2 ^ Zpos k
  | _ => v * 2 ^ e
  end%Z.

(** The digits of [n] with a point before the last [f] of them, after as
    many zeros in front as it takes to have a digit before the point. *)
Definition fixed_text (f : nat) (n : Z) : jsstring :=
  let ds := digits_of n in
  let ds := replicate (S f - length ds) 48%N ++ ds in
  match f with
  | 0 => ds
  | _ => take (length ds - f) ds ++ str_lit "." ++ drop (length ds - f) ds
  end.

(** Whether [m * 2 ^ e] is at least [10 ^ 21], from where on [toFixed]
    writes a number the way [String] does. *)
Definition at_least_1e21 (m : positive) (e : Z) : bool :=
  match e with
  | Zneg k => (10 ^ 21 * 2 ^ Zpos k <=? Zpos m)%Z
  | _ => (10 ^ 21 <=? Zpos m * 2 ^ e)%Z
  end.

Definition sign_text (negative : bool) : jsstring :=
  if negative then str_lit "-" else [].

(** [x.toFixed(f)] for [f] from 0 to 100.  [number_to_string] is [String]
    on numbers; it is called on finite numbers from [10 ^ 21] on only. *)
Definition toFixed (number_to_string : jsnum → jsstring) (f : nat) (x : jsnum)
    : jsstring :=
  match x with
  | S754_nan => str_lit "NaN"
  | S754_infinity negative => sign_text negative ++ str_lit "Infinity"
  | S754_zero _ => fixed_text f 0
  | S754_finite negative m e =>
      sign_text negative ++
      (if at_least_1e21 m e then number_to_string (S754_finite false m e)
       else fixed_text f (scaled f m e))
  end.

(** Whether a text starts with a literal: after an optional sign it reads
    [Infinity], a digit, or a point and a digit. *)
Definition starts_number (s : jsstring) : bool :=
  let '(_, r) := read_sign s in
  starts_with (str_lit "Infinity") r ||
  match r with
  | c :: r' =>
      is_digit c ||
      (c =? 46)%N && match r' with d :: _ => is_digit d | [] => false end
  | [] => false
  end.

(** ** Digits: lemmas *)

(** Comparisons of code units, as propositions for [lia]. *)
Ltac units_lia :=
  repeat (progress rewrite ?andb_true_iff, ?orb_true_iff, ?andb_false_iff,
    ?orb_false_iff, ?N.leb_le, ?N.leb_gt, ?N.eqb_eq, ?N.eqb_neq); lia.

Section digits.
Implicit Types (c : code_unit) (s r ds : jsstring) (d : Decimal.uint) (n : Z).

Lemma digit_value_bound c : is_digit c = true → (0 ≤ digit_value c ≤ 9)%Z.
Proof. unfold is_digit, digit_value. units_lia. Qed.

Lemma is_digit_not_space c : is_digit c = true → is_space c = false.
Proof.
  unfold is_digit, is_space. units_lia.
Qed.

Lemma uint_units_digits d : all_digits (uint_units d).
Proof. induction d; constructor; done. Qed.

Lemma span_digits_app ds r :
  all_digits ds → (∀ c, head r = Some c → is_digit c = false) →
  span_digits (ds ++ r) = (ds, r).
Proof.
  intros Hds Hr. induction Hds as [|c ds Hc _ IH]; simpl.
  - destruct r as [|c r]; [done|]. simpl. by rewrite (Hr c).
  - by rewrite Hc, IH.
Qed.

Lemma span_digits_all ds : all_digits ds → span_digits ds = (ds, []).
Proof.
  intros Hds. rewrite <-(app_nil_r ds) at 1. by apply span_digits_app.
Qed.

Lemma span_digits_spec s :
  all_digits (span_digits s).1 ∧ s = (span_digits s).1 ++ (span_digits s).2.
Proof.
  induction s as [|c s [IH1 IH2]]; simpl; [by split; [constructor|]|].
  destruct (is_digit c) eqn:Hc; [|by split; [constructor|]].
  destruct (span_digits s) as [ds r]; simpl in *.
  split; [by constructor|by f_equal].
Qed.

Lemma foldl_digits acc ds :
  foldl (λ n c, 10 * n + digit_value c)%Z acc ds
  = (acc * 10 ^ Z.of_nat (length ds) + digits_value ds)%Z.
Proof.
  unfold digits_value. revert acc.
  induction ds as [|c ds IH]; intros acc; simpl; [lia|].
  rewrite IH, (IH (10 * 0 + _)%Z), Nat2Z.inj_succ, Z.pow_succ_r by lia. lia.
Qed.

Lemma digits_value_app ds1 ds2 :
  digits_value (ds1 ++ ds2)
  = (digits_value ds1 * 10 ^ Z.of_nat (length ds2) + digits_value ds2)%Z.
Proof. unfold digits_value at 1. by rewrite foldl_app, foldl_digits. Qed.

Lemma digits_value_nonneg ds : all_digits ds → (0 ≤ digits_value ds)%Z.
Proof.
  induction ds as [|c ds IH] using rev_ind; [done|].
  unfold all_digits. rewrite Forall_app, Forall_singleton. intros [Hds Hc].
  rewrite digits_value_app. pose proof (digit_value_bound c Hc).
  unfold digits_value at 2; simpl. specialize (IH Hds). lia.
Qed.

Lemma digits_value_zeros k ds :
  digits_value (replicate k 48%N ++ ds) = digits_value ds.
Proof.
  induction k as [|k IH]; [done|]. unfold digits_value in *. by simpl.
Qed.

Lemma foldl_digits_nat d (acc : nat) :
  foldl (λ n c, 10 * n + digit_value c)%Z (Z.of_nat acc) (uint_units d)
  = Z.of_nat (Nat.of_uint_acc d acc).
Proof.
  revert acc. induction d; intros acc; simpl; [done|..];
    rewrite <-IHd, ?Nat.tail_mul_spec; f_equal; unfold digit_value; lia.
Qed.

Lemma digits_value_str_of_nat (k : nat) : digits_value (str_of_nat k) = Z.of_nat k.
Proof.
  unfold digits_value, str_of_nat.
  rewrite (foldl_digits_nat _ 0). by rewrite <-(DecimalNat.Unsigned.of_to k) at 2.
Qed.

Lemma foldl_digits_pos d (acc : positive) :
  foldl (λ n c, 10 * n + digit_value c)%Z (Zpos acc) (uint_units d)
  = Zpos (Pos.of_uint_acc d acc).
Proof.
  revert acc. induction d; intros acc; simpl; [done|..];
    rewrite <-IHd; f_equal; unfold digit_value; lia.
Qed.

Lemma digits_value_uint d : digits_value (uint_units d) = Z.of_N (Pos.of_uint d).
Proof.
  unfold digits_value. induction d; simpl; [done|done|..];
    by rewrite <-foldl_digits_pos.
Qed.

Lemma digits_value_digits_of n : (0 ≤ n)%Z → digits_value (digits_of n) = n.
Proof.
  intros Hn. unfold digits_of. rewrite digits_value_uint.
  change (Pos.of_uint ?d) with (N.of_uint d).
  rewrite DecimalN.Unsigned.of_to. lia.
Qed.

Lemma digits_of_nonempty n : digits_of n ≠ [].
Proof.
  unfold digits_of. destruct (Z.to_N n) as [|p]; [done|]. simpl.
  pose proof (DecimalPos.Unsigned.to_uint_nonnil p) as Hp.
  by destruct (Pos.to_uint p).
Qed.

End digits.

(** ** Rounding: lemmas *)

Section rounding.
Context (prec emax : Z).

Lemma shr_1_nonneg mrs : (0 ≤ shr_m mrs)%Z → (0 ≤ shr_m (shr_1 mrs))%Z.
Proof. destruct mrs as [[|[]|] r s]; simpl; lia. Qed.

Lemma iter_pos_shr_nonneg p mrs :
  (0 ≤ shr_m mrs)%Z → (0 ≤ shr_m (SpecFloat.iter_pos shr_1 p mrs))%Z.
Proof.
  revert mrs. induction p as [p IH|p IH|]; intros mrs Hm; simpl;
    auto using shr_1_nonneg.
Qed.

Lemma shr_fexp_nonneg m e l :
  (0 ≤ m)%Z → (0 ≤ shr_m (shr_fexp prec emax m e l).1)%Z.
Proof.
  intros Hm. unfold shr_fexp, shr.
  assert (0 ≤ shr_m (shr_record_of_loc m l))%Z by by destruct l as [|[]].
  destruct (_ - e)%Z; simpl; auto using iter_pos_shr_nonneg.
Qed.

Lemma round_nearest_even_nonneg m l : (0 ≤ m)%Z → (0 ≤ round_nearest_even m l)%Z.
Proof. destruct l as [|[]]; simpl; try split_if; lia. Qed.

(** Rounding a non-negative integer never gives NaN. *)
Lemma binary_round_aux_not_nan sx mx ex lx :
  (0 ≤ mx)%Z → sf_nan (binary_round_aux prec emax sx mx ex lx) = false.
Proof.
  intros Hm. unfold binary_round_aux.
  pose proof (shr_fexp_nonneg mx ex lx Hm) as H1.
  destruct (shr_fexp prec emax mx ex lx) as [mrs e']; simpl in H1.
  pose proof (shr_fexp_nonneg _ e' loc_Exact
    (round_nearest_even_nonneg _ (loc_of_shr_record mrs) H1)) as H2.
  destruct (shr_fexp prec emax _ e' loc_Exact) as [mrs' e'']; simpl in H2.
  destruct (shr_m mrs'); [done| |lia]. by split_if.
Qed.

Lemma binary_round_not_nan sx mx ex :
  sf_nan (binary_round prec emax sx mx ex) = false.
Proof.
  unfold binary_round. destruct (shl_align _ _ _).
  by apply binary_round_aux_not_nan.
Qed.

Lemma SFdiv_core_binary_nonneg m1 e1 m2 e2 :
  (0 ≤ m1)%Z → (0 < m2)%Z →
  (0 ≤ (SFdiv_core_binary prec emax m1 e1 m2 e2).1.1)%Z.
Proof.
  intros H1 H2. unfold SFdiv_core_binary.
  set (s := (e1 - e2 - _)%Z).
  set (m' := match s with Z0 => m1 | Zpos _ => Z.shiftl m1 s | Zneg _ => 0%Z end).
  assert (0 ≤ m')%Z.
  { subst m'. destruct s; [done| |done]. by apply Z.shiftl_nonneg. }
  pose proof (Z.div_pos m' m2). unfold Z.div in *.
  destruct (Z.div_eucl m' m2); simpl in *. lia.
Qed.

End rounding.

(** ** Reading: lemmas *)

Section reading.
Implicit Types (c : code_unit) (s r ds : jsstring) (n : Z).

Lemma num_of_decimal_not_nan negative digits exponent :
  sf_nan (num_of_decimal negative digits exponent) = false.
Proof.
  unfold num_of_decimal.
  destruct digits as [|m|m]; [done| |done].
  destruct exponent as [|k|k]; auto using binary_round_not_nan.
  pose proof (SFdiv_core_binary_nonneg 53 1024 (Zpos m) 0 (10 ^ Zpos k) 0) as H.
  destruct (SFdiv_core_binary _ _ _ _ _ _) as [[q e] l]; simpl in H.
  apply binary_round_aux_not_nan, H; lia.
Qed.

Lemma literal_value_not_nan l : sf_nan (literal_value l) = false.
Proof. destruct l; [done|apply num_of_decimal_not_nan]. Qed.

(** An integer is read as the number nearest to it. *)
Lemma num_of_decimal_integer n : (0 ≤ n)%Z → num_of_decimal false n 0 = num_of_Z n.
Proof.
  intros Hn. unfold num_of_decimal, num_of_Z.
  destruct n as [|m|m]; [done| |lia]. simpl. by rewrite Pos.mul_1_r.
Qed.

Lemma read_sign_digit c s : is_digit c = true → read_sign (c :: s) = (false, c :: s).
Proof.
  unfold is_digit, read_sign. intros Hc.
  destruct (c =? 45)%N eqn:E1; [revert Hc E1; units_lia|].
  destruct (c =? 43)%N eqn:E2; [revert Hc E2; units_lia|done].
Qed.

Lemma read_sign_text negative c s :
  is_digit c = true →
  read_sign (sign_text negative ++ c :: s) = (negative, c :: s).
Proof. destruct negative; [done|apply read_sign_digit]. Qed.

Lemma starts_with_Infinity_digit c s :
  is_digit c = true → starts_with (str_lit "Infinity") (c :: s) = false.
Proof.
  intros Hc. cbn -[N.eqb]. apply andb_false_iff; left.
  revert Hc. unfold is_digit. units_lia.
Qed.

(** The literal of a text that starts with digits: a sign, [a], a point
    and [b], all of [a] and [b] digits, followed by nothing that could
    continue the literal. *)
Lemma read_literal_fixed negative a b :
  all_digits a → all_digits b → a ≠ [] →
  read_literal (sign_text negative ++ a ++ str_lit "." ++ b)
  = Some (LitDecimal negative (digits_value (a ++ b)) (- Z.of_nat (length b))).
Proof.
  intros Ha Hb Hne. destruct a as [|c a]; [done|].
  pose proof (Forall_inv Ha) as Hc. unfold read_literal.
  rewrite <-app_comm_cons, read_sign_text, starts_with_Infinity_digit by done.
  rewrite (app_comm_cons a), span_digits_app by (done || by intros ? [= <-]).
  unfold read_fraction. simpl. rewrite span_digits_all by done. simpl.
  by rewrite Z.sub_0_l.
Qed.

Lemma read_literal_digits ds :
  all_digits ds → ds ≠ [] →
  read_literal ds = Some (LitDecimal false (digits_value ds) 0).
Proof.
  intros Hds Hne. destruct ds as [|c ds]; [done|].
  pose proof (Forall_inv Hds) as Hc. unfold read_literal.
  rewrite read_sign_digit, starts_with_Infinity_digit, span_digits_all by done.
  simpl. by rewrite app_nil_r.
Qed.

Lemma trim_start_digit c s : is_digit c = true → trim_start (c :: s) = c :: s.
Proof. intros Hc. simpl. by rewrite is_digit_not_space. Qed.

End reading.

(** ** Writing: lemmas *)

Section writing.
Implicit Types (c : code_unit) (s r ds a b : jsstring) (n : Z) (f : nat).

Lemma digits_of_digits n : all_digits (digits_of n).
Proof. apply uint_units_digits. Qed.

(** The text [fixed_text] writes: digits, and with [f] positive a point
    and [f] more digits; read as one run of digits it is [n]. *)
Lemma fixed_text_split f n :
  (0 ≤ n)%Z →
  ∃ a b, fixed_text (S f) n = a ++ str_lit "." ++ b ∧ a ≠ [] ∧
         all_digits a ∧ all_digits b ∧ length b = S f ∧
         digits_value (a ++ b) = n.
Proof.
  intros Hn. unfold fixed_text.
  set (ds := replicate _ _ ++ digits_of n).
  assert (all_digits ds) as Hds.
  { apply Forall_app; split; [by apply Forall_replicate|apply digits_of_digits]. }
  assert (S f < length ds) as Hlen.
  { subst ds. rewrite length_app, length_replicate. lia. }
  exists (take (length ds - S f) ds), (drop (length ds - S f) ds).
  split_and!; [done| |by apply Forall_take|by apply Forall_drop|len|].
  - intros Ha%(f_equal length). rewrite length_take in Ha. simpl in Ha. lia.
  - rewrite take_drop. subst ds. by rewrite digits_value_zeros, digits_value_digits_of.
Qed.

Lemma fixed_text_0 n : fixed_text 0 n = digits_of n.
Proof.
  unfold fixed_text. pose proof (digits_of_nonempty n).
  destruct (digits_of n); [done|]. by simpl.
Qed.

Lemma read_literal_signed negative ds :
  all_digits ds → ds ≠ [] →
  read_literal (sign_text negative ++ ds)
  = Some (LitDecimal negative (digits_value ds) 0).
Proof.
  intros Hds Hne. destruct ds as [|c ds]; [done|].
  pose proof (Forall_inv Hds) as Hc. unfold read_literal.
  rewrite read_sign_text, starts_with_Infinity_digit, span_digits_all by done.
  simpl. by rewrite app_nil_r.
Qed.

(** Reading what [fixed_text] wrote gives [n] with the point [f] places
    from the right. *)
Lemma read_literal_fixed_text negative f n :
  (0 ≤ n)%Z →
  read_literal (sign_text negative ++ fixed_text f n)
  = Some (LitDecimal negative n (- Z.of_nat f)).
Proof.
  intros Hn. destruct f as [|f].
  - rewrite fixed_text_0, read_literal_signed, digits_value_digits_of;
      auto using digits_of_digits, digits_of_nonempty.
  - destruct (fixed_text_split f n Hn) as (a & b & -> & ? & ? & ? & <- & <-).
    by rewrite read_literal_fixed.
Qed.

Lemma trim_start_signed negative c s :
  is_digit c = true →
  trim_start (sign_text negative ++ c :: s) = sign_text negative ++ c :: s.
Proof. destruct negative; [done|apply trim_start_digit]. Qed.

Lemma fixed_text_head f n :
  (0 ≤ n)%Z → ∃ c s, fixed_text f n = c :: s ∧ is_digit c = true.
Proof.
  intros Hn. destruct f as [|f].
  - rewrite fixed_text_0. pose proof (digits_of_digits n) as Hd.
    pose proof (digits_of_nonempty n).
    destruct (digits_of n) as [|c s]; [done|]. exists c, s. by inversion Hd.
  - destruct (fixed_text_split f n Hn) as ([|c a] & b & -> & ? & Ha & _); [done|].
    exists c, (a ++ str_lit "." ++ b). by inversion Ha.
Qed.

Lemma scaled_nonneg f m e : (0 ≤ scaled f m e)%Z.
Proof.
  unfold scaled. destruct e as [|k|k]; [lia|lia|].
  apply Z.div_pos; [|lia]. pose proof (Z.pow_nonneg 2 (Zpos k - 1)). lia.
Qed.

End writing.

(** ** The conversions: theorems *)

Section number_text.
Implicit Types (c : code_unit) (s r ds : jsstring) (n : Z) (f : nat).

Lemma span_digits_nil s :
  (span_digits s).1 = [] ↔ match s with c :: _ => is_digit c = false | [] => True end.
Proof.
  destruct s as [|c s]; simpl; [done|].
  destruct (is_digit c); [|done]. by destruct (span_digits s).
Qed.

(** A text starts with a literal exactly when [starts_number] says so. *)
Lemma read_literal_None s : read_literal s = None ↔ starts_number s = false.
Proof.
  unfold read_literal, starts_number. destruct (read_sign s) as [negative r].
  destruct (starts_with _ r); [done|]. simpl.
  destruct r as [|c r]; [done|].
  pose proof (span_digits_nil (c :: r)) as Hint.
  destruct (span_digits (c :: r)) as [int_part r1] eqn:Hspan. simpl in Hint.
  destruct (is_digit c) eqn:Hc.
  { destruct int_part; [discriminate (proj1 Hint eq_refl)|]. by destruct (read_fraction r1). }
  simpl in Hspan. rewrite Hc in Hspan. injection Hspan as <- <-.
  unfold read_fraction. destruct (c =? 46)%N; [|done]. simpl.
  pose proof (span_digits_nil r) as Hfr.
  destruct (span_digits r) as [fraction r2]. simpl in Hfr.
  destruct r as [|d r]; [by rewrite (proj2 Hfr)|].
  destruct fraction; [by rewrite (proj1 Hfr)|].
  split; [done|]. intros Hd. by apply Hfr in Hd.
Qed.

(** A text that starts with no literal reads as NaN. *)
Lemma parseFloat_nan_text s :
  starts_number (trim_start s) = false → sf_nan (parseFloat s) = true.
Proof.
  intros Hs. unfold parseFloat. by rewrite (proj2 (read_literal_None _) Hs).
Qed.

(** C19 (texts that are no number).  [parseFloat] gives NaN exactly for
    the texts that, after leading white space and an optional sign, start
    neither with [Infinity], nor with a digit, nor with a point and a
    digit; whatever the digits and the exponent of a literal, its value is
    a number. *)
Theorem parseFloat_nan s :
  sf_nan (parseFloat s) = negb (starts_number (trim_start s)).
Proof.
  unfold parseFloat. pose proof (read_literal_None (trim_start s)) as H.
  destruct (read_literal (trim_start s)) as [l|].
  - rewrite literal_value_not_nan. destruct (starts_number _); [done|].
    discriminate (proj2 H eq_refl).
  - by rewrite (proj1 H).
Qed.

Lemma str_of_nat_digits k : all_digits (str_of_nat k) ∧ str_of_nat k ≠ [].
Proof.
  split; [apply uint_units_digits|]. intros Hk.
  assert (Nat.to_uint k = Decimal.Nil) as Hnil by by apply uint_units_inj.
  pose proof (DecimalNat.Unsigned.of_to k) as Hof. rewrite Hnil in Hof.
  by subst k.
Qed.

(** Reading a count.  The text [String] writes for a count reads
    back as the number nearest to the count, which is the count itself up
    to 2^53. *)
Theorem parseFloat_str_of_nat (k : nat) :
  parseFloat (str_of_nat k) = num_of_Z (Z.of_nat k).
Proof.
  destruct (str_of_nat_digits k) as [Hds Hne]. unfold parseFloat.
  destruct (str_of_nat k) as [|c s] eqn:Hk; [done|].
  rewrite trim_start_digit, read_literal_digits by (done || by inversion Hds).
  rewrite <-Hk, digits_value_str_of_nat. simpl. apply num_of_decimal_integer. lia.
Qed.

(** C26 (the digits shown are the nearest).  Of all integers [n'], the
    one [toFixed] writes is that for which [n' / 10^f] is nearest to the
    number [m * 2^e], and the larger one when two are as near. *)
Theorem scaled_nearest f m e n' :
  let d := (2 ^ Z.max 0 (- e))%Z in
  let v := (Zpos m * 10 ^ Z.of_nat f * 2 ^ Z.max 0 e)%Z in
  (Z.abs (scaled f m e * d - v) ≤ Z.abs (n' * d - v))%Z ∧
  (Z.abs (n' * d - v) = Z.abs (scaled f m e * d - v) → (n' ≤ scaled f m e)%Z).
Proof.
  intros d v. subst d v. unfold scaled. destruct e as [|k|k].
  - rewrite Z.max_l, Z.max_r, Z.pow_0_r by lia. split; lia.
  - rewrite Z.max_l, Z.max_r, Z.pow_0_r by lia. split; lia.
  - rewrite Z.max_r, Z.max_l, Z.pow_0_r, Z.mul_1_r by lia.
    change (- Zneg k)%Z with (Zpos k).
    set (v := (Zpos m * 10 ^ Z.of_nat f)%Z).
    assert (2 ^ Zpos k = 2 * 2 ^ (Zpos k - 1))%Z as Hd
      by (rewrite <-Z.pow_succ_r by lia; f_equal; lia).
    set (h := (2 ^ (Zpos k - 1))%Z) in *. rewrite Hd.
    assert (0 < h)%Z by (apply Z.pow_pos_nonneg; lia).
    pose proof (Z.div_mod (v + h) (2 * h)) as Hdiv.
    pose proof (Z.mod_pos_bound (v + h) (2 * h)) as Hmod.
    set (n := ((v + h) / (2 * h))%Z) in *.
    destruct (Z.lt_trichotomy n' n) as [Hlt|[->|Hgt]]; [|split; lia|].
    + assert (n' * (2 * h) ≤ (n - 1) * (2 * h))%Z by (apply Z.mul_le_mono_nonneg_r; lia).
      split; lia.
    + assert ((n + 1) * (2 * h) ≤ n' * (2 * h))%Z by (apply Z.mul_le_mono_nonneg_r; lia).
      split; lia.
Qed.

(** C25 (reading what is shown).  For a finite number below 10^21,
    [parseFloat] reads the text [toFixed] wrote as the number nearest to
    its digits: the sign is kept and the value is that of the nearest
    multiple of [10^-f]. *)
Theorem toFixed_parseFloat number_to_string f negative m e :
  at_least_1e21 m e = false →
  parseFloat (toFixed number_to_string f (S754_finite negative m e))
  = num_of_decimal negative (scaled f m e) (- Z.of_nat f).
Proof.
  intros Hsmall. unfold toFixed, parseFloat. rewrite Hsmall.
  pose proof (scaled_nonneg f m e) as Hn.
  destruct (fixed_text_head f _ Hn) as (c & s & Htext & Hc).
  rewrite Htext, trim_start_signed, <-Htext by done.
  by rewrite read_literal_fixed_text.
Qed.

Lemma toFixed_parseFloat_witness :
  at_least_1e21 5296732836166360 (-51) = false ∧
  parseFloat (toFixed (λ _, []) 4 (S754_finite false 5296732836166360 (-51)))
  = num_of_decimal false (scaled 4 5296732836166360 (-51)) (-4).
Proof.
  split; [by vm_compute|]. apply toFixed_parseFloat. by vm_compute.
Defined.

End number_text.
