(* ===== verification/Markup.v ===== *)
(** * Markup: what a component renders

    A React component returns a tree of elements.  This file holds such
    trees as the page builds them (src/unnamed/part_000, lines 339-397):
    an element has a tag, properties and children; a property is a style,
    an attribute, a key, a reference, the [disabled] flag or a handler; a
    child is an element or a text.  A handler is the event it raises when
    the user clicks, or the event it raises for the text the user typed.
    [controls] lists what the user can act on, in document order, and
    [offered] says which events the tree can raise; [by_class], [text_of],
    [refs] and [well_keyed] are what the browser and React read off a
    tree: the elements of a class, their text, the references attached and
    whether siblings have keys of their own. *)

From S2P Require Import Prelude JsString.

Section markup.
Context {E : Type}.

Inductive prop : Type :=
| Style (declarations : list (jsstring * jsstring))
| Attr (name value : jsstring)
| Key (index : nat)
| Ref (name : jsstring)
| Disabled (disabled : bool)
| OnClick (event : E)
| OnChange (event : jsstring → E).

Local Unset Elimination Schemes.

Inductive node : Type :=
| Text (text : jsstring)
| Element (tag : jsstring) (props : list prop) (children : list node).

Local Set Elimination Schemes.

(** A control: a button with its event and whether it is disabled, or a
    text input with the event of each text. *)
Inductive control : Type :=
| Button (event : E) (disabled : bool)
| Input (event : jsstring → E).

(** Whether the properties disable the element. *)
Definition is_disabled (props : list prop) : bool :=
  existsb (λ p, match p with Disabled true => true | _ => false end) props.

(** The controls an element's own properties make. *)
Definition controls_of (props : list prop) : list control :=
  omap (λ p, match p with
             | OnClick e => Some (Button e (is_disabled props))
             | OnChange f => Some (Input f)
             | _ => None
             end) props.

(** Whether no element of a tree carries a handler. *)
Fixpoint static (n : node) : bool :=
  match n with
  | Text _ => true
  | Element _ props children =>
      match controls_of props with [] => forallb static children | _ => false end
  end.

(** The controls of a tree, in document order. *)
Fixpoint controls (n : node) : list control :=
  match n with
  | Text _ => []
  | Element _ props children => controls_of props ++ mjoin (controls <$> children)
  end.

(** The text of a tree: its texts, in document order. *)
Fixpoint text_of (n : node) : jsstring :=
  match n with
  | Text s => s
  | Element _ _ children => mjoin (text_of <$> children)
  end.

(** Whether an element is of a class: its [className] is the class. *)
Definition has_class (cls : jsstring) (props : list prop) : bool :=
  existsb (λ p, match p with
                | Attr name value =>
                    bool_decide (name = str_lit "className" ∧ value = cls)
                | _ => false
                end) props.

(** The elements of a class, in document order. *)
Fixpoint by_class (cls : jsstring) (n : node) : list node :=
  match n with
  | Text _ => []
  | Element _ props children =>
      (if has_class cls props then [n] else []) ++ mjoin (by_class cls <$> children)
  end.

(** The key of a child, when it has one. *)
Definition key_of (n : node) : option nat :=
  match n with
  | Text _ => None
  | Element _ props _ =>
      head (omap (λ p, match p with Key index => Some index | _ => None end) props)
  end.

(** Whether no two children of an element have the same key, anywhere in
    the tree. *)
Fixpoint well_keyed (n : node) : bool :=
  match n with
  | Text _ => true
  | Element _ _ children =>
      bool_decide (NoDup (omap key_of children)) && forallb well_keyed children
  end.

(** The references a tree attaches, in document order. *)
Fixpoint refs (n : node) : list jsstring :=
  match n with
  | Text _ => []
  | Element _ props children =>
      omap (λ p, match p with Ref name => Some name | _ => None end) props
      ++ mjoin (refs <$> children)
  end.

(** The event a control raises: a button that is not disabled raises its
    event, an input raises the event of any text. *)
Definition raises (c : control) (e : E) : Prop :=
  match c with
  | Button e' disabled => disabled = false ∧ e' = e
  | Input f => ∃ text, f text = e
  end.

(** The events a tree offers to the user. *)
Definition offered (n : node) (e : E) : Prop :=
  ∃ c, c ∈ controls n ∧ raises c e.

(** ** Induction on trees *)

Section node_ind.
Context (P : node → Prop).
Context (case_Text : ∀ s, P (Text s)).
Context (case_Element : ∀ tag props children,
  Forall P children → P (Element tag props children)).

Fixpoint node_ind (n : node) : P n :=
  match n with
  | Text s => case_Text s
  | Element tag props children =>
      case_Element tag props children
        ((fix all (ns : list node) : Forall P ns :=
            match ns with
            | [] => Forall_nil _
            | n :: ns => Forall_cons _ n ns (node_ind n) (all ns)
            end) children)
  end.

End node_ind.

(** ** Lemmas *)

Implicit Types (n : node) (c : control) (e : E) (props : list prop).

Lemma controls_static n : static n = true → controls n = [].
Proof.
  induction n as [s|tag props children IH] using node_ind; [done|].
  simpl. destruct (controls_of props); [|done]. intros Hch.
  induction IH as [|n ns Hn _ IHns]; [done|].
  apply andb_prop in Hch as [H1 H2].
  cbn [fmap list_fmap mjoin list_join]. rewrite Hn by done. by apply IHns.
Qed.

Lemma Forall_controls_static (ns : list node) :
  forallb static ns = true → Forall (λ n, controls n = []) ns.
Proof.
  rewrite forallb_forall, list.Forall_forall. intros H n Hn.
  apply controls_static, H. by apply list_elem_of_In.
Qed.

Lemma controls_element tag props children :
  controls (Element tag props children)
  = controls_of props ++ mjoin (controls <$> children).
Proof. done. Qed.

Lemma elem_of_controls_children c tag props children :
  c ∈ controls (Element tag props children) ↔
  c ∈ controls_of props ∨ ∃ n, n ∈ children ∧ c ∈ controls n.
Proof.
  rewrite controls_element, elem_of_app, list_elem_of_join.
  apply or_iff_compat_l. split.
  - intros (cs & Hc & (n & -> & Hn)%list_elem_of_fmap). eauto.
  - intros (n & Hn & Hc). exists (controls n). split; [done|].
    by apply list_elem_of_fmap_2.
Qed.

(** An event is offered by an element when one of its own handlers or
    one of its children offers it. *)
Lemma offered_element tag props children e :
  offered (Element tag props children) e ↔
  (∃ c, c ∈ controls_of props ∧ raises c e) ∨
  (∃ n, n ∈ children ∧ offered n e).
Proof.
  unfold offered. split.
  - intros (c & [Hc|(n & Hn & Hc)]%elem_of_controls_children & Hr);
      [left|right]; eauto.
  - intros [(c & Hc & Hr)|(n & Hn & c & Hc & Hr)]; exists c;
      (split; [apply elem_of_controls_children|done]); eauto.
Qed.

Lemma offered_text s e : ¬ offered (Text s) e.
Proof. intros (c & Hc & _). by apply elem_of_nil in Hc. Qed.

Lemma offered_static n e : static n = true → ¬ offered n e.
Proof.
  intros Hn (c & Hc & _). rewrite controls_static in Hc by done.
  by apply elem_of_nil in Hc.
Qed.

(** The events offered are those the controls raise. *)
Lemma offered_controls n e : offered n e ↔ Exists (λ c, raises c e) (controls n).
Proof. unfold offered. by rewrite list.Exists_exists. Qed.

(** The controls of a list of trees built from a list of items. *)
Lemma controls_fmap {A} (f : A → node) (l : list A) :
  mjoin (controls <$> (f <$> l)) = l ≫= (λ x, controls (f x)).
Proof.
  induction l as [|x l IH]; [done|].
  cbn [fmap list_fmap mjoin list_join mbind list_bind]. by f_equal.
Qed.

Lemma by_class_element cls tag props children :
  has_class cls props = false →
  by_class cls (Element tag props children) = mjoin (by_class cls <$> children).
Proof. intros Hcls. cbn [by_class]. by rewrite Hcls. Qed.

(** Items that are each the one element of the class in themselves. *)
Lemma by_class_fmap {A} cls (f : A → node) (l : list A) :
  (∀ x, by_class cls (f x) = [f x]) →
  mjoin (by_class cls <$> (f <$> l)) = f <$> l.
Proof.
  intros Hf. induction l as [|x l IH]; [done|].
  change (by_class cls (f x) ++ mjoin (by_class cls <$> (f <$> l))
          = f x :: (f <$> l)).
  by rewrite Hf, IH.
Qed.

Lemma refs_element tag props children :
  refs (Element tag props children)
  = omap (λ p, match p with Ref name => Some name | _ => None end) props
    ++ mjoin (refs <$> children).
Proof. done. Qed.

(** Items that attach no reference. *)
Lemma refs_fmap {A} (f : A → node) (l : list A) :
  (∀ x, refs (f x) = []) → mjoin (refs <$> (f <$> l)) = [].
Proof.
  intros Hf. induction l as [|x l IH]; [done|].
  change (refs (f x) ++ mjoin (refs <$> (f <$> l)) = []). by rewrite Hf, IH.
Qed.

(** Children that are the items of a list, each with a key of its own and
    well keyed itself. *)
Lemma well_keyed_fmap {A} tag props (f : A → node) (key : A → nat) (l : list A) :
  (∀ x, key_of (f x) = Some (key x)) → (∀ x, well_keyed (f x) = true) →
  NoDup (key <$> l) →
  well_keyed (Element tag props (f <$> l)) = true.
Proof.
  intros Hkey Hwk Hl. cbn [well_keyed]. apply andb_true_intro. split.
  - apply bool_decide_eq_true.
    replace (omap key_of (f <$> l)) with (key <$> l); [done|]. clear Hl.
    induction l as [|x l IH]; [done|].
    cbn [fmap list_fmap omap list_omap]. rewrite Hkey. by f_equal.
  - apply forallb_forall. intros n (x & -> & _)%list_elem_of_In%list_elem_of_fmap.
    apply Hwk.
Qed.

End markup.

Arguments prop : clear implicits.
Arguments node : clear implicits.
Arguments control : clear implicits.
