(* ===== verification/JsArray.v ===== *)
(** * JsArray: JavaScript arrays and state updates

    The [waypoints] state of the page is a JavaScript array.  The handlers
    read it at computed indices, copy it with the spread syntax and write
    elements of the copy.  None of these checks bounds: a read outside the
    array yields [undefined], a write beyond the end extends the array with
    holes, and spreading turns holes into [undefined].  This file writes that
    behaviour out on lists of [slot]s, together with the [update] a React
    state setter is given. *)

From Stdlib Require Import ZArith Lia.
From S2P Require Import Prelude.

(** ** Slots and values *)

(** One position of an array: absent (a hole), the value [undefined], or an
    element. *)
Inductive slot (A : Type) : Type :=
| Hole
| Undef
| Val (a : A).
Arguments Hole {A}.
Arguments Undef {A}.
Arguments Val {A} a.

(** What a read yields: [None] is [undefined]. *)
Definition slot_val {A} (s : slot A) : option A :=
  match s with Val a => Some a | _ => None end.

(** What a write stores. *)
Definition slot_of {A} (v : option A) : slot A :=
  match v with Some a => Val a | None => Undef end.

Definition is_val {A} (s : slot A) : bool :=
  match s with Val _ => true | _ => false end.

Definition is_hole {A} (s : slot A) : bool :=
  match s with Hole => true | _ => false end.

#[export] Instance slot_eq_dec `{EqDecision A} : EqDecision (slot A).
Proof. solve_decision. Defined.

#[export] Instance Val_inj {A} : Inj (=) (=) (@Val A).
Proof. by intros ?? [= ->]. Qed.

Abbreviation jsarray A := (list (slot A)).

(** The largest array index plus one: an integer key at or above it names
    an ordinary property, not an element. *)
Definition max_array_length : Z := 4294967295.

Section arrays.
Context {A : Type}.
Implicit Types (a : jsarray A) (l : list A) (v : option A) (i : Z) (n : nat).

(** [a[i]] for an integer [i].  A negative key is an ordinary property,
    which a fresh array does not have. *)
Definition arr_get (a : jsarray A) (i : Z) : option A :=
  if (i <? 0)%Z then None else a !! Z.to_nat i ≫= slot_val.

(** [a[i] = v] for an integer [i]: inside the array it replaces the slot, at
    or beyond the end it extends the array with holes up to [i], and a key
    that is not an array index leaves the elements as they are. *)
Definition arr_set (a : jsarray A) (i : Z) (v : option A) : jsarray A :=
  if (i <? 0)%Z then a
  else
    let n := Z.to_nat i in
    if decide (n < length a) then <[n := slot_of v]> a
    else if (max_array_length <=? i)%Z then a
    else a ++ replicate (n - length a) Hole ++ [slot_of v].

(** [[...a]]: the iterator visits every index below the length and yields
    [undefined] at a hole. *)
Definition arr_spread (a : jsarray A) : jsarray A :=
  (λ s, slot_of (slot_val s)) <$> a.

(** The array literal [[x1, ..., xn]] of values. *)
Definition arr_of_list (l : list A) : jsarray A := Val <$> l.

(** The index and value of each slot [forEach] and [map] visit: holes are
    skipped, [undefined] is visited. *)
Fixpoint arr_visited_from (k : nat) (a : jsarray A) : list (nat * option A) :=
  match a with
  | [] => []
  | Hole :: a => arr_visited_from (S k) a
  | s :: a => (k, slot_val s) :: arr_visited_from (S k) a
  end.

Definition arr_visited (a : jsarray A) : list (nat * option A) :=
  arr_visited_from 0 a.

(** [a.map(f)] for a callback that reads a property of its argument: holes
    stay holes, and [undefined] makes the callback throw ([None]). *)
Definition arr_map_read {B} (f : A → B) (a : jsarray A) : option (jsarray B) :=
  mapM (λ s, match s with
             | Hole => Some Hole
             | Undef => None
             | Val x => Some (Val (f x))
             end) a.

(** Every slot holds an element. *)
Definition dense (a : jsarray A) : Prop := Forall (λ s, is_val s = true) a.

Definition denseb (a : jsarray A) : bool := forallb is_val a.

(** The elements of a dense array; [None] when a slot is a hole or
    [undefined]. *)
Definition arr_to_list (a : jsarray A) : option (list A) := mapM slot_val a.

(** *** Dense arrays *)

Lemma denseb_spec a : denseb a = true ↔ dense a.
Proof. unfold denseb, dense. by rewrite forallb_forall, Forall_forall. Qed.

#[export] Instance dense_dec a : Decision (dense a).
Proof.
  refine (cast_if (decide (denseb a = true))); by rewrite <-denseb_spec.
Defined.

Lemma dense_of_list l : dense (arr_of_list l).
Proof. unfold dense, arr_of_list. by apply Forall_fmap, Forall_true. Qed.

Lemma dense_inv a : dense a → ∃ l, a = arr_of_list l.
Proof.
  induction 1 as [|s a Hs _ [l ->]]; [by exists []|].
  destruct s as [| |x]; try done. by exists (x :: l).
Qed.

Lemma dense_iff a : dense a ↔ ∃ l, a = arr_of_list l.
Proof. split; [apply dense_inv|intros [l ->]; apply dense_of_list]. Qed.

Lemma dense_nil : dense [].
Proof. constructor. Qed.

Lemma dense_app a1 a2 : dense (a1 ++ a2) ↔ dense a1 ∧ dense a2.
Proof. apply Forall_app. Qed.

Lemma dense_lookup a n s : dense a → a !! n = Some s → is_val s = true.
Proof. unfold dense. rewrite Forall_lookup. intros Ha Hn. by eapply Ha. Qed.

Lemma arr_to_list_of_list l : arr_to_list (arr_of_list l) = Some l.
Proof. unfold arr_to_list, arr_of_list. by apply mapM_fmap_Some. Qed.

Lemma arr_to_list_Some a l : arr_to_list a = Some l ↔ a = arr_of_list l.
Proof.
  split; [|intros ->; apply arr_to_list_of_list].
  unfold arr_to_list, arr_of_list. revert l.
  induction a as [|s a IH]; intros l Hl; simplify_option_eq; [done|].
  destruct s; simplify_eq/=. f_equal. by apply IH.
Qed.

Lemma arr_of_list_inj l1 l2 : arr_of_list l1 = arr_of_list l2 → l1 = l2.
Proof. apply (inj (fmap Val)). Qed.

Lemma length_arr_of_list l : length (arr_of_list l) = length l.
Proof. apply length_fmap. Qed.

Lemma arr_of_list_app l1 l2 :
  arr_of_list (l1 ++ l2) = arr_of_list l1 ++ arr_of_list l2.
Proof. apply fmap_app. Qed.

Lemma arr_of_list_lookup l n : arr_of_list l !! n = Val <$> l !! n.
Proof. apply list_lookup_fmap. Qed.

(** *** Spreading *)

Lemma length_arr_spread a : length (arr_spread a) = length a.
Proof. apply length_fmap. Qed.

Lemma arr_spread_lookup a n :
  arr_spread a !! n = (λ s, slot_of (slot_val s)) <$> a !! n.
Proof. apply list_lookup_fmap. Qed.

Lemma arr_spread_dense a : dense a → arr_spread a = a.
Proof.
  unfold arr_spread.
  induction 1 as [|[| |x] a Hs _ IH]; simplify_eq/=; by f_equal.
Qed.

Lemma arr_spread_of_list l : arr_spread (arr_of_list l) = arr_of_list l.
Proof. apply arr_spread_dense, dense_of_list. Qed.

Lemma arr_spread_no_hole a : Forall (λ s, is_hole s = false) (arr_spread a).
Proof. apply Forall_fmap, Forall_true. by intros [| |x]. Qed.

Lemma arr_spread_idemp a : arr_spread (arr_spread a) = arr_spread a.
Proof.
  unfold arr_spread. induction a as [|[| |x] a IH]; simpl; by f_equal.
Qed.

(** *** Reading *)

Lemma arr_get_neg a i : (i < 0)%Z → arr_get a i = None.
Proof. intros. unfold arr_get. by rewrite (proj2 (Z.ltb_lt _ _)). Qed.

Lemma arr_get_nat a n : arr_get a (Z.of_nat n) = a !! n ≫= slot_val.
Proof.
  unfold arr_get. rewrite (proj2 (Z.ltb_ge _ _)) by lia. by rewrite Nat2Z.id.
Qed.

Lemma arr_get_ge a i : (Z.of_nat (length a) ≤ i)%Z → arr_get a i = None.
Proof.
  intros. unfold arr_get. split_if; [done|].
  rewrite lookup_ge_None_2; [done|lia].
Qed.

Lemma arr_get_of_list l n : arr_get (arr_of_list l) (Z.of_nat n) = l !! n.
Proof. rewrite arr_get_nat, arr_of_list_lookup. by destruct (l !! n). Qed.

Lemma arr_get_spread a i : arr_get (arr_spread a) i = arr_get a i.
Proof.
  unfold arr_get. split_if; [done|].
  rewrite arr_spread_lookup. by destruct (a !! Z.to_nat i) as [[| |x]|].
Qed.

(** *** Writing *)

Lemma arr_set_neg a i v : (i < 0)%Z → arr_set a i v = a.
Proof. intros. unfold arr_set. by rewrite (proj2 (Z.ltb_lt _ _)). Qed.

Lemma arr_set_nat_lt a n v :
  n < length a → arr_set a (Z.of_nat n) v = <[n := slot_of v]> a.
Proof.
  intros Hn. unfold arr_set. rewrite (proj2 (Z.ltb_ge _ _)) by lia. simpl.
  rewrite Nat2Z.id. by rewrite decide_True.
Qed.

Lemma arr_set_nat_ge a n v :
  length a ≤ n → (Z.of_nat n < max_array_length)%Z →
  arr_set a (Z.of_nat n) v = a ++ replicate (n - length a) Hole ++ [slot_of v].
Proof.
  intros Hn Hmax. unfold arr_set.
  rewrite (proj2 (Z.ltb_ge _ _)), (proj2 (Z.leb_gt _ _)) by lia. simpl.
  rewrite Nat2Z.id. rewrite decide_False; [done|lia].
Qed.

Lemma arr_set_not_index a i v :
  (Z.of_nat (length a) ≤ i)%Z → (max_array_length ≤ i)%Z → arr_set a i v = a.
Proof.
  intros Hn Hmax. unfold arr_set. split_if; [done|].
  rewrite decide_False by lia. by rewrite (proj2 (Z.leb_le _ _)).
Qed.

Lemma length_arr_set_lt a i v :
  (i < Z.of_nat (length a))%Z → length (arr_set a i v) = length a.
Proof.
  intros Hi. unfold arr_set. split_if; [done|]. bool_to_prop.
  rewrite decide_True by lia. len.
Qed.

Lemma length_arr_set_ge a i v :
  (Z.of_nat (length a) ≤ i < max_array_length)%Z →
  length (arr_set a i v) = S (Z.to_nat i).
Proof.
  intros Hi. unfold arr_set.
  rewrite (proj2 (Z.ltb_ge _ _)), (proj2 (Z.leb_gt _ _)) by lia. simpl.
  rewrite decide_False by lia. len.
Qed.

Lemma length_arr_set_le a i v : length a ≤ length (arr_set a i v).
Proof.
  unfold arr_set. split_if; [done|]. case_decide; [len|]. split_if; len.
Qed.

Lemma arr_set_of_list l n x :
  n < length l →
  arr_set (arr_of_list l) (Z.of_nat n) (Some x) = arr_of_list (<[n := x]> l).
Proof.
  intros Hn. rewrite arr_set_nat_lt by (by rewrite ?length_arr_of_list).
  unfold arr_of_list. by rewrite list_fmap_insert.
Qed.

Lemma dense_arr_set a i x :
  dense a → (i < Z.of_nat (length a))%Z → dense (arr_set a i (Some x)).
Proof.
  intros Ha Hi. unfold arr_set. split_if; [done|].
  rewrite decide_True by (bool_to_prop; lia).
  by apply Forall_insert.
Qed.

Lemma arr_get_set_eq a i v :
  (0 ≤ i)%Z → (i < Z.of_nat (length a) ∨ i < max_array_length)%Z →
  arr_get (arr_set a i v) i = v.
Proof.
  intros Hi Hmax. unfold arr_get, arr_set.
  rewrite (proj2 (Z.ltb_ge _ _)) by lia. simpl. case_decide.
  - rewrite list_lookup_insert_eq by done. by destruct v.
  - rewrite (proj2 (Z.leb_gt _ _)) by lia.
    rewrite lookup_app_r by lia.
    rewrite lookup_app_r by len. len.
    replace (_ - _ - _) with 0 by lia. by destruct v.
Qed.

Lemma arr_set_lookup a i v :
  (0 ≤ i < Z.of_nat (length a))%Z →
  arr_set a i v !! Z.to_nat i = Some (slot_of v).
Proof.
  intros Hi. unfold arr_set. rewrite (proj2 (Z.ltb_ge _ _)) by lia. simpl.
  rewrite decide_True by lia. apply list_lookup_insert_eq. lia.
Qed.

Lemma not_dense_lookup a n s : a !! n = Some s → is_val s = false → ¬ dense a.
Proof. intros Hn Hs Ha. by rewrite (dense_lookup a n s) in Hs. Qed.

Lemma arr_get_set_ne a i j v :
  i ≠ j → arr_get (arr_set a i v) j = arr_get a j.
Proof.
  intros Hij. unfold arr_get, arr_set. destruct (j <? 0)%Z eqn:Hj; [done|].
  split_if; [done|]. bool_to_prop. case_decide.
  { rewrite list_lookup_insert_ne; [done|lia]. }
  split_if; [done|]. destruct (decide (Z.to_nat j < length a)).
  - by rewrite lookup_app_l.
  - rewrite (lookup_ge_None_2 a) by lia. rewrite lookup_app_r by lia.
    destruct (decide (Z.to_nat j - length a < Z.to_nat i - length a)).
    + rewrite lookup_app_l by len. by rewrite lookup_replicate_2.
    + rewrite lookup_ge_None_2; [done|]. len.
Qed.

(** *** Visiting *)

Lemma arr_visited_from_of_list k l :
  arr_visited_from k (arr_of_list l) = imap (λ n x, (k + n, Some x)) l.
Proof.
  revert k. induction l as [|x l IH]; intros k; simpl; [done|].
  rewrite IH, Nat.add_0_r. f_equal. apply imap_ext. intros; simpl.
  f_equal. lia.
Qed.

Lemma arr_visited_of_list l :
  arr_visited (arr_of_list l) = imap (λ n x, (n, Some x)) l.
Proof. apply arr_visited_from_of_list. Qed.

(** The visit of an array that starts with values. *)
Lemma arr_visited_from_app k l a :
  arr_visited_from k (arr_of_list l ++ a)
  = imap (λ n x, (k + n, Some x)) l ++ arr_visited_from (k + length l) a.
Proof.
  revert k. induction l as [|x l IH]; intros k; simpl.
  { by rewrite Nat.add_0_r. }
  rewrite IH, Nat.add_0_r. f_equal. f_equal; [|f_equal; lia].
  apply imap_ext. intros; simpl. f_equal. lia.
Qed.

Lemma arr_map_read_of_list {B} (f : A → B) l :
  arr_map_read f (arr_of_list l) = Some (Val <$> (f <$> l)).
Proof.
  unfold arr_map_read, arr_of_list.
  induction l as [|x l IH]; [done|]. cbn. by rewrite IH.
Qed.

Lemma arr_map_read_None {B} (f : A → B) a :
  arr_map_read f a = None ↔ Undef ∈ a.
Proof.
  unfold arr_map_read. induction a as [|s a IH]; simpl.
  - split; [done|by intros ?%elem_of_nil].
  - rewrite elem_of_cons. destruct s as [| |x]; simpl.
    + destruct (mapM _ a); simpl in *; naive_solver.
    + naive_solver.
    + destruct (mapM _ a); simpl in *; naive_solver.
Qed.

Lemma arr_visited_from_length k a :
  length (arr_visited_from k a) ≤ length a.
Proof.
  revert k. induction a as [|[| |x] a IH]; intros k; simpl;
    try specialize (IH (S k)); lia.
Qed.

End arrays.

#[export] Hint Rewrite @length_arr_spread @length_arr_of_list : jp_len.
#[export] Hint Resolve dense_of_list dense_nil dense_arr_set : jp.

(** ** State updates

    A handler that calls a state setter with an updater function returns
    either the previous value itself (same reference: React skips the
    re-render and the effects that depend on the value) or a new value. *)

Inductive update (A : Type) : Type :=
| Same
| Fresh (a : A).
Arguments Same {A}.
Arguments Fresh {A} a.

(** The state after the setter ran. *)
Definition apply_update {A} (prev : A) (u : update A) : A :=
  match u with Same => prev | Fresh a => a end.

(** Whether effects that depend on the state run again. *)
Definition triggers {A} (u : update A) : bool :=
  match u with Same => false | Fresh _ => true end.
