(* ===== verification/Effect.v ===== *)
(** * Effect: handlers that mutate state and may throw

    The effects and event handlers of the page read and write mutable
    references and objects of the map widget, and some of their statements
    can throw.  A computation is a function from the state before to an
    [outcome] and the state after; a thrown exception keeps the mutations
    made before it, as in the language.  The monad operations use stdpp's
    [x ← c; k] notation.  Two computations are equivalent when they agree
    on every state ([≡]); the monad laws hold up to it. *)

From S2P Require Import Prelude JsString.

(** The exceptions the modelled code can raise. *)
Inductive js_error : Type :=
| TypeError                      (* a property read on [undefined] *)
| URIError                       (* [encodeURIComponent] on a lone surrogate *)
| Error (message : jsstring)     (* [throw new Error(message)] *)
| Rejected (message : jsstring). (* a promise the environment rejects *)

#[export] Instance js_error_eq_dec : EqDecision js_error.
Proof. solve_decision. Defined.

Inductive outcome (A : Type) : Type :=
| Ok (a : A)
| Throw (e : js_error).
Arguments Ok {A} a.
Arguments Throw {A} e.

Definition eff (S A : Type) : Type := S → outcome A * S.

Section eff.
Context {S : Type}.

#[export] Instance eff_ret : MRet (eff S) := λ A a s, (Ok a, s).

#[export] Instance eff_bind : MBind (eff S) := λ A B k c s,
  match c s with
  | (Ok a, s') => k a s'
  | (Throw e, s') => (Throw e, s')
  end.

#[export] Instance eff_fmap : FMap (eff S) := λ A B f c s,
  match c s with
  | (Ok a, s') => (Ok (f a), s')
  | (Throw e, s') => (Throw e, s')
  end.

(** [throw e]. *)
Definition throw {A} (e : js_error) : eff S A := λ s, (Throw e, s).

(** [try { c } catch (err) { h err }]. *)
Definition try_catch {A} (c : eff S A) (h : js_error → eff S A) : eff S A := λ s,
  match c s with
  | (Ok a, s') => (Ok a, s')
  | (Throw e, s') => h e s'
  end.

Definition get : eff S S := λ s, (Ok s, s).
Definition gets {A} (f : S → A) : eff S A := λ s, (Ok (f s), s).
Definition modify (f : S → S) : eff S unit := λ s, (Ok (), f s).

(** A loop over the elements of a list; it stops at the first exception. *)
Fixpoint for_each {A} (f : A → eff S unit) (l : list A) : eff S unit :=
  match l with
  | [] => mret ()
  | x :: l => f x ≫= λ _, for_each f l
  end.

(** The state a computation leaves and whether it completed. *)
Definition exec {A} (c : eff S A) (s : S) : S := (c s).2.
Definition completes {A} (c : eff S A) (s : S) : bool :=
  match (c s).1 with Ok _ => true | Throw _ => false end.

(** Agreement on every state. *)
#[export] Instance eff_equiv {A} : Equiv (eff S A) := λ c1 c2, ∀ s, c1 s = c2 s.

#[export] Instance eff_equivalence {A} : Equivalence (≡@{eff S A}).
Proof.
  split.
  - by intros c s.
  - by intros c1 c2 Hc s.
  - intros c1 c2 c3 H12 H23 s. by rewrite H12.
Qed.

#[export] Instance eff_bind_proper {A B} :
  Proper (pointwise_relation A (≡) ==> (≡) ==> (≡@{eff S B})) mbind.
Proof.
  intros k1 k2 Hk c1 c2 Hc s. unfold mbind, eff_bind. rewrite Hc.
  destruct (c2 s) as [[a|e] s']; [apply Hk|done].
Qed.

#[export] Instance try_catch_proper {A} :
  Proper ((≡) ==> pointwise_relation _ (≡) ==> (≡@{eff S A})) try_catch.
Proof.
  intros c1 c2 Hc h1 h2 Hh s. unfold try_catch. rewrite Hc.
  destruct (c2 s) as [[a|e] s']; [done|apply Hh].
Qed.

#[export] Instance exec_proper {A} : Proper ((≡@{eff S A}) ==> (=) ==> (=)) exec.
Proof. intros c1 c2 Hc s ? <-. unfold exec. by rewrite Hc. Qed.

Lemma eff_bind_ret_l {A B} (a : A) (k : A → eff S B) : mret a ≫= k ≡ k a.
Proof. by intros s. Qed.

Lemma eff_bind_ret_r {A} (c : eff S A) : c ≫= mret ≡ c.
Proof. intros s. unfold mbind, eff_bind. by destruct (c s) as [[a|e] s']. Qed.

Lemma eff_bind_assoc {A B C} (c : eff S A) (k : A → eff S B) (h : B → eff S C) :
  (c ≫= k) ≫= h ≡ c ≫= (λ a, k a ≫= h).
Proof. intros s. unfold mbind, eff_bind. by destruct (c s) as [[a|e] s']. Qed.

Lemma eff_bind_throw {A B} (e : js_error) (k : A → eff S B) : throw e ≫= k ≡ throw e.
Proof. by intros s. Qed.

Lemma try_catch_ret {A} (a : A) h : try_catch (mret a) h ≡ mret a.
Proof. by intros s. Qed.

Lemma try_catch_throw {A} (e : js_error) (h : js_error → eff S A) :
  try_catch (throw e) h ≡ h e.
Proof. by intros s. Qed.

Lemma for_each_app {A} (f : A → eff S unit) (l1 l2 : list A) :
  for_each f (l1 ++ l2) ≡ for_each f l1 ≫= λ _, for_each f l2.
Proof.
  induction l1 as [|x l1 IH]; simpl.
  - by rewrite eff_bind_ret_l.
  - rewrite eff_bind_assoc. by setoid_rewrite IH.
Qed.

(** A loop whose body never throws completes, and its final state is the
    fold of the body's state change. *)
Lemma for_each_modify {A} (g : A → S → S) (l : list A) (s : S) :
  for_each (λ x, modify (g x)) l s = (Ok (), foldl (λ s x, g x s) s l).
Proof.
  revert s. induction l as [|x l IH]; intros s; [done|].
  simpl. unfold mbind, eff_bind, modify at 1. by rewrite IH.
Qed.

(** ** Invariants

    [preserves P c]: from a state in [P], [c] ends in a state in [P],
    whether it returns or throws. *)
Definition preserves {A} (P : S → Prop) (c : eff S A) : Prop :=
  ∀ s, P s → P (exec c s).

Lemma exec_bind {A B} (c : eff S A) (k : A → eff S B) s :
  exec (c ≫= k) s
  = match c s with (Ok a, s') => exec (k a) s' | (Throw _, s') => s' end.
Proof. unfold exec, mbind, eff_bind. by destruct (c s) as [[a|e] s']. Qed.

Lemma completes_bind {A B} (c : eff S A) (k : A → eff S B) s :
  completes (c ≫= k) s
  = match c s with (Ok a, s') => completes (k a) s' | (Throw _, _) => false end.
Proof. unfold completes, mbind, eff_bind. by destruct (c s) as [[a|e] s']. Qed.

Section preserves.
Context (P : S → Prop).

Lemma preserves_ret {A} (a : A) : preserves P (mret a).
Proof. by intros s. Qed.

Lemma preserves_throw {A} e : preserves P (throw (A := A) e).
Proof. by intros s. Qed.

Lemma preserves_gets {A} (f : S → A) : preserves P (gets f).
Proof. by intros s. Qed.

Lemma preserves_modify (f : S → S) : (∀ s, P s → P (f s)) → preserves P (modify f).
Proof. intros Hf s. apply Hf. Qed.

Lemma preserves_bind {A B} (c : eff S A) (k : A → eff S B) :
  preserves P c → (∀ a, preserves P (k a)) → preserves P (c ≫= k).
Proof.
  intros Hc Hk s Hs. rewrite exec_bind. specialize (Hc s Hs). unfold exec in Hc.
  destruct (c s) as [[a|e] s']; [by apply Hk|done].
Qed.

(** The continuation of a read may use what was read. *)
Lemma preserves_get_bind {B} (k : S → eff S B) :
  (∀ s, P s → P (exec (k s) s)) → preserves P (get ≫= k).
Proof. intros Hk s Hs. rewrite exec_bind. by apply Hk. Qed.

Lemma preserves_gets_bind {A B} (f : S → A) (k : A → eff S B) :
  (∀ s, P s → P (exec (k (f s)) s)) → preserves P (gets f ≫= k).
Proof. intros Hk s Hs. rewrite exec_bind. by apply Hk. Qed.

Lemma preserves_for_each {A} (f : A → eff S unit) (l : list A) :
  (∀ x, x ∈ l → preserves P (f x)) → preserves P (for_each f l).
Proof.
  induction l as [|x l IH]; intros Hf; [apply preserves_ret|].
  apply preserves_bind; [apply Hf; left|].
  intros _. apply IH. intros y Hy. apply Hf. by right.
Qed.

End preserves.

End eff.

Arguments eff_equiv {S A} _ _ /.

#[export] Hint Resolve preserves_ret preserves_throw preserves_gets : jp.
