(* ===== verification/Waypoints.v ===== *)
(** * Waypoints: the waypoint store

    The [waypoints] state of [Home] (src/unnamed/part_000) and the handlers
    that change it.  Each handler is the updater function the code passes to
    [setWaypoints], as a function from the previous array to an [update].
    [StoreSpec] is the store of the specification on plain lists; the
    theorems relate the handlers to it on the calls the page can make and
    show what the handlers do on the calls it cannot. *)

From Stdlib Require Import ZArith Lia SpecFloat.
From S2P Require Import Prelude JsNum JsString JsArray.

(** ** Data *)

(** A coordinate, [[longitude, latitude]]. *)
Abbreviation lnglat := (jsnum * jsnum)%type.

(** [{ name, coord }]. *)
Record waypoint : Type := Waypoint {
  name : jsstring;
  coord : lnglat;
}.

#[export] Instance jsnum_eq_dec : EqDecision jsnum.
Proof. solve_decision. Defined.

#[export] Instance waypoint_eq_dec : EqDecision waypoint.
Proof. solve_decision. Defined.

(** ** The handlers *)

(** The name a click gives the waypoint it adds. *)
Definition click_name (n : nat) : jsstring :=
  str_lit "Waypoint " ++ str_of_nat (n + 1).

(** The updater of the map's click handler. *)
Definition clickWaypoint (lng lat : jsnum) (prev : jsarray waypoint)
    : update (jsarray waypoint) :=
  let newName := click_name (length prev) in
  Fresh (arr_spread prev ++ [Val {| name := newName; coord := (lng, lat) |}]).

(** The updater of [moveWaypoint (index, direction)].  The only guard is on
    [newIndex]. *)
Definition moveWaypoint (index direction : Z) (prev : jsarray waypoint)
    : update (jsarray waypoint) :=
  let newIndex := (index + direction)%Z in
  if (newIndex <? 0)%Z || (newIndex >=? Z.of_nat (length prev))%Z then Same
  else
    let reordered := arr_spread prev in
    let rhs := (arr_get reordered newIndex, arr_get reordered index) in
    let reordered := arr_set reordered index rhs.1 in
    let reordered := arr_set reordered newIndex rhs.2 in
    Fresh reordered.

(** [clearRoute]: a new empty array, whatever the state was. *)
Definition clearRoute : update (jsarray waypoint) := Fresh [].

(** The wholesale replace at the end of [geocodeScenes], taken only when the
    batch produced a waypoint. *)
Definition replaceWaypoints (newWaypoints : jsarray waypoint)
    : option (update (jsarray waypoint)) :=
  if decide (0 < length newWaypoints) then Some (Fresh newWaypoints) else None.

(** ** The store of the specification *)

Module StoreSpec.

Definition store := list waypoint.

Inductive direction := Up | Down.

Definition dir_offset (d : direction) : Z :=
  match d with Up => (-1)%Z | Down => 1%Z end.

(** [append]: the new sequence and its length. *)
Definition append (nm : jsstring) (c : lnglat) (s : store) : store * nat :=
  let s' := s ++ [Waypoint nm c] in (s', length s').

Definition replaceAll (ws : store) (s : store) : store := ws.

(** The neighbour of [i] in direction [d], when there is one. *)
Definition neighbour (i : nat) (d : direction) (s : store) : option nat :=
  match d, i with
  | Up, 0 => None
  | Up, S j => Some j
  | Down, _ => if decide (S i < length s) then Some (S i) else None
  end.

(** [moveAt]: swap with the neighbour; do nothing when there is none. *)
Definition moveAt (i : nat) (d : direction) (s : store) : store :=
  match neighbour i d s with
  | Some j => list_swap i j s
  | None => s
  end.

Definition clear (s : store) : store := [].

End StoreSpec.

(** ** A user's actions on the store *)

(** What the page lets a user do to the store: click the map, press the up
    or down button of row [index], press "Clear Route". *)
Inductive store_event : Type :=
| EvClick (lng lat : jsnum)
| EvMove (index : nat) (d : StoreSpec.direction)
| EvClear.

(** The list shows a row for every index the array's [map] visits. *)
Definition row_exists (ws : jsarray waypoint) (index : nat) : bool :=
  match ws !! index with
  | Some Hole | None => false
  | Some _ => true
  end.

(** The up button of a row is disabled at [index === 0] and its down button
    at [index === waypoints.length - 1]. *)
Definition button_enabled (ws : jsarray waypoint) (index : nat)
    (d : StoreSpec.direction) : bool :=
  row_exists ws index &&
  match d with
  | StoreSpec.Up => negb (index =? 0)
  | StoreSpec.Down => negb (Z.of_nat index =? Z.of_nat (length ws) - 1)%Z
  end.

(** The action names a row of the list. *)
Definition event_row (ws : jsarray waypoint) (e : store_event) : bool :=
  match e with
  | EvMove index _ => row_exists ws index
  | _ => true
  end.

Definition store_enabled (ws : jsarray waypoint) (e : store_event) : bool :=
  match e with
  | EvMove index d => button_enabled ws index d
  | _ => true
  end.

Definition store_handler (e : store_event) (ws : jsarray waypoint)
    : update (jsarray waypoint) :=
  match e with
  | EvClick lng lat => clickWaypoint lng lat ws
  | EvMove index d => moveWaypoint (Z.of_nat index) (StoreSpec.dir_offset d) ws
  | EvClear => clearRoute
  end.

(** One action: the state after it. *)
Definition store_step (ws : jsarray waypoint) (e : store_event)
    : jsarray waypoint :=
  apply_update ws (store_handler e ws).

(** The states a user can reach from the empty store. *)
Inductive store_reachable : jsarray waypoint → Prop :=
| reach_init : store_reachable []
| reach_step ws e :
    store_reachable ws → store_enabled ws e = true →
    store_reachable (store_step ws e).

(** The effect of the specification's operation for the same action. *)
Definition spec_step (s : StoreSpec.store) (e : store_event) : StoreSpec.store :=
  match e with
  | EvClick lng lat => (StoreSpec.append (click_name (length s)) (lng, lat) s).1
  | EvMove index d => StoreSpec.moveAt index d s
  | EvClear => StoreSpec.clear s
  end.

(** The store of the specification under the same actions. *)
Inductive spec_reachable : StoreSpec.store → Prop :=
| spec_init : spec_reachable []
| spec_next s e : spec_reachable s → spec_reachable (spec_step s e).

(** A run of clicks. *)
Definition clicks (cs : list lnglat) (ws : jsarray waypoint) : jsarray waypoint :=
  foldl (λ ws c, store_step ws (EvClick c.1 c.2)) ws cs.

(** ** The handlers on the calls the page makes *)

Section handlers.
Implicit Types (s : list waypoint) (ws : jsarray waypoint) (i j : nat).

Lemma moveWaypoint_guard index direction ws :
  (index + direction < 0 ∨ Z.of_nat (length ws) ≤ index + direction)%Z →
  moveWaypoint index direction ws = Same.
Proof.
  intros Hout. unfold moveWaypoint.
  destruct (_ || _) eqn:Hg; [done|]. bool_to_prop. lia.
Qed.

Lemma moveWaypoint_in_range index direction ws :
  (0 ≤ index + direction < Z.of_nat (length ws))%Z →
  moveWaypoint index direction ws =
    Fresh (arr_set
      (arr_set (arr_spread ws) index (arr_get (arr_spread ws) (index + direction)))
      (index + direction) (arr_get (arr_spread ws) index)).
Proof.
  intros Hin. unfold moveWaypoint.
  destruct (_ || _) eqn:Hg; [|done]. bool_to_prop. destruct Hg; bool_to_prop; lia.
Qed.

Lemma moveWaypoint_swap s i j :
  i < length s → j < length s →
  moveWaypoint (Z.of_nat i) (Z.of_nat j - Z.of_nat i) (arr_of_list s)
  = Fresh (arr_of_list (list_swap i j s)).
Proof.
  intros Hi Hj. rewrite moveWaypoint_in_range by len.
  replace (Z.of_nat i + (Z.of_nat j - Z.of_nat i))%Z with (Z.of_nat j) by lia.
  rewrite arr_spread_of_list, !arr_get_of_list.
  destruct (lookup_lt_is_Some_2 s i Hi) as [x Hx].
  destruct (lookup_lt_is_Some_2 s j Hj) as [y Hy].
  rewrite Hx, Hy, !arr_set_of_list by len.
  unfold list_swap. by rewrite Hx, Hy.
Qed.

Lemma moveWaypoint_swap_Z s (index direction : Z) :
  (0 ≤ index < Z.of_nat (length s))%Z →
  (0 ≤ index + direction < Z.of_nat (length s))%Z →
  moveWaypoint index direction (arr_of_list s)
  = Fresh (arr_of_list (list_swap (Z.to_nat index) (Z.to_nat (index + direction)) s)).
Proof.
  intros Hi Hj.
  rewrite <-(moveWaypoint_swap s (Z.to_nat index) (Z.to_nat (index + direction))) by lia.
  f_equal; lia.
Qed.

Lemma neighbour_Some i d s j :
  i < length s → StoreSpec.neighbour i d s = Some j →
  j < length s ∧ (Z.of_nat j - Z.of_nat i)%Z = StoreSpec.dir_offset d.
Proof.
  unfold StoreSpec.neighbour. intros Hi Hn.
  destruct d, i; simplify_eq/=; try case_decide; simplify_eq/=; lia.
Qed.

Lemma neighbour_None i d s :
  i < length s → StoreSpec.neighbour i d s = None →
  (Z.of_nat i + StoreSpec.dir_offset d < 0
   ∨ Z.of_nat (length s) ≤ Z.of_nat i + StoreSpec.dir_offset d)%Z.
Proof.
  unfold StoreSpec.neighbour. intros Hi Hn.
  destruct d, i; simplify_eq/=; try case_decide; simplify_eq/=; lia.
Qed.

Lemma moveWaypoint_moveAt s i d :
  i < length s →
  apply_update (arr_of_list s)
    (moveWaypoint (Z.of_nat i) (StoreSpec.dir_offset d) (arr_of_list s))
  = arr_of_list (StoreSpec.moveAt i d s).
Proof.
  intros Hi. unfold StoreSpec.moveAt.
  destruct (StoreSpec.neighbour i d s) as [j|] eqn:Hn.
  - destruct (neighbour_Some _ _ _ _ Hi Hn) as [Hj <-].
    by rewrite moveWaypoint_swap.
  - rewrite moveWaypoint_guard; [done|]. len. by apply neighbour_None.
Qed.

Lemma clickWaypoint_of_list lng lat s :
  clickWaypoint lng lat (arr_of_list s)
  = Fresh (arr_of_list (s ++ [Waypoint (click_name (length s)) (lng, lat)])).
Proof.
  unfold clickWaypoint. by rewrite arr_spread_of_list, arr_of_list_app, length_arr_of_list.
Qed.

Lemma row_exists_of_list s i : row_exists (arr_of_list s) i = true ↔ i < length s.
Proof.
  unfold row_exists. rewrite arr_of_list_lookup.
  destruct (s !! i) eqn:Hi; simpl.
  - apply lookup_lt_Some in Hi. naive_solver.
  - apply lookup_ge_None in Hi. split; [done|lia].
Qed.

Lemma store_step_of_list s e :
  event_row (arr_of_list s) e = true →
  store_step (arr_of_list s) e = arr_of_list (spec_step s e).
Proof.
  destruct e as [lng lat|i d|]; intros Hrow;
    unfold store_step, store_handler, spec_step; [| |done].
  - by rewrite clickWaypoint_of_list.
  - by apply moveWaypoint_moveAt, row_exists_of_list.
Qed.

Lemma store_enabled_row ws e : store_enabled ws e = true → event_row ws e = true.
Proof.
  destruct e; simpl; try done. unfold button_enabled. by intros [? _]%andb_true_iff.
Qed.

Lemma spec_step_names s e :
  name <$> s ≡ₚ click_name <$> seq 0 (length s) →
  name <$> spec_step s e ≡ₚ click_name <$> seq 0 (length (spec_step s e)).
Proof.
  intros Hs. destruct e as [lng lat|i d|]; simpl; [| |done].
  - rewrite fmap_app, length_app, seq_app, fmap_app. simpl. by rewrite Hs.
  - unfold StoreSpec.moveAt. destruct (StoreSpec.neighbour _ _ _); [|done].
    by rewrite list_swap_length, list_swap_perm.
Qed.

End handlers.

(** ** Theorems *)

Lemma store_reachable_spec (ws : jsarray waypoint) :
  store_reachable ws → ∃ s, ws = arr_of_list s ∧ spec_reachable s.
Proof.
  induction 1 as [|ws e _ (s & -> & Hs) He]; [by exists []; split; [|constructor]|].
  exists (spec_step s e). split; [|by constructor].
  by apply store_step_of_list, store_enabled_row.
Qed.

(** C1. Every state the page can reach by clicks, row buttons and "Clear
    Route" is the array of a state the specification's store reaches by the
    same actions, and every action the page offers in it takes the array to
    the array of the specification's next state: the handlers implement
    [append], [moveAt] and [clear]. *)
Theorem store_refines_spec (ws : jsarray waypoint) :
  store_reachable ws →
  ∃ s, ws = arr_of_list s ∧ spec_reachable s ∧
       ∀ e, store_enabled ws e = true →
            store_step ws e = arr_of_list (spec_step s e).
Proof.
  intros (s & -> & Hs)%store_reachable_spec. exists s. split_and!; [done..|].
  intros e He. by apply store_step_of_list, store_enabled_row.
Qed.

(** C12. Moving the waypoint at [i] by [d] and then the waypoint at [i + d]
    by [-d] restores the array, whenever both positions are inside it. *)
Theorem moveWaypoint_involutive (s : list waypoint) (i d : Z) :
  (0 ≤ i < Z.of_nat (length s))%Z → (0 ≤ i + d < Z.of_nat (length s))%Z →
  let ws := arr_of_list s in
  let ws' := apply_update ws (moveWaypoint i d ws) in
  apply_update ws' (moveWaypoint (i + d) (- d) ws') = ws.
Proof.
  intros Hi Hj ws ws'. subst ws ws'.
  rewrite moveWaypoint_swap_Z by done. cbn [apply_update].
  rewrite moveWaypoint_swap_Z by (len; lia). cbn [apply_update].
  replace (i + d + - d)%Z with i by lia.
  by rewrite (list_swap_sym (Z.to_nat (i + d))), list_swap_involutive.
Qed.

Lemma moveWaypoint_involutive_witness :
  let s := [Waypoint (str_lit "A") (num_of_Z 0, num_of_Z 0);
            Waypoint (str_lit "B") (num_of_Z 1, num_of_Z 1);
            Waypoint (str_lit "C") (num_of_Z 2, num_of_Z 2)] in
  let ws := arr_of_list s in
  let ws' := apply_update ws (moveWaypoint 2 (-1) ws) in
  apply_update ws' (moveWaypoint (2 + -1) (- -1) ws') = ws.
Proof. apply (moveWaypoint_involutive _ 2 (-1)); simpl; lia. Defined.

(** C13. When the target index falls outside the array the handler returns
    the previous array itself: the state is unchanged and nothing
    re-renders, whatever the array holds and whatever [index] is. *)
Theorem moveWaypoint_out_of_bounds (index direction : Z) (ws : jsarray waypoint) :
  (index + direction < 0 ∨ Z.of_nat (length ws) ≤ index + direction)%Z →
  apply_update ws (moveWaypoint index direction ws) = ws
  ∧ triggers (moveWaypoint index direction ws) = false.
Proof. intros Hout. by rewrite moveWaypoint_guard. Qed.

Lemma moveWaypoint_out_of_bounds_witness :
  let ws := arr_of_list [Waypoint (str_lit "A") (num_of_Z 0, num_of_Z 0)] in
  apply_update ws (moveWaypoint 0 1 ws) = ws
  ∧ triggers (moveWaypoint 0 1 ws) = false.
Proof. apply moveWaypoint_out_of_bounds. simpl. lia. Defined.

Lemma store_refines_spec_witness :
  ∃ s, store_step (store_step (store_step [] (EvClick (num_of_Z 1) (num_of_Z 2)))
                              (EvClick (num_of_Z 3) (num_of_Z 4)))
                  (EvMove 1 StoreSpec.Up) = arr_of_list s
       ∧ spec_reachable s.
Proof.
  destruct (store_refines_spec
    (store_step (store_step (store_step [] (EvClick (num_of_Z 1) (num_of_Z 2)))
                            (EvClick (num_of_Z 3) (num_of_Z 4)))
                (EvMove 1 StoreSpec.Up))) as (s & Hs & Hr & _).
  - repeat (apply reach_step; [|reflexivity]). apply reach_init.
  - by exists s.
Defined.

(** C9. The guard of [moveWaypoint] tests only the target.  When [index]
    itself is outside the array and the target is inside, the handler
    writes [undefined] over the waypoint at the target: the new state is no
    longer an array of waypoints. *)
Theorem moveWaypoint_unguarded_index (index direction : Z) (ws : jsarray waypoint) :
  (index < 0 ∨ Z.of_nat (length ws) ≤ index)%Z →
  (0 ≤ index + direction < Z.of_nat (length ws))%Z →
  ∃ ws', moveWaypoint index direction ws = Fresh ws'
         ∧ ws' !! Z.to_nat (index + direction) = Some Undef
         ∧ ¬ dense ws'.
Proof.
  intros Hout Hin. rewrite moveWaypoint_in_range by done.
  eexists; split; [done|].
  assert (arr_get (arr_spread ws) index = None) as ->.
  { destruct Hout; [by apply arr_get_neg|apply arr_get_ge; len]. }
  pose proof (length_arr_set_le (arr_spread ws) index
    (arr_get (arr_spread ws) (index + direction))) as Hlen.
  rewrite length_arr_spread in Hlen.
  assert (∀ a : jsarray waypoint, length ws ≤ length a →
    arr_set a (index + direction) None !! Z.to_nat (index + direction) = Some Undef)
    as Hset by (intros a Ha; apply (arr_set_lookup a _ None); lia).
  split; [by apply Hset|]. eapply not_dense_lookup; [by apply Hset|done].
Qed.

Lemma moveWaypoint_unguarded_index_witness :
  ∃ ws', moveWaypoint (-1) 1
           (arr_of_list [Waypoint (str_lit "A") (num_of_Z 0, num_of_Z 0)])
         = Fresh ws'
         ∧ ws' !! Z.to_nat (-1 + 1) = Some Undef
         ∧ ¬ dense ws'.
Proof. apply moveWaypoint_unguarded_index; simpl; lia. Defined.

#[export] Instance click_name_inj : Inj (=) (=) click_name.
Proof.
  intros n m Hnm. unfold click_name in Hnm.
  apply app_inv_head, (inj str_of_nat) in Hnm. lia.
Qed.

(** C35. In every state reachable by clicks, row buttons and "Clear Route"
    the array is dense, its names are the click names of the positions
    [1 .. length] in some order, and no two waypoints share a name. *)
Theorem store_reachable_names (ws : jsarray waypoint) :
  store_reachable ws →
  ∃ s, ws = arr_of_list s
       ∧ name <$> s ≡ₚ click_name <$> seq 0 (length s)
       ∧ NoDup (name <$> s).
Proof.
  intros Hreach.
  assert (∃ s, ws = arr_of_list s ∧ name <$> s ≡ₚ click_name <$> seq 0 (length s))
    as (s & -> & Hperm).
  { induction Hreach as [|ws e _ (s & -> & Hs) He]; [by exists []|].
    exists (spec_step s e). split; [|by apply spec_step_names].
    by apply store_step_of_list, store_enabled_row. }
  exists s. repeat split; [done|]. rewrite Hperm.
  apply (NoDup_fmap_2 _), NoDup_seq.
Qed.

Lemma store_reachable_names_witness :
  ∃ s, store_step (store_step (store_step [] (EvClick (num_of_Z 1) (num_of_Z 2)))
                              (EvClick (num_of_Z 3) (num_of_Z 4)))
                  (EvMove 0 StoreSpec.Down) = arr_of_list s
       ∧ name <$> s ≡ₚ click_name <$> seq 0 (length s)
       ∧ NoDup (name <$> s).
Proof.
  apply store_reachable_names.
  repeat (apply reach_step; [|reflexivity]). apply reach_init.
Defined.

Lemma clicks_of_list (cs : list lnglat) (s : list waypoint) :
  clicks cs (arr_of_list s)
  = arr_of_list (s ++ imap (λ i c, Waypoint (click_name (length s + i)) c) cs).
Proof.
  revert s. induction cs as [|[lng lat] cs IH]; intros s.
  { by rewrite app_nil_r. }
  unfold clicks in *. cbn [foldl]. rewrite (store_step_of_list s) by done.
  cbn [spec_step StoreSpec.append fst]. rewrite IH, <-app_assoc. do 2 f_equal.
  cbn [imap app]. rewrite Nat.add_0_r. f_equal.
  apply imap_ext; intros i c _; simpl. f_equal. f_equal. len.
Qed.

(** Starting from the empty store, a run of clicks yields one waypoint
    per click, in click order, the k-th named "Waypoint k" and placed at the
    k-th clicked coordinate. *)
Theorem clicks_from_empty (cs : list lnglat) :
  clicks cs [] = arr_of_list (imap (λ i c, Waypoint (click_name i) c) cs)
  ∧ length (clicks cs []) = length cs.
Proof.
  pose proof (clicks_of_list cs []) as Hc.
  change (arr_of_list []) with (@nil (slot waypoint)) in Hc.
  rewrite Hc. split; [done|]. len. by rewrite length_imap.
Qed.

(** On a row of the list, [moveWaypoint] with any offset only permutes
    the waypoints: none is lost, duplicated or replaced. *)
Theorem moveWaypoint_permutation (s : list waypoint) (index direction : Z) :
  (0 ≤ index < Z.of_nat (length s))%Z →
  ∃ s', apply_update (arr_of_list s) (moveWaypoint index direction (arr_of_list s))
        = arr_of_list s'
        ∧ s' ≡ₚ s.
Proof.
  intros Hi.
  destruct (decide (0 ≤ index + direction < Z.of_nat (length s))%Z) as [Hj|Hj].
  - rewrite moveWaypoint_swap_Z by done. eexists; split; [done|].
    apply list_swap_perm.
  - rewrite moveWaypoint_guard by (len; lia). by exists s.
Qed.

Lemma moveWaypoint_permutation_witness :
  let s := [Waypoint (str_lit "A") (num_of_Z 0, num_of_Z 0);
            Waypoint (str_lit "B") (num_of_Z 1, num_of_Z 1)] in
  ∃ s', apply_update (arr_of_list s) (moveWaypoint 0 1 (arr_of_list s))
        = arr_of_list s'
        ∧ s' ≡ₚ s.
Proof. apply (moveWaypoint_permutation _ 0 1). simpl. lia. Defined.
