(* ===== verification/BoundingBox.v ===== *)
(** * BoundingBox: the box handed to [map.fitBounds]

    After a geocode batch that produced at least one waypoint,
    [geocodeScenes] (src/unnamed/part_000, lines 238-258) scans the new
    waypoints once, keeping the smallest and largest longitude and latitude
    seen, and asks the map to fit that box.  The scan starts from the first
    waypoint and visits every waypoint, the first one again.  The self-check
    effect (lines 321-336) runs the same scan on three literal points.

    The scan is stated once over any number type with the interface
    [JsOrder], and used at binary64. *)

From Stdlib Require Import ZArith Lia SpecFloat.
From S2P Require Import Prelude JsNum JsString JsArray Waypoints.

Section scan.
Context `{JsOrder T}.
Implicit Types (c : T * T) (cs : list (T * T)) (m v : T) (vs : list T).

(** The four variables of the scan. *)
Record bbox : Type := BBox {
  minLon : T;
  maxLon : T;
  minLat : T;
  maxLat : T;
}.

(** The four [let] declarations, from the first point. *)
Definition bbox_init (c : T * T) : bbox :=
  {| minLon := c.1; maxLon := c.1; minLat := c.2; maxLat := c.2 |}.

(** The body of the [forEach] callback: four conditional assignments. *)
Definition bbox_step (b : bbox) (c : T * T) : bbox :=
  let '(lon, lat) := c in
  {| minLon := js_min_step (minLon b) lon;
     maxLon := js_max_step (maxLon b) lon;
     minLat := js_min_step (minLat b) lat;
     maxLat := js_max_step (maxLat b) lat |}.

(** The scan.  [None] is the [TypeError] of reading [coord] of
    [newWaypoints[0]] on an empty array, which the caller's guard excludes. *)
Definition bbox_scan (cs : list (T * T)) : option bbox :=
  match cs with
  | [] => None
  | c :: _ => Some (foldl bbox_step (bbox_init c) cs)
  end.

(** The argument of [fitBounds]: the south-west and north-east corners. *)
Definition fit_bounds_arg (b : bbox) : (T * T) * (T * T) :=
  ((minLon b, minLat b), (maxLon b, maxLat b)).

(** Reference: one pass per extremum over one axis. *)
Definition axis_min (m : T) (vs : list T) : T := foldl js_min_step m vs.
Definition axis_max (m : T) (vs : list T) : T := foldl js_max_step m vs.

Definition bbox_by_axes (cs : list (T * T)) : option bbox :=
  match cs with
  | [] => None
  | c :: _ =>
      Some {| minLon := axis_min c.1 cs.*1; maxLon := axis_max c.1 cs.*1;
              minLat := axis_min c.2 cs.*2; maxLat := axis_max c.2 cs.*2 |}
  end.

(** [c] lies in [b]. *)
Definition in_bbox (b : bbox) (c : T * T) : Prop :=
  js_le (minLon b) c.1 ∧ js_le c.1 (maxLon b) ∧
  js_le (minLat b) c.2 ∧ js_le c.2 (maxLat b).

(** A point both of whose coordinates are numbers. *)
Definition is_point (c : T * T) : bool := negb (js_nan c.1) && negb (js_nan c.2).

(** Two boxes with the same corners up to SameValueZero. *)
Definition bbox_same (b1 b2 : bbox) : Prop :=
  js_same (minLon b1) (minLon b2) ∧ js_same (maxLon b1) (maxLon b2) ∧
  js_same (minLat b1) (minLat b2) ∧ js_same (maxLat b1) (maxLat b2).

(** ** One axis *)

Lemma axis_min_snoc m vs v : axis_min m (vs ++ [v]) = js_min_step (axis_min m vs) v.
Proof. unfold axis_min. by rewrite foldl_app. Qed.

Lemma axis_max_snoc m vs v : axis_max m (vs ++ [v]) = js_max_step (axis_max m vs) v.
Proof. unfold axis_max. by rewrite foldl_app. Qed.

Lemma axis_min_nan m vs : js_nan m = true → axis_min m vs = m.
Proof.
  intros Hm. induction vs as [|v vs IH] using rev_ind; [done|].
  by rewrite axis_min_snoc, IH, js_min_step_nan_l.
Qed.

Lemma axis_max_nan m vs : js_nan m = true → axis_max m vs = m.
Proof.
  intros Hm. induction vs as [|v vs IH] using rev_ind; [done|].
  by rewrite axis_max_snoc, IH, js_max_step_nan_l.
Qed.

Lemma axis_min_not_nan m vs : js_nan m = false → js_nan (axis_min m vs) = false.
Proof.
  intros Hm. induction vs as [|v vs IH] using rev_ind; [done|].
  rewrite axis_min_snoc. auto with jp.
Qed.

Lemma axis_max_not_nan m vs : js_nan m = false → js_nan (axis_max m vs) = false.
Proof.
  intros Hm. induction vs as [|v vs IH] using rev_ind; [done|].
  rewrite axis_max_snoc. auto with jp.
Qed.

Lemma axis_min_le_init m vs : js_nan m = false → js_le (axis_min m vs) m.
Proof.
  intros Hm. induction vs as [|v vs IH] using rev_ind; [by apply js_le_refl|].
  rewrite axis_min_snoc. eapply js_le_trans; [|done].
  by apply js_min_step_le_l, axis_min_not_nan.
Qed.

Lemma axis_max_ge_init m vs : js_nan m = false → js_le m (axis_max m vs).
Proof.
  intros Hm. induction vs as [|v vs IH] using rev_ind; [by apply js_le_refl|].
  rewrite axis_max_snoc. eapply js_le_trans; [done|].
  by apply js_max_step_ge_l, axis_max_not_nan.
Qed.

Lemma axis_min_le m vs v :
  js_nan m = false → v ∈ vs → js_nan v = false → js_le (axis_min m vs) v.
Proof.
  intros Hm Hin Hv. induction vs as [|w vs IH] using rev_ind; [by inv Hin|].
  rewrite axis_min_snoc.
  apply elem_of_app in Hin as [Hin| ->%list_elem_of_singleton].
  - eapply js_le_trans; [|by apply IH].
    by apply js_min_step_le_l, axis_min_not_nan.
  - by apply js_min_step_le_r; [apply axis_min_not_nan|].
Qed.

Lemma axis_max_ge m vs v :
  js_nan m = false → v ∈ vs → js_nan v = false → js_le v (axis_max m vs).
Proof.
  intros Hm Hin Hv. induction vs as [|w vs IH] using rev_ind; [by inv Hin|].
  rewrite axis_max_snoc.
  apply elem_of_app in Hin as [Hin| ->%list_elem_of_singleton].
  - eapply js_le_trans; [by apply IH|].
    by apply js_max_step_ge_l, axis_max_not_nan.
  - by apply js_max_step_ge_r; [apply axis_max_not_nan|].
Qed.

Lemma axis_min_attained m vs : axis_min m vs = m ∨ axis_min m vs ∈ vs.
Proof.
  induction vs as [|v vs IH] using rev_ind; [by left|].
  rewrite axis_min_snoc.
  destruct (js_min_step_cases (axis_min m vs) v) as [->| ->].
  - destruct IH; [by left|right; rewrite elem_of_app; by left].
  - right. rewrite elem_of_app, list_elem_of_singleton. by right.
Qed.

Lemma axis_max_attained m vs : axis_max m vs = m ∨ axis_max m vs ∈ vs.
Proof.
  induction vs as [|v vs IH] using rev_ind; [by left|].
  rewrite axis_max_snoc.
  destruct (js_max_step_cases (axis_max m vs) v) as [->| ->].
  - destruct IH; [by left|right; rewrite elem_of_app; by left].
  - right. rewrite elem_of_app, list_elem_of_singleton. by right.
Qed.

(** ** The scan as four passes *)

Lemma foldl_bbox_step b cs :
  foldl bbox_step b cs =
  {| minLon := axis_min (minLon b) cs.*1; maxLon := axis_max (maxLon b) cs.*1;
     minLat := axis_min (minLat b) cs.*2; maxLat := axis_max (maxLat b) cs.*2 |}.
Proof.
  revert b. induction cs as [|[lon lat] cs IH]; intros b; [by destruct b|].
  cbn [foldl]. by rewrite IH.
Qed.

Lemma bbox_scan_cons c cs :
  bbox_scan (c :: cs) =
  Some {| minLon := axis_min c.1 (c :: cs).*1; maxLon := axis_max c.1 (c :: cs).*1;
          minLat := axis_min c.2 (c :: cs).*2; maxLat := axis_max c.2 (c :: cs).*2 |}.
Proof. unfold bbox_scan. by rewrite foldl_bbox_step. Qed.

Lemma is_point_spec c : is_point c = true ↔ js_nan c.1 = false ∧ js_nan c.2 = false.
Proof.
  unfold is_point. rewrite andb_true_iff, !negb_true_iff. done.
Qed.

Lemma axis_attained_in v vs : axis_min v (v :: vs) ∈ v :: vs ∧ axis_max v (v :: vs) ∈ v :: vs.
Proof.
  split.
  - destruct (axis_min_attained v (v :: vs)) as [->|?]; [apply list_elem_of_here|done].
  - destruct (axis_max_attained v (v :: vs)) as [->|?]; [apply list_elem_of_here|done].
Qed.

(** Two attained bounds of the same numbers are equal as numbers. *)
Lemma axis_min_perm m1 m2 vs1 vs2 :
  vs1 ≡ₚ vs2 → Forall (λ v, js_nan v = false) vs1 → m1 ∈ vs1 → m2 ∈ vs2 →
  js_eqv (axis_min m1 vs1) (axis_min m2 vs2).
Proof.
  intros Hp Hn1 Hm1 Hm2.
  assert (Forall (λ v, js_nan v = false) vs2) as Hn2 by by rewrite <-Hp.
  rewrite list.Forall_forall in Hn1, Hn2.
  assert (axis_min m1 vs1 ∈ vs2) as Ha1.
  { rewrite <-Hp. by destruct (axis_min_attained m1 vs1) as [->|?]. }
  assert (axis_min m2 vs2 ∈ vs1) as Ha2.
  { rewrite Hp. by destruct (axis_min_attained m2 vs2) as [->|?]. }
  split; apply axis_min_le; solve [done | by apply Hn1 | by apply Hn2].
Qed.

Lemma axis_max_perm m1 m2 vs1 vs2 :
  vs1 ≡ₚ vs2 → Forall (λ v, js_nan v = false) vs1 → m1 ∈ vs1 → m2 ∈ vs2 →
  js_eqv (axis_max m1 vs1) (axis_max m2 vs2).
Proof.
  intros Hp Hn1 Hm1 Hm2.
  assert (Forall (λ v, js_nan v = false) vs2) as Hn2 by by rewrite <-Hp.
  rewrite list.Forall_forall in Hn1, Hn2.
  assert (axis_max m1 vs1 ∈ vs2) as Ha1.
  { rewrite <-Hp. by destruct (axis_max_attained m1 vs1) as [->|?]. }
  assert (axis_max m2 vs2 ∈ vs1) as Ha2.
  { rewrite Hp. by destruct (axis_max_attained m2 vs2) as [->|?]. }
  split; apply axis_max_ge; solve [done | by apply Hn1 | by apply Hn2].
Qed.

(** The box of a scan that starts at a point holds every point scanned. *)
Lemma bbox_scan_in c0 cs c b :
  is_point c0 = true → c ∈ c0 :: cs → is_point c = true →
  bbox_scan (c0 :: cs) = Some b → in_bbox b c.
Proof.
  intros [Hlon Hlat]%is_point_spec Hin [Hc1 Hc2]%is_point_spec.
  rewrite bbox_scan_cons. intros Hb. apply (inj Some) in Hb as <-.
  assert (c.1 ∈ (c0 :: cs).*1 ∧ c.2 ∈ (c0 :: cs).*2) as [H1 H2]
    by (split; by apply list_elem_of_fmap_2).
  unfold in_bbox. cbn [minLon maxLon minLat maxLat].
  split_and!; by (apply axis_min_le || apply axis_max_ge).
Qed.

End scan.

Arguments bbox T : clear implicits.
Arguments BBox {T} _ _ _ _.

(** ** Theorems *)

Section scan_theorems.
Context `{JsOrder T}.
Implicit Types (c : T * T) (cs : list (T * T)).

(** C8. When the first waypoint's coordinates are numbers, the scan
    returns a box that contains every waypoint whose coordinates are
    numbers.  Waypoints with a NaN coordinate are passed over. *)
Theorem bbox_scan_contains c0 cs :
  is_point c0 = true →
  ∃ b, bbox_scan (c0 :: cs) = Some b
       ∧ ∀ c, c ∈ c0 :: cs → is_point c = true → in_bbox b c.
Proof.
  intros Hc0. eexists; split; [apply bbox_scan_cons|].
  intros c Hin Hc. apply (bbox_scan_in c0 cs c _ Hc0 Hin Hc), bbox_scan_cons.
Qed.

(** Each side of the box is a coordinate of one of the waypoints: the
    box is the smallest one, never a widened one. *)
Theorem bbox_scan_attained c0 cs :
  ∃ b, bbox_scan (c0 :: cs) = Some b
       ∧ minLon b ∈ (c0 :: cs).*1 ∧ maxLon b ∈ (c0 :: cs).*1
       ∧ minLat b ∈ (c0 :: cs).*2 ∧ maxLat b ∈ (c0 :: cs).*2.
Proof.
  rewrite bbox_scan_cons. eexists; split; [done|].
  cbn [minLon maxLon minLat maxLat].
  destruct (axis_attained_in c0.1 cs.*1), (axis_attained_in c0.2 cs.*2). done.
Qed.

(** The single pass computes the box the specification describes:
    each of the four extrema is the fold of its own conditional assignment
    over one axis, independently of the other three. *)
Theorem bbox_scan_by_axes cs : bbox_scan cs = bbox_by_axes cs.
Proof. destruct cs as [|c cs]; [done|]. by rewrite bbox_scan_cons. Qed.

(** A NaN longitude in the first waypoint makes both longitude sides
    of the box NaN, whatever the other waypoints are; likewise for the
    latitude.  The box handed to [fitBounds] is then not a box. *)
Theorem bbox_scan_nan_first c0 cs :
  ∃ b, bbox_scan (c0 :: cs) = Some b
       ∧ (js_nan c0.1 = true → minLon b = c0.1 ∧ maxLon b = c0.1)
       ∧ (js_nan c0.2 = true → minLat b = c0.2 ∧ maxLat b = c0.2).
Proof.
  rewrite bbox_scan_cons. eexists; split; [done|].
  cbn [minLon maxLon minLat maxLat].
  split; intros Hn; by rewrite axis_min_nan, axis_max_nan.
Qed.

(** C36. For waypoints whose coordinates are all numbers, the box does not
    depend on their order: two orderings give corners that are equal as
    numbers (a negative and a positive zero count as equal). *)
Theorem bbox_scan_permutation c1 cs1 c2 cs2 :
  c1 :: cs1 ≡ₚ c2 :: cs2 → Forall (λ c, is_point c = true) (c1 :: cs1) →
  ∃ b1 b2, bbox_scan (c1 :: cs1) = Some b1 ∧ bbox_scan (c2 :: cs2) = Some b2
           ∧ bbox_same b1 b2.
Proof.
  intros Hp Hpts. rewrite !bbox_scan_cons. do 2 eexists. do 2 (split; [done|]).
  assert (Forall (λ v, js_nan v = false) (c1 :: cs1).*1
          ∧ Forall (λ v, js_nan v = false) (c1 :: cs1).*2) as [Hn1 Hn2].
  { split; apply list.Forall_fmap; (eapply list.Forall_impl; [exact Hpts|]);
      intros c Hc; apply is_point_spec in Hc; by destruct Hc. }
  unfold bbox_same. cbn [minLon maxLon minLat maxLat].
  split_and!; right; (apply axis_min_perm || apply axis_max_perm);
    first [by apply fmap_Permutation | done | apply list_elem_of_here].
Qed.

(** A single waypoint gives a box of zero area at that waypoint. *)
Theorem bbox_scan_singleton c : bbox_scan [c] = Some (bbox_init c).
Proof.
  rewrite bbox_scan_cons. unfold bbox_init. simpl.
  unfold axis_min, axis_max, js_min_step, js_max_step. simpl.
  by rewrite !js_lt_irrefl.
Qed.

End scan_theorems.

(** ** At binary64 *)

(** The request [geocodeScenes] makes of the map for the new waypoints: the
    two corners and the padding. *)
Definition fitBounds_request (newWaypoints : list waypoint)
    : option ((lnglat * lnglat) * Z) :=
  b ← bbox_scan (coord <$> newWaypoints); Some (fit_bounds_arg b, 50%Z).

(** The points of the specification's example, which are also those of the
    page's self-check. *)
Definition example_coords : list lnglat :=
  [(num_of_Z 0, num_of_Z 0); (num_of_Z 5, num_of_Z 10); (num_of_Z (-2), num_of_Z 3)].

Lemma bbox_scan_contains_witness :
  ∃ b, bbox_scan ((num_of_Z 0, num_of_Z 0)
                  :: [(num_of_Z 5, num_of_Z 10); (num_of_Z (-2), num_of_Z 3)]) = Some b
       ∧ ∀ c, c ∈ (num_of_Z 0, num_of_Z 0)
                  :: [(num_of_Z 5, num_of_Z 10); (num_of_Z (-2), num_of_Z 3)] →
              is_point c = true → in_bbox b c.
Proof. apply bbox_scan_contains. reflexivity. Defined.

Lemma bbox_scan_permutation_witness :
  ∃ b1 b2,
    bbox_scan ((num_of_Z 0, num_of_Z 0) :: [(num_of_Z 5, num_of_Z 10)]) = Some b1
    ∧ bbox_scan ((num_of_Z 5, num_of_Z 10) :: [(num_of_Z 0, num_of_Z 0)]) = Some b2
    ∧ bbox_same b1 b2.
Proof.
  apply bbox_scan_permutation.
  - apply Permutation_swap.
  - repeat constructor.
Defined.

(** On the points [(0,0), (5,10), (-2,3)] the scan yields
    minLon = -2, maxLon = 5, minLat = 0, maxLat = 10. *)
Theorem bbox_scan_example :
  bbox_scan example_coords
  = Some (BBox (num_of_Z (-2)) (num_of_Z 5) (num_of_Z 0) (num_of_Z 10)).
Proof. vm_compute. reflexivity. Qed.

(** For a non-empty batch the request fits exactly the box of the
    scan, south-west corner first, with padding 50; for an empty batch
    there is no request to make. *)
Theorem fitBounds_request_spec (newWaypoints : list waypoint) :
  match newWaypoints with
  | [] => fitBounds_request newWaypoints = None
  | w :: ws =>
      ∃ b, bbox_scan (coord <$> w :: ws) = Some b
           ∧ fitBounds_request newWaypoints
             = Some (((minLon b, minLat b), (maxLon b, maxLat b)), 50%Z)
  end.
Proof.
  destruct newWaypoints as [|w ws]; [done|].
  unfold fitBounds_request. rewrite fmap_cons, bbox_scan_cons. by eexists.
Qed.
