(* ===== verification/SelfCheck.v ===== *)
(** * SelfCheck: the checks the page runs on itself

    The last effect of [Home] (src/unnamed/part_000, lines 306-337) runs
    once per mount.  It swaps the first two entries of a sample array the
    way [moveWaypoint] does, computes the bounding box of three points the
    way [geocodeScenes] does, and reports on the console, with
    [console.assert], when the outcome is not the expected one.  It calls
    neither function: both computations are written out again. *)

From Stdlib Require Import ZArith Lia.
From S2P Require Import Prelude JsNum JsString JsArray Effect Waypoints BoundingBox.

(** ** The console *)

(** The messages of the assertions that failed. *)
Abbreviation console_log := (list jsstring).

(** [console.assert(condition, message)]. *)
Definition console_assert (condition : bool) (message : jsstring)
    : eff console_log unit :=
  if condition then mret () else modify (λ log, log ++ [message]).

(** ** The effect *)

(** Lines 308-312. *)
Definition sample : jsarray waypoint :=
  arr_of_list
    [{| name := str_lit "A"; coord := (num_of_Z 0, num_of_Z 0) |};
     {| name := str_lit "B"; coord := (num_of_Z 1, num_of_Z 1) |};
     {| name := str_lit "C"; coord := (num_of_Z 2, num_of_Z 2) |}].

(** Lines 314-315: the copy and the destructuring swap of its first two
    entries, both read before either is written. *)
Definition sample_reordered : jsarray waypoint :=
  let reordered := arr_spread sample in
  let rhs := (arr_get reordered 1, arr_get reordered 0) in
  let reordered := arr_set reordered 0 rhs.1 in
  arr_set reordered 1 rhs.2.

(** [a[i].name]: a [TypeError] when the entry is [undefined]. *)
Definition name_at (a : jsarray waypoint) (i : Z) : eff console_log jsstring :=
  match arr_get a i with
  | Some w => mret (name w)
  | None => throw TypeError
  end.

(** Lines 316-319.  The second name is read only when the first is the
    expected one. *)
Definition check_reorder : eff console_log unit :=
  first ← name_at sample_reordered 0;
  ok ← (if bool_decide (first = str_lit "B")
        then second ← name_at sample_reordered 1;
             mret (bool_decide (second = str_lit "A"))
        else mret false);
  console_assert ok (str_lit "moveWaypoint reorder failed").

(** Lines 321-336: the scan of [geocodeScenes] over [example_coords] and
    the comparison of its four results with [===]. *)
Definition check_bounds : eff console_log unit :=
  match bbox_scan example_coords with
  | None => throw TypeError
  | Some b =>
      console_assert
        (js_strict_eq (minLon b) (num_of_Z (-2)) && js_strict_eq (maxLon b) (num_of_Z 5)
         && js_strict_eq (minLat b) (num_of_Z 0) && js_strict_eq (maxLat b) (num_of_Z 10))
        (str_lit "Bounding box calc failed")
  end.

Definition selfCheck : eff console_log unit :=
  check_reorder;; check_bounds.

(** ** What the checks do *)

Section self_check.
Implicit Types (log : console_log).

Lemma console_assert_true message log :
  console_assert true message log = (Ok (), log).
Proof. done. Qed.

Lemma console_assert_false message log :
  console_assert false message log = (Ok (), log ++ [message]).
Proof. done. Qed.

(** The swap of the check is the one [moveWaypoint] makes when the second
    row is moved up. *)
Lemma sample_reordered_move :
  moveWaypoint 1 (-1) sample = Fresh sample_reordered.
Proof. done. Qed.

Lemma selfCheck_ok log : selfCheck log = (Ok (), log).
Proof. by vm_compute. Qed.


End self_check.
