(* ===== verification/MapView.v ===== *)
(** * MapView: the map widget and the adapter around it

    The page owns one MapLibre map.  The mount effect of [Home]
    (src/unnamed/part_000, lines 46-156) imports the library, creates the
    map and registers the [load] and [click] callbacks; its cleanup removes
    the map.  The render effect (lines 164-194) rebuilds the markers and the
    route line from the waypoints.  [toggleTerrain] (lines 291-300) switches
    terrain on the widget.

    The widget itself is not part of the repository.  Section "The widget"
    models what its calls do to the state the page can observe, from the
    specification and the calls' documented meaning; section "The adapter"
    is the code of the page, statement by statement, over that state;
    section "The style of a map" says which styles the widget accepts and
    which style the maps of the page have. *)

From Stdlib Require Import ZArith Lia SpecFloat.
From stdpp Require Import gmap.
From S2P Require Import Prelude JsNum JsString JsArray Effect Waypoints.

(** ** The widget *)

Abbreviation map_id := nat.
Abbreviation marker_id := nat.

(** [{ source, exaggeration }]. *)
Record terrain_spec : Type := TerrainSpec {
  ter_source : jsstring;
  ter_exaggeration : jsnum;
}.

(** A source of the style: raster tiles, a raster elevation model, or the
    GeoJSON feature of a line with its coordinates. *)
Inductive source : Type :=
| SrcRaster (tiles : list jsstring) (tileSize : Z) (attribution : jsstring) (maxzoom : Z)
| SrcRasterDem (tiles : list jsstring) (tileSize : Z) (maxzoom : Z) (encoding : jsstring)
| SrcGeoJson (coordinates : jsarray lnglat).

(** A value of a [layout] or [paint] property. *)
Inductive style_value : Type :=
| StyleText (text : jsstring)
| StyleNum (n : jsnum)
| StyleNums (ns : list jsnum).

Inductive layer : Type :=
| LayerRaster (id src : jsstring) (minzoom maxzoom : Z)
| LayerLine (id src : jsstring) (layout paint : list (jsstring * style_value))
| LayerSky (id : jsstring) (paint : list (jsstring * style_value)).

Inductive map_event : Type := LoadEvent | ClickEvent.

#[export] Instance terrain_spec_eq_dec : EqDecision terrain_spec.
Proof. solve_decision. Defined.
#[export] Instance source_eq_dec : EqDecision source.
Proof. solve_decision. Defined.
#[export] Instance style_value_eq_dec : EqDecision style_value.
Proof. solve_decision. Defined.
#[export] Instance layer_eq_dec : EqDecision layer.
Proof. solve_decision. Defined.
#[export] Instance map_event_eq_dec : EqDecision map_event.
Proof. solve_decision. Defined.

(** The options of [new Map]. *)
Record map_options : Type := MapOptions {
  opt_container : bool;       (* whether [container] is an element *)
  opt_version : Z;
  opt_sources : gmap jsstring source;
  opt_layers : list layer;
  opt_terrain : option terrain_spec;
  opt_center : lnglat;
  opt_zoom : jsnum;
  opt_pitch : jsnum;
}.

(** A map object, as far as the page can tell. *)
Record widget : Type := Widget {
  w_sources : gmap jsstring source;
  w_layers : list layer;
  w_terrain : option terrain_spec;
  w_controls : nat;
  w_listeners : list map_event;
  w_fit : option ((lnglat * lnglat) * Z);
  w_removed : bool;
}.

(** An element of the document, as the page creates one for a marker. *)
Record element : Type := DomElement {
  el_tag : jsstring;
  el_className : jsstring;
  el_textContent : jsstring;
}.

(** A marker object: its element, its position, the map it is shown on. *)
Record marker : Type := Marker {
  mk_el : element;
  mk_pos : lnglat;
  mk_map : option map_id;
}.

(** The text a marker shows. *)
Definition mk_label (k : marker) : jsstring := el_textContent (mk_el k).

(** The page's references and the objects they point to. *)
Record dom : Type := Dom {
  maps : list widget;         (* every map created, by identity *)
  markers : list marker;      (* every marker created, by identity *)
  mapRef : option map_id;
  markersRef : list marker_id;
  maplibreRef : bool;
  isMounted : list bool;      (* one variable per run of the mount effect *)
  mapContainerRef : bool;     (* whether the container of the map is attached *)
}.

Definition dom_init : dom :=
  {| maps := []; markers := []; mapRef := None; markersRef := [];
     maplibreRef := false; isMounted := []; mapContainerRef := false |}.

Definition with_maps (f : list widget → list widget) (s : dom) : dom :=
  {| maps := f (maps s); markers := markers s; mapRef := mapRef s;
     markersRef := markersRef s; maplibreRef := maplibreRef s;
     isMounted := isMounted s; mapContainerRef := mapContainerRef s |}.
Definition with_markers (f : list marker → list marker) (s : dom) : dom :=
  {| maps := maps s; markers := f (markers s); mapRef := mapRef s;
     markersRef := markersRef s; maplibreRef := maplibreRef s;
     isMounted := isMounted s; mapContainerRef := mapContainerRef s |}.
Definition with_mapRef (r : option map_id) (s : dom) : dom :=
  {| maps := maps s; markers := markers s; mapRef := r;
     markersRef := markersRef s; maplibreRef := maplibreRef s;
     isMounted := isMounted s; mapContainerRef := mapContainerRef s |}.
Definition with_markersRef (f : list marker_id → list marker_id) (s : dom) : dom :=
  {| maps := maps s; markers := markers s; mapRef := mapRef s;
     markersRef := f (markersRef s); maplibreRef := maplibreRef s;
     isMounted := isMounted s; mapContainerRef := mapContainerRef s |}.
Definition with_maplibreRef (b : bool) (s : dom) : dom :=
  {| maps := maps s; markers := markers s; mapRef := mapRef s;
     markersRef := markersRef s; maplibreRef := b;
     isMounted := isMounted s; mapContainerRef := mapContainerRef s |}.
Definition with_isMounted (f : list bool → list bool) (s : dom) : dom :=
  {| maps := maps s; markers := markers s; mapRef := mapRef s;
     markersRef := markersRef s; maplibreRef := maplibreRef s;
     isMounted := f (isMounted s); mapContainerRef := mapContainerRef s |}.
Definition with_mapContainerRef (b : bool) (s : dom) : dom :=
  {| maps := maps s; markers := markers s; mapRef := mapRef s;
     markersRef := markersRef s; maplibreRef := maplibreRef s;
     isMounted := isMounted s; mapContainerRef := b |}.

Definition w_with_sources (f : gmap jsstring source → gmap jsstring source)
    (w : widget) : widget :=
  {| w_sources := f (w_sources w); w_layers := w_layers w;
     w_terrain := w_terrain w; w_controls := w_controls w;
     w_listeners := w_listeners w; w_fit := w_fit w; w_removed := w_removed w |}.
Definition w_with_layers (f : list layer → list layer) (w : widget) : widget :=
  {| w_sources := w_sources w; w_layers := f (w_layers w);
     w_terrain := w_terrain w; w_controls := w_controls w;
     w_listeners := w_listeners w; w_fit := w_fit w; w_removed := w_removed w |}.
Definition w_with_terrain (t : option terrain_spec) (w : widget) : widget :=
  {| w_sources := w_sources w; w_layers := w_layers w;
     w_terrain := t; w_controls := w_controls w;
     w_listeners := w_listeners w; w_fit := w_fit w; w_removed := w_removed w |}.
Definition w_with_controls (f : nat → nat) (w : widget) : widget :=
  {| w_sources := w_sources w; w_layers := w_layers w;
     w_terrain := w_terrain w; w_controls := f (w_controls w);
     w_listeners := w_listeners w; w_fit := w_fit w; w_removed := w_removed w |}.
Definition w_with_listeners (f : list map_event → list map_event) (w : widget) : widget :=
  {| w_sources := w_sources w; w_layers := w_layers w;
     w_terrain := w_terrain w; w_controls := w_controls w;
     w_listeners := f (w_listeners w); w_fit := w_fit w; w_removed := w_removed w |}.
Definition w_with_fit (r : option ((lnglat * lnglat) * Z)) (w : widget) : widget :=
  {| w_sources := w_sources w; w_layers := w_layers w;
     w_terrain := w_terrain w; w_controls := w_controls w;
     w_listeners := w_listeners w; w_fit := r; w_removed := w_removed w |}.
Definition w_with_removed (b : bool) (w : widget) : widget :=
  {| w_sources := w_sources w; w_layers := w_layers w;
     w_terrain := w_terrain w; w_controls := w_controls w;
     w_listeners := w_listeners w; w_fit := w_fit w; w_removed := b |}.

(** *** The calls *)

(** What the constructor of a map says of a [container] that is no
    element. *)
Definition container_message : jsstring :=
  str_lit "Invalid type: 'container' must be a String or HTMLElement.".

(** [new maplibregl.Map(options)]: the map is made in its container; with
    [null] for a container the constructor throws. *)
Definition Map_new (o : map_options) : eff dom map_id :=
  if opt_container o then λ s,
    (Ok (length (maps s)),
     with_maps (λ ms, ms ++ [{| w_sources := opt_sources o; w_layers := opt_layers o;
                                w_terrain := opt_terrain o; w_controls := 0;
                                w_listeners := []; w_fit := None;
                                w_removed := false |}]) s)
  else throw (Error container_message).

Definition on_map (map : map_id) (f : widget → widget) : eff dom unit :=
  modify (with_maps (alter f map)).

Definition map_addControl (map : map_id) : eff dom unit :=
  on_map map (w_with_controls S).

Definition map_on (map : map_id) (ev : map_event) : eff dom unit :=
  on_map map (w_with_listeners (λ l, l ++ [ev])).

Definition map_addSource (map : map_id) (id : jsstring) (src : source) : eff dom unit :=
  on_map map (w_with_sources <[id := src]>).

Definition map_addLayer (map : map_id) (l : layer) : eff dom unit :=
  on_map map (w_with_layers (λ ls, ls ++ [l])).

(** [map.getSource(id)]: the source, or [undefined]. *)
Definition map_getSource (map : map_id) (id : jsstring) : eff dom (option source) :=
  gets (λ s, maps s !! map ≫= λ w, w_sources w !! id).

(** [source.setData] with a line string of the given coordinates. *)
Definition source_setData (map : map_id) (id : jsstring)
    (coords : jsarray lnglat) : eff dom unit :=
  on_map map (w_with_sources <[id := SrcGeoJson coords]>).

Definition map_setTerrain (map : map_id) (t : option terrain_spec) : eff dom unit :=
  on_map map (w_with_terrain t).

Definition map_fitBounds (map : map_id) (box : lnglat * lnglat) (padding : Z)
    : eff dom unit :=
  on_map map (w_with_fit (Some (box, padding))).

(** [map.remove()]: the map is gone, with its listeners and whatever was
    shown on it. *)
Definition map_remove (map : map_id) : eff dom unit := λ s,
  (Ok (),
   with_markers (fmap (λ k, if decide (mk_map k = Some map)
                            then {| mk_el := mk_el k; mk_pos := mk_pos k;
                                    mk_map := None |}
                            else k))
     (with_maps (alter (λ w, w_with_removed true (w_with_listeners (λ _, []) w)) map) s)).

(** [new maplibregl.Marker(el)]. *)
Definition Marker_new (el : element) : eff dom marker_id := λ s,
  (Ok (length (markers s)),
   with_markers (λ ks, ks ++ [{| mk_el := el;
                                 mk_pos := (S754_zero false, S754_zero false);
                                 mk_map := None |}]) s).

(** [marker.setLngLat(pos).addTo(map)]. *)
Definition marker_setLngLat_addTo (k : marker_id) (pos : lnglat) (map : map_id)
    : eff dom unit :=
  modify (with_markers (alter (λ m, {| mk_el := mk_el m; mk_pos := pos;
                                       mk_map := Some map |}) k)).

(** [marker.remove()]. *)
Definition marker_remove (k : marker_id) : eff dom unit :=
  modify (with_markers (alter (λ m, {| mk_el := mk_el m; mk_pos := mk_pos m;
                                       mk_map := None |}) k)).

(** The markers shown on a map, in creation order. *)
Definition markers_on (map : map_id) (s : dom) : list (jsstring * lnglat) :=
  omap (λ k, if decide (mk_map k = Some map) then Some (mk_label k, mk_pos k) else None)
       (markers s).

(** The source named [route] of a map, when it exists. *)
Definition route_source (map : map_id) (s : dom) : option source :=
  maps s !! map ≫= λ w, w_sources w !! str_lit "route".

(** The coordinates of the route line of a map. *)
Definition route_of (map : map_id) (s : dom) : option (jsarray lnglat) :=
  route_source map s ≫= λ src,
  match src with SrcGeoJson coords => Some coords | _ => None end.

Definition terrain_of (map : map_id) (s : dom) : option terrain_spec :=
  maps s !! map ≫= w_terrain.

(** ** The adapter *)

(** [{ source: 'terrain', exaggeration: 1.5 }]. *)
Definition terrain_on : terrain_spec :=
  {| ter_source := str_lit "terrain";
     ter_exaggeration := binary_normalize 53 1024 3 (-1) false |}.

(** The attribution of the tiles: the copyright sign, a link to the terms
    and the contributors. *)
Definition osm_attribution : jsstring :=
  169%N :: str_lit " <a href=" ++ 34%N :: str_lit "https://www.openstreetmap.org/copyright"
  ++ 34%N :: str_lit ">OpenStreetMap</a> contributors".

(** The options the page creates its map with, for what
    [mapContainerRef.current] holds. *)
Definition map_options_initial (container : bool) : map_options :=
  {| opt_container := container;
     opt_version := 8;
     opt_sources :=
       <[str_lit "osm-tiles" :=
           SrcRaster [str_lit "https://tile.openstreetmap.org/{z}/{x}/{y}.png"] 256
             osm_attribution 19]>
       {[ str_lit "terrain" :=
           SrcRasterDem
             [str_lit "https://s3.amazonaws.com/elevation-tiles-prod/terrarium/{z}/{x}/{y}.png"]
             256 12 (str_lit "terrarium") ]};
     opt_layers := [LayerRaster (str_lit "osm-tiles") (str_lit "osm-tiles") 0 22];
     opt_terrain := Some terrain_on;
     opt_center := (num_of_Z 0, num_of_Z 0);
     opt_zoom := num_of_Z 2;
     opt_pitch := num_of_Z 0 |}.

(** The body of the mount effect up to the import: a new [isMounted]
    variable, and no import where there is no [window].  The result is the
    run whose import and cleanup are now pending. *)
Definition mountEffect (has_window : bool) : eff dom (option nat) :=
  s ← get;
  let k := length (isMounted s) in
  modify (with_isMounted (λ l, l ++ [true]));;
  if has_window then mret (Some k) else mret None.

(** The layer that draws the route as a stroked line. *)
Definition route_line_layer : layer :=
  LayerLine (str_lit "route-line") (str_lit "route")
    [(str_lit "line-join", StyleText (str_lit "round"));
     (str_lit "line-cap", StyleText (str_lit "round"))]
    [(str_lit "line-color", StyleText (str_lit "#0d6efd"));
     (str_lit "line-width", StyleNum (num_of_Z 4))].

(** The sky layer. *)
Definition sky_layer : layer :=
  LayerSky (str_lit "sky")
    [(str_lit "sky-type", StyleText (str_lit "atmosphere"));
     (str_lit "sky-atmosphere-sun", StyleNums [num_of_Z 0; num_of_Z 0]);
     (str_lit "sky-atmosphere-sun-intensity", StyleNum (num_of_Z 15))].

(** The callback of [map.on('load')]. *)
Definition onLoad (map : map_id) : eff dom unit :=
  map_addSource map (str_lit "route") (SrcGeoJson []);;
  map_addLayer map route_line_layer;;
  map_addLayer map sky_layer.

(** The callback of [import('maplibre-gl').then], for run [k] of the mount
    effect. *)
Definition onImported (k : nat) : eff dom unit :=
  s ← get;
  if negb (default false (isMounted s !! k)) then mret ()
  else
    modify (with_maplibreRef true);;
    map ← Map_new (map_options_initial (mapContainerRef s));
    modify (with_mapRef (Some map));;
    map_addControl map;;
    map_on map LoadEvent;;
    map_on map ClickEvent.

(** The cleanup of run [k] of the mount effect. *)
Definition mountCleanup (k : nat) : eff dom unit :=
  modify (with_isMounted <[k := false]>);;
  s ← get;
  match mapRef s with
  | Some map => map_remove map;; modify (with_mapRef None)
  | None => mret ()
  end.

(** The element of the marker of the waypoint at [index]: a [div] of
    class [marker] that reads [String(index + 1)]. *)
Definition marker_element (index : nat) : element :=
  {| el_tag := str_lit "div"; el_className := str_lit "marker";
     el_textContent := str_of_nat (index + 1) |}.

(** One call of the [forEach] callback of the render effect. *)
Definition addMarker (map : map_id) (entry : nat * option waypoint) : eff dom unit :=
  let '(index, wp) := entry in
  let el := marker_element index in
  marker ← Marker_new el;
  match wp with
  | None => throw TypeError
  | Some wp =>
      marker_setLngLat_addTo marker (coord wp) map;;
      modify (with_markersRef (λ l, l ++ [marker]))
  end.

(** The render effect, run after a render in which [waypoints] changed. *)
Definition renderEffect (waypoints : jsarray waypoint) : eff dom unit :=
  s ← get;
  match mapRef s with
  | None => mret ()
  | Some map =>
      for_each marker_remove (markersRef s);;
      modify (with_markersRef (λ _, []));;
      (if maplibreRef s then for_each (addMarker map) (arr_visited waypoints)
       else mret ());;
      routeSource ← map_getSource map (str_lit "route");
      match routeSource with
      | Some _ =>
          match arr_map_read coord waypoints with
          | Some coords => source_setData map (str_lit "route") coords
          | None => throw TypeError
          end
      | None => mret ()
      end
  end.

(** [toggleTerrain], given the [terrainEnabled] of the render it closes
    over.  The result is the value passed to [setTerrainEnabled], if any. *)
Definition toggleTerrain (terrainEnabled : bool) : eff dom (option bool) :=
  s ← get;
  match mapRef s with
  | None => mret None
  | Some map =>
      (if terrainEnabled then map_setTerrain map None
       else map_setTerrain map (Some terrain_on));;
      mret (Some (negb terrainEnabled))
  end.

(** ** Well-formed states *)

(** What holds of the references between runs of handlers: the map in
    [mapRef] exists and is not removed, it is the only such map, the
    library is stored once a map is, and a marker is shown only on that map
    and only while [markersRef] holds it. *)
Record dom_ok (s : dom) : Prop := DomOk {
  ok_map_live m :
    mapRef s = Some m → ∃ w, maps s !! m = Some w ∧ w_removed w = false;
  ok_lib : is_Some (mapRef s) → maplibreRef s = true;
  ok_shown k mk m :
    markers s !! k = Some mk → mk_map mk = Some m →
    mapRef s = Some m ∧ k ∈ markersRef s;
  ok_one_live m w :
    maps s !! m = Some w → w_removed w = false → mapRef s = Some m;
}.

(** A marker taken off its map. *)
Definition unmap (mk : marker) : marker :=
  {| mk_el := mk_el mk; mk_pos := mk_pos mk; mk_map := None |}.

(** The markers after [marker.remove()] on each of [l]. *)
Definition detach (l : list marker_id) (ks : list marker) : list marker :=
  foldl (λ ks k, alter unmap k ks) ks l.

(** The markers the render effect creates for the waypoints [ws]. *)
Definition placed (map : map_id) (ws : list waypoint) : list marker :=
  imap (λ i w, {| mk_el := marker_element i; mk_pos := coord w;
                  mk_map := Some map |}) ws.

(** The state after the render effect on a dense array, with a map. *)
Definition rendered (map : map_id) (ws : list waypoint) (s : dom) : dom :=
  let s1 := with_markersRef (λ _, seq (length (markers s)) (length ws))
              (with_markers (λ ks, detach (markersRef s) ks ++ placed map ws) s) in
  match route_source map s with
  | Some _ =>
      with_maps (alter (w_with_sources
        <[str_lit "route" := SrcGeoJson (arr_of_list (coord <$> ws))]>) map) s1
  | None => s1
  end.

(** The widget after the calls that follow its creation: the control is
    attached and the two callbacks are registered. *)
Definition widget_initial : widget :=
  {| w_sources := opt_sources (map_options_initial true);
     w_layers := opt_layers (map_options_initial true);
     w_terrain := opt_terrain (map_options_initial true);
     w_controls := 1; w_listeners := [LoadEvent; ClickEvent];
     w_fit := None; w_removed := false |}.

(** The state after the import callback of a run that is still mounted. *)
Definition imported (s : dom) : dom :=
  with_maps (λ ms, ms ++ [widget_initial])
    (with_mapRef (Some (length (maps s))) (with_maplibreRef true s)).

(** ** The style of a map *)

Definition layer_id (l : layer) : jsstring :=
  match l with
  | LayerRaster id _ _ _ | LayerLine id _ _ _ | LayerSky id _ => id
  end.

(** The source a layer draws from; a sky layer has none. *)
Definition layer_source (l : layer) : option jsstring :=
  match l with
  | LayerRaster _ src _ _ | LayerLine _ src _ _ => Some src
  | LayerSky _ _ => None
  end.

(** A style the widget accepts: no two layers share an identifier, every
    layer draws from a source of the style, and the terrain, when there is
    one, takes its heights from an elevation model of the style. *)
Definition style_ok (w : widget) : bool :=
  bool_decide (NoDup (layer_id <$> w_layers w))
  && forallb (λ l, match layer_source l with
                   | Some src => bool_decide (is_Some (w_sources w !! src))
                   | None => true
                   end) (w_layers w)
  && match w_terrain w with
     | Some t =>
         match w_sources w !! ter_source t with
         | Some (SrcRasterDem _ _ _ _) => true
         | _ => false
         end
     | None => true
     end.

(** The sources of a map of the page: those it was created with and,
    from its [load] event on, the route. *)
Definition style_sources (route : option (jsarray lnglat)) : gmap jsstring source :=
  match route with
  | Some coords =>
      <[str_lit "route" := SrcGeoJson coords]> (opt_sources (map_options_initial true))
  | None => opt_sources (map_options_initial true)
  end.

(** The style of a map of the page, before and after its [load] event. *)
Definition styled (loaded : bool) (w : widget) : Prop :=
  w_layers w
  = opt_layers (map_options_initial true)
    ++ (if loaded then [route_line_layer; sky_layer] else [])
  ∧ (∃ route, w_sources w = style_sources route ∧ bool_decide (is_Some route) = loaded)
  ∧ (w_terrain w = Some terrain_on ∨ w_terrain w = None).

(** Every map has the style of the page, [loaded] saying which maps had
    their [load] event. *)
Definition dom_styled (loaded : map_id → bool) (s : dom) : Prop :=
  ∀ m w, maps s !! m = Some w → styled (loaded m) w.

(** [useState(false)]: the flag [terrainEnabled] of the first render. *)
Definition terrainEnabled_initial : bool := false.

(** A page whose map has loaded: React attaches the container, then the
    first run of the mount effect, its import and the [load] event. *)
Definition dom_ready : dom :=
  exec (mountEffect true;; onImported 0;; onLoad 0) (with_mapContainerRef true dom_init).


Section adapter_lemmas.
Implicit Types (s : dom) (ks : list marker) (l : list marker_id)
  (ws : list waypoint) (map : map_id).

(** *** Removing markers *)

Lemma foldl_with_markers {A} (f : A → list marker → list marker) (xs : list A) s :
  foldl (λ s x, with_markers (f x) s) s xs
  = with_markers (λ ks, foldl (λ ks x, f x ks) ks xs) s.
Proof.
  revert s. induction xs as [|x xs IH]; intros s; [by destruct s|].
  simpl. by rewrite IH.
Qed.

Lemma for_each_marker_remove l s :
  for_each marker_remove l s = (Ok (), with_markers (detach l) s).
Proof.
  unfold marker_remove. rewrite for_each_modify. f_equal.
  apply (foldl_with_markers (λ k, alter unmap k)).
Qed.

Lemma length_detach l ks : length (detach l ks) = length ks.
Proof.
  unfold detach. revert ks. induction l as [|k l IH]; intros ks; [done|].
  simpl. by rewrite IH, length_alter.
Qed.

Lemma detach_lookup l ks k :
  detach l ks !! k
  = (if decide (k ∈ l) then unmap else id) <$> ks !! k.
Proof.
  unfold detach. revert ks. induction l as [|j l IH]; intros ks; cbn [foldl].
  { rewrite decide_False by apply not_elem_of_nil. by destruct (ks !! k). }
  rewrite IH. destruct (decide (k = j)) as [->|Hne].
  - rewrite list_lookup_alter_eq, (decide_True (P := j ∈ j :: l)) by left.
    destruct (ks !! j); simpl; [|done]. by case_decide.
  - rewrite list_lookup_alter_ne by done.
    destruct (ks !! k); simpl; [|done]. f_equal.
    repeat case_decide; try done; set_solver.
Qed.

Lemma detach_hidden l ks :
  (∀ k mk, ks !! k = Some mk → is_Some (mk_map mk) → k ∈ l) →
  Forall (λ mk, mk_map mk = None) (detach l ks).
Proof.
  intros Hl. apply Forall_lookup. intros k mk. rewrite detach_lookup.
  destruct (ks !! k) as [mk0|] eqn:Hk; simpl; [|done].
  intros [= <-]. case_decide; [done|]. simpl.
  destruct (mk_map mk0) eqn:Hm; [|done]. destruct H. by eapply Hl.
Qed.

Lemma omap_hidden map ks :
  Forall (λ mk, mk_map mk = None) ks →
  omap (λ k, if decide (mk_map k = Some map)
             then Some (mk_label k, mk_pos k) else None) ks = [].
Proof.
  induction 1 as [|mk ks Hmk _ IH]; [done|]. simpl.
  rewrite decide_False by congruence. done.
Qed.

(** *** Adding markers *)

Lemma addMarker_Some map i w s :
  addMarker map (i, Some w) s
  = (Ok (),
     with_markersRef (λ l, l ++ [length (markers s)])
       (with_markers (λ ks, ks ++ [{| mk_el := marker_element i;
                                       mk_pos := coord w; mk_map := Some map |}]) s)).
Proof.
  destruct s as [ms ks r l b fl ct]. cbv [addMarker Marker_new marker_setLngLat_addTo
    modify mbind eff_bind with_markers with_markersRef markers maps mapRef
    markersRef maplibreRef isMounted]. do 2 f_equal.
  replace (length ks) with (length ks + 0) at 1 by lia.
  by rewrite alter_app_r.
Qed.

Lemma for_each_addMarker map ws k0 s :
  for_each (addMarker map) (imap (λ n w, (k0 + n, Some w)) ws) s
  = (Ok (),
     with_markersRef (λ l, l ++ seq (length (markers s)) (length ws))
       (with_markers (λ ks, ks ++ imap (λ i w,
          {| mk_el := marker_element (k0 + i); mk_pos := coord w;
             mk_map := Some map |}) ws) s)).
Proof.
  revert k0 s. induction ws as [|w ws IH]; intros k0 s.
  { destruct s; cbv [with_markers with_markersRef]; simpl.
    by rewrite !app_nil_r. }
  cbn [imap for_each]. unfold mbind at 1, eff_bind at 1.
  rewrite Nat.add_0_r, addMarker_Some.
  rewrite (imap_ext _ (λ n w, (S k0 + n, Some w))) by (intros; simpl; f_equal; lia).
  rewrite IH. destruct s as [ms ks r l b fl ct].
  cbv [with_markers with_markersRef markers maps mapRef markersRef
       maplibreRef isMounted]. f_equal. f_equal.
  - rewrite <-app_assoc. f_equal. cbn [app]. f_equal.
    apply imap_ext. intros; simpl. do 2 f_equal. lia.
  - rewrite <-app_assoc, length_app. simpl. do 3 f_equal. lia.
Qed.

Lemma omap_placed map ws :
  omap (λ k, if decide (mk_map k = Some map)
             then Some (mk_label k, mk_pos k) else None) (placed map ws)
  = imap (λ i w, (str_of_nat (i + 1), coord w)) ws.
Proof.
  unfold placed.
  assert (∀ k0, omap (λ k, if decide (mk_map k = Some map)
             then Some (mk_label k, mk_pos k) else None)
    (imap (λ i w, {| mk_el := marker_element (k0 + i); mk_pos := coord w;
                     mk_map := Some map |}) ws)
    = imap (λ i w, (str_of_nat (k0 + i + 1), coord w)) ws) as Hgen.
  { induction ws as [|w ws IH]; intros k0; [done|]. cbn [imap].
    change (omap ?f (?x :: ?l)) with
      (match f x with Some y => y :: omap f l | None => omap f l end).
    cbn beta. cbn [mk_map mk_label mk_el mk_pos el_textContent marker_element].
    rewrite decide_True by done. f_equal.
    rewrite (imap_ext _ (λ i w, (str_of_nat (S k0 + i + 1), coord w)))
      by (intros; simpl; do 2 f_equal; lia).
    rewrite <-(IH (S k0)). f_equal. apply imap_ext. intros; simpl.
    do 2 f_equal. lia. }
  apply (Hgen 0).
Qed.

(** *** The render effect on an array of waypoints *)

Lemma renderEffect_no_map waypoints s :
  mapRef s = None → renderEffect waypoints s = (Ok (), s).
Proof. intros Hmap. unfold renderEffect, mbind, eff_bind, get. by rewrite Hmap. Qed.

Lemma renderEffect_dense map ws s :
  mapRef s = Some map → maplibreRef s = true →
  renderEffect (arr_of_list ws) s = (Ok (), rendered map ws s).
Proof.
  intros Hmap Hlib. unfold renderEffect, rendered, route_source.
  unfold mbind at 1, eff_bind at 1, get. rewrite Hmap, Hlib.
  unfold mbind at 1, eff_bind at 1. rewrite for_each_marker_remove.
  unfold mbind at 1, eff_bind at 1, modify at 1.
  unfold mbind at 1, eff_bind at 1.
  rewrite arr_visited_of_list.
  rewrite (for_each_addMarker map ws 0).
  unfold mbind at 1, eff_bind at 1, map_getSource, gets.
  rewrite arr_map_read_of_list.
  destruct s as [ms ks r l b fl ct]. cbn [with_markers with_markersRef with_maps
    maps markers mapRef markersRef maplibreRef isMounted]. rewrite length_detach.
  by destruct (ms !! map ≫= λ w, w_sources w !! str_lit "route").
Qed.

End adapter_lemmas.

(** ** Well-formedness is kept *)

Section dom_ok_lemmas.
Implicit Types (s : dom) (ks : list marker) (l : list marker_id)
  (ws : list waypoint) (map : map_id) (w : widget).

Lemma dom_ok_init : dom_ok dom_init.
Proof. split; cbn; intros; by simplify_list_eq. Qed.

(** A call on the map that neither removes nor revives it. *)
Lemma lookup_alter_removed (f : widget → widget) map m (ms : list widget) :
  (∀ w, w_removed (f w) = w_removed w) →
  (∀ w', alter f map ms !! m = Some w' →
         ∃ w, ms !! m = Some w ∧ w_removed w' = w_removed w) ∧
  (∀ w, ms !! m = Some w →
        ∃ w', alter f map ms !! m = Some w' ∧ w_removed w' = w_removed w).
Proof.
  intros Hf. destruct (decide (map = m)) as [->|Hne].
  - rewrite list_lookup_alter_eq. split.
    + intros w'. destruct (ms !! m) as [w|]; intros [= <-]. eauto.
    + intros w ->. simpl. eauto.
  - rewrite list_lookup_alter_ne by done. split; eauto.
Qed.

Lemma dom_ok_on_map (f : widget → widget) map s :
  (∀ w, w_removed (f w) = w_removed w) →
  dom_ok s → dom_ok (with_maps (alter f map) s).
Proof.
  intros Hf [H1 H2 H3 H4]. destruct s as [ms ks r l b fl ct]. split; cbn in *.
  - intros m Hm. destruct (H1 m Hm) as (w & Hw & Hr).
    destruct (proj2 (lookup_alter_removed f map m ms Hf) w Hw) as (w' & ? & ?).
    exists w'. split; congruence.
  - done.
  - done.
  - intros m w' Hw' Hr.
    destruct (proj1 (lookup_alter_removed f map m ms Hf) w' Hw') as (w & ? & ?).
    apply (H4 m w); congruence.
Qed.

Lemma preserves_on_map (f : widget → widget) map :
  (∀ w, w_removed (f w) = w_removed w) → preserves dom_ok (on_map map f).
Proof. intros Hf. apply preserves_modify. intros s. by apply dom_ok_on_map. Qed.

(** Taking every marker the page remembers off the map and forgetting
    them. *)
Lemma dom_ok_detach s :
  dom_ok s →
  dom_ok (with_markersRef (λ _, []) (with_markers (detach (markersRef s)) s)).
Proof.
  intros [H1 H2 H3 H4]. destruct s as [ms ks r l b fl ct]. split; cbn in *; try done.
  intros k mk m Hk Hm. exfalso.
  assert (Forall (λ mk, mk_map mk = None) (detach l ks)) as Hall.
  { apply detach_hidden. intros k' mk' Hk' [m' Hm']. by eapply H3. }
  rewrite list.Forall_lookup in Hall. specialize (Hall k mk Hk). congruence.
Qed.

(** One marker more, shown on the page's map and remembered. *)
Lemma dom_ok_place map el pos s :
  mapRef s = Some map → dom_ok s →
  dom_ok (with_markersRef (λ l, l ++ [length (markers s)])
            (with_markers (λ ks, ks ++ [{| mk_el := el; mk_pos := pos;
                                            mk_map := Some map |}]) s)).
Proof.
  intros Hmap [H1 H2 H3 H4]. destruct s as [ms ks r l b fl ct]. split; cbn in *; try done.
  intros k mk m Hk Hm. apply lookup_app_Some in Hk as [Hk|[Hge Hk]].
  - destruct (H3 k mk m Hk Hm). split; [done|]. apply elem_of_app. by left.
  - apply list_lookup_singleton_Some in Hk as [Hk <-]. simpl in Hm.
    split; [congruence|]. apply elem_of_app. right.
    apply list_elem_of_singleton. lia.
Qed.

(** One marker more that is shown nowhere. *)
Lemma dom_ok_orphan el pos s :
  dom_ok s →
  dom_ok (with_markers (λ ks, ks ++ [{| mk_el := el; mk_pos := pos;
                                         mk_map := None |}]) s).
Proof.
  intros [H1 H2 H3 H4]. destruct s as [ms ks r l b fl ct]. split; cbn in *; try done.
  intros k mk m Hk Hm. apply lookup_app_Some in Hk as [Hk|[Hge Hk]]; [by eapply H3|].
  by apply list_lookup_singleton_Some in Hk as [Hk <-].
Qed.

End dom_ok_lemmas.

(** ** The handlers keep the state well formed *)

Section handlers_ok.
Implicit Types (s : dom) (ks : list marker) (l : list marker_id)
  (ws : list waypoint) (map : map_id) (w : widget).

Lemma addMarker_None map i s :
  addMarker map (i, None) s
  = (Throw TypeError,
     with_markers (λ ks, ks ++ [{| mk_el := marker_element i;
                                    mk_pos := (S754_zero false, S754_zero false);
                                    mk_map := None |}]) s).
Proof. done. Qed.

Lemma preserves_addMarker map entry :
  preserves (λ s, dom_ok s ∧ mapRef s = Some map) (addMarker map entry).
Proof.
  destruct entry as [i [w|]]; intros s [Hok Hmap]; unfold exec.
  - rewrite addMarker_Some. split; [by apply dom_ok_place|by destruct s].
  - rewrite addMarker_None. split; [by apply dom_ok_orphan|by destruct s].
Qed.

(** The part of the render effect after the old markers are gone. *)
Lemma preserves_render_rest map (lib : bool) (waypoints : jsarray waypoint) :
  preserves (λ s, dom_ok s ∧ mapRef s = Some map)
    ((if lib then for_each (addMarker map) (arr_visited waypoints) else mret ());;
     routeSource ← map_getSource map (str_lit "route");
     match routeSource with
     | Some _ =>
         match arr_map_read coord waypoints with
         | Some coords => source_setData map (str_lit "route") coords
         | None => throw TypeError
         end
     | None => mret ()
     end).
Proof.
  apply preserves_bind.
  { destruct lib; [|apply preserves_ret].
    apply preserves_for_each. intros; apply preserves_addMarker. }
  intros _. apply preserves_bind; [apply preserves_gets|].
  intros [src|]; [|apply preserves_ret].
  destruct (arr_map_read coord waypoints); [|apply preserves_throw].
  apply preserves_modify. intros s [? ?]. split; [by apply dom_ok_on_map|by destruct s].
Qed.

Lemma renderEffect_ok waypoints : preserves dom_ok (renderEffect waypoints).
Proof.
  apply preserves_get_bind. intros s Hs.
  destruct (mapRef s) as [map|] eqn:Hmap; [|done].
  rewrite exec_bind, for_each_marker_remove, exec_bind. unfold modify at 1.
  apply (preserves_render_rest map). split; [by apply dom_ok_detach|by destruct s].
Qed.

Lemma toggleTerrain_ok terrainEnabled : preserves dom_ok (toggleTerrain terrainEnabled).
Proof.
  apply preserves_get_bind. intros s Hs. destruct (mapRef s) as [map|]; [|done].
  revert s Hs. apply preserves_bind; [|intros; apply preserves_ret].
  destruct terrainEnabled; by apply preserves_on_map.
Qed.

Lemma onLoad_ok map : preserves dom_ok (onLoad map).
Proof.
  unfold onLoad. repeat (apply preserves_bind; [|intros _]);
    by apply preserves_on_map.
Qed.

Lemma dom_ok_with_isMounted f s : dom_ok s → dom_ok (with_isMounted f s).
Proof. intros [H1 H2 H3 H4]. destruct s. by split. Qed.

Lemma mountEffect_ok has_window : preserves dom_ok (mountEffect has_window).
Proof.
  apply preserves_get_bind. intros s Hs. cbv zeta. rewrite exec_bind.
  unfold modify. destruct has_window; by apply dom_ok_with_isMounted.
Qed.

(** The state after [map.remove()] and clearing [mapRef]. *)
Lemma dom_ok_removed map s :
  mapRef s = Some map → dom_ok s →
  dom_ok (with_mapRef None (exec (map_remove map) s)).
Proof.
  intros Hmap [H1 H2 H3 H4]. destruct s as [ms ks r l b fl ct].
  split; cbn in *; try done.
  - intros k mk m Hk Hm. exfalso. rewrite list_lookup_fmap in Hk.
    destruct (ks !! k) as [mk0|] eqn:Hk0; [|done]. simpl in Hk.
    case_decide as Hd; simplify_eq/=.
    destruct (H3 k mk m Hk0 Hm) as [? _]. congruence.
  - intros m w Hw Hr. exfalso. destruct (decide (map = m)) as [->|Hne].
    + rewrite list_lookup_alter_eq in Hw.
      destruct (ms !! m); simplify_eq/=.
    + rewrite list_lookup_alter_ne in Hw by done.
      specialize (H4 m w Hw Hr). congruence.
Qed.

Lemma mountCleanup_ok k : preserves dom_ok (mountCleanup k).
Proof.
  apply preserves_bind.
  { apply preserves_modify. intros s. apply dom_ok_with_isMounted. }
  intros _. apply preserves_get_bind. intros s Hs.
  destruct (mapRef s) as [map|] eqn:Hmap; [|done].
  rewrite exec_bind. by apply dom_ok_removed.
Qed.

End handlers_ok.

(** ** The import callback *)

Section import_lemmas.
Implicit Types (s : dom) (map : map_id) (k : nat).

Lemma onImported_dead k s :
  isMounted s !! k ≠ Some true → onImported k s = (Ok (), s).
Proof.
  intros Hk. unfold onImported, mbind, eff_bind, get.
  destruct (isMounted s !! k) as [[]|]; done.
Qed.

Lemma onImported_live k s :
  isMounted s !! k = Some true → mapContainerRef s = true →
  onImported k s = (Ok (), imported s).
Proof.
  intros Hk Hct. unfold onImported. unfold mbind at 1, eff_bind at 1, get.
  rewrite Hk, Hct. destruct s as [ms ks r l b fl ct].
  cbv [negb default id mbind eff_bind modify Map_new map_addControl map_on on_map
       imported with_maps with_mapRef with_maplibreRef maps markers mapRef
       markersRef maplibreRef isMounted mapContainerRef map_options_initial
       opt_container]. do 2 f_equal.
  replace (length ms) with (length ms + 0) by lia.
  by rewrite !alter_app_r.
Qed.

(** Without a container the constructor throws: the library is kept, no
    map is made and [mapRef] stays empty. *)
Lemma onImported_no_container k s :
  isMounted s !! k = Some true → mapContainerRef s = false →
  onImported k s = (Throw (Error container_message), with_maplibreRef true s).
Proof.
  intros Hk Hct. unfold onImported. unfold mbind at 1, eff_bind at 1, get.
  by rewrite Hk, Hct.
Qed.

(** The container is no part of what the adapter keeps in order. *)
Lemma dom_ok_with_mapContainerRef b s : dom_ok s → dom_ok (with_mapContainerRef b s).
Proof. intros [H1 H2 H3 H4]. by destruct s. Qed.

Lemma dom_ok_imported s : mapRef s = None → dom_ok s → dom_ok (imported s).
Proof.
  intros Hmap [H1 H2 H3 H4]. destruct s as [ms ks r l b fl ct].
  split; cbn in *; subst r.
  - intros m [= <-]. exists widget_initial. by rewrite lookup_app_r, Nat.sub_diag.
  - done.
  - intros k mk m Hk Hm. by destruct (H3 k mk m Hk Hm).
  - intros m w Hw Hr. apply lookup_app_Some in Hw as [Hw|[Hge Hw]].
    + by specialize (H4 m w Hw Hr).
    + apply list_lookup_singleton_Some in Hw as [Hw _]. f_equal. lia.
Qed.

Lemma dom_ok_ready : dom_ok dom_ready.
Proof.
  change dom_ready with
    (exec (onLoad 0) (imported (exec (mountEffect true) (with_mapContainerRef true dom_init)))).
  apply onLoad_ok, dom_ok_imported; [done|].
  apply mountEffect_ok, dom_ok_with_mapContainerRef, dom_ok_init.
Qed.

End import_lemmas.

(** ** What the adapter guarantees *)

Section adapter_claims.
Implicit Types (s : dom) (ks : list marker) (l : list marker_id)
  (ws : list waypoint) (map : map_id).

Lemma markers_rendered map ws s :
  markers (rendered map ws s) = detach (markersRef s) (markers s) ++ placed map ws.
Proof. unfold rendered. destruct (route_source map s); by destruct s. Qed.

Lemma markers_on_detach_app map l ks ks' s :
  dom_ok s → ks = markers s → l = markersRef s →
  omap (λ k, if decide (mk_map k = Some map)
             then Some (mk_label k, mk_pos k) else None) (detach l ks ++ ks')
  = omap (λ k, if decide (mk_map k = Some map)
               then Some (mk_label k, mk_pos k) else None) ks'.
Proof.
  intros [_ _ H3 _] -> ->. rewrite omap_app, omap_hidden; [done|].
  apply detach_hidden. intros k mk Hk [m Hm]. by eapply H3.
Qed.

Lemma route_of_rendered map ws s :
  is_Some (route_source map s) →
  route_of map (rendered map ws s) = Some (arr_of_list (coord <$> ws)).
Proof.
  intros [src Hsrc]. unfold rendered. rewrite Hsrc.
  unfold route_of, route_source in *. destruct s as [ms ks r l b fl ct]; cbn in *.
  rewrite list_lookup_alter_eq. destruct (ms !! map) as [w|]; [|done]. cbn.
  by rewrite lookup_insert_eq.
Qed.

Lemma renderEffect_markers map ws s :
  dom_ok s → mapRef s = Some map →
  markers_on map (exec (renderEffect (arr_of_list ws)) s)
  = imap (λ i w, (str_of_nat (i + 1), coord w)) ws.
Proof.
  intros Hok Hmap. pose proof (ok_lib s Hok (mk_is_Some _ _ Hmap)) as Hlib.
  unfold exec. rewrite (renderEffect_dense map) by done. cbn [snd].
  unfold markers_on. rewrite markers_rendered.
  rewrite (markers_on_detach_app map _ _ _ s) by done. apply omap_placed.
Qed.

Lemma renderEffect_route map ws s :
  dom_ok s → mapRef s = Some map → is_Some (route_source map s) →
  route_of map (exec (renderEffect (arr_of_list ws)) s)
  = Some (arr_of_list (coord <$> ws)).
Proof.
  intros Hok Hmap Hsrc. pose proof (ok_lib s Hok (mk_is_Some _ _ Hmap)) as Hlib.
  unfold exec. rewrite (renderEffect_dense map) by done.
  by apply route_of_rendered.
Qed.

(** C4 (render sync).  With a map on the page, the render effect on an
    array of waypoints completes, leaves on the map exactly one marker per
    waypoint, labelled with the waypoint's position counted from 1 and placed
    at its coordinates, in order, and, once the route source exists, sets the
    line to the coordinates in order. *)
Theorem renderEffect_sync map ws s :
  dom_ok s → mapRef s = Some map →
  completes (renderEffect (arr_of_list ws)) s = true ∧
  markers_on map (exec (renderEffect (arr_of_list ws)) s)
    = imap (λ i w, (str_of_nat (i + 1), coord w)) ws ∧
  length (markersRef (exec (renderEffect (arr_of_list ws)) s)) = length ws ∧
  (is_Some (route_source map s) →
   route_of map (exec (renderEffect (arr_of_list ws)) s)
     = Some (arr_of_list (coord <$> ws))).
Proof.
  intros Hok Hmap. pose proof (ok_lib s Hok (mk_is_Some _ _ Hmap)) as Hlib.
  split_and!; [| by apply renderEffect_markers | | by apply renderEffect_route];
    unfold completes, exec; rewrite (renderEffect_dense map) by done; [done|].
  unfold rendered. destruct (route_source map s); destruct s; apply length_seq.
Qed.

Lemma renderEffect_sync_witness :
  let ws := [Waypoint (str_lit "A") (num_of_Z 1, num_of_Z 2);
             Waypoint (str_lit "B") (num_of_Z 3, num_of_Z 4)] in
  markers_on 0 (exec (renderEffect (arr_of_list ws)) dom_ready)
    = [(str_lit "1", (num_of_Z 1, num_of_Z 2)); (str_lit "2", (num_of_Z 3, num_of_Z 4))].
Proof.
  cbv zeta. exact (proj1 (proj2 (renderEffect_sync 0 _ dom_ready dom_ok_ready eq_refl))).
Defined.

Lemma markers_with_markers f g s :
  markers (with_markersRef f (with_markers g s)) = g (markers s).
Proof. by destruct s. Qed.

(** The render effect on an array whose first entry that is not a waypoint
    is [undefined]: the markers before it are placed, one more marker is
    created and never shown, and the effect throws. *)
Lemma renderEffect_undef map ws (rest : jsarray waypoint) s :
  mapRef s = Some map → maplibreRef s = true →
  renderEffect (arr_of_list ws ++ Undef :: rest) s
  = (Throw TypeError,
     with_markersRef (λ _, seq (length (markers s)) (length ws))
       (with_markers (λ ks, detach (markersRef s) ks ++ placed map ws ++
          [{| mk_el := marker_element (length ws);
              mk_pos := (S754_zero false, S754_zero false);
              mk_map := None |}]) s)).
Proof.
  intros Hmap Hlib. unfold renderEffect.
  unfold mbind at 1, eff_bind at 1, get. rewrite Hmap, Hlib.
  unfold mbind at 1, eff_bind at 1. rewrite for_each_marker_remove.
  unfold mbind at 1, eff_bind at 1, modify at 1.
  unfold mbind at 1, eff_bind at 1.
  unfold arr_visited. rewrite arr_visited_from_app. cbn [arr_visited_from slot_val].
  rewrite (for_each_app (addMarker map)).
  unfold mbind at 1, eff_bind at 1. rewrite (for_each_addMarker map ws 0).
  cbn [for_each]. unfold mbind at 1, eff_bind at 1. rewrite addMarker_None.
  destruct s as [ms ks r l b fl ct]. cbv [with_markers with_markersRef with_maps
    maps markers mapRef markersRef maplibreRef isMounted placed].
  by rewrite length_detach, <-app_assoc.
Qed.

(** C33 (render of a damaged array).  When the first entry of the array
    that is not a waypoint is [undefined], the render effect throws a
    [TypeError] after placing the markers of the waypoints before it; the
    route line is not touched, so it still shows the route of the previous
    render. *)
Theorem renderEffect_undefined map ws (rest : jsarray waypoint) s :
  dom_ok s → mapRef s = Some map →
  (renderEffect (arr_of_list ws ++ Undef :: rest) s).1 = Throw TypeError ∧
  markers_on map (exec (renderEffect (arr_of_list ws ++ Undef :: rest)) s)
    = imap (λ i w, (str_of_nat (i + 1), coord w)) ws ∧
  route_source map (exec (renderEffect (arr_of_list ws ++ Undef :: rest)) s)
    = route_source map s.
Proof.
  intros Hok Hmap. pose proof (ok_lib s Hok (mk_is_Some _ _ Hmap)) as Hlib.
  unfold exec. rewrite (renderEffect_undef map) by done. cbn [fst snd].
  split_and!; [done| |by destruct s].
  unfold markers_on. rewrite markers_with_markers.
  rewrite (markers_on_detach_app map _ _ _ s) by done.
  rewrite omap_app, omap_placed. cbn. by rewrite app_nil_r.
Qed.

Lemma renderEffect_undefined_witness :
  let w := Waypoint (str_lit "A") (num_of_Z 1, num_of_Z 2) in
  (renderEffect [Val w; Undef; Val w] dom_ready).1 = Throw TypeError ∧
  markers_on 0 (exec (renderEffect [Val w; Undef; Val w]) dom_ready)
    = [(str_lit "1", (num_of_Z 1, num_of_Z 2))].
Proof.
  cbv zeta.
  pose proof (renderEffect_undefined 0
    [Waypoint (str_lit "A") (num_of_Z 1, num_of_Z 2)]
    [Val (Waypoint (str_lit "A") (num_of_Z 1, num_of_Z 2))]
    dom_ready dom_ok_ready eq_refl) as (H1 & H2 & _).
  exact (conj H1 H2).
Defined.

(** *** Before the map is ready *)

Lemma markers_on_no_map m s : dom_ok s → mapRef s ≠ Some m → markers_on m s = [].
Proof.
  intros [_ _ H3 _] Hm. unfold markers_on.
  assert (Forall (λ mk, mk_map mk ≠ Some m) (markers s)) as Hall.
  { apply list.Forall_lookup. intros k mk Hk Hmk.
    by destruct (H3 k mk m Hk Hmk). }
  revert Hall. generalize (markers s).
  induction 1 as [|mk ks Hmk _ IH]; [done|]. simpl. by rewrite decide_False.
Qed.

Lemma onLoad_frame map s :
  markers (exec (onLoad map) s) = markers s ∧
  mapRef (exec (onLoad map) s) = mapRef s ∧
  length (maps (exec (onLoad map) s)) = length (maps s).
Proof.
  destruct s as [ms ks r l b fl ct]. split_and!; [done..|].
  cbv [exec onLoad map_addSource map_addLayer on_map modify mbind eff_bind
       with_maps maps snd]. by rewrite !length_alter.
Qed.

Lemma route_of_onLoad map s :
  is_Some (maps s !! map) → route_of map (exec (onLoad map) s) = Some [].
Proof.
  intros [w Hw]. destruct s as [ms ks r l b fl ct]. cbn [maps] in Hw.
  cbv [route_of route_source exec onLoad map_addSource map_addLayer on_map
       modify mbind eff_bind with_maps maps snd].
  rewrite !list_lookup_alter_eq, Hw. simpl. by rewrite lookup_insert_eq.
Qed.

Lemma imported_frame s :
  markers (imported s) = markers s ∧ markersRef (imported s) = markersRef s ∧
  mapRef (imported s) = Some (length (maps s)) ∧
  maps (imported s) = maps s ++ [widget_initial].
Proof. by destruct s. Qed.

(** C23 (render before the map exists).  A render effect that runs while
    there is no map does nothing and does not fail, whatever the array; when
    the import and the [load] event arrive afterwards, the new map shows no
    marker and an empty line, whatever the waypoints are: nothing applies
    the waypoints to the map until they change again. *)
Theorem render_before_ready (waypoints : jsarray waypoint) k s :
  dom_ok s → mapRef s = None → isMounted s !! k = Some true →
  mapContainerRef s = true →
  renderEffect waypoints s = (Ok (), s) ∧
  mapRef (exec (renderEffect waypoints;; onImported k;; onLoad (length (maps s))) s)
    = Some (length (maps s)) ∧
  markers_on (length (maps s))
    (exec (renderEffect waypoints;; onImported k;; onLoad (length (maps s))) s) = [] ∧
  route_of (length (maps s))
    (exec (renderEffect waypoints;; onImported k;; onLoad (length (maps s))) s)
    = Some [].
Proof.
  intros Hok Hmap Hk Hct. split; [by apply renderEffect_no_map|].
  rewrite exec_bind, renderEffect_no_map, exec_bind, onImported_live by done.
  destruct (imported_frame s) as (Hks & _ & Hr & Hms).
  destruct (onLoad_frame (length (maps s)) (imported s)) as (Hks' & Hr' & _).
  split_and!.
  - congruence.
  - unfold markers_on. rewrite Hks', Hks. apply (markers_on_no_map _ s Hok). congruence.
  - apply route_of_onLoad. rewrite Hms, lookup_app_r, Nat.sub_diag; done.
Qed.

Lemma render_before_ready_witness :
  let w := Waypoint (str_lit "A") (num_of_Z 1, num_of_Z 2) in
  let s := exec (mountEffect true) (with_mapContainerRef true dom_init) in
  markers_on 0 (exec (renderEffect [Val w];; onImported 0;; onLoad 0) s) = [] ∧
  route_of 0 (exec (renderEffect [Val w];; onImported 0;; onLoad 0) s) = Some [].
Proof.
  cbv zeta.
  pose proof (render_before_ready
    [Val (Waypoint (str_lit "A") (num_of_Z 1, num_of_Z 2))] 0
    (exec (mountEffect true) (with_mapContainerRef true dom_init))
    (mountEffect_ok true _ (dom_ok_with_mapContainerRef true _ dom_ok_init))
    eq_refl eq_refl eq_refl) as (_ & _ & H1 & H2).
  exact (conj H1 H2).
Defined.

(** *** Terrain *)

Lemma toggleTerrain_map b map s :
  mapRef s = Some map →
  toggleTerrain b s
  = (Ok (Some (negb b)),
     with_maps (alter (w_with_terrain (if b then None else Some terrain_on)) map) s).
Proof.
  intros Hmap. unfold toggleTerrain, mbind, eff_bind, get. rewrite Hmap.
  by destruct b.
Qed.

Lemma terrain_of_set t map s :
  is_Some (maps s !! map) →
  terrain_of map (with_maps (alter (w_with_terrain t) map) s) = t.
Proof.
  intros [w Hw]. destruct s as [ms ks r l b fl ct]. unfold terrain_of. cbn in *.
  by rewrite list_lookup_alter_eq, Hw.
Qed.

Lemma with_maps_frame f s :
  mapRef (with_maps f s) = mapRef s ∧ markers (with_maps f s) = markers s ∧
  maps (with_maps f s) = f (maps s).
Proof. by destruct s. Qed.

(** Terrain toggled twice.  On a page whose widget agrees with the
    flag [terrainEnabled], one call of [toggleTerrain] flips the flag and
    sets the terrain of the widget to match, and a second call restores both
    the flag and the terrain the widget started with. *)
Theorem toggleTerrain_twice (terrainEnabled : bool) map s :
  dom_ok s → mapRef s = Some map →
  terrain_of map s = (if terrainEnabled then Some terrain_on else None) →
  (toggleTerrain terrainEnabled s).1 = Ok (Some (negb terrainEnabled)) ∧
  terrain_of map (exec (toggleTerrain terrainEnabled) s)
    = (if negb terrainEnabled then Some terrain_on else None) ∧
  (toggleTerrain (negb terrainEnabled) (exec (toggleTerrain terrainEnabled) s)).1
    = Ok (Some terrainEnabled) ∧
  terrain_of map (exec (toggleTerrain (negb terrainEnabled))
                    (exec (toggleTerrain terrainEnabled) s))
    = terrain_of map s.
Proof.
  intros Hok Hmap Ht. destruct (ok_map_live s Hok map Hmap) as (w & Hw & _).
  unfold exec. rewrite (toggleTerrain_map _ map s) by done. cbn [fst snd].
  destruct (with_maps_frame
    (alter (w_with_terrain (if terrainEnabled then None else Some terrain_on)) map) s)
    as (Hr & _ & Hms).
  rewrite (toggleTerrain_map _ map) by congruence. cbn [fst snd].
  rewrite !terrain_of_set, Ht, negb_involutive.
  - by destruct terrainEnabled.
  - rewrite Hms, list_lookup_alter_eq, Hw. by eexists.
  - by eexists.
Qed.

Lemma toggleTerrain_twice_witness :
  terrain_of 0 (exec (toggleTerrain false) (exec (toggleTerrain true) dom_ready))
  = terrain_of 0 dom_ready.
Proof.
  exact (proj2 (proj2 (proj2
    (toggleTerrain_twice true 0 dom_ready dom_ok_ready eq_refl eq_refl)))).
Defined.

(** Terrain of a new map.  The map is created with terrain on, while
    the page starts with [terrainEnabled] false.  The first call of
    [toggleTerrain] therefore changes nothing on the widget, and after the
    second call the widget has no terrain: two calls do not restore the
    widget's first configuration. *)
Theorem terrain_initial_mismatch k s :
  isMounted s !! k = Some true → mapContainerRef s = true →
  terrain_of (length (maps s)) (exec (onImported k) s) = Some terrain_on ∧
  terrain_of (length (maps s))
    (exec (toggleTerrain terrainEnabled_initial) (exec (onImported k) s))
    = Some terrain_on ∧
  terrain_of (length (maps s))
    (exec (toggleTerrain (negb terrainEnabled_initial))
       (exec (toggleTerrain terrainEnabled_initial) (exec (onImported k) s)))
    = None.
Proof.
  intros Hk Hct.
  assert (exec (onImported k) s = imported s) as ->
    by (unfold exec; by rewrite onImported_live).
  destruct (imported_frame s) as (_ & _ & Hr & Hms).
  assert (is_Some (maps (imported s) !! length (maps s))) as Hw.
  { rewrite Hms, lookup_app_r, Nat.sub_diag; done. }
  unfold exec. rewrite (toggleTerrain_map _ (length (maps s)) (imported s)) by done.
  cbn [fst snd].
  destruct (with_maps_frame (alter (w_with_terrain
    (if terrainEnabled_initial then None else Some terrain_on)) (length (maps s)))
    (imported s)) as (Hr' & _ & Hms').
  rewrite (toggleTerrain_map _ (length (maps s))) by congruence. cbn [fst snd].
  assert (is_Some (maps (with_maps (alter (w_with_terrain
    (if terrainEnabled_initial then None else Some terrain_on)) (length (maps s)))
    (imported s)) !! length (maps s))) as Hw'.
  { rewrite Hms'. destruct Hw as [w Hw]. rewrite list_lookup_alter_eq, Hw. by eexists. }
  rewrite !terrain_of_set by done.
  split_and!; [|done..]. unfold terrain_of.
  by rewrite Hms, lookup_app_r, Nat.sub_diag.
Qed.

Lemma terrain_initial_mismatch_witness :
  terrain_of 0 (exec (toggleTerrain true) (exec (toggleTerrain false)
    (exec (onImported 0)
       (exec (mountEffect true) (with_mapContainerRef true dom_init))))) = None.
Proof.
  exact (proj2 (proj2
    (terrain_initial_mismatch 0
       (exec (mountEffect true) (with_mapContainerRef true dom_init)) eq_refl eq_refl))).
Defined.

(** *** Unmounting *)

Lemma markers_on_removed m map s :
  dom_ok s → mapRef s = Some map →
  markers_on m (with_mapRef None (exec (map_remove map) s)) = [].
Proof.
  intros Hok Hmap. apply markers_on_no_map; [by apply dom_ok_removed|by destruct s].
Qed.

(** C37 (unmounting).  The cleanup of the mount effect, on a page with a
    map, marks its run unmounted, removes the map with its listeners, leaves
    no marker shown on any map and clears [mapRef]. *)
Theorem mountCleanup_releases k map s :
  dom_ok s → mapRef s = Some map →
  completes (mountCleanup k) s = true ∧
  mapRef (exec (mountCleanup k) s) = None ∧
  isMounted (exec (mountCleanup k) s) !! k ≠ Some true ∧
  (∀ m, markers_on m (exec (mountCleanup k) s) = []) ∧
  (∃ w, maps (exec (mountCleanup k) s) !! map = Some w ∧
        w_removed w = true ∧ w_listeners w = []).
Proof.
  intros Hok Hmap. destruct (ok_map_live s Hok map Hmap) as (w & Hw & _).
  assert (mountCleanup k s
          = (Ok (), with_mapRef None (exec (map_remove map)
                      (with_isMounted <[k := false]> s)))) as Heq.
  { unfold mountCleanup, mbind, eff_bind, modify, get.
    replace (mapRef (with_isMounted <[k:=false]> s)) with (Some map) by by destruct s.
    done. }
  unfold completes, exec at 1 2 3 4. rewrite Heq. cbn [fst snd].
  split_and!; [done|by destruct s| | |].
  - destruct s as [ms ks r l b fl ct]. cbn.
    destruct (decide (k < length fl)).
    + by rewrite list_lookup_insert_eq.
    + by rewrite lookup_ge_None_2 by (len; lia).
  - intros m. apply markers_on_removed; [by apply dom_ok_with_isMounted|by destruct s].
  - destruct s as [ms ks r l b fl ct]. cbn in *.
    rewrite list_lookup_alter_eq, Hw. by eexists.
Qed.

Lemma mountCleanup_releases_witness :
  mapRef (exec (mountCleanup 0) dom_ready) = None ∧
  ∀ m, markers_on m (exec (mountCleanup 0) dom_ready) = [].
Proof.
  pose proof (mountCleanup_releases 0 0 dom_ready dom_ok_ready eq_refl)
    as (_ & H1 & _ & H2 & _).
  exact (conj H1 H2).
Defined.

(** Import after unmount.  When the cleanup of a run of the mount
    effect comes before its import resolves, the import callback creates no
    map and changes nothing. *)
Theorem onImported_after_cleanup s :
  onImported (length (isMounted s))
    (exec (mountEffect true;; mountCleanup (length (isMounted s))) s)
  = (Ok (), exec (mountEffect true;; mountCleanup (length (isMounted s))) s).
Proof.
  apply onImported_dead.
  assert (∀ s', isMounted (exec (mountCleanup (length (isMounted s))) s')
                = <[length (isMounted s) := false]> (isMounted s')) as Hfl.
  { intros s'. unfold mountCleanup. rewrite exec_bind. unfold modify at 1.
    rewrite exec_bind. unfold get.
    replace (mapRef (with_isMounted _ s')) with (mapRef s') by by destruct s'.
    destruct (mapRef s'); by destruct s'. }
  rewrite exec_bind.
  assert (mountEffect true s
          = (Ok (Some (length (isMounted s))), with_isMounted (λ fl, fl ++ [true]) s))
    as -> by done.
  rewrite Hfl. destruct s as [ms ks r l b fl ct]. cbn.
  rewrite list_lookup_insert_eq by (len; lia). done.
Qed.
End adapter_claims.

(** ** What the render effect leaves alone

    A property of the state that no change of the markers or of
    [markersRef] disturbs, and that survives new data for a route source
    that exists, holds after the render effect if it held before. *)

Section render_frame.
Context (P : dom → Prop).
Context (P_markers : ∀ f s, P s → P (with_markers f s)).
Context (P_markersRef : ∀ f s, P s → P (with_markersRef f s)).
Context (P_setData : ∀ map coords s,
  P s → is_Some (route_source map s) →
  P (with_maps (alter (w_with_sources
       <[str_lit "route" := SrcGeoJson coords]>) map) s)).

Lemma addMarker_frame map entry : preserves P (addMarker map entry).
Proof.
  destruct entry as [i [w|]]; intros s Hs; unfold exec.
  - rewrite addMarker_Some. by apply P_markersRef, P_markers.
  - rewrite addMarker_None. by apply P_markers.
Qed.

Lemma renderEffect_frame waypoints : preserves P (renderEffect waypoints).
Proof.
  apply preserves_get_bind. intros s Hs.
  destruct (mapRef s) as [map|]; [|done].
  generalize (markersRef s) (maplibreRef s). intros l lib. revert s Hs.
  apply preserves_bind; [|intros _; apply preserves_bind; [|intros _]].
  - intros s Hs. unfold exec. rewrite for_each_marker_remove. by apply P_markers.
  - apply preserves_modify. intros s. apply P_markersRef.
  - apply preserves_bind; [|intros _].
    { destruct lib; [|apply preserves_ret].
      apply preserves_for_each. intros; apply addMarker_frame. }
    apply preserves_gets_bind. intros s Hs.
    destruct (maps s !! map ≫= _) as [src|] eqn:Hsrc; [|done].
    destruct (arr_map_read coord waypoints); [|done].
    apply P_setData; [done|]. unfold route_source. by rewrite Hsrc.
Qed.

End render_frame.

(** ** What a call leaves of a widget *)

Section widget_fields.
Context {A : Type} (field : widget → option A).
Implicit Types (s : dom) (map m : map_id).

(** A call on a map that does not change a field of its widget. *)
Lemma on_map_field (f : widget → widget) map m s :
  (∀ w, field (f w) = field w) →
  maps (with_maps (alter f map) s) !! m ≫= field = maps s !! m ≫= field.
Proof.
  intros Hf. destruct s as [ms ks r l b fl ct]. cbn [maps with_maps].
  destruct (decide (map = m)) as [->|Hne].
  - rewrite list_lookup_alter_eq. destruct (ms !! m); [apply Hf|done].
  - by rewrite list_lookup_alter_ne.
Qed.

(** The render effect changes the sources of a map and nothing else of
    it. *)
Lemma renderEffect_field m waypoints s :
  (∀ g w, field (w_with_sources g w) = field w) →
  maps (exec (renderEffect waypoints) s) !! m ≫= field = maps s !! m ≫= field.
Proof.
  intros Hf.
  apply (renderEffect_frame (λ s', maps s' !! m ≫= field = maps s !! m ≫= field));
    [..|done].
  - intros f s' <-. by destruct s'.
  - intros f s' <-. by destruct s'.
  - intros map coords s' <- _. by apply on_map_field.
Qed.

End widget_fields.

(** ** The style of the maps *)

Section style.
Implicit Types (s : dom) (w : widget) (map m : map_id) (loaded : map_id → bool).

(** The style of the page is one the widget accepts, before [load] and
    after it. *)
Lemma styled_style_ok b w : styled b w → style_ok w = true.
Proof.
  intros (Hl & (route & Hs & Hb) & Ht). unfold style_ok. rewrite Hl, Hs.
  destruct route as [c|], b; try done; by destruct Ht as [-> | ->].
Qed.

Lemma styled_initial : styled false widget_initial.
Proof. split_and!; [done|by exists None|by left]. Qed.

Lemma styled_fields b w w' :
  w_layers w' = w_layers w → w_sources w' = w_sources w → w_terrain w' = w_terrain w →
  styled b w → styled b w'.
Proof. unfold styled. by intros -> -> ->. Qed.

Lemma styled_setData b coords w :
  is_Some (w_sources w !! str_lit "route") → styled b w →
  styled b (w_with_sources <[str_lit "route" := SrcGeoJson coords]> w).
Proof.
  intros Hr (Hl & (route & Hs & Hb) & Ht). split_and!; [done| |done].
  cbn [w_with_sources w_sources]. rewrite Hs in *. destruct route as [c|].
  - exists (Some coords). split; [apply insert_insert_eq|done].
  - by destruct Hr as [x Hx].
Qed.

Lemma styled_loaded w :
  styled false w →
  styled true
    (w_with_layers (λ ls, ls ++ [sky_layer])
       (w_with_layers (λ ls, ls ++ [route_line_layer])
          (w_with_sources <[str_lit "route" := SrcGeoJson []]> w))).
Proof.
  intros (Hl & (route & Hs & Hb) & Ht). destruct route; [done|].
  split_and!; cbn [w_with_layers w_with_sources w_layers w_sources w_terrain].
  - by rewrite Hl, <-!app_assoc.
  - exists (Some []). by rewrite Hs.
  - done.
Qed.

Lemma dom_styled_ext loaded loaded' s :
  (∀ m, m < length (maps s) → loaded' m = loaded m) →
  dom_styled loaded s → dom_styled loaded' s.
Proof. intros He Hs m w Hm. rewrite He by by eapply lookup_lt_Some. by apply Hs. Qed.

Lemma dom_styled_maps loaded s s' :
  maps s' = maps s → dom_styled loaded s → dom_styled loaded s'.
Proof. unfold dom_styled. by intros ->. Qed.

(** A call on a map that keeps the style of its widget, or takes it
    from the style before [load] to the style after it. *)
Lemma dom_styled_alter (f : widget → widget) loaded b map s :
  (∀ w, maps s !! map = Some w → styled (loaded map) w → styled b (f w)) →
  dom_styled loaded s →
  dom_styled (λ m, if decide (m = map) then b else loaded m)
    (with_maps (alter f map) s).
Proof.
  intros Hf Hs m w. destruct (with_maps_frame (alter f map) s) as (_ & _ & ->).
  case_decide as Hm; [subst m|by rewrite list_lookup_alter_ne; [apply Hs|]].
  rewrite list_lookup_alter_eq. destruct (maps s !! map) as [w'|] eqn:Hw; [|done].
  intros [= <-]. by apply Hf, Hs.
Qed.

Lemma dom_styled_on_map (f : widget → widget) loaded map s :
  (∀ w, maps s !! map = Some w → styled (loaded map) w → styled (loaded map) (f w)) →
  dom_styled loaded s → dom_styled loaded (with_maps (alter f map) s).
Proof.
  intros Hf Hs. eapply dom_styled_ext; [|by apply dom_styled_alter].
  intros m _. cbn. by case_decide; subst.
Qed.

Lemma renderEffect_styled loaded waypoints :
  preserves (dom_styled loaded) (renderEffect waypoints).
Proof.
  apply renderEffect_frame.
  - intros f s. apply dom_styled_maps. by destruct s.
  - intros f s. apply dom_styled_maps. by destruct s.
  - intros map coords s Hs Hr. apply dom_styled_on_map; [|done].
    intros w Hw. apply styled_setData. unfold route_source in Hr. by rewrite Hw in Hr.
Qed.

Lemma toggleTerrain_styled loaded b : preserves (dom_styled loaded) (toggleTerrain b).
Proof.
  intros s Hs. unfold exec. destruct (mapRef s) as [map|] eqn:Hmap.
  - rewrite (toggleTerrain_map b map s Hmap). cbn [snd]. apply dom_styled_on_map; [|done].
    intros w _ (Hl & Hsrc & _). split_and!; [done..|]. destruct b; [by right|by left].
  - unfold toggleTerrain, mbind, eff_bind, get. by rewrite Hmap.
Qed.

Lemma map_fitBounds_styled loaded map box padding :
  preserves (dom_styled loaded) (map_fitBounds map box padding).
Proof.
  apply preserves_modify. intros s. apply dom_styled_on_map.
  intros w _. by apply styled_fields.
Qed.

Lemma map_remove_styled loaded map : preserves (dom_styled loaded) (map_remove map).
Proof.
  intros s Hs. unfold exec, map_remove. cbn [snd].
  apply (dom_styled_maps loaded
    (with_maps (alter (λ w, w_with_removed true (w_with_listeners (λ _, []) w)) map) s));
    [by destruct s|].
  apply dom_styled_on_map; [|done]. intros w _. by apply styled_fields.
Qed.

(** The [load] callback takes a map from its first style to its full
    style. *)
Lemma onLoad_styled loaded map s :
  loaded map = false → dom_styled loaded s →
  dom_styled (λ m, if decide (m = map) then true else loaded m) (exec (onLoad map) s).
Proof.
  intros Hmap Hs.
  assert (exec (onLoad map) s
          = with_maps (alter (λ w,
              w_with_layers (λ ls, ls ++ [sky_layer])
                (w_with_layers (λ ls, ls ++ [route_line_layer])
                   (w_with_sources <[str_lit "route" := SrcGeoJson []]> w))) map) s) as ->.
  { destruct s as [ms ks r l b fl ct].
    cbv [exec onLoad map_addSource map_addLayer on_map modify mbind eff_bind
         with_maps maps snd]. f_equal. by rewrite !list_alter_alter_eq. }
  apply dom_styled_alter; [|done]. intros w _. rewrite Hmap. apply styled_loaded.
Qed.

(** A new map has the first style. *)
Lemma imported_styled loaded s :
  dom_styled loaded s →
  dom_styled (λ m, if decide (m = length (maps s)) then false else loaded m)
    (imported s).
Proof.
  intros Hs m w. destruct (imported_frame s) as (_ & _ & _ & ->).
  intros [Hm|[Hm Hw]]%lookup_app_Some.
  - rewrite decide_False by (apply lookup_lt_Some in Hm; lia). by apply Hs.
  - destruct (m - length (maps s)) eqn:Hd; [|done]. injection Hw as <-.
    rewrite decide_True by lia. apply styled_initial.
Qed.

End style.
