(* ===== verification/Lifecycle.v ===== *)
(** * Lifecycle: the map across mounts, imports and unmounts

    The mount effect of [Home] (src/unnamed/part_000, lines 46-156) leaves
    three callbacks behind: the [then] of the import, the [load] listener
    of the map it creates, and its cleanup.  React and the browser decide
    when each runs.  This file models those runs as events on a [view]: the
    state of [MapView] together with the callbacks that are still pending,
    and proves what holds in every state the events can reach,
    whatever their order.  The container of the map is React's to attach:
    it is attached when the mount effect runs and detached when its cleanup
    does.  The import can fail: the promise has no handler for that (line
    51 has a [then] and no [catch]), so a failed import runs no code of the
    page and only stops being pending. *)

From Stdlib Require Import ZArith Lia.
From stdpp Require Import gmap.
From S2P Require Import Prelude JsNum JsString JsArray Effect Waypoints MapView.

(** ** The view *)

Record view : Type := View {
  v_dom : dom;
  (** the run of the mount effect whose cleanup React holds *)
  v_run : option nat;
  (** the runs whose import has not resolved *)
  v_importing : list nat;
  (** the maps whose [load] event has not fired *)
  v_loading : list map_id;
}.

Definition view_init : view :=
  {| v_dom := dom_init; v_run := None; v_importing := []; v_loading := [] |}.

Inductive view_event : Type :=
| VMount (has_window : bool)
| VImported (k : nat)
| VImportFailed (k : nat)
| VLoad (map : map_id)
| VUnmount
| VRender (waypoints : jsarray waypoint)
| VToggle (terrainEnabled : bool).

(** Whether a map still has a listener for an event. *)
Definition listens (ev : map_event) (map : map_id) (s : dom) : bool :=
  match maps s !! map with
  | Some w => bool_decide (ev ∈ w_listeners w)
  | None => false
  end.

(** React runs the mount effect only when no cleanup of it is pending; an
    import resolves or fails, once; [load] fires once, on a map that
    listens. *)
Definition view_enabled (v : view) (e : view_event) : bool :=
  match e with
  | VMount _ => bool_decide (v_run v = None)
  | VImported k | VImportFailed k => bool_decide (k ∈ v_importing v)
  | VLoad map => bool_decide (map ∈ v_loading v) && listens LoadEvent map (v_dom v)
  | VUnmount => bool_decide (is_Some (v_run v))
  | VRender _ | VToggle _ => true
  end.

(** The code React and the browser run for an event.  React attaches the
    container of the map before it runs the mount effect, and detaches it
    at unmount before it runs the cleanup.  A failed import runs nothing:
    the callback of [then] is skipped and the rejection is nobody's. *)
Definition view_handler (v : view) (e : view_event) : view :=
  match e with
  | VMount has_window =>
      match mountEffect has_window (with_mapContainerRef true (v_dom v)) with
      | (Ok (Some k), s) =>
          {| v_dom := s; v_run := Some k; v_importing := v_importing v ++ [k];
             v_loading := v_loading v |}
      | (_, s) =>
          {| v_dom := s; v_run := v_run v; v_importing := v_importing v;
             v_loading := v_loading v |}
      end
  | VImported k =>
      {| v_dom := exec (onImported k) (v_dom v); v_run := v_run v;
         v_importing := filter (λ k', k' ≠ k) (v_importing v);
         v_loading := if decide (isMounted (v_dom v) !! k = Some true)
                      then v_loading v ++ [length (maps (v_dom v))]
                      else v_loading v |}
  | VImportFailed k =>
      {| v_dom := v_dom v; v_run := v_run v;
         v_importing := filter (λ k', k' ≠ k) (v_importing v);
         v_loading := v_loading v |}
  | VLoad map =>
      {| v_dom := exec (onLoad map) (v_dom v); v_run := v_run v;
         v_importing := v_importing v;
         v_loading := filter (λ m, m ≠ map) (v_loading v) |}
  | VUnmount =>
      match v_run v with
      | Some k =>
          {| v_dom := exec (mountCleanup k) (with_mapContainerRef false (v_dom v));
             v_run := None;
             v_importing := v_importing v; v_loading := v_loading v |}
      | None => v
      end
  | VRender waypoints =>
      {| v_dom := exec (renderEffect waypoints) (v_dom v); v_run := v_run v;
         v_importing := v_importing v; v_loading := v_loading v |}
  | VToggle terrainEnabled =>
      {| v_dom := exec (toggleTerrain terrainEnabled) (v_dom v); v_run := v_run v;
         v_importing := v_importing v; v_loading := v_loading v |}
  end.

(** An event that is not enabled does not happen. *)
Definition view_step (v : view) (e : view_event) : view :=
  if view_enabled v e then view_handler v e else v.

Definition view_run (es : list view_event) (v : view) : view :=
  foldl view_step v es.

(** The strict-mode start of a page: mount, unmount, mount again, and the
    two imports. *)
Definition strict_mode_start (first second : nat) : list view_event :=
  [VMount true; VUnmount; VMount true; VImported first; VImported second].

Inductive view_reachable : view → Prop :=
| view_reach_init : view_reachable view_init
| view_reach_step v e :
    view_reachable v → view_enabled v e = true →
    view_reachable (view_handler v e).

(** ** The phases of the adapter *)

Inductive phase : Type := Uninitialized | Loading | Ready.

#[export] Instance phase_eq_dec : EqDecision phase.
Proof. solve_decision. Defined.

Definition phase_of (v : view) : phase :=
  match mapRef (v_dom v), v_run v with
  | Some _, _ => Ready
  | None, Some k => if bool_decide (k ∈ v_importing v) then Loading else Uninitialized
  | None, None => Uninitialized
  end.

(** The moves between phases: the import starts, the import arrives, the
    page is unmounted. *)
Definition phase_next (p q : phase) : bool :=
  match p, q with
  | Uninitialized, Loading | Loading, Ready | _, Uninitialized => true
  | _, _ => bool_decide (p = q)
  end.

(** The phase after an event, read off the state before it: a mount in a
    browser starts the import, the import of the run that is mounted makes
    the adapter ready, its failure and the unmount leave no map to come, and
    nothing else changes the phase. *)
Definition phase_after (v : view) (e : view_event) : phase :=
  match e with
  | VMount has_window => if has_window then Loading else Uninitialized
  | VImported k =>
      if decide (isMounted (v_dom v) !! k = Some true) then Ready else phase_of v
  | VImportFailed k =>
      if decide (v_run v = Some k ∧ mapRef (v_dom v) = None) then Uninitialized
      else phase_of v
  | VUnmount => Uninitialized
  | VLoad _ | VRender _ | VToggle _ => phase_of v
  end.

(** ** The invariant *)

Record view_ok (v : view) : Prop := ViewOk {
  vo_dom : dom_ok (v_dom v);
  vo_bound k : k ∈ v_importing v → k < length (isMounted (v_dom v));
  vo_live k :
    k ∈ v_importing v → isMounted (v_dom v) !! k = Some true →
    v_run v = Some k ∧ mapRef (v_dom v) = None;
  vo_unmounted : v_run v = None → mapRef (v_dom v) = None;
  vo_mounted k : v_run v = Some k → isMounted (v_dom v) !! k = Some true;
  vo_loaded m :
    mapRef (v_dom v) = Some m →
    m ∈ v_loading v ∨ is_Some (route_source m (v_dom v));
  vo_loading m : m ∈ v_loading v → route_source m (v_dom v) = None;
  vo_container : is_Some (v_run v) → mapContainerRef (v_dom v) = true;
}.

(** What a handler that creates and removes no map and touches no
    reference of the lifecycle leaves as it was. *)
Definition frame (s s' : dom) : Prop :=
  mapContainerRef s' = mapContainerRef s ∧
  mapRef s' = mapRef s ∧ isMounted s' = isMounted s ∧
  ∀ m, is_Some (route_source m s') ↔ is_Some (route_source m s).

(** Every map has the style of the page: the first style while its
    [load] event is to come, the full style after it. *)
Definition view_styled (v : view) : Prop :=
  dom_styled (λ m, bool_decide (m ∉ v_loading v)) (v_dom v).

(** ** Frames *)

Section frames.
Implicit Types (s : dom) (v : view) (map m : map_id).

Lemma frame_refl s : frame s s.
Proof. by split_and!. Qed.

Lemma frame_trans s1 s2 s3 : frame s1 s2 → frame s2 s3 → frame s1 s3.
Proof.
  intros (? & ? & ? & H12) (? & ? & ? & H23). split_and!; [congruence..|].
  intros m. by rewrite H23.
Qed.

Lemma frame_markers f s : frame s (with_markers f s).
Proof. by destruct s. Qed.

Lemma frame_markersRef f s : frame s (with_markersRef f s).
Proof. by destruct s. Qed.

(** A call on a map that keeps the presence of the route source. *)
Lemma frame_on_map (f : widget → widget) map s :
  (∀ w, is_Some (w_sources (f w) !! str_lit "route")
        ↔ is_Some (w_sources w !! str_lit "route")) →
  frame s (with_maps (alter f map) s).
Proof.
  intros Hf. destruct s as [ms ks r l b fl]. split_and!; [done..|].
  intros m. unfold route_source. cbn [maps with_maps].
  destruct (decide (map = m)) as [->|Hne].
  - rewrite list_lookup_alter_eq. destruct (ms !! m) as [w|]; [apply Hf|done].
  - by rewrite list_lookup_alter_ne.
Qed.

Lemma renderEffect_keeps waypoints s : frame s (exec (renderEffect waypoints) s).
Proof.
  apply (renderEffect_frame (frame s)); [| | |apply frame_refl].
  - intros f s' Hs'. eapply frame_trans; [done|apply frame_markers].
  - intros f s' Hs'. eapply frame_trans; [done|apply frame_markersRef].
  - intros map coords s' Hs' [src Hsrc]. eapply frame_trans; [done|].
    destruct s' as [ms ks r l b fl]. split_and!; [done..|].
    intros m. unfold route_source in *. cbn [maps with_maps] in *.
    destruct (decide (map = m)) as [->|Hne].
    + rewrite list_lookup_alter_eq. destruct (ms !! m) as [w|]; [|done].
      simpl in *. rewrite lookup_insert_eq, Hsrc. split; by eexists.
    + by rewrite list_lookup_alter_ne.
Qed.

Lemma toggleTerrain_keeps b s : frame s (exec (toggleTerrain b) s).
Proof.
  destruct (mapRef s) as [map|] eqn:Hmap.
  - unfold exec. rewrite (toggleTerrain_map b map) by done. by apply frame_on_map.
  - unfold exec, toggleTerrain, mbind, eff_bind, get. rewrite Hmap. apply frame_refl.
Qed.

End frames.

(** ** Each event keeps the invariant *)

Section steps.
Implicit Types (s : dom) (v : view) (map m : map_id) (k : nat).

Lemma view_ok_init : view_ok view_init.
Proof.
  split; cbn; try done; try (by intros ? ?%elem_of_nil). apply dom_ok_init.
Qed.

Lemma view_ok_frame v s' :
  view_ok v → dom_ok s' → frame (v_dom v) s' →
  view_ok {| v_dom := s'; v_run := v_run v; v_importing := v_importing v;
             v_loading := v_loading v |}.
Proof.
  intros [H1 H2 H3 H4 H5 H6 H7 H8] Hok (Hct & Hr & Hfl & Hsrc).
  split; cbn; rewrite ?Hr, ?Hfl, ?Hct; try done.
  - intros m Hm. destruct (H6 m Hm) as [?|?]; [by left|right; by apply Hsrc].
  - intros m Hm. apply eq_None_not_Some. rewrite Hsrc, (H7 m Hm). by intros [].
Qed.

Lemma mountEffect_eq has_window s :
  mountEffect has_window s
  = (Ok (if has_window then Some (length (isMounted s)) else None),
     with_isMounted (λ fl, fl ++ [true]) s).
Proof. by destruct has_window. Qed.

Lemma with_isMounted_frame f s :
  mapRef (with_isMounted f s) = mapRef s ∧
  isMounted (with_isMounted f s) = f (isMounted s) ∧
  ∀ m, route_source m (with_isMounted f s) = route_source m s.
Proof. by destruct s. Qed.

(** Attaching or detaching the container touches nothing else. *)
Lemma with_mapContainerRef_frame b s :
  mapRef (with_mapContainerRef b s) = mapRef s ∧
  isMounted (with_mapContainerRef b s) = isMounted s ∧
  ∀ m, route_source m (with_mapContainerRef b s) = route_source m s.
Proof. by destruct s. Qed.

(** React attaches the container of a page that is not mounted. *)
Lemma view_ok_attach b v :
  view_ok v → v_run v = None →
  view_ok {| v_dom := with_mapContainerRef b (v_dom v); v_run := v_run v;
             v_importing := v_importing v; v_loading := v_loading v |}.
Proof.
  intros [H1 H2 H3 H4 H5 H6 H7 H8] Hrun.
  destruct (with_mapContainerRef_frame b (v_dom v)) as (Hr & Hfl & Hsrc).
  split; cbn [v_dom v_run v_importing v_loading]; rewrite ?Hr, ?Hfl;
    try setoid_rewrite Hsrc; try done.
  - by apply dom_ok_with_mapContainerRef.
  - rewrite Hrun. by intros [].
Qed.

Lemma view_ok_mountEffect has_window v :
  view_ok v → v_run v = None → mapContainerRef (v_dom v) = true →
  view_ok match mountEffect has_window (v_dom v) with
          | (Ok (Some k), s) =>
              {| v_dom := s; v_run := Some k; v_importing := v_importing v ++ [k];
                 v_loading := v_loading v |}
          | (_, s) =>
              {| v_dom := s; v_run := v_run v; v_importing := v_importing v;
                 v_loading := v_loading v |}
          end.
Proof.
  intros [H1 H2 H3 H4 H5 H6 H7 H8] Hrun Hct. rewrite mountEffect_eq.
  destruct (with_isMounted_frame (λ fl, fl ++ [true]) (v_dom v)) as (Hr & Hfl & Hsrc).
  assert (mapContainerRef (with_isMounted (λ fl, fl ++ [true]) (v_dom v)) = true)
    as Hct' by by destruct (v_dom v).
  assert (∀ k, k ∈ v_importing v →
    (isMounted (v_dom v) ++ [true]) !! k = Some true → False) as Hold.
  { intros k Hk. rewrite lookup_app_l by eauto. intros Hlive.
    destruct (H3 k Hk Hlive). congruence. }
  destruct has_window; split; cbn [v_dom v_run v_importing v_loading];
    rewrite ?Hr, ?Hfl; try setoid_rewrite Hsrc; eauto using dom_ok_with_isMounted.
  - intros k [Hk| ->%list_elem_of_singleton]%elem_of_app; len. apply H2 in Hk. lia.
  - intros k [Hk| ->%list_elem_of_singleton]%elem_of_app Hlive; [by destruct (Hold k)|].
    eauto.
  - intros k [= <-]. by rewrite lookup_app_r, Nat.sub_diag.
  - intros k Hk. len. apply H2 in Hk. lia.
  - intros k Hk Hlive. by destruct (Hold k).
  - congruence.
Qed.

Lemma view_ok_mount has_window v :
  view_ok v → v_run v = None → view_ok (view_handler v (VMount has_window)).
Proof.
  intros Hv Hrun.
  apply (view_ok_mountEffect has_window
    {| v_dom := with_mapContainerRef true (v_dom v); v_run := v_run v;
       v_importing := v_importing v; v_loading := v_loading v |});
    [by apply view_ok_attach|done|by destruct (v_dom v)].
Qed.

Lemma route_source_imported m s :
  route_source m s = None → route_source m (imported s) = None.
Proof.
  unfold route_source. destruct (imported_frame s) as (_ & _ & _ & ->).
  destruct (decide (m < length (maps s))).
  - by rewrite lookup_app_l.
  - rewrite lookup_app_r by lia. intros _.
    destruct (m - length (maps s)) as [|j]; [by vm_compute|done].
Qed.

Lemma exec_onImported_live k s :
  isMounted s !! k = Some true → mapContainerRef s = true →
  exec (onImported k) s = imported s.
Proof. intros Hk Hct. unfold exec. by rewrite onImported_live. Qed.

(** An import that finds its run mounted finds the container attached. *)
Lemma live_import_container v k :
  view_ok v → k ∈ v_importing v → isMounted (v_dom v) !! k = Some true →
  mapContainerRef (v_dom v) = true.
Proof.
  intros Hv Hk Hlive. apply (vo_container v Hv).
  destruct (vo_live v Hv k Hk Hlive) as [-> _]. by eexists.
Qed.

Lemma exec_onImported_view v k :
  view_ok v → k ∈ v_importing v → isMounted (v_dom v) !! k = Some true →
  exec (onImported k) (v_dom v) = imported (v_dom v).
Proof. intros Hv Hk Hlive. apply exec_onImported_live; [done|by eapply live_import_container]. Qed.

Lemma exec_onImported_dead k s :
  isMounted s !! k ≠ Some true → exec (onImported k) s = s.
Proof. intros Hk. unfold exec. by rewrite onImported_dead. Qed.

Lemma mapRef_imported s : mapRef (imported s) = Some (length (maps s)).
Proof. by destruct s. Qed.

Lemma isMounted_imported s : isMounted (imported s) = isMounted s.
Proof. by destruct s. Qed.

Lemma mapContainerRef_imported s : mapContainerRef (imported s) = mapContainerRef s.
Proof. by destruct s. Qed.

Lemma view_ok_imported k v :
  view_ok v → k ∈ v_importing v → view_ok (view_handler v (VImported k)).
Proof.
  intros [H1 H2 H3 H4 H5 H6 H7 H8] Hk. unfold view_handler.
  assert (∀ k', k' ∈ filter (λ k', k' ≠ k) (v_importing v) →
    k' ∈ v_importing v ∧ k' ≠ k) as Hfilter.
  { intros k'. rewrite list_elem_of_filter. tauto. }
  case_decide as Hlive.
  - destruct (H3 k Hk Hlive) as [Hrun Hmap].
    rewrite exec_onImported_live by (by try apply H8; rewrite ?Hrun).
    destruct (imported_frame (v_dom v)) as (_ & _ & Hr & _).
    pose proof (isMounted_imported (v_dom v)) as Hfl.
    split; cbn [v_dom v_run v_importing v_loading];
      rewrite ?Hfl, ?mapContainerRef_imported.
    + by apply dom_ok_imported.
    + intros k' [? _]%Hfilter. eauto.
    + intros k' [Hk' Hne]%Hfilter Hlive'. destruct (H3 k' Hk' Hlive'). congruence.
    + congruence.
    + done.
    + intros m. rewrite Hr. intros [= <-]. left. apply elem_of_app. right. left.
    + intros m Hm. apply route_source_imported.
      apply elem_of_app in Hm as [Hm| ->%list_elem_of_singleton]; [eauto|].
      unfold route_source. by rewrite lookup_ge_None_2.
    + done.
  - unfold exec. rewrite onImported_dead by done. cbn [snd].
    split; cbn [v_dom v_run v_importing v_loading]; eauto.
    + intros k' [? _]%Hfilter. eauto.
    + intros k' [? _]%Hfilter. eauto.
Qed.

Lemma onLoad_refs map s :
  mapRef (exec (onLoad map) s) = mapRef s ∧
  isMounted (exec (onLoad map) s) = isMounted s.
Proof. by destruct s. Qed.

Lemma route_source_onLoad map m s :
  route_source m (exec (onLoad map) s)
  = if decide (m = map) then maps s !! map ≫= λ _, Some (SrcGeoJson [])
    else route_source m s.
Proof.
  destruct s as [ms ks r l b fl].
  cbv [route_source exec onLoad map_addSource map_addLayer on_map
       modify mbind eff_bind with_maps maps snd].
  case_decide as Hm; [subst m|].
  - rewrite !list_lookup_alter_eq. destruct (ms !! map); [|done].
    simpl. by rewrite lookup_insert_eq.
  - by rewrite !list_lookup_alter_ne.
Qed.

Lemma view_ok_load map v : view_ok v → view_ok (view_handler v (VLoad map)).
Proof.
  intros [H1 H2 H3 H4 H5 H6 H7 H8]. unfold view_handler.
  destruct (onLoad_refs map (v_dom v)) as [Hr Hfl].
  split; cbn [v_dom v_run v_importing v_loading]; rewrite ?Hr, ?Hfl;
    try setoid_rewrite route_source_onLoad; try done.
  - by apply onLoad_ok.
  - intros m Hm. case_decide as Hne; [subst m|].
    + right. destruct (ok_map_live _ H1 map Hm) as (w & -> & _). by eexists.
    + destruct (H6 m Hm); [left|by right]. by apply list_elem_of_filter.
  - intros m [Hne Hm]%list_elem_of_filter. rewrite decide_False by done. eauto.
Qed.

Lemma mountCleanup_eq k s :
  mountCleanup k s
  = (Ok (), match mapRef s with
            | Some map => with_mapRef None (exec (map_remove map)
                            (with_isMounted <[k := false]> s))
            | None => with_isMounted <[k := false]> s
            end).
Proof.
  unfold mountCleanup, mbind, eff_bind, modify, get.
  destruct (with_isMounted_frame <[k := false]> s) as (-> & _).
  by destruct (mapRef s).
Qed.

Lemma mountCleanup_refs k s :
  mapRef (exec (mountCleanup k) s) = None ∧
  isMounted (exec (mountCleanup k) s) = <[k := false]> (isMounted s) ∧
  ∀ m, route_source m (exec (mountCleanup k) s) = route_source m s.
Proof.
  unfold exec. rewrite mountCleanup_eq. cbn [snd].
  destruct s as [ms ks [map|] l b fl]; [|done]. split_and!; [done..|].
  intros m. cbv [route_source exec map_remove with_mapRef with_isMounted
    with_markers with_maps maps markers mapRef markersRef maplibreRef
    isMounted snd].
  destruct (decide (map = m)) as [->|Hne].
  - rewrite list_lookup_alter_eq. by destruct (ms !! m).
  - by rewrite list_lookup_alter_ne.
Qed.

Lemma view_ok_unmount v :
  view_ok v → is_Some (v_run v) → view_ok (view_handler v VUnmount).
Proof.
  intros [H1 H2 H3 H4 H5 H6 H7 H8] [k Hrun]. unfold view_handler. rewrite Hrun.
  destruct (mountCleanup_refs k (with_mapContainerRef false (v_dom v)))
    as (Hr & Hfl & Hsrc).
  destruct (with_mapContainerRef_frame false (v_dom v)) as (_ & Hfl' & Hsrc').
  rewrite Hfl' in Hfl. setoid_rewrite Hsrc' in Hsrc.
  split; cbn [v_dom v_run v_importing v_loading]; rewrite ?Hr, ?Hfl;
    try setoid_rewrite Hsrc; try done.
  - by apply mountCleanup_ok, dom_ok_with_mapContainerRef.
  - intros k' Hk'. rewrite length_insert. eauto.
  - intros k' Hk' Hlive. destruct (decide (k' = k)) as [->|Hne].
    + apply list_lookup_insert_Some in Hlive. naive_solver.
    + rewrite list_lookup_insert_ne in Hlive by done.
      destruct (H3 k' Hk' Hlive). congruence.
Qed.

(** A failed import settles the promise and touches nothing else. *)
Lemma view_ok_import_failed k v :
  view_ok v → view_ok (view_handler v (VImportFailed k)).
Proof.
  intros [H1 H2 H3 H4 H5 H6 H7 H8].
  split; cbn [view_handler v_dom v_run v_importing v_loading]; try done.
  - intros k' [_ Hk']%list_elem_of_filter. eauto.
  - intros k' [_ Hk']%list_elem_of_filter. eauto.
Qed.

(** *** The style of the maps *)

Lemma not_elem_of_snoc (m n : nat) (l : list nat) :
  bool_decide (m ∉ l ++ [n]) = if decide (m = n) then false else bool_decide (m ∉ l).
Proof.
  case_decide as Hm; [subst m|].
  - apply bool_decide_eq_false_2. intros Hn. apply Hn, elem_of_app. right. left.
  - apply bool_decide_ext. rewrite elem_of_app, list_elem_of_singleton. tauto.
Qed.

Lemma not_elem_of_filter_ne (m n : nat) (l : list nat) :
  bool_decide (m ∉ filter (λ k, k ≠ n) l)
  = if decide (m = n) then true else bool_decide (m ∉ l).
Proof.
  case_decide as Hm; [subst m|].
  - apply bool_decide_eq_true_2. rewrite list_elem_of_filter. tauto.
  - apply bool_decide_ext. rewrite list_elem_of_filter. tauto.
Qed.

Lemma view_styled_init : view_styled view_init.
Proof. by intros m w Hm. Qed.

Lemma mountEffect_maps has_window s : maps (exec (mountEffect has_window) s) = maps s.
Proof. by destruct has_window, s. Qed.

Lemma mountCleanup_styled loaded k : preserves (dom_styled loaded) (mountCleanup k).
Proof.
  intros s Hs. unfold exec. rewrite mountCleanup_eq. cbn [snd].
  assert (dom_styled loaded (with_isMounted <[k := false]> s)) as Hs'
    by (apply (dom_styled_maps loaded s); [by destruct s|done]).
  destruct (mapRef s) as [map|]; [|done].
  apply (dom_styled_maps loaded (exec (map_remove map) (with_isMounted <[k := false]> s)));
    [by destruct (exec _ _)|by apply map_remove_styled].
Qed.

Lemma view_styled_step v e :
  view_ok v → view_styled v → view_enabled v e = true →
  view_styled (view_handler v e).
Proof.
  intros Hv Hs He. unfold view_styled in *.
  destruct e as [hw|k|k|map| |ws|b]; cbn [view_handler view_enabled] in *.
  - pose proof (mountEffect_maps hw (with_mapContainerRef true (v_dom v))) as Hm.
    unfold exec in Hm.
    destruct (mountEffect hw _) as [[[k|]|err] s]; cbn [v_dom v_loading snd] in *;
      apply (dom_styled_maps _ (v_dom v)); try done; rewrite Hm; by destruct (v_dom v).
  - apply bool_decide_eq_true in He. cbn [v_dom v_loading]. case_decide as Hlive.
    + rewrite exec_onImported_view by done.
      eapply dom_styled_ext; [|by apply imported_styled].
      intros m _. apply not_elem_of_snoc.
    + by rewrite exec_onImported_dead.
  - done.
  - apply andb_true_iff in He as [He%bool_decide_eq_true _]. cbn [v_dom v_loading].
    eapply dom_styled_ext; [|apply onLoad_styled; [|done]].
    + intros m _. apply not_elem_of_filter_ne.
    + apply bool_decide_eq_false_2. tauto.
  - destruct (v_run v); [|done]. cbn [v_dom v_loading]. apply mountCleanup_styled.
    apply (dom_styled_maps _ (v_dom v)); [by destruct (v_dom v)|done].
  - by apply renderEffect_styled.
  - by apply toggleTerrain_styled.
Qed.

Lemma view_ok_step v e :
  view_ok v → view_enabled v e = true → view_ok (view_handler v e).
Proof.
  intros Hv He. destruct e; simpl in He.
  - apply view_ok_mount; [done|]. by apply bool_decide_eq_true in He.
  - apply view_ok_imported; [done|]. by apply bool_decide_eq_true in He.
  - by apply view_ok_import_failed.
  - by apply view_ok_load.
  - apply view_ok_unmount; [done|]. by apply bool_decide_eq_true in He.
  - apply view_ok_frame; [done|apply renderEffect_ok, Hv|apply renderEffect_keeps].
  - apply view_ok_frame; [done|apply toggleTerrain_ok, Hv|apply toggleTerrain_keeps].
Qed.

Lemma view_ok_run es v : view_ok v → view_ok (view_run es v).
Proof.
  revert v. induction es as [|e es IH]; intros v Hv; [done|].
  apply IH. unfold view_step. destruct (view_enabled v e) eqn:He; [|done].
  by apply view_ok_step.
Qed.

Lemma view_run_reachable es v : view_reachable v → view_reachable (view_run es v).
Proof.
  revert v. induction es as [|e es IH]; intros v Hv; [done|].
  apply IH. unfold view_step. destruct (view_enabled v e) eqn:He; [|done].
  by constructor.
Qed.

End steps.

(** ** What holds in every reachable state *)

Section lifecycle_claims.
Implicit Types (s : dom) (v : view) (map m : map_id) (k : nat).

Lemma phase_next_refl p : phase_next p p = true.
Proof. by destruct p. Qed.

Lemma phase_of_eq v v' :
  mapRef (v_dom v') = mapRef (v_dom v) → v_run v' = v_run v →
  v_importing v' = v_importing v → phase_of v' = phase_of v.
Proof. unfold phase_of. by intros -> -> ->. Qed.

Lemma phase_of_loading v k :
  view_ok v → v_run v = Some k → k ∈ v_importing v → phase_of v = Loading.
Proof.
  intros Hv Hrun Hk. unfold phase_of.
  destruct (vo_live v Hv k Hk (vo_mounted v Hv k Hrun)) as [_ ->].
  by rewrite Hrun, bool_decide_eq_true_2.
Qed.

Lemma view_reachable_view_ok v : view_reachable v → view_ok v.
Proof. induction 1; [apply view_ok_init|by apply view_ok_step]. Qed.

Lemma view_reachable_styled v : view_reachable v → view_styled v.
Proof.
  induction 1 as [|v e Hv IH He]; [apply view_styled_init|].
  by apply view_styled_step; [apply view_reachable_view_ok|..].
Qed.

(** C3 (one map at a time).  In every state the lifecycle events reach,
    in whatever order the imports, the [load] events and the unmounts
    arrive, the invariant [view_ok] holds; in particular a map that has not
    been removed is the one in [mapRef] and the page is mounted, and a map
    that is not in [mapRef] shows no marker.  Every map ever created has
    the style of the page, which the widget accepts: the tiles, the
    elevation model and the tile layer until its [load] event, and from
    then on also the route, its line layer and the sky layer, each once;
    its terrain is off or the one of the page. *)
Theorem view_reachable_ok v :
  view_reachable v →
  view_ok v ∧
  (∀ m w, maps (v_dom v) !! m = Some w → w_removed w = false →
          mapRef (v_dom v) = Some m ∧ is_Some (v_run v)) ∧
  (∀ m, mapRef (v_dom v) ≠ Some m → markers_on m (v_dom v) = []) ∧
  (∀ m w, maps (v_dom v) !! m = Some w →
          styled (bool_decide (m ∉ v_loading v)) w ∧ style_ok w = true).
Proof.
  intros Hv. pose proof (view_reachable_styled v Hv) as Hst.
  apply view_reachable_view_ok in Hv as Hok. split_and!; [done| | |].
  - intros m w Hw Hr. pose proof (ok_one_live _ (vo_dom v Hok) m w Hw Hr) as Hm.
    split; [done|]. destruct (v_run v) eqn:Hrun; [done|].
    pose proof (vo_unmounted v Hok Hrun). congruence.
  - intros m. apply markers_on_no_map, Hok.
  - intros m w Hw. split; [|eapply styled_style_ok]; by apply Hst.
Qed.

(** The container of the map.  The constructor of the map throws
    when [mapContainerRef.current] is [null]: the library is then kept, but
    no map is made.  In the states the lifecycle reaches this does not
    happen: when the import of a run resolves, either the run was cleaned up
    and the callback returns at once, or the page is mounted, React has
    attached the container, and the callback completes with the new map in
    [mapRef]. *)
Theorem import_finds_container v k :
  view_reachable v → view_enabled v (VImported k) = true →
  (∀ s, isMounted s !! k = Some true → mapContainerRef s = false →
     onImported k s = (Throw (Error container_message), with_maplibreRef true s)) ∧
  completes (onImported k) (v_dom v) = true ∧
  if decide (isMounted (v_dom v) !! k = Some true)
  then mapContainerRef (v_dom v) = true ∧
       mapRef (v_dom (view_handler v (VImported k))) = Some (length (maps (v_dom v)))
  else v_dom (view_handler v (VImported k)) = v_dom v.
Proof.
  intros Hv%view_reachable_view_ok Hk%bool_decide_eq_true.
  split; [intros s; apply onImported_no_container|].
  unfold completes, view_handler. cbn [v_dom]. case_decide as Hlive.
  - pose proof (live_import_container v k Hv Hk Hlive) as Hct.
    by rewrite exec_onImported_live, onImported_live, mapRef_imported.
  - by rewrite exec_onImported_dead, onImported_dead.
Qed.

Lemma import_finds_container_witness :
  completes (onImported 0) (v_dom (view_run [VMount true] view_init)) = true.
Proof.
  exact (proj1 (proj2 (import_finds_container (view_run [VMount true] view_init) 0
    (view_run_reachable _ _ view_reach_init) eq_refl))).
Defined.

Lemma view_reachable_ok_witness :
  view_ok (view_run (strict_mode_start 1 0 ++ [VLoad 0]) view_init).
Proof.
  exact (proj1 (view_reachable_ok _
    (view_run_reachable _ _ view_reach_init))).
Defined.

Lemma phase_of_mount v has_window :
  view_ok v → v_run v = None →
  phase_of v = Uninitialized ∧
  phase_of (view_handler v (VMount has_window))
  = if has_window then Loading else Uninitialized.
Proof.
  intros Hv He. unfold phase_of, view_handler. rewrite mountEffect_eq.
  destruct (with_isMounted_frame (λ fl, fl ++ [true])
    (with_mapContainerRef true (v_dom v))) as (Hr & _).
  destruct (with_mapContainerRef_frame true (v_dom v)) as (Hr' & _).
  destruct has_window; cbn [v_dom v_run v_importing];
    rewrite ?Hr, ?Hr', (vo_unmounted v Hv He), He; [|done].
  rewrite bool_decide_eq_true_2; [done|]. apply elem_of_app. right. left.
Qed.

(** A promise that settles for a run that is not the one mounted. *)
Lemma phase_of_settled v v' k :
  view_ok v → v_dom v' = v_dom v → v_run v' = v_run v →
  v_importing v' = filter (λ k', k' ≠ k) (v_importing v) →
  ¬ (v_run v = Some k ∧ mapRef (v_dom v) = None) →
  phase_of v' = phase_of v.
Proof.
  intros Hv Hdom Hrun Himp Hk. unfold phase_of. rewrite Hdom, Hrun, Himp.
  destruct (mapRef (v_dom v)); [done|].
  destruct (v_run v) as [k'|]; [|done].
  apply (f_equal (λ b : bool, if b then Loading else Uninitialized)), bool_decide_ext.
  rewrite list_elem_of_filter. split; [tauto|]. intros Hk'. split; [|done].
  intros ->. by apply Hk.
Qed.

Lemma phase_of_imported v k :
  view_ok v → k ∈ v_importing v →
  phase_of (view_handler v (VImported k)) = phase_after v (VImported k) ∧
  (isMounted (v_dom v) !! k = Some true → phase_of v = Loading).
Proof.
  intros Hv He. cbn [phase_after]. case_decide as Hlive.
  - destruct (vo_live v Hv k He Hlive) as [Hrun Hmap].
    split; [|intros _; by eapply phase_of_loading].
    unfold phase_of, view_handler. cbn [v_dom].
    by rewrite exec_onImported_view, mapRef_imported.
  - split; [|done]. apply (phase_of_settled v _ k); try done.
    + cbn [view_handler v_dom]. by rewrite exec_onImported_dead.
    + intros [Hrun _]. by apply Hlive, (vo_mounted v Hv).
Qed.

Lemma phase_of_import_failed v k :
  view_ok v →
  phase_of (view_handler v (VImportFailed k)) = phase_after v (VImportFailed k).
Proof.
  intros Hv. cbn [phase_after]. case_decide as Hrun.
  - destruct Hrun as [Hrun Hmap]. unfold phase_of, view_handler.
    cbn [v_dom v_run v_importing]. rewrite Hmap, Hrun.
    rewrite bool_decide_eq_false_2; [done|]. rewrite list_elem_of_filter. tauto.
  - by apply (phase_of_settled v _ k).
Qed.

Lemma phase_of_unmount v :
  is_Some (v_run v) → phase_of (view_handler v VUnmount) = Uninitialized.
Proof.
  intros [k Hrun]. unfold view_handler, phase_of. rewrite Hrun. cbn [v_dom v_run].
  by destruct (mountCleanup_refs k (with_mapContainerRef false (v_dom v))) as (-> & _).
Qed.

(** The lifecycle implements the state machine of the adapter. *)
Lemma phase_of_handler v e :
  view_ok v → view_enabled v e = true →
  phase_of (view_handler v e) = phase_after v e.
Proof.
  intros Hv He. destruct e as [hw|k|k|map| |ws|b]; simpl in He; cbn [phase_after].
  - apply bool_decide_eq_true in He. exact (proj2 (phase_of_mount v hw Hv He)).
  - apply bool_decide_eq_true in He. exact (proj1 (phase_of_imported v k Hv He)).
  - by apply phase_of_import_failed.
  - apply phase_of_eq; try done; apply onLoad_refs.
  - apply phase_of_unmount. by apply bool_decide_eq_true in He.
  - apply phase_of_eq; try done; apply renderEffect_keeps.
  - apply phase_of_eq; try done; apply toggleTerrain_keeps.
Qed.

Lemma phase_next_after v e :
  view_ok v → view_enabled v e = true →
  phase_next (phase_of v) (phase_after v e) = true.
Proof.
  intros Hv He. destruct e as [hw|k|k|map| |ws|b]; simpl in He; cbn [phase_after];
    try apply phase_next_refl; try by destruct (phase_of v).
  - apply bool_decide_eq_true in He.
    destruct (phase_of_mount v hw Hv He) as [-> _]. by destruct hw.
  - apply bool_decide_eq_true in He.
    destruct (decide _) as [Hlive|]; [|apply phase_next_refl].
    by rewrite (proj2 (phase_of_imported v k Hv He) Hlive).
  - destruct (decide _); [by destruct (phase_of v)|apply phase_next_refl].
Qed.

(** Without a mount no map comes: an adapter that is Uninitialized, as
    after a failed import, stays so whatever else happens. *)
Lemma uninitialized_until_mount es v :
  view_ok v → phase_of v = Uninitialized →
  Forall (λ e, ∀ has_window, e ≠ VMount has_window) es →
  phase_of (view_run es v) = Uninitialized.
Proof.
  revert v. induction es as [|e es IH]; intros v Hv Hph Hes; [done|].
  apply list.Forall_cons in Hes as [He Hes]. cbn [view_run foldl].
  unfold view_step. destruct (view_enabled v e) eqn:Hen; [|by apply IH].
  apply IH; [by apply view_ok_step| |done].
  rewrite phase_of_handler by done.
  destruct e as [hw|k|k|map| |ws|b]; simpl in Hen; cbn [phase_after]; try done.
  - by destruct (He hw).
  - apply bool_decide_eq_true in Hen. destruct (decide _) as [Hlive|]; [|done].
    by rewrite (proj2 (phase_of_imported v k Hv Hen) Hlive) in Hph.
  - by destruct (decide _).
Qed.

(** C30 (phases).  The lifecycle implements the state machine of the
    adapter: the phase after an event is the one [phase_after] reads off
    the state before it, and it lies along Uninitialized, Loading, Ready in
    that order, or back at Uninitialized, or where it was.  A mount in a
    browser starts the import; the import of the run that is mounted makes
    the adapter ready; when that import fails the adapter is back at
    Uninitialized with nothing else changed, and it stays there until the
    page is mounted again: the promise has no handler for its failure, so
    the page shows no map and tells nobody. *)
Theorem phase_step v e :
  view_ok v → view_enabled v e = true →
  phase_of (view_handler v e) = phase_after v e ∧
  phase_next (phase_of v) (phase_after v e) = true ∧
  (∀ k es, e = VImportFailed k → v_run v = Some k →
     Forall (λ e, ∀ has_window, e ≠ VMount has_window) es →
     v_dom (view_handler v e) = v_dom v ∧
     phase_of (view_run es (view_handler v e)) = Uninitialized).
Proof.
  intros Hv He.
  split_and!; [by apply phase_of_handler|by apply phase_next_after|].
  intros k es -> Hrun Hes. split; [done|].
  apply uninitialized_until_mount; [by apply view_ok_step| |done].
  rewrite phase_of_handler by done. cbn [phase_after].
  apply bool_decide_eq_true in He.
  destruct (vo_live v Hv k He (vo_mounted v Hv k Hrun)) as [_ Hmap].
  by rewrite decide_True.
Qed.

Lemma phase_step_witness :
  phase_of (view_run [VImported 0; VRender []; VToggle true; VUnmount]
              (view_handler (view_run [VMount true] view_init) (VImportFailed 0)))
  = Uninitialized.
Proof.
  refine (proj2 (proj2 (proj2 (phase_step (view_run [VMount true] view_init)
    (VImportFailed 0) (view_ok_run _ _ view_ok_init) eq_refl))
    0 [VImported 0; VRender []; VToggle true; VUnmount] eq_refl eq_refl _)).
  by repeat constructor.
Defined.

(** The import makes the adapter ready.  While a run of the mount
    effect is mounted and its import is pending the adapter is Loading, the
    import event can happen, and it makes the adapter Ready. *)
Theorem import_reaches_ready v k :
  view_ok v → v_run v = Some k → k ∈ v_importing v →
  phase_of v = Loading ∧
  view_enabled v (VImported k) = true ∧
  phase_of (view_handler v (VImported k)) = Ready.
Proof.
  intros Hv Hrun Hk. split_and!; [by eapply phase_of_loading| |].
  - by apply bool_decide_eq_true_2.
  - unfold phase_of, view_handler. cbn [v_dom].
    rewrite exec_onImported_view by (done || by apply (vo_mounted v Hv)).
    by rewrite mapRef_imported.
Qed.

Lemma import_reaches_ready_witness :
  phase_of (view_handler (view_run [VMount true] view_init) (VImported 0)) = Ready.
Proof.
  refine (proj2 (proj2 (import_reaches_ready (view_run [VMount true] view_init) 0
    _ eq_refl _))); [apply view_ok_run, view_ok_init|by left].
Defined.

(** Render on a loaded map.  In a state of the lifecycle whose map
    has loaded, the render effect on an array of waypoints shows one marker
    per waypoint, labelled by position, and the line through their
    coordinates, in order. *)
Theorem ready_render_sync v m (ws : list waypoint) :
  view_ok v → mapRef (v_dom v) = Some m → m ∉ v_loading v →
  markers_on m (v_dom (view_handler v (VRender (arr_of_list ws))))
    = imap (λ i w, (str_of_nat (i + 1), coord w)) ws ∧
  route_of m (v_dom (view_handler v (VRender (arr_of_list ws))))
    = Some (arr_of_list (coord <$> ws)).
Proof.
  intros Hv Hm Hl. cbn [view_handler v_dom].
  split; [by apply renderEffect_markers, Hm; apply Hv|].
  apply renderEffect_route; [apply Hv|done|].
  by destruct (vo_loaded v Hv m Hm).
Qed.

Lemma ready_render_sync_witness :
  let ws := [Waypoint (str_lit "A") (num_of_Z 1, num_of_Z 2);
             Waypoint (str_lit "B") (num_of_Z 3, num_of_Z 4)] in
  let v := view_run (strict_mode_start 0 1 ++ [VLoad 0]) view_init in
  route_of 0 (v_dom (view_handler v (VRender (arr_of_list ws))))
  = Some (arr_of_list (coord <$> ws)).
Proof.
  cbv zeta.
  refine (proj2 (ready_render_sync
    (view_run (strict_mode_start 0 1 ++ [VLoad 0]) view_init) 0 _ _ eq_refl _)).
  - apply view_ok_run, view_ok_init.
  - vm_compute. by intros ?%elem_of_nil.
Defined.

(** Strict mode.  When React mounts the page, unmounts it and mounts
    it again before either import resolves, then whichever import arrives
    first, the page ends with exactly one map, the one in [mapRef], no
    import pending, and the adapter Ready. *)
Theorem strict_mode_one_map :
  Forall (λ v, mapRef (v_dom v) = Some 0 ∧ length (maps (v_dom v)) = 1 ∧
               v_importing v = [] ∧ phase_of v = Ready)
    [view_run (strict_mode_start 0 1) view_init;
     view_run (strict_mode_start 1 0) view_init].
Proof. repeat constructor. Qed.

End lifecycle_claims.
