(* ===== verification/Geocode.v ===== *)
(** * Geocode: from the text area to waypoints

    [geocodeScenes] (src/unnamed/part_000, lines 202-260) cuts the text
    area into names, asks the geocoding service for each name in turn,
    collects a waypoint for every name the service locates and an alert for
    every other, and then replaces the waypoints and fits the map to them.

    The service is outside the program: [reply] lists what a request can
    come to, and the loop is modelled for an arbitrary [service], a function
    from the number of the request and its URL to the reply.  A result
    carries the texts of its [lon] and [lat]; the loop reads them with
    [parseFloat] of [JsNumText]. *)

From Stdlib Require Import ZArith NArith Lia.
From S2P Require Import Prelude JsNum JsString JsText JsUri JsNumText JsArray Effect.
From S2P Require Import Waypoints BoundingBox MapView.

(** ** The names *)

(** [sceneText.split(/\n+/).map((s) => s.trim()).filter(Boolean)]. *)
Definition parse_names (sceneText : jsstring) : list jsstring :=
  filter (λ s, str_truthy s) (trim <$> split_newlines sceneText).

(** The same with [split('\n')], for comparison. *)
Definition parse_names_each (sceneText : jsstring) : list jsstring :=
  filter (λ s, str_truthy s) (trim <$> split_each_newline sceneText).

(** The text of a list of names, one per line. *)
Fixpoint join_lines (names : list jsstring) : jsstring :=
  match names with
  | [] => []
  | [name] => name
  | name :: names => name ++ (newline :: join_lines names)
  end.

(** A name as [parse_names] returns them: not empty, on one line, without
    white space around it. *)
Definition name_ok (name : jsstring) : Prop :=
  name ≠ [] ∧ (newline ∉ name) ∧ trimmed name.

(** ** The service *)

(** What a request comes to. *)
Inductive reply : Type :=
| NetworkFailure (message : jsstring)  (* [fetch] rejects *)
| HttpFailure                          (* [res.ok] is false *)
| BadBody (message : jsstring)         (* [res.json()] rejects *)
| NotAnArray                           (* the body is not an array *)
| NoResult                             (* the body is the empty array *)
| NullResult                           (* [data[0]] is [null] or [undefined] *)
| Result (lon lat : jsstring).         (* the texts of [data[0].lon] and [.lat] *)

(** ** The run *)

Record geo : Type := Geo {
  newWaypoints : list waypoint;  (* the local array, filled by [push] *)
  alerts : list jsstring;        (* the calls of [alert] *)
  console : list js_error;       (* the calls of [console.error] *)
  requests : list (jsstring * list (jsstring * jsstring));
                                 (* the calls of [fetch]: URL and headers *)
}.

Definition geo_init : geo :=
  {| newWaypoints := []; alerts := []; console := []; requests := [] |}.

Definition alert (message : jsstring) : eff geo unit :=
  modify (λ g, {| newWaypoints := newWaypoints g; alerts := alerts g ++ [message];
                  console := console g; requests := requests g |}).

Definition console_error (err : js_error) : eff geo unit :=
  modify (λ g, {| newWaypoints := newWaypoints g; alerts := alerts g;
                  console := console g ++ [err]; requests := requests g |}).

Definition push (wp : waypoint) : eff geo unit :=
  modify (λ g, {| newWaypoints := newWaypoints g ++ [wp]; alerts := alerts g;
                  console := console g; requests := requests g |}).

Definition alert_empty : jsstring :=
  str_lit "Please enter one or more scene names to geocode.".

Definition alert_not_found (name : jsstring) : jsstring :=
  str_lit "Could not find location: " ++ name.

Definition alert_error (name message : jsstring) : jsstring :=
  str_lit "Error geocoding " ++ name ++ str_lit ": " ++ message.

Definition error_failed (name : jsstring) : js_error :=
  Error (str_lit "Geocoding failed for " ++ name).

(** The headers [fetch] is called with (line 218). *)
Definition fetch_headers : list (jsstring * jsstring) :=
  [(str_lit "User-Agent", str_lit "journey-planner-next-demo")].

(** The URL of the request for an encoded name. *)
Definition search_url (q : jsstring) : jsstring :=
  str_lit "https://nominatim.openstreetmap.org/search?q=" ++ q
  ++ str_lit "&format=json&limit=1".

(** What is left of a string after a prefix. *)
Fixpoint after_prefix (p s : jsstring) : option jsstring :=
  match p, s with
  | [], _ => Some s
  | c :: p, d :: s => if (c =? d)%N then after_prefix p s else None
  | _ :: _, [] => None
  end.

(** A string up to the first occurrence of a unit. *)
Fixpoint until_unit (c : code_unit) (s : jsstring) : jsstring :=
  match s with
  | [] => []
  | d :: s => if (d =? c)%N then [] else d :: until_unit c s
  end.

(** What the service reads as the parameter [q] of a URL of the search:
    the text from [q=] to the next [&], decoded. *)
Definition search_query (url : jsstring) : option jsstring :=
  rest ← after_prefix (str_lit "https://nominatim.openstreetmap.org/search?q=") url;
  decodeURIComponent (until_unit 38 rest).

(** The number of occurrences of a unit in a string. *)
Definition count_unit (c : code_unit) (s : jsstring) : nat :=
  length (filter (λ d, d = c) s).

Section geocode.
(** The service, and the texts the engine gives its own errors. *)
Context (service : nat → jsstring → reply).
Context (type_error_message uri_error_message : jsstring).

(** [err.message]. *)
Definition error_message (err : js_error) : jsstring :=
  match err with
  | TypeError => type_error_message
  | URIError => uri_error_message
  | Error message | Rejected message => message
  end.

(** [encodeURIComponent(name)] inside the template. *)
Definition encode (name : jsstring) : eff geo jsstring :=
  match encodeURIComponent name with
  | Some q => mret q
  | None => throw URIError
  end.

(** [await fetch(url, ...)] and what follows from the response: the reply
    of the service to this request, unless the request itself fails. *)
Definition fetch (url : jsstring) : eff geo reply :=
  g ← get;
  modify (λ g, {| newWaypoints := newWaypoints g; alerts := alerts g;
                  console := console g;
                  requests := requests g ++ [(url, fetch_headers)] |});;
  match service (length (requests g)) url with
  | NetworkFailure message => throw (Rejected message)
  | r => mret r
  end.

(** The body of the [try]. *)
Definition lookup_try (name : jsstring) : eff geo unit :=
  q ← encode name;
  r ← fetch (search_url q);
  match r with
  | NetworkFailure message => throw (Rejected message)
  | HttpFailure => throw (error_failed name)
  | BadBody message => throw (Rejected message)
  | NotAnArray | NoResult => alert (alert_not_found name)
  | NullResult => throw TypeError
  | Result lon lat =>
      push {| name := name; coord := (parseFloat lon, parseFloat lat) |}
  end.

(** The [catch] block. *)
Definition report (name : jsstring) (err : js_error) : eff geo unit :=
  console_error err;; alert (alert_error name (error_message err)).

(** One turn of the loop. *)
Definition lookup (name : jsstring) : eff geo unit :=
  try_catch (lookup_try name) (report name).

(** The loop. *)
Definition lookups (names : list jsstring) : eff geo unit :=
  for_each lookup names.

(** What one name comes to, given the reply to its request: a waypoint or
    the text of an alert. *)
Definition lookup_result (name : jsstring) (r : reply) : waypoint + jsstring :=
  match r with
  | Result lon lat =>
      inl {| name := name; coord := (parseFloat lon, parseFloat lat) |}
  | NotAnArray | NoResult => inr (alert_not_found name)
  | HttpFailure => inr (alert_error name (error_message (error_failed name)))
  | NetworkFailure message | BadBody message => inr (alert_error name message)
  | NullResult => inr (alert_error name type_error_message)
  end.

(** What a list of names comes to, when [n] requests were made before. *)
Fixpoint lookup_all (n : nat) (names : list jsstring) : list (waypoint + jsstring) :=
  match names with
  | [] => []
  | name :: names =>
      match encodeURIComponent name with
      | None => inr (alert_error name uri_error_message) :: lookup_all n names
      | Some q => lookup_result name (service n (search_url q)) :: lookup_all (S n) names
      end
  end.

(** The waypoints and the alerts among the results. *)
Definition located (xs : list (waypoint + jsstring)) : list waypoint :=
  omap (λ x, match x with inl wp => Some wp | inr _ => None end) xs.

Definition reported (xs : list (waypoint + jsstring)) : list jsstring :=
  omap (λ x, match x with inl _ => None | inr a => Some a end) xs.

End geocode.

(** ** After the loop *)

(** Lines 233-259: replace the waypoints and fit the map to them. The
    result is the call of [setWaypoints], if any. *)
Definition finish (newWaypoints : list waypoint)
    : eff dom (option (update (jsarray waypoint))) :=
  match replaceWaypoints (arr_of_list newWaypoints) with
  | None => mret None
  | Some u =>
      s ← get;
      match mapRef s with
      | None => mret ()
      | Some map =>
          match fitBounds_request newWaypoints with
          | Some (box, padding) => map_fitBounds map box padding
          | None => throw TypeError
          end
      end;;
      mret (Some u)
  end.

(** The box the map was last asked to show. *)
Definition fit_of (map : map_id) (s : dom) : option ((lnglat * lnglat) * Z) :=
  maps s !! map ≫= w_fit.

(** ** The whole function

    [s] is the state of the page when the loop ends.  The result is the
    run of the lookups and what is done to the page. *)
Definition geocodeScenes (service : nat → jsstring → reply)
    (type_error_message uri_error_message : jsstring)
    (sceneText : jsstring) (s : dom)
    : geo * (outcome (option (update (jsarray waypoint))) * dom) :=
  let names := parse_names sceneText in
  if decide (length names = 0)
  then (exec (alert alert_empty) geo_init, (Ok None, s))
  else
    let g := exec (lookups service type_error_message uri_error_message names)
               geo_init in
    (g, finish (newWaypoints g) s).

(** A service for the examples: the first request finds a place, the
    second finds none, every later one fails. *)
Definition service_example (n : nat) (url : jsstring) : reply :=
  match n with
  | 0 => Result (str_lit "2.3522") (str_lit "48.8566")
  | 1 => NoResult
  | _ => NetworkFailure (str_lit "Failed to fetch")
  end.

(** ** The names: lemmas *)

Section names.
Implicit Types (s piece name : jsstring) (names : list jsstring) (c : code_unit).

Lemma str_truthy_spec s : str_truthy s ↔ s ≠ [].
Proof. by destruct s. Qed.

Lemma parse_names_elem name s :
  name ∈ parse_names s ↔ name ≠ [] ∧ ∃ p, p ∈ split_newlines s ∧ name = trim p.
Proof.
  unfold parse_names. rewrite list_elem_of_filter, list_elem_of_fmap, str_truthy_spec.
  naive_solver.
Qed.

(** The units of the pieces are units of the text, and every unit of the
    text that is not a newline is in a piece. *)
Lemma split_newlines_from_units in_run piece s p c :
  p ∈ split_newlines_from in_run piece s → c ∈ p → c ∈ piece ∨ c ∈ s.
Proof.
  revert in_run piece. induction s as [|d s IH]; intros in_run piece; simpl.
  { intros ->%list_elem_of_singleton Hc. rewrite elem_of_reverse in Hc. by left. }
  destruct (is_newline d).
  - destruct in_run.
    + intros Hp Hc. destruct (IH _ _ Hp Hc); [by left|right; by right].
    + intros [->|Hp]%elem_of_cons Hc; [left; by rewrite elem_of_reverse in Hc|].
      destruct (IH _ _ Hp Hc) as [?%elem_of_nil|?]; [done|right; by right].
  - intros Hp Hc. destruct (IH _ _ Hp Hc) as [[->|?]%elem_of_cons|?];
      [right; left|by left|right; by right].
Qed.

Lemma split_newlines_from_cover in_run piece s c :
  c ∈ piece ∨ c ∈ s →
  c = newline ∨ ∃ p, p ∈ split_newlines_from in_run piece s ∧ c ∈ p.
Proof.
  revert in_run piece. induction s as [|d s IH]; intros in_run piece; simpl.
  { intros [Hc|?%elem_of_nil]; [|done]. right. exists (reverse piece).
    split; [left|by rewrite elem_of_reverse]. }
  destruct (is_newline d) eqn:Hd.
  - apply is_newline_spec in Hd as ->. intros [Hc|[->|Hc]%elem_of_cons]; [|by left|].
    + destruct in_run; [apply IH; by left|]. right. exists (reverse piece).
      split; [left|by rewrite elem_of_reverse].
    + destruct in_run; [apply IH; by right|].
      destruct (IH true [] (or_intror Hc)) as [?|(p & ? & ?)]; [by left|].
      right. exists p. split; [by right|done].
  - intros [Hc|[->|Hc]%elem_of_cons]; apply IH;
      [left; by right|left; left|by right].
Qed.

(** The pattern [/\n+/] and the single newline give the same names. *)
Lemma parse_names_from_each in_run piece s :
  (in_run = true → piece = []) →
  filter (λ s, str_truthy s) (trim <$> split_newlines_from in_run piece s)
  = filter (λ s, str_truthy s)
      (trim <$> match split_each_newline s with
                | p :: ps => (reverse piece ++ p) :: ps
                | [] => []
                end).
Proof.
  revert in_run piece. induction s as [|c s IH]; intros in_run piece Hrun; simpl.
  { by rewrite app_nil_r. }
  destruct (split_each_newline_cons s) as (p & ps & Hs). rewrite Hs in *.
  destruct (is_newline c).
  - rewrite app_nil_r. destruct in_run.
    + by rewrite (Hrun eq_refl), IH.
    + rewrite !fmap_cons, !(filter_cons _ (trim (reverse piece))).
      by rewrite IH.
  - rewrite IH by done. by rewrite reverse_cons, <-app_assoc.
Qed.

(** Splitting the text of a list of names gives the names back. *)
Lemma split_newlines_from_join in_run piece name names :
  Forall (λ n, n ≠ [] ∧ newline ∉ n) (name :: names) →
  split_newlines_from in_run piece (join_lines (name :: names))
  = (reverse piece ++ name) :: names.
Proof.
  revert in_run piece name. induction names as [|name' names IH];
    intros in_run piece name [[Hne Hnl] Hns]%list.Forall_cons.
  - simpl. rewrite <-(app_nil_r name) at 1.
    rewrite split_newlines_from_app by done. simpl.
    by rewrite reverse_app, reverse_involutive.
  - change (join_lines (name :: name' :: names))
      with (name ++ newline :: join_lines (name' :: names)).
    rewrite split_newlines_from_app by done.
    change (split_newlines_from false ?p (newline :: ?r))
      with (reverse p :: split_newlines_from true [] r).
    rewrite IH by done. by rewrite reverse_app, reverse_involutive.
Qed.

End names.

(** ** The URL: lemmas *)

Section url.
Implicit Types (s q : jsstring) (c : code_unit).

Lemma count_unit_app c s1 s2 :
  count_unit c (s1 ++ s2) = count_unit c s1 + count_unit c s2.
Proof. unfold count_unit. by rewrite list.filter_app, length_app. Qed.

Lemma count_unit_uri c q :
  is_uri_unit c = false → Forall (λ d, is_uri_unit d = true) q → count_unit c q = 0.
Proof.
  intros Hc Hq. unfold count_unit. induction Hq as [|d q Hd _ IH]; [done|].
  rewrite filter_cons_False; [done|]. congruence.
Qed.

Lemma after_prefix_app p s : after_prefix p (p ++ s) = Some s.
Proof. induction p as [|c p IH]; [done|]. cbn [app after_prefix]. by rewrite N.eqb_refl. Qed.

Lemma until_unit_app c q s :
  Forall (λ d, d ≠ c) q → until_unit c (q ++ c :: s) = q.
Proof.
  induction 1 as [|d q Hd _ IH]; cbn [app until_unit]; [by rewrite N.eqb_refl|].
  destruct (N.eqb_spec d c); [done|]. by rewrite IH.
Qed.

Lemma search_query_url q :
  Forall (λ c, is_uri_unit c = true) q →
  search_query (search_url q) = decodeURIComponent q.
Proof.
  intros Hq. unfold search_query, search_url. rewrite after_prefix_app.
  cbn [mbind option_bind]. f_equal.
  apply (until_unit_app 38 q (str_lit "format=json&limit=1")).
  eapply list.Forall_impl; [done|]. by intros c Hc ->.
Qed.

End url.

(** ** The loop: lemmas *)

Section loop.
Context (service : nat → jsstring → reply).
Context (type_error_message uri_error_message : jsstring).
Implicit Types (g : geo) (name : jsstring) (names : list jsstring).

Local Abbreviation lookup := (lookup service type_error_message uri_error_message).
Local Abbreviation lookups := (lookups service type_error_message uri_error_message).
Local Abbreviation lookup_all := (lookup_all service type_error_message uri_error_message).

(** One turn of the loop never throws; it adds the result of its name to
    the waypoints or to the alerts, and at most one request. *)
Lemma lookup_step name names g :
  ∃ g', lookup name g = (Ok (), g') ∧
    lookup_all (length (requests g)) (name :: names)
    = lookup_all (length (requests g)) [name]
      ++ lookup_all (length (requests g')) names ∧
    newWaypoints g'
    = newWaypoints g ++ located (lookup_all (length (requests g)) [name]) ∧
    alerts g' = alerts g ++ reported (lookup_all (length (requests g)) [name]) ∧
    length (requests g) ≤ length (requests g') ≤ S (length (requests g)).
Proof.
  destruct g as [new al co rq].
  unfold lookup, Geocode.lookup, report, try_catch, lookup_try, encode, fetch, mbind,
    eff_bind, get. simpl.
  destruct (encodeURIComponent name) as [q|]; simpl.
  - destruct (service (length rq) (search_url q)); simpl;
      eexists; (split; [reflexivity|]); simpl; rewrite ?app_nil_r, ?length_app;
      simpl; rewrite ?Nat.add_1_r; split_and!; (done || lia).
  - eexists; (split; [reflexivity|]); simpl; rewrite ?app_nil_r.
    split_and!; (done || lia).
Qed.

(** A name that cannot be encoded is reported without a request, whatever
    the service. *)
Lemma lookup_unencodable name g :
  encodeURIComponent name = None →
  lookup name g = report type_error_message uri_error_message name URIError g.
Proof.
  intros Hq. unfold lookup, Geocode.lookup, try_catch, lookup_try, encode, mbind,
    eff_bind. by rewrite Hq.
Qed.

(** A name that can be encoded puts one question to the service: the turn
    is that of a service that gives this reply to everything. *)
Lemma lookup_reply name q g :
  encodeURIComponent name = Some q →
  lookup name g
  = Geocode.lookup (λ _ _, service (length (requests g)) (search_url q))
      type_error_message uri_error_message name g ∧
  length (requests (exec (lookup name) g)) = S (length (requests g)).
Proof.
  intros Hq. destruct g as [new al co rq].
  unfold exec, lookup, Geocode.lookup, report, try_catch, lookup_try, encode, fetch, mbind,
    eff_bind, get. simpl. rewrite Hq. simpl.
  destruct (service (length rq) (search_url q)); simpl;
    by rewrite length_app, Nat.add_1_r.
Qed.

(** The loop goes on after every turn. *)
Lemma lookups_cons name names g :
  exec (lookups (name :: names)) g = exec (lookups names) (exec (lookup name) g).
Proof.
  destruct (lookup_step name [] g) as (g' & Hg' & _).
  unfold lookups, Geocode.lookups. cbn [for_each].
  rewrite exec_bind, Hg'. unfold exec at 3. by rewrite Hg'.
Qed.

(** The requests of a turn and of the loop: one per name that can be
    encoded, in the order of the names. *)
Lemma requests_lookup name g :
  requests (exec (lookup name) g)
  = requests g ++ match encodeURIComponent name with
                  | Some q => [(search_url q, fetch_headers)]
                  | None => []
                  end.
Proof.
  destruct g as [new al co rq].
  unfold exec, lookup, Geocode.lookup, report, try_catch, lookup_try, encode, fetch,
    mbind, eff_bind, get. simpl.
  destruct (encodeURIComponent name) as [q|]; simpl; [|by rewrite app_nil_r].
  by destruct (service (length rq) (search_url q)).
Qed.

Lemma requests_lookups names g :
  requests (exec (lookups names) g)
  = requests g ++ ((λ q, (search_url q, fetch_headers)) <$> omap encodeURIComponent names).
Proof.
  revert g. induction names as [|name names IH]; intros g.
  { simpl. by rewrite app_nil_r. }
  rewrite lookups_cons, IH, requests_lookup, <-(assoc_L (++)). f_equal.
  cbn [omap list_omap]. by destruct (encodeURIComponent name).
Qed.

Lemma requests_report name err g :
  requests (exec (report type_error_message uri_error_message name err) g) = requests g.
Proof. by destruct g. Qed.

Lemma located_app xs ys : located (xs ++ ys) = located xs ++ located ys.
Proof. apply omap_app. Qed.

Lemma reported_app xs ys : reported (xs ++ ys) = reported xs ++ reported ys.
Proof. apply omap_app. Qed.

Lemma located_reported_length xs :
  length (located xs) + length (reported xs) = length xs.
Proof. induction xs as [|[wp|a] xs IH]; simpl; lia. Qed.

Lemma length_lookup_all n names : length (lookup_all n names) = length names.
Proof.
  revert n. induction names as [|name names IH]; intros n; simpl; [done|].
  destruct (encodeURIComponent name); simpl; by rewrite IH.
Qed.

(** The waypoints carry the names that were located, in their order. *)
Lemma located_names n names :
  name <$> located (lookup_all n names) `sublist_of` names.
Proof.
  revert n. induction names as [|nm names IH]; intros n; [done|].
  cbn [lookup_all]. destruct (encodeURIComponent nm) as [q|];
    [|apply sublist_cons, IH].
  destruct (service n (search_url q));
    (apply sublist_cons, IH || apply sublist_skip, IH).
Qed.

(** The loop computes [lookup_all]. *)
Lemma lookups_spec names g :
  ∃ g', lookups names g = (Ok (), g') ∧
    newWaypoints g'
    = newWaypoints g ++ located (lookup_all (length (requests g)) names) ∧
    alerts g' = alerts g ++ reported (lookup_all (length (requests g)) names) ∧
    length (requests g') ≤ length (requests g) + length names.
Proof.
  revert g. induction names as [|name names IH]; intros g.
  { exists g. simpl. by rewrite !app_nil_r, Nat.add_0_r. }
  destruct (lookup_step name names g) as (g1 & Hg1 & Hall & Hnew & Hal & Hrq).
  destruct (IH g1) as (g' & Hg' & Hnew' & Hal' & Hrq').
  exists g'. unfold lookups, Geocode.lookups in *. cbn [for_each].
  unfold mbind at 1, eff_bind at 1. rewrite Hg1, Hg'.
  rewrite Hall, located_app, reported_app, Hnew', Hal', Hnew, Hal, !app_assoc.
  split_and!; [done..|]. simpl. lia.
Qed.

End loop.

(** ** After the loop: lemmas *)

Section finish.
Implicit Types (s : dom) (w : waypoint) (ws : list waypoint) (map : map_id).

Lemma finish_nil s : finish [] s = (Ok None, s).
Proof. done. Qed.

Lemma replaceWaypoints_cons w ws :
  replaceWaypoints (arr_of_list (w :: ws)) = Some (Fresh (arr_of_list (w :: ws))).
Proof. done. Qed.

Lemma finish_no_map w ws s :
  mapRef s = None →
  finish (w :: ws) s = (Ok (Some (Fresh (arr_of_list (w :: ws)))), s).
Proof.
  intros Hmap. unfold finish. rewrite replaceWaypoints_cons.
  unfold mbind, eff_bind, get. by rewrite Hmap.
Qed.

Lemma finish_map w ws map s :
  mapRef s = Some map →
  finish (w :: ws) s
  = (Ok (Some (Fresh (arr_of_list (w :: ws)))),
     with_maps (alter (w_with_fit (fitBounds_request (w :: ws))) map) s).
Proof.
  intros Hmap. unfold finish. rewrite replaceWaypoints_cons.
  unfold mbind, eff_bind, get. rewrite Hmap.
  unfold fitBounds_request. by rewrite fmap_cons, bbox_scan_cons.
Qed.

Lemma finish_styled loaded (new : list waypoint) :
  preserves (dom_styled loaded) (finish new).
Proof.
  intros s Hs. destruct new as [|w ws]; [done|]. unfold exec.
  destruct (mapRef s) as [map|] eqn:Hmap.
  - rewrite (finish_map w ws map) by done. cbn [snd].
    apply dom_styled_on_map; [|done]. intros w' _. by apply styled_fields.
  - by rewrite finish_no_map.
Qed.

Lemma fit_of_set r map s :
  is_Some (maps s !! map) →
  fit_of map (with_maps (alter (w_with_fit r) map) s) = r.
Proof.
  intros [w Hw]. destruct s as [ms ks rf l b fl]. unfold fit_of. cbn in *.
  by rewrite list_lookup_alter_eq, Hw.
Qed.

Lemma finish_ok newWaypoints : preserves dom_ok (finish newWaypoints).
Proof.
  destruct newWaypoints as [|w ws]; [by intros s Hs|]. intros s Hs.
  destruct (mapRef s) as [map|] eqn:Hmap; unfold exec.
  - rewrite (finish_map w ws map) by done. by apply dom_ok_on_map.
  - by rewrite finish_no_map.
Qed.

End finish.

(** ** What the geocoding guarantees *)

Section geocode_claims.
Implicit Types (s : dom) (name sceneText : jsstring) (names : list jsstring).

(** C38 (names).  Every name read from the text area is not empty, lies
    on one line and has no white space around it; and no name is read
    exactly when the text holds nothing but white space and newlines. *)
Theorem parse_names_ok sceneText :
  Forall name_ok (parse_names sceneText) ∧
  (parse_names sceneText = [] ↔ Forall (λ c, is_space c = true) sceneText).
Proof.
  split; [|split].
  - apply list.Forall_forall. intros name (Hne & p & Hp & ->)%parse_names_elem.
    split_and!; [done| |apply trim_trimmed].
    intros Hnl%elem_of_trim. revert Hnl.
    by apply (proj1 (list.Forall_forall _ _) (split_newlines_no_newline sceneText)).
  - intros Hnil. apply list.Forall_forall. intros c Hc.
    destruct (split_newlines_from_cover false [] sceneText c (or_intror Hc))
      as [->|(p & Hp & Hcp)]; [done|].
    assert (trim p = []) as Hp0.
    { destruct (decide (trim p = [])) as [|Hne]; [done|].
      assert (trim p ∈ parse_names sceneText) as Hin
        by (apply parse_names_elem; eauto).
      rewrite Hnil in Hin. by apply elem_of_nil in Hin. }
    apply trim_nil in Hp0. by apply (proj1 (list.Forall_forall _ _) Hp0).
  - intros Hsp. apply elem_of_nil_inv.
    intros name (Hne & p & Hp & ->)%parse_names_elem. apply Hne, trim_nil.
    apply list.Forall_forall. intros c Hc.
    destruct (split_newlines_from_units false [] sceneText p c Hp Hc)
      as [?%elem_of_nil|Hin]; [done|].
    by apply (proj1 (list.Forall_forall _ _) Hsp).
Qed.

(** C18 (names, round trip).  Names written one per line are read back
    as they were written. *)
Theorem parse_names_join names :
  Forall name_ok names → parse_names (join_lines names) = names.
Proof.
  intros Hok. unfold parse_names, split_newlines.
  destruct names as [|name names]; [done|].
  rewrite split_newlines_from_join
    by (eapply list.Forall_impl; [done|]; by intros n (? & ? & ?)).
  change (reverse [] ++ name) with name.
  induction Hok as [|n ns (Hne & _ & Htr) _ IH]; [done|].
  rewrite fmap_cons, trimmed_trim by done.
  rewrite filter_cons_True by by apply str_truthy_spec.
  by rewrite IH.
Qed.

Lemma parse_names_join_witness :
  parse_names (join_lines [str_lit "Paris"; str_lit "New York"])
  = [str_lit "Paris"; str_lit "New York"].
Proof.
  apply parse_names_join.
  apply list.Forall_cons; split; [|apply list.Forall_cons; split; [|constructor]];
    (split_and!; [done|compute_done|]);
    split; intros c Hc; vm_compute in Hc; by injection Hc as <-.
Defined.

(** Names, the pattern: splitting at runs of newlines gives the
    same names as splitting at every newline: the empty pieces between
    consecutive newlines are dropped either way. *)
Theorem parse_names_each_equiv sceneText :
  parse_names sceneText = parse_names_each sceneText.
Proof.
  unfold parse_names, parse_names_each, split_newlines.
  rewrite parse_names_from_each by done.
  by destruct (split_each_newline_cons sceneText) as (p & ps & ->).
Qed.

(** The shape of the request: the name is the only part of the URL that
    varies, and its encoding cannot add a parameter, end the query or start
    a fragment: the URL has exactly one [?], two [&], three [=], no [#]
    and no space. *)
Theorem search_url_query name q :
  str_wf name → encodeURIComponent name = Some q →
  count_unit 63 (search_url q) = 1 ∧ count_unit 38 (search_url q) = 2 ∧
  count_unit 61 (search_url q) = 3 ∧ count_unit 35 (search_url q) = 0 ∧
  count_unit 32 (search_url q) = 0.
Proof.
  intros Hwf Hq. pose proof (encodeURIComponent_uri name q Hwf Hq) as Huri.
  unfold search_url. rewrite !count_unit_app.
  by rewrite !(count_unit_uri _ q).
Qed.

Lemma search_url_query_witness :
  count_unit 38 (search_url (str_lit "New%20York%20%26%20Co")) = 2.
Proof.
  refine (proj1 (proj2 (search_url_query (str_lit "New York & Co") _ _ eq_refl))).
  apply str_lit_wf.
Defined.

(** C27 (the request names the place).  The service reads the name back
    from the URL of the request: the parameter [q], decoded as the language
    decodes a component, is the name the user typed, unit for unit.  So the
    requests of two names are the same only when the names are. *)
Theorem search_url_reads_back name q :
  str_wf name → encodeURIComponent name = Some q →
  search_query (search_url q) = Some name ∧
  ∀ name' q', str_wf name' → encodeURIComponent name' = Some q' →
    search_url q' = search_url q → name' = name.
Proof.
  intros Hwf Hq.
  assert (∀ n u, str_wf n → encodeURIComponent n = Some u →
            search_query (search_url u) = Some n) as Hback.
  { intros n u Hn Hu. rewrite search_query_url by by eapply encodeURIComponent_uri.
    by apply decodeURIComponent_encodeURIComponent. }
  split; [by apply Hback|]. intros name' q' Hwf' Hq' Hurl.
  apply (Hback name' q' Hwf') in Hq'. rewrite Hurl, (Hback name q Hwf Hq) in Hq'.
  congruence.
Qed.

Lemma search_url_reads_back_witness :
  search_query (search_url (str_lit "New%20York%20%26%20Co"))
  = Some (str_lit "New York & Co").
Proof.
  exact (proj1 (search_url_reads_back (str_lit "New York & Co") _
    (str_lit_wf _) eq_refl)).
Defined.

(** C7 (the loop computes the results).  When the text holds a name, no
    exception leaves the loop; the waypoints collected are those of the
    names the service located, each with its name and the coordinates of
    its reply, in the order of the names; the alerts are those of the other
    names; and the page is finished with exactly these waypoints. *)
Theorem geocodeScenes_lookups service te ue sceneText s :
  parse_names sceneText ≠ [] →
  completes (lookups service te ue (parse_names sceneText)) geo_init = true ∧
  newWaypoints (geocodeScenes service te ue sceneText s).1
    = located (lookup_all service te ue 0 (parse_names sceneText)) ∧
  alerts (geocodeScenes service te ue sceneText s).1
    = reported (lookup_all service te ue 0 (parse_names sceneText)) ∧
  name <$> newWaypoints (geocodeScenes service te ue sceneText s).1
    `sublist_of` parse_names sceneText ∧
  (geocodeScenes service te ue sceneText s).2
    = finish (located (lookup_all service te ue 0 (parse_names sceneText))) s.
Proof.
  intros Hne. unfold geocodeScenes, completes, exec.
  rewrite decide_False by by destruct (parse_names sceneText).
  destruct (lookups_spec service te ue (parse_names sceneText) geo_init)
    as (g & -> & Hnew & Hal & _).
  cbn [fst snd]. rewrite Hnew, Hal. split_and!; [done..| |done].
  apply located_names.
Qed.

Lemma geocodeScenes_lookups_witness :
  newWaypoints (geocodeScenes service_example [] []
    (str_lit "Paris") dom_ready).1
  = located (lookup_all service_example [] [] 0 (parse_names (str_lit "Paris"))).
Proof.
  refine (proj1 (proj2 (geocodeScenes_lookups service_example [] []
    (str_lit "Paris") dom_ready _))). by vm_compute.
Defined.

(** C31 (every name is accounted for).  A text without names gives the
    one alert that asks for names, no request, and leaves the page alone.
    Otherwise each name gives exactly one waypoint or one alert, and the
    requests made are one for each name that can be encoded, in the order
    of the names, each with the [User-Agent] header.  A batch in which no
    name was located leaves the page alone. *)
Theorem geocodeScenes_account service te ue sceneText s :
  (parse_names sceneText = [] →
   geocodeScenes service te ue sceneText s
   = ({| newWaypoints := []; alerts := [alert_empty]; console := [];
         requests := [] |}, (Ok None, s))) ∧
  (parse_names sceneText ≠ [] →
   length (newWaypoints (geocodeScenes service te ue sceneText s).1)
   + length (alerts (geocodeScenes service te ue sceneText s).1)
   = length (parse_names sceneText) ∧
   requests (geocodeScenes service te ue sceneText s).1
   = (λ q, (search_url q, fetch_headers))
       <$> omap encodeURIComponent (parse_names sceneText)) ∧
  (newWaypoints (geocodeScenes service te ue sceneText s).1 = [] →
   (geocodeScenes service te ue sceneText s).2 = (Ok None, s)).
Proof.
  unfold geocodeScenes.
  destruct (lookups_spec service te ue (parse_names sceneText) geo_init)
    as (g & Hg & Hnew & Hal & Hrq).
  pose proof (requests_lookups service te ue (parse_names sceneText) geo_init) as Hreq.
  unfold exec in Hreq. rewrite Hg in Hreq.
  destruct (parse_names sceneText) as [|name names] eqn:Hnames.
  { by rewrite decide_True. }
  rewrite decide_False by done. unfold exec. rewrite Hg. cbn [fst snd].
  split_and!; [done|intros _; split; [|done]|by intros ->].
  rewrite Hnew, Hal. cbn [geo_init newWaypoints alerts app].
  by rewrite located_reported_length, length_lookup_all.
Qed.

(** The batch of two names around a blank line, of which the service
    locates the first and finds nothing for the second: two requests, in
    the order of the names, one waypoint and one alert. *)
Lemma geocodeScenes_account_witness :
  let text := str_lit "Eiffel Tower" ++ [newline; newline] ++ str_lit "Louvre Museum" in
  let r := geocodeScenes service_example [] [] text dom_ready in
  requests r.1
  = [(search_url (str_lit "Eiffel%20Tower"), fetch_headers);
     (search_url (str_lit "Louvre%20Museum"), fetch_headers)] ∧
  length (newWaypoints r.1) + length (alerts r.1) = 2 ∧
  name <$> newWaypoints r.1 = [str_lit "Eiffel Tower"] ∧
  alerts r.1 = [alert_not_found (str_lit "Louvre Museum")].
Proof.
  intros text r.
  destruct (proj1 (proj2 (geocodeScenes_account service_example [] [] text dom_ready)))
    as [Hlen Hreq]; [by vm_compute|].
  split_and!; [subst r; by rewrite Hreq|exact Hlen|by vm_compute..].
Defined.

(** C32 (fitting the map).  After a batch that located a name, the
    waypoints are replaced by the new ones and, when there is a map, it is
    asked to show, with padding 50, the box of the scan; if the first
    waypoint's coordinates are numbers, the box holds every new waypoint
    whose coordinates are numbers.  Without a map only the waypoints are
    replaced. *)
Theorem finish_fits (w : waypoint) (ws : list waypoint) s :
  dom_ok s →
  (finish (w :: ws) s).1 = Ok (Some (Fresh (arr_of_list (w :: ws)))) ∧
  (mapRef s = None → exec (finish (w :: ws)) s = s) ∧
  (∀ map, mapRef s = Some map →
     fit_of map (exec (finish (w :: ws)) s) = fitBounds_request (w :: ws) ∧
     ∃ b, fitBounds_request (w :: ws) = Some (fit_bounds_arg b, 50%Z) ∧
          (is_point (coord w) = true →
           ∀ wp, wp ∈ w :: ws → is_point (coord wp) = true → in_bbox b (coord wp))).
Proof.
  intros Hok. destruct (mapRef s) as [map|] eqn:Hmap.
  - unfold exec. rewrite (finish_map w ws map) by done. cbn [fst snd].
    split_and!; [done..|]. intros ? [= <-].
    destruct (ok_map_live s Hok map Hmap) as (wd & Hwd & _).
    rewrite fit_of_set by by eexists. split; [done|].
    unfold fitBounds_request. rewrite fmap_cons, bbox_scan_cons.
    eexists; split; [done|]. intros Hw wp Hwp Hpt.
    eapply (bbox_scan_in (coord w) (coord <$> ws) (coord wp)); [done| |done|].
    + rewrite <-fmap_cons. by apply list_elem_of_fmap_2.
    + apply bbox_scan_cons.
  - unfold exec. rewrite finish_no_map by done. by split_and!.
Qed.

Lemma finish_fits_witness :
  (finish [Waypoint (str_lit "A") (num_of_Z 1, num_of_Z 2);
           Waypoint (str_lit "B") (num_of_Z (-3), num_of_Z 5)] dom_ready).1
  = Ok (Some (Fresh (arr_of_list
         [Waypoint (str_lit "A") (num_of_Z 1, num_of_Z 2);
          Waypoint (str_lit "B") (num_of_Z (-3), num_of_Z 5)]))).
Proof. exact (proj1 (finish_fits _ _ dom_ready dom_ok_ready)). Defined.

(** C20 (a result that is no number).  When the text the first result
    carries for its longitude is no number, the lookup succeeds all the
    same: the name is collected as a waypoint whose longitude is NaN, and
    neither an alert nor a line on the console tells of it.  At the head
    of the batch such a waypoint makes the box handed to the map NaN on
    both longitude sides. *)
Theorem lookup_not_a_number service te ue name q lon lat g :
  encodeURIComponent name = Some q →
  service (length (requests g)) (search_url q) = Result lon lat →
  starts_number (trim_start lon) = false →
  let w := {| name := name; coord := (NaN, parseFloat lat) |} in
  (lookup service te ue name g).1 = Ok () ∧
  newWaypoints (exec (lookup service te ue name) g) = newWaypoints g ++ [w] ∧
  alerts (exec (lookup service te ue name) g) = alerts g ∧
  console (exec (lookup service te ue name) g) = console g ∧
  ∀ ws, ∃ b, fitBounds_request (w :: ws) = Some (fit_bounds_arg b, 50%Z) ∧
             minLon b = NaN ∧ maxLon b = NaN.
Proof.
  intros Hq Hr Hlon w.
  assert (parseFloat lon = NaN) as Hnan.
  { pose proof (parseFloat_nan_text lon Hlon). by destruct (parseFloat lon). }
  destruct g as [new al co rq]. cbn [requests] in Hr.
  unfold exec, lookup, report, try_catch, lookup_try, encode, fetch, mbind, eff_bind, get.
  rewrite Hq. simpl. rewrite Hr. simpl. rewrite Hnan. split_and!; [done..|].
  intros ws. destruct (bbox_scan_nan_first (coord w) (coord <$> ws))
    as (b & Hb & Hlon' & _).
  exists b. unfold fitBounds_request. rewrite fmap_cons, Hb.
  split; [done|]. by apply Hlon'.
Qed.

Lemma lookup_not_a_number_witness :
  newWaypoints (exec (lookup (λ _ _, Result (str_lit "east") (str_lit "48.8566"))
                        [] [] (str_lit "Paris")) geo_init)
  = [] ++ [{| name := str_lit "Paris";
              coord := (NaN, parseFloat (str_lit "48.8566")) |}].
Proof.
  refine (proj1 (proj2 (lookup_not_a_number _ [] [] (str_lit "Paris")
    (str_lit "Paris") (str_lit "east") (str_lit "48.8566") geo_init _ _ _)));
    by vm_compute.
Defined.

End geocode_claims.
