(* ===== verification/Middleware.v ===== *)
(** * Middleware: the request filter at the edge

    src/middleware.ts is the filter the application runs before a page is
    served: it forwards every request, and its [config.matcher] says on
    which paths it runs.  src/unnamed/part_002 is the earlier revision,
    which also reads the client's address and location from the request
    headers ([getClientInfo]).

    A request is its path and its headers; header names are lower case, as
    in the calls of [headers.get].  [NextResponse.next()] belongs to the
    framework: it builds the response that lets the request through, and
    the later revision allows for its failure. *)

From Stdlib Require Import ZArith NArith Lia.
From stdpp Require Import gmap.
From S2P Require Import Prelude JsString JsText Effect.

(** ** Requests and responses *)

Abbreviation headers := (gmap jsstring jsstring).

Record request : Type := Request {
  req_path : jsstring;
  req_headers : headers;
}.

(** The response of [NextResponse.next()] and the headers set on it. *)
Record response : Type := Next {
  res_headers : list (jsstring * jsstring);
}.

(** [res.headers.set(name, value)]. *)
Definition headers_set (name value : jsstring) (res : response) : response :=
  {| res_headers := filter (λ h, h.1 ≠ name) (res_headers res) ++ [(name, value)] |}.

(** ** The client's address and location (part_002, lines 13-28) *)

(** [x || undefined] for a header value: absent when the header is missing
    or empty. *)
Definition or_undefined (x : option jsstring) : option jsstring :=
  match x with
  | Some s => if str_truthy s then Some s else None
  | None => None
  end.

Definition comma : code_unit := 44%N.

(** [s.split(',')[0]]: the units before the first comma. *)
Fixpoint first_entry (s : jsstring) : jsstring :=
  match s with
  | [] => []
  | c :: s => if (c =? comma)%N then [] else c :: first_entry s
  end.

Record Geo : Type := MkGeo {
  city : option jsstring;
  country : option jsstring;
  region : option jsstring;
  latitude : option jsstring;
  longitude : option jsstring;
}.

Record client_info : Type := ClientInfo {
  ip : option jsstring;
  geo : Geo;
}.

Definition getClientInfo (req : request) : client_info :=
  let get (name : jsstring) := req_headers req !! name in
  let forwarded := (λ v, trim (first_entry v)) <$> get (str_lit "x-forwarded-for") in
  let ip :=
    or_undefined
      (match forwarded with
       | Some s => if str_truthy s then Some s else get (str_lit "x-real-ip")
       | None => get (str_lit "x-real-ip")
       end) in
  let geo :=
    {| city := or_undefined (get (str_lit "x-vercel-ip-city"));
       country := or_undefined (get (str_lit "x-vercel-ip-country"));
       region := or_undefined (get (str_lit "x-vercel-ip-country-region"));
       latitude := or_undefined (get (str_lit "x-vercel-ip-latitude"));
       longitude := or_undefined (get (str_lit "x-vercel-ip-longitude")) |} in
  {| ip := ip; geo := geo |}.

(** ** The filter *)

Section filter.
(** Whether the [n]-th call of [NextResponse.next()] fails, and with what;
    and the text [err.message] or [String(err)] gives for an error. *)
Context (next_fails : nat → option js_error).
Context (message_of : js_error → jsstring).

(** [NextResponse.next()]; the state counts the calls. *)
Definition NextResponse_next : eff nat response := λ n,
  (match next_fails n with
   | Some err => Throw err
   | None => Ok {| res_headers := [] |}
   end, S n).

(** The earlier revision (part_002, lines 30-34). *)
Definition middleware_previous (req : request) : eff nat response :=
  let '{| ip := ip; geo := geo |} := getClientInfo req in
  NextResponse_next.

(** The filter (middleware.ts, lines 10-21). *)
Definition middleware (req : request) : eff nat response :=
  try_catch NextResponse_next
    (λ err, res ← NextResponse_next;
            mret (headers_set (str_lit "x-middleware-error") (message_of err) res)).

End filter.

(** ** The matcher *)

(** A unit of a pattern: a character that stands for itself, or [.]. *)
Inductive pat_unit : Type := Lit (c : code_unit) | AnyUnit.

Definition is_line_terminator (c : code_unit) : bool :=
  ((c =? 10) || (c =? 13) || (c =? 8232) || (c =? 8233))%N.

Definition unit_matches (u : pat_unit) (c : code_unit) : bool :=
  match u with
  | Lit d => (c =? d)%N
  | AnyUnit => negb (is_line_terminator c)
  end.

(** The pattern of a piece of the matcher's text, in which only [.] is
    special. *)
Definition pat_of (s : jsstring) : list pat_unit :=
  (λ c, if (c =? 46)%N then AnyUnit else Lit c) <$> s.

(** Whether a pattern matches at the start of a string. *)
Fixpoint prefix_matches (p : list pat_unit) (s : jsstring) : bool :=
  match p, s with
  | [], _ => true
  | u :: p, c :: s => unit_matches u c && prefix_matches p s
  | _ :: _, [] => false
  end.

(** A matcher made of a slash, a negative lookahead with alternatives and
    a final "any units": a slash, then anything on one line that does not
    start with one of the alternatives. *)
Definition matcher (excluded : list (list pat_unit)) (path : jsstring) : bool :=
  match path with
  | c :: rest =>
      (c =? 47)%N
      && negb (existsb (λ p, prefix_matches p rest) excluded)
      && forallb (λ d, negb (is_line_terminator d)) rest
  | [] => false
  end.

(** middleware.ts, line 7. *)
Definition excluded_paths : list (list pat_unit) :=
  pat_of <$> [str_lit "_next/"; str_lit "favicon.ico"; str_lit "robots.txt";
              str_lit "sitemap.xml"; str_lit "api/"].

Definition config_matcher : jsstring → bool := matcher excluded_paths.

(** part_002, line 37. *)
Definition excluded_paths_previous : list (list pat_unit) :=
  pat_of <$> [str_lit "_next/static"; str_lit "_next/image"; str_lit "favicon.ico"].

Definition config_matcher_previous : jsstring → bool :=
  matcher excluded_paths_previous.

(** ** Lemmas *)

Section info_lemmas.
Implicit Types (s v : jsstring) (x : option jsstring).

Lemma or_undefined_Some x s : or_undefined x = Some s ↔ x = Some s ∧ s ≠ [].
Proof. destruct x as [[|c t]|]; simpl; naive_solver. Qed.

Lemma or_undefined_None x : or_undefined x = None ↔ x = None ∨ x = Some [].
Proof. destruct x as [[|c t]|]; simpl; naive_solver. Qed.

Lemma first_entry_no_comma s : comma ∉ first_entry s.
Proof.
  induction s as [|c s IH]; simpl; [apply not_elem_of_nil|].
  destruct (c =? comma)%N eqn:Hc; [apply not_elem_of_nil|].
  apply N.eqb_neq in Hc. rewrite not_elem_of_cons. split; [congruence|done].
Qed.

Lemma first_entry_prefix s : first_entry s `prefix_of` s.
Proof.
  induction s as [|c s IH]; simpl; [done|].
  destruct (c =? comma)%N; [apply prefix_nil|by apply prefix_cons].
Qed.

End info_lemmas.

Section matcher_lemmas.
Implicit Types (p : list pat_unit) (s rest path : jsstring).

Lemma prefix_matches_app p1 p2 s :
  prefix_matches (p1 ++ p2) s = true → prefix_matches p1 s = true.
Proof.
  revert s. induction p1 as [|u p1 IH]; intros s; [done|].
  destruct s as [|c s]; simpl; [done|].
  rewrite !andb_true_iff. naive_solver.
Qed.

Lemma prefix_matches_more p s rest :
  prefix_matches p s = true → prefix_matches p (s ++ rest) = true.
Proof.
  revert s. induction p as [|u p IH]; intros s; [done|].
  destruct s as [|c s]; simpl; [done|].
  rewrite !andb_true_iff. naive_solver.
Qed.

(** A piece of text without line terminators matches its own pattern. *)
Lemma prefix_matches_pat_of s rest :
  forallb (λ c, negb (is_line_terminator c)) s = true →
  prefix_matches (pat_of s) (s ++ rest) = true.
Proof.
  induction s as [|c s IH]; simpl; [done|].
  rewrite !andb_true_iff. intros [Hc Hs]. split; [|by apply IH].
  destruct (c =? 46)%N; simpl; [done|apply N.eqb_refl].
Qed.

Lemma matcher_excluded excluded p rest :
  p ∈ excluded → prefix_matches p rest = true →
  matcher excluded (47%N :: rest) = false.
Proof.
  intros Hp Hm. unfold matcher.
  assert (existsb (λ p, prefix_matches p rest) excluded = true) as ->; [|done].
  apply existsb_exists. exists p. by rewrite <-list_elem_of_In.
Qed.

(** A matcher that excludes more runs on fewer paths. *)
Lemma matcher_mono excluded1 excluded2 path :
  (∀ p2 rest, p2 ∈ excluded2 → prefix_matches p2 rest = true →
     ∃ p1, p1 ∈ excluded1 ∧ prefix_matches p1 rest = true) →
  matcher excluded1 path = true → matcher excluded2 path = true.
Proof.
  intros Hsub. destruct path as [|c rest]; simpl; [done|].
  rewrite !andb_true_iff, !negb_true_iff. intros [[Hc Hex] Hline].
  split_and!; [done| |done].
  destruct (existsb _ excluded2) eqn:Hex2; [|done].
  apply existsb_exists in Hex2 as (p2 & Hp2%list_elem_of_In & Hm).
  destruct (Hsub p2 rest Hp2 Hm) as (p1 & Hp1 & Hm1).
  rewrite <-Hex. symmetry. apply existsb_exists. exists p1.
  by rewrite <-list_elem_of_In.
Qed.

End matcher_lemmas.

(** ** What the filter guarantees *)

Section middleware_claims.
Implicit Types (req : request) (s v path rest : jsstring).

(** C28 (the client's address).  The address [getClientInfo] reports is
    never the empty string.  It is the first entry of [x-forwarded-for],
    without the white space around it and without a comma, when that entry
    is not blank; otherwise it is the value of [x-real-ip]; and it is
    absent exactly when the one is missing or blank and the other missing
    or empty. *)
Theorem getClientInfo_ip req :
  let forwarded := req_headers req !! str_lit "x-forwarded-for" in
  let real := req_headers req !! str_lit "x-real-ip" in
  match ip (getClientInfo req) with
  | Some s =>
      s ≠ [] ∧
      ((∃ v, forwarded = Some v ∧ s = trim (first_entry v)
             ∧ (comma ∉ s) ∧ trimmed s)
       ∨ (real = Some s ∧ ∀ v, forwarded = Some v → trim (first_entry v) = []))
  | None =>
      (∀ v, forwarded = Some v → trim (first_entry v) = []) ∧
      (real = None ∨ real = Some [])
  end.
Proof.
  intros forwarded real. unfold getClientInfo. cbn [ip].
  fold forwarded. fold real. destruct forwarded as [v|]; cbn [fmap option_fmap option_map].
  - destruct (trim (first_entry v)) as [|c t] eqn:Hv; cbn [str_truthy].
    + destruct (or_undefined real) as [s|] eqn:Hreal.
      * apply or_undefined_Some in Hreal as [-> Hs]. split; [done|right].
        split; [done|]. by intros ? [= <-].
      * apply or_undefined_None in Hreal. split; [|done]. by intros ? [= <-].
    + cbn [or_undefined str_truthy]. split; [done|left]. exists v.
      split_and!; [done|by rewrite Hv| |rewrite <-Hv; apply trim_trimmed].
      rewrite <-Hv. intros Hc%elem_of_trim. by apply first_entry_no_comma in Hc.
  - destruct (or_undefined real) as [s|] eqn:Hreal.
    + apply or_undefined_Some in Hreal as [-> Hs]. split; [done|right]. done.
    + apply or_undefined_None in Hreal. done.
Qed.

(** C39 (requests are forwarded).  The earlier revision forwards every
    request, whatever its headers.  The filter forwards the request
    unchanged when [NextResponse.next()] succeeds and with the header
    [x-middleware-error] when the first call fails and the second
    succeeds; its result never depends on the request; and when the call
    fails twice the filter itself fails with the second error. *)
Theorem middleware_forwards next_fails message_of req n :
  middleware_previous next_fails req n = NextResponse_next next_fails n ∧
  (∀ req', middleware next_fails message_of req n
           = middleware next_fails message_of req' n) ∧
  (next_fails n = None →
   middleware next_fails message_of req n = (Ok {| res_headers := [] |}, S n)) ∧
  (∀ err, next_fails n = Some err → next_fails (S n) = None →
   middleware next_fails message_of req n
   = (Ok {| res_headers := [(str_lit "x-middleware-error", message_of err)] |},
      S (S n))) ∧
  (∀ err err', next_fails n = Some err → next_fails (S n) = Some err' →
   middleware next_fails message_of req n = (Throw err', S (S n))).
Proof.
  split_and!; [done|done|..];
    unfold middleware, try_catch, NextResponse_next, mbind, eff_bind.
  - by intros ->.
  - by intros err -> ->.
  - by intros err err' -> ->.
Qed.

(** C29 (the paths the filter runs on).  The filter does not run on the
    framework's files, the icon, robots.txt, sitemap.xml and the API:
    no path that starts with one of them matches.  It runs on a subset of
    the paths of the earlier revision.  The dots of the pattern are not
    escaped, so a path such as /favicon-ico is left out as well; and the
    API is left out only below [/api/], not at [/api]. *)
Theorem config_matcher_paths :
  (∀ piece rest,
     piece ∈ [str_lit "_next/"; str_lit "favicon.ico"; str_lit "robots.txt";
              str_lit "sitemap.xml"; str_lit "api/"] →
     config_matcher (str_lit "/" ++ piece ++ rest) = false) ∧
  (∀ path, config_matcher path = true → config_matcher_previous path = true) ∧
  (∀ c, is_line_terminator c = false →
     config_matcher (str_lit "/favicon" ++ c :: str_lit "ico") = false) ∧
  config_matcher (str_lit "/") = true ∧
  config_matcher (str_lit "/api") = true.
Proof.
  split_and!; [| | |done|done].
  - intros piece rest Hpiece. apply (matcher_excluded _ (pat_of piece)).
    + unfold excluded_paths. by apply list_elem_of_fmap_2.
    + apply prefix_matches_pat_of.
      repeat (apply elem_of_cons in Hpiece as [->|Hpiece]; [done|]).
      by apply elem_of_nil in Hpiece.
  - intros path. unfold config_matcher, config_matcher_previous.
    apply matcher_mono. intros p2 rest Hp2 Hm.
    repeat (apply elem_of_cons in Hp2 as [->|Hp2]).
    + exists (pat_of (str_lit "_next/")). split; [left|].
      by apply (prefix_matches_app _ (pat_of (str_lit "static"))).
    + exists (pat_of (str_lit "_next/")). split; [left|].
      by apply (prefix_matches_app _ (pat_of (str_lit "image"))).
    + exists (pat_of (str_lit "favicon.ico")). split; [|done]. right; left.
    + by apply elem_of_nil in Hp2.
  - intros c Hc. apply (matcher_excluded _ (pat_of (str_lit "favicon.ico"))).
    + right; left.
    + simpl. by rewrite Hc.
Qed.

End middleware_claims.
