(* ===== verification/Page.v ===== *)
(** * Page: the component as a whole

    [Home] (src/unnamed/part_000) owns the state of the page: the two text
    areas, the waypoints and the terrain flag (lines 15-37), next to the
    references of [MapView].  This file puts the parts together: what the
    list shows for the waypoints (lines 370-395), which events the page
    reacts to, and what each does to the state, the render effect and the
    self-check effect of the mount included.  A run of [geocodeScenes]
    spans several events: the click runs the loop up to its first
    [await], each reply of the service runs it from there to the next
    [await] or to the end of the function, and other events can fall in
    between.  Sequences of events are the subject of [Session], the markup
    of [Render]. *)

From Stdlib Require Import ZArith Lia.
From stdpp Require Import gmap.
From S2P Require Import Prelude JsNum JsString JsText JsNumText JsArray Effect.
From S2P Require Import Waypoints BoundingBox SelfCheck MapView Lifecycle Geocode.

(** ** The list of waypoints (lines 370-395) *)

Record row : Type := Row {
  row_index : nat;          (* [index]: the key, shown as [{index + 1}] *)
  row_name : jsstring;      (* [{wp.name}] *)
  row_lat : jsnum;          (* [wp.coord[1]], shown with four decimals *)
  row_lon : jsnum;          (* [wp.coord[0]], shown with four decimals *)
  up_disabled : bool;       (* [index === 0] *)
  down_disabled : bool;     (* [index === waypoints.length - 1] *)
}.

(** The callback of [waypoints.map]; [None] is the [TypeError] of reading
    [name] of [undefined]. *)
Definition render_row (len : nat) (entry : nat * option waypoint) : option row :=
  let '(index, wp) := entry in
  wp ← wp;
  Some {| row_index := index;
          row_name := name wp;
          row_lat := (coord wp).2;
          row_lon := (coord wp).1;
          up_disabled := bool_decide (index = 0);
          down_disabled := bool_decide (Z.of_nat index = Z.of_nat len - 1)%Z |}.

Definition render_rows (waypoints : jsarray waypoint) : option (list row) :=
  mapM (render_row (length waypoints)) (arr_visited waypoints).

(** ** The state of the page *)

(** A run of [geocodeScenes]: the names still to look up, the first of
    them being the one whose request is in flight, and the state of the
    run.  A run that has ended has no name left. *)
Record run : Type := Run {
  run_names : list jsstring;
  run_geo : geo;
}.

Record page : Type := Page {
  prompt : jsstring;
  sceneText : jsstring;
  waypoints : jsarray waypoint;
  terrainEnabled : bool;
  pg_view : view;             (* the map, its markers and the references *)
  pg_runs : list run;         (* the runs of [geocodeScenes], oldest first *)
  pg_alerts : list jsstring;  (* alerts raised outside a run *)
  pg_console : list jsstring; (* the console: assertions that failed *)
  pg_crashed : bool;          (* a render or an effect threw *)
}.

Definition page_init : page :=
  {| prompt := []; sceneText := []; waypoints := []; terrainEnabled := terrainEnabled_initial;
     pg_view := view_init; pg_runs := []; pg_alerts := []; pg_console := [];
     pg_crashed := false |}.

Definition with_dom (s : dom) (p : page) : page :=
  {| prompt := prompt p; sceneText := sceneText p; waypoints := waypoints p;
     terrainEnabled := terrainEnabled p;
     pg_view := {| v_dom := s; v_run := v_run (pg_view p);
                   v_importing := v_importing (pg_view p);
                   v_loading := v_loading (pg_view p) |};
     pg_runs := pg_runs p; pg_alerts := pg_alerts p; pg_console := pg_console p;
     pg_crashed := pg_crashed p |}.

Definition with_view (v : view) (p : page) : page :=
  {| prompt := prompt p; sceneText := sceneText p; waypoints := waypoints p;
     terrainEnabled := terrainEnabled p; pg_view := v;
     pg_runs := pg_runs p; pg_alerts := pg_alerts p; pg_console := pg_console p;
     pg_crashed := pg_crashed p |}.

Definition with_waypoints (ws : jsarray waypoint) (p : page) : page :=
  {| prompt := prompt p; sceneText := sceneText p; waypoints := ws;
     terrainEnabled := terrainEnabled p; pg_view := pg_view p;
     pg_runs := pg_runs p; pg_alerts := pg_alerts p; pg_console := pg_console p;
     pg_crashed := pg_crashed p |}.

Definition with_runs (f : list run → list run) (p : page) : page :=
  {| prompt := prompt p; sceneText := sceneText p; waypoints := waypoints p;
     terrainEnabled := terrainEnabled p; pg_view := pg_view p;
     pg_runs := f (pg_runs p); pg_alerts := pg_alerts p; pg_console := pg_console p;
     pg_crashed := pg_crashed p |}.

Definition crash (p : page) : page :=
  {| prompt := prompt p; sceneText := sceneText p; waypoints := waypoints p;
     terrainEnabled := terrainEnabled p; pg_view := pg_view p;
     pg_runs := pg_runs p; pg_alerts := pg_alerts p; pg_console := pg_console p;
     pg_crashed := true |}.

(** The render effect, after a render in which [waypoints] changed or at
    mount; an exception in it takes the page down. *)
Definition run_renderEffect (p : page) : page :=
  let r := renderEffect (waypoints p) (v_dom (pg_view p)) in
  let p := with_dom r.2 p in
  match r.1 with Ok _ => p | Throw _ => crash p end.

(** The self-check effect; what it writes goes to the console. *)
Definition run_selfCheck (p : page) : page :=
  let r := selfCheck (pg_console p) in
  let p := {| prompt := prompt p; sceneText := sceneText p; waypoints := waypoints p;
              terrainEnabled := terrainEnabled p; pg_view := pg_view p;
              pg_runs := pg_runs p; pg_alerts := pg_alerts p; pg_console := r.2;
              pg_crashed := pg_crashed p |} in
  match r.1 with Ok _ => p | Throw _ => crash p end.

(** [setWaypoints] with the result of an updater or with a new array: on
    a new array the page renders its list again and then runs the render
    effect; on the same array nothing happens. *)
Definition commit (u : update (jsarray waypoint)) (p : page) : page :=
  if triggers u then
    let p := with_waypoints (apply_update (waypoints p) u) p in
    match render_rows (waypoints p) with
    | Some _ => run_renderEffect p
    | None => crash p
    end
  else p.

(** ** Events *)

Inductive page_event : Type :=
| PMount (has_window : bool)       (* React runs the effects *)
| PImported (k : nat)              (* the import of run [k] resolves *)
| PImportFailed (k : nat)          (* the import of run [k] fails *)
| PLoad (map : map_id)             (* the map fires [load] *)
| PUnmount                         (* React runs the cleanup *)
| PPrompt (text : jsstring)        (* typing in the first text area *)
| PSceneText (text : jsstring)     (* typing in the second text area *)
| PGeocode                         (* the button "Geocode Scenes" *)
| PReply (k : nat) (r : reply)     (* the service answers run [k] *)
| PStore (e : store_event)         (* a map click, a row button, "Clear Route" *)
| PToggle.                         (* the terrain button *)

Definition mounted (p : page) : bool := bool_decide (is_Some (v_run (pg_view p))).

(** Whether the map of the page listens to clicks. *)
Definition map_clickable (p : page) : bool :=
  match mapRef (v_dom (pg_view p)) with
  | Some map => listens ClickEvent map (v_dom (pg_view p))
  | None => false
  end.

(** Whether run [k] waits for a reply. *)
Definition run_waiting (p : page) (k : nat) : bool :=
  match pg_runs p !! k with
  | Some r => bool_decide (run_names r ≠ [])
  | None => false
  end.

Definition page_enabled (p : page) (e : page_event) : bool :=
  negb (pg_crashed p) &&
  match e with
  | PMount has_window => view_enabled (pg_view p) (VMount has_window)
  | PImported k => view_enabled (pg_view p) (VImported k)
  | PImportFailed k => view_enabled (pg_view p) (VImportFailed k)
  | PLoad map => view_enabled (pg_view p) (VLoad map)
  | PUnmount => view_enabled (pg_view p) VUnmount
  | PPrompt _ | PSceneText _ | PGeocode | PToggle => mounted p
  | PReply k _ => run_waiting p k
  | PStore (EvClick lng lat) => map_clickable p
  | PStore e => mounted p && store_enabled (waypoints p) e
  end.

Section handler.
Context (type_error_message uri_error_message : jsstring).

(** The turns of the loop that reach no [await]: a name that
    [encodeURIComponent] rejects is reported by the [catch] block before
    any request is made, and the loop goes on to the next name at once.
    The run stops at the first name it can encode, where it waits for the
    service, or at the end of the names. *)
Fixpoint run_ahead (names : list jsstring) (g : geo) : run :=
  match names with
  | [] => {| run_names := []; run_geo := g |}
  | name :: rest =>
      match encodeURIComponent name with
      | Some _ => {| run_names := names; run_geo := g |}
      | None =>
          run_ahead rest
            (exec (report type_error_message uri_error_message name URIError) g)
      end
  end.

(** The end of [geocodeScenes] (lines 233-259) for a run that collected
    [g]. *)
Definition run_end (g : geo) (p : page) : page :=
  let f := finish (newWaypoints g) (v_dom (pg_view p)) in
  let p := with_dom f.2 p in
  match f.1 with
  | Ok (Some u) => commit u p
  | _ => p
  end.

(** Run [k] goes on from [names]: to its next [await], or to its end. *)
Definition run_on (k : nat) (names : list jsstring) (g : geo) (p : page) : page :=
  let r := run_ahead names g in
  let p := with_runs <[k := r]> p in
  match run_names r with
  | _ :: _ => p
  | [] => run_end (run_geo r) p
  end.

(** The reply to the request of run [k]: the rest of the turn of the loop
    that asked, and the loop from there. *)
Definition geocode_step (k : nat) (r : reply) (p : page) : page :=
  match pg_runs p !! k with
  | Some {| run_names := name :: rest; run_geo := g |} =>
      run_on k rest
        (exec (lookup (λ _ _, r) type_error_message uri_error_message name) g) p
  | _ => p
  end.

Definition page_handler (p : page) (e : page_event) : page :=
  match e with
  | PMount has_window =>
      run_selfCheck
        (run_renderEffect (with_view (view_handler (pg_view p) (VMount has_window)) p))
  | PImported k => with_view (view_handler (pg_view p) (VImported k)) p
  | PImportFailed k => with_view (view_handler (pg_view p) (VImportFailed k)) p
  | PLoad map => with_view (view_handler (pg_view p) (VLoad map)) p
  | PUnmount => with_view (view_handler (pg_view p) VUnmount) p
  | PPrompt text =>
      {| prompt := text; sceneText := sceneText p; waypoints := waypoints p;
         terrainEnabled := terrainEnabled p; pg_view := pg_view p;
         pg_runs := pg_runs p; pg_alerts := pg_alerts p; pg_console := pg_console p;
         pg_crashed := pg_crashed p |}
  | PSceneText text =>
      {| prompt := prompt p; sceneText := text; waypoints := waypoints p;
         terrainEnabled := terrainEnabled p; pg_view := pg_view p;
         pg_runs := pg_runs p; pg_alerts := pg_alerts p; pg_console := pg_console p;
         pg_crashed := pg_crashed p |}
  | PGeocode =>
      let names := parse_names (sceneText p) in
      if decide (length names = 0) then
        {| prompt := prompt p; sceneText := sceneText p; waypoints := waypoints p;
           terrainEnabled := terrainEnabled p; pg_view := pg_view p;
           pg_runs := pg_runs p; pg_alerts := pg_alerts p ++ [alert_empty];
           pg_console := pg_console p;
           pg_crashed := pg_crashed p |}
      else
        run_on (length (pg_runs p)) names geo_init
          (with_runs (λ rs, rs ++ [{| run_names := names; run_geo := geo_init |}]) p)
  | PReply k r => geocode_step k r p
  | PStore e => commit (store_handler e (waypoints p)) p
  | PToggle =>
      let r := toggleTerrain (terrainEnabled p) (v_dom (pg_view p)) in
      let p := with_dom r.2 p in
      match r.1 with
      | Ok (Some b) =>
          {| prompt := prompt p; sceneText := sceneText p; waypoints := waypoints p;
             terrainEnabled := b; pg_view := pg_view p;
             pg_runs := pg_runs p; pg_alerts := pg_alerts p; pg_console := pg_console p;
             pg_crashed := pg_crashed p |}
      | _ => p
      end
  end.

Definition page_step (p : page) (e : page_event) : page :=
  if page_enabled p e then page_handler p e else p.

Definition page_run (es : list page_event) (p : page) : page :=
  foldl page_step p es.

Inductive page_reachable : page → Prop :=
| page_reach_init : page_reachable page_init
| page_reach_step p e :
    page_reachable p → page_enabled p e = true →
    page_reachable (page_handler p e).

End handler.

(** A session: the page starts, the map loads, the user asks for Paris
    and clicks on the map before the service answers. *)
Definition page_example : list page_event :=
  [PMount true; PImported 0; PLoad 0; PSceneText (str_lit "Paris"); PGeocode;
   PStore (EvClick (num_of_Z 1) (num_of_Z 2))].

(** ** What the map shows of a route *)

(** The markers of a route: one per waypoint, labelled by position. *)
Definition labelled (ws : list waypoint) : list (jsstring * lnglat) :=
  imap (λ i w, (str_of_nat (i + 1), coord w)) ws.

(** The map shows the route [ws] or nothing of it: its markers are those
    of [ws] or there is none, and its line runs through [ws], is empty or
    does not exist yet. *)
Definition shows (ws : list waypoint) (map : map_id) (s : dom) : Prop :=
  (markers_on map s = labelled ws ∨ markers_on map s = []) ∧
  (route_of map s = Some (arr_of_list (coord <$> ws)) ∨ route_of map s = Some []
   ∨ route_source map s = None).

Record page_ok (p : page) : Prop := PageOk {
  po_alive : pg_crashed p = false;
  po_dense : dense (waypoints p);
  po_view : view_ok (pg_view p);
  po_shows ws map :
    waypoints p = arr_of_list ws → mapRef (v_dom (pg_view p)) = Some map →
    shows ws map (v_dom (pg_view p));
  po_console : pg_console p = [];
}.

(** ** The list: lemmas *)

Section rows.
Implicit Types (ws : list waypoint) (w : waypoint).

Lemma mapM_render_row n k ws :
  mapM (render_row n) (imap (λ i x, (k + i, Some x)) ws)
  = Some (imap (λ i w, {| row_index := k + i;
                          row_name := name w;
                          row_lat := (coord w).2; row_lon := (coord w).1;
                          up_disabled := bool_decide (k + i = 0);
                          down_disabled :=
                            bool_decide (Z.of_nat (k + i) = Z.of_nat n - 1)%Z |})
               ws).
Proof.
  revert k. induction ws as [|w ws IH]; intros k; [done|].
  cbn [imap mapM].
  rewrite (imap_ext _ (λ i x, (S k + i, Some x))) by (intros; simpl; f_equal; lia).
  rewrite IH. simpl. do 2 f_equal.
  apply imap_ext. intros i x _. simpl.
  replace (k + S i) with (S (k + i)) by lia. done.
Qed.

(** The rows of an array of waypoints. *)
Lemma render_rows_of_list ws :
  render_rows (arr_of_list ws)
  = Some (imap (λ i w, {| row_index := i;
                          row_name := name w;
                          row_lat := (coord w).2; row_lon := (coord w).1;
                          up_disabled := bool_decide (i = 0);
                          down_disabled :=
                            bool_decide (Z.of_nat i = Z.of_nat (length ws) - 1)%Z |})
               ws).
Proof.
  unfold render_rows. rewrite arr_visited_of_list, length_arr_of_list.
  apply (mapM_render_row (length ws) 0).
Qed.

Lemma render_rows_dense (waypoints : jsarray waypoint) :
  dense waypoints → is_Some (render_rows waypoints).
Proof. intros [ws ->]%dense_inv. rewrite render_rows_of_list. by eexists. Qed.

(** The list renders unless a slot that [map] visits holds [undefined]:
    the callback then reads [name] of [undefined]. *)
Lemma render_rows_is_Some (waypoints : jsarray waypoint) :
  is_Some (render_rows waypoints) ↔ Undef ∉ waypoints.
Proof.
  unfold render_rows, arr_visited. rewrite mapM_is_Some.
  generalize (length waypoints) 0. intros n k. revert k.
  induction waypoints as [|s a IH]; intros k.
  { split; [intros _; apply not_elem_of_nil|constructor]. }
  specialize (IH (S k)). rewrite not_elem_of_cons.
  destruct s as [| |w]; cbn [arr_visited_from]; rewrite ?list.Forall_cons.
  - naive_solver.
  - split; [intros [Hs _]; destruct (is_Some_None Hs)|by intros []].
  - assert ((is_Some ∘ render_row n) (k, slot_val (Val w))) by by eexists.
    naive_solver.
Qed.

Lemma render_rows_length waypoints rows :
  render_rows waypoints = Some rows → length rows = length (arr_visited waypoints).
Proof. by intros Hrows%length_mapM. Qed.

(** The indices of the slots a visit stops at: from [k] on, each once. *)
Lemma arr_visited_from_indices {A} k (a : jsarray A) :
  Forall (λ entry, k ≤ entry.1) (arr_visited_from k a) ∧
  NoDup (arr_visited_from k a).*1.
Proof.
  revert k. induction a as [|s a IH]; intros k; [split; constructor|].
  destruct (IH (S k)) as [Hge Hnd].
  assert (Forall (λ entry : nat * option A, k ≤ entry.1) (arr_visited_from (S k) a))
    as Hge' by (eapply list.Forall_impl; [done|]; simpl; lia).
  destruct s; cbn [arr_visited_from]; [done|split..]; try by constructor.
  all: cbn [fmap list_fmap fst]; apply list.NoDup_cons; split; [|done].
  all: intros ([i x] & -> & Hin)%list_elem_of_fmap.
  all: apply (proj1 (list.Forall_forall _ _) Hge) in Hin; simpl in Hin; lia.
Qed.

(** The rows carry the indices of the slots they were made from, so no
    two rows have the same index. *)
Lemma render_rows_indices waypoints rows :
  render_rows waypoints = Some rows → NoDup (row_index <$> rows).
Proof.
  unfold render_rows. intros Hrows%mapM_Some.
  replace (row_index <$> rows) with (arr_visited waypoints).*1;
    [apply arr_visited_from_indices|].
  induction Hrows as [|[i [w|]] r l rows Hr _ IH]; [done|..]; [|done].
  injection Hr as <-. cbn [fmap list_fmap fst row_index]. by f_equal.
Qed.

End rows.

(** ** What the map shows: lemmas *)

Section shows.
Implicit Types (s : dom) (ws : list waypoint) (map m : map_id) (v : view).

Lemma renderEffect_completes ws s :
  dom_ok s → (renderEffect (arr_of_list ws) s).1 = Ok ().
Proof.
  intros Hok. destruct (mapRef s) as [map|] eqn:Hmap.
  - by rewrite (renderEffect_dense map) by (by try apply (ok_lib s Hok)).
  - by rewrite renderEffect_no_map.
Qed.

Lemma route_source_keep (f : widget → widget) map m s :
  (∀ w, w_sources (f w) = w_sources w) →
  route_source m (with_maps (alter f map) s) = route_source m s.
Proof.
  intros Hf. destruct s as [ms ks r l b fl]. unfold route_source. cbn [maps with_maps].
  destruct (decide (map = m)) as [->|Hne].
  - rewrite list_lookup_alter_eq. destruct (ms !! m); [|done]. simpl. by rewrite Hf.
  - by rewrite list_lookup_alter_ne.
Qed.

(** A call on a map that leaves the markers and the sources alone leaves
    what the map shows. *)
Lemma shows_on_map (f : widget → widget) map ws m s :
  (∀ w, w_sources (f w) = w_sources w) →
  shows ws m s → shows ws m (with_maps (alter f map) s).
Proof.
  intros Hf. unfold shows, route_of, markers_on.
  rewrite route_source_keep by done. by destruct s.
Qed.

(** After the render effect the map shows the route. *)
Lemma shows_rendered ws map s :
  dom_ok s → mapRef s = Some map →
  shows ws map (exec (renderEffect (arr_of_list ws)) s).
Proof.
  intros Hok Hmap. split; [left; by apply renderEffect_markers|].
  destruct (route_source map s) as [src|] eqn:Hsrc.
  - left. apply renderEffect_route; [done..|]. by rewrite Hsrc.
  - right; right. apply eq_None_not_Some.
    destruct (renderEffect_keeps (arr_of_list ws) s) as (_ & _ & _ & Hkeep).
    rewrite Hkeep, Hsrc. by intros [].
Qed.

(** A new map shows nothing. *)
Lemma shows_imported ws s :
  dom_ok s → mapRef s = None → shows ws (length (maps s)) (imported s).
Proof.
  intros Hok Hmap. split; [right|right; right].
  - unfold markers_on. destruct (imported_frame s) as (-> & _).
    apply (markers_on_no_map _ s Hok). congruence.
  - apply route_source_imported. unfold route_source.
    by rewrite lookup_ge_None_2.
Qed.

(** The [load] event leaves the markers and makes the line empty. *)
Lemma shows_loaded ws map m s :
  is_Some (maps s !! m) → shows ws m s → shows ws m (exec (onLoad map) s).
Proof.
  intros Hm [Hmk Hrt]. split.
  - unfold markers_on in *. by destruct (onLoad_frame map s) as (-> & _).
  - unfold route_of in *. rewrite route_source_onLoad.
    case_decide as Heq; [subst; right; left|done].
    by destruct Hm as [w ->].
Qed.

End shows.

(** ** Each event keeps the page well formed *)

Section page_steps.
Context (type_error_message uri_error_message : jsstring).
Implicit Types (p : page) (s : dom) (ws : list waypoint) (map m : map_id).

Local Abbreviation page_handler :=
  (page_handler type_error_message uri_error_message).
Local Abbreviation geocode_step :=
  (geocode_step type_error_message uri_error_message).
Local Abbreviation run_on := (run_on type_error_message uri_error_message).

Lemma page_ok_init : page_ok page_init.
Proof. split; [done|apply dense_nil|apply view_ok_init|done..]. Qed.

(** Running the render effect on a well-formed page. *)
Lemma run_renderEffect_ok p :
  pg_crashed p = false → dense (waypoints p) → view_ok (pg_view p) →
  pg_console p = [] →
  page_ok (run_renderEffect p).
Proof.
  intros Hal [ws Hws]%dense_inv Hv Hlog. unfold run_renderEffect. rewrite Hws.
  pose proof (vo_dom _ Hv) as Hdom.
  rewrite renderEffect_completes by done.
  split; cbn [with_dom pg_crashed waypoints pg_view v_dom pg_console]; [..|done].
  - done.
  - rewrite Hws. apply dense_of_list.
  - apply (view_ok_frame (pg_view p)); [done|by apply renderEffect_ok|].
    apply renderEffect_keeps.
  - intros ws' map Hws'. rewrite Hws in Hws'. apply arr_of_list_inj in Hws' as <-.
    fold (exec (renderEffect (arr_of_list ws)) (v_dom (pg_view p))).
    destruct (renderEffect_keeps (arr_of_list ws) (v_dom (pg_view p))) as (_ & -> & _).
    by apply shows_rendered.
Qed.

(** The self-check leaves the page as it is. *)
Lemma run_selfCheck_id p : run_selfCheck p = p.
Proof. unfold run_selfCheck. rewrite selfCheck_ok. by destruct p. Qed.

(** [setWaypoints] with an array of waypoints. *)
Lemma commit_ok u p :
  pg_crashed p = false → view_ok (pg_view p) → pg_console p = [] →
  dense (apply_update (waypoints p) u) →
  (triggers u = false → page_ok p) →
  page_ok (commit u p).
Proof.
  intros Hal Hv Hlog Hd Hsame. unfold commit.
  destruct (triggers u); [|by apply Hsame].
  cbn [with_waypoints waypoints].
  destruct (render_rows_dense _ Hd) as [rows ->]. by apply run_renderEffect_ok.
Qed.

(** A change of the map that leaves the lifecycle, the markers and the
    sources alone. *)
Lemma page_ok_with_dom p s' :
  page_ok p → dom_ok s' → frame (v_dom (pg_view p)) s' →
  (∀ ws m, shows ws m (v_dom (pg_view p)) → shows ws m s') →
  page_ok (with_dom s' p).
Proof.
  intros [H1 H2 H3 H4 H5] Hok Hfr Hsh.
  split; cbn [with_dom pg_crashed waypoints pg_view v_dom pg_console]; try done.
  - by apply (view_ok_frame (pg_view p)).
  - intros ws m Hws Hm. apply Hsh, H4; [done|]. destruct Hfr as (_ & <- & _). done.
Qed.

Lemma page_ok_store e p :
  page_ok p → store_enabled (waypoints p) e = true →
  page_ok (commit (store_handler e (waypoints p)) p).
Proof.
  intros Hp He. destruct (dense_inv _ (po_dense p Hp)) as [ws Hws].
  apply commit_ok; [apply Hp..| |done].
  fold (store_step (waypoints p) e). rewrite Hws in *.
  rewrite store_step_of_list by by apply store_enabled_row.
  apply dense_of_list.
Qed.

Lemma page_ok_toggle p : page_ok p → page_ok (page_handler p PToggle).
Proof.
  intros Hp. cbn [Page.page_handler].
  assert (page_ok (with_dom (toggleTerrain (terrainEnabled p) (v_dom (pg_view p))).2 p))
    as [H1 H2 H3 H4 H5].
  { apply page_ok_with_dom; [done|apply toggleTerrain_ok, Hp|apply toggleTerrain_keeps|].
    intros ws m. destruct (mapRef (v_dom (pg_view p))) as [map|] eqn:Hmap.
    - unfold exec. rewrite (toggleTerrain_map _ map) by done. by apply shows_on_map.
    - unfold exec, toggleTerrain, mbind, eff_bind, get. by rewrite Hmap. }
  destruct (toggleTerrain _ _).1 as [[b|]|]; by split.
Qed.

Lemma page_ok_view p e :
  page_ok p → view_enabled (pg_view p) e = true →
  (∀ ws m, mapRef (v_dom (view_handler (pg_view p) e)) = Some m →
     (∀ m', mapRef (v_dom (pg_view p)) = Some m' → shows ws m' (v_dom (pg_view p))) →
     shows ws m (v_dom (view_handler (pg_view p) e))) →
  page_ok (with_view (view_handler (pg_view p) e) p).
Proof.
  intros [H1 H2 H3 H4 H5] He Hsh.
  split; cbn [with_view pg_crashed waypoints pg_view pg_console]; try done.
  - by apply view_ok_step.
  - intros ws m Hws Hm. apply Hsh; [done|]. intros m'. by apply H4.
Qed.

Lemma page_ok_with_runs f p : page_ok p → page_ok (with_runs f p).
Proof. intros [H1 H2 H3 H4 H5]. by split. Qed.

(** The end of [geocodeScenes] on the map. *)
Lemma finish_cases (new : list waypoint) s :
  dom_ok s →
  dom_ok (exec (finish new) s) ∧ frame s (exec (finish new) s) ∧
  (∀ ws m, shows ws m s → shows ws m (exec (finish new) s)) ∧
  ((finish new s).1 = Ok None ∧ new = []
   ∨ (finish new s).1 = Ok (Some (Fresh (arr_of_list new)))).
Proof.
  intros Hok. split; [by apply finish_ok|].
  destruct new as [|w ws]; [by split_and!; [apply frame_refl| |left]|].
  destruct (mapRef s) as [map|] eqn:Hmap; unfold exec.
  - rewrite (finish_map w ws map) by done. cbn [fst snd].
    split_and!; [by apply frame_on_map| |by right].
    intros ws' m. by apply shows_on_map.
  - rewrite finish_no_map by done. by split_and!; [apply frame_refl| |right].
Qed.

Lemma page_ok_run_end g p : page_ok p → page_ok (run_end g p).
Proof.
  intros Hp. unfold run_end.
  destruct (finish_cases (newWaypoints g) (v_dom (pg_view p)) (vo_dom _ (po_view _ Hp)))
    as (Hok & Hfr & Hsh & Hres).
  assert (page_ok (with_dom (finish (newWaypoints g) (v_dom (pg_view p))).2 p))
    as Hp2 by (by apply page_ok_with_dom).
  destruct Hres as [[-> _]| ->]; [done|].
  apply commit_ok; [apply Hp2..|apply dense_of_list|done].
Qed.

Lemma page_ok_run_on k names g p : page_ok p → page_ok (run_on k names g p).
Proof.
  intros Hp. unfold run_on, Page.run_on.
  destruct (run_names _); [apply page_ok_run_end|]; by apply page_ok_with_runs.
Qed.

Lemma page_ok_reply k r p : page_ok p → page_ok (geocode_step k r p).
Proof.
  intros Hp. unfold geocode_step, Page.geocode_step.
  destruct (pg_runs p !! k) as [[[|name rest] g]|]; [done| |done].
  by apply page_ok_run_on.
Qed.

Lemma page_ok_step p e :
  page_ok p → page_enabled p e = true →
  page_ok (page_handler p e).
Proof.
  intros Hp. unfold page_enabled. rewrite (po_alive p Hp). cbn [negb andb].
  pose proof (po_view p Hp) as Hv. pose proof (vo_dom _ Hv) as Hdom.
  destruct e as [hw|k|k|map| | | | |k r|e| ]; intros He; cbn [Page.page_handler].
  - assert (page_ok (run_renderEffect
      (with_view (view_handler (pg_view p) (VMount hw)) p))) as Hp'.
    { apply run_renderEffect_ok; cbn [with_view pg_crashed waypoints pg_view pg_console];
        [apply Hp..|by apply view_ok_step|apply Hp]. }
    by rewrite run_selfCheck_id.
  - apply page_ok_view; [done..|]. intros ws m Hm Hold. cbn [view_handler v_dom] in *.
    apply bool_decide_eq_true in He.
    destruct (decide (isMounted (v_dom (pg_view p)) !! k = Some true)) as [Hlive|Hdead].
    + destruct (vo_live _ Hv k He Hlive) as [_ Hnone].
      rewrite exec_onImported_view in * by done.
      rewrite mapRef_imported in Hm. injection Hm as <-. by apply shows_imported.
    + rewrite exec_onImported_dead in * by done. by apply Hold.
  - apply page_ok_view; [done..|]. intros ws m Hm Hold. by apply Hold.
  - apply page_ok_view; [done..|]. intros ws m Hm Hold. cbn [view_handler v_dom] in *.
    destruct (onLoad_refs map (v_dom (pg_view p))) as [Hr _]. rewrite Hr in Hm.
    destruct (ok_map_live _ Hdom m Hm) as (w & Hw & _).
    apply shows_loaded; [by eexists|by apply Hold].
  - apply page_ok_view; [done..|]. intros ws m Hm _. exfalso.
    apply bool_decide_eq_true in He as [k Hrun]. cbn [view_handler] in Hm.
    rewrite Hrun in Hm. cbn [v_dom] in Hm.
    destruct (mountCleanup_refs k (with_mapContainerRef false (v_dom (pg_view p))))
      as (Hr & _). congruence.
  - destruct Hp. by split.
  - destruct Hp. by split.
  - case_decide; [destruct Hp; by split|by apply page_ok_run_on, page_ok_with_runs].
  - by apply page_ok_reply.
  - apply page_ok_store; [done|]. destruct e; [done|by apply andb_true_iff in He as [_ ?]..].
  - by apply page_ok_toggle.
Qed.

Lemma page_reachable_page_ok p :
  page_reachable type_error_message uri_error_message p → page_ok p.
Proof. induction 1; [apply page_ok_init|by apply page_ok_step]. Qed.

(** *** The style of the maps *)

Lemma styled_run_renderEffect p :
  view_styled (pg_view p) → view_styled (pg_view (run_renderEffect p)).
Proof.
  intros Hs. unfold run_renderEffect.
  assert (view_styled (pg_view
    (with_dom (renderEffect (waypoints p) (v_dom (pg_view p))).2 p)))
    by by apply renderEffect_styled.
  by destruct (renderEffect _ _).1.
Qed.

Lemma styled_commit u p :
  view_styled (pg_view p) → view_styled (pg_view (commit u p)).
Proof.
  intros Hs. unfold commit. destruct (triggers u); [|done].
  destruct (render_rows _); [|done]. by apply styled_run_renderEffect.
Qed.

Lemma styled_run_end g p :
  view_styled (pg_view p) → view_styled (pg_view (run_end g p)).
Proof.
  intros Hs. unfold run_end.
  assert (view_styled (pg_view
    (with_dom (finish (newWaypoints g) (v_dom (pg_view p))).2 p)))
    by by apply finish_styled.
  destruct (finish _ _).1 as [[u|]|]; [by apply styled_commit|done..].
Qed.

Lemma styled_run_on k names g p :
  view_styled (pg_view p) → view_styled (pg_view (run_on k names g p)).
Proof.
  intros Hs. unfold run_on, Page.run_on.
  destruct (run_names _); [by apply styled_run_end|done].
Qed.

Lemma page_styled_step p e :
  page_ok p → view_styled (pg_view p) → page_enabled p e = true →
  view_styled (pg_view (page_handler p e)).
Proof.
  intros Hp Hs. unfold page_enabled. rewrite (po_alive p Hp). cbn [negb andb].
  pose proof (po_view p Hp) as Hv.
  destruct e as [hw|k|k|map| | | | |k r|e| ]; intros He; cbn [Page.page_handler].
  - rewrite run_selfCheck_id. apply styled_run_renderEffect. by apply view_styled_step.
  - by apply view_styled_step.
  - by apply view_styled_step.
  - by apply view_styled_step.
  - by apply view_styled_step.
  - exact Hs.
  - exact Hs.
  - case_decide; [exact Hs|by apply styled_run_on].
  - unfold Page.geocode_step.
    destruct (pg_runs p !! k) as [[[|name rest] g]|]; [done| |done].
    by apply styled_run_on.
  - by apply styled_commit.
  - assert (view_styled (pg_view
      (with_dom (toggleTerrain (terrainEnabled p) (v_dom (pg_view p))).2 p)))
      by by apply toggleTerrain_styled.
    by destruct (toggleTerrain _ _).1 as [[b|]|].
Qed.

Lemma page_reachable_styled p :
  page_reachable type_error_message uri_error_message p → view_styled (pg_view p).
Proof.
  induction 1 as [|p e Hp IH He]; [apply view_styled_init|].
  by apply page_styled_step; [apply page_reachable_page_ok|..].
Qed.

End page_steps.

(** ** What holds of the page *)

Section page_claims.
Context (type_error_message uri_error_message : jsstring).
Implicit Types (p : page) (ws : list waypoint) (map m : map_id).

(** C2 (the page).  In every state the page reaches, whatever the order
    of the user's actions, the replies of the service, the imports, the
    [load] events and the unmounts: no render and no effect has thrown and
    no assertion of the self-check has failed; the
    waypoints are an array of waypoints, so the list renders; the
    lifecycle invariant holds; and the map of the page shows the current
    route or nothing of it, never an older route: its markers are those of
    the waypoints or there is none, and its line runs through the
    waypoints, is empty, or does not exist yet.  Every map the page has
    created has the style of the page, which the widget accepts: the style
    it was created with until its [load] event, and from then on also the
    route, its line layer and the sky layer, each once, with a terrain
    that is off or the one of the page. *)
Theorem page_reachable_ok p :
  page_reachable type_error_message uri_error_message p →
  pg_crashed p = false ∧ pg_console p = [] ∧
  (∃ ws, waypoints p = arr_of_list ws ∧ is_Some (render_rows (waypoints p)) ∧
         ∀ map, mapRef (v_dom (pg_view p)) = Some map →
                shows ws map (v_dom (pg_view p))) ∧
  view_ok (pg_view p) ∧
  (∀ m w, maps (v_dom (pg_view p)) !! m = Some w →
          styled (bool_decide (m ∉ v_loading (pg_view p))) w ∧ style_ok w = true).
Proof.
  intros Hp. pose proof (page_reachable_styled _ _ p Hp) as Hst.
  destruct (page_reachable_page_ok _ _ p Hp) as [H1 H2 H3 H4 H5].
  split_and!; [done..| |done|].
  - destruct (dense_inv _ H2) as [ws Hws].
    exists ws. split_and!; [done|by apply render_rows_dense|]. intros map. by apply H4.
  - intros m w Hw. split; [|eapply styled_style_ok]; by apply Hst.
Qed.

Lemma page_run_reachable es p :
  page_reachable type_error_message uri_error_message p →
  page_reachable type_error_message uri_error_message
    (page_run type_error_message uri_error_message es p).
Proof.
  revert p. induction es as [|e es IH]; intros p Hp; [done|].
  apply IH. unfold page_step. destruct (page_enabled p e) eqn:He; [|done].
  by constructor.
Qed.

Lemma page_ok_run es p :
  page_ok p → page_ok (page_run type_error_message uri_error_message es p).
Proof.
  revert p. induction es as [|e es IH]; intros p Hp; [done|].
  apply IH. unfold page_step. destruct (page_enabled p e) eqn:He; [|done].
  by apply page_ok_step.
Qed.

(** The list: for an array of waypoints the list has one row per
    waypoint, in order; row [i] carries the index [i], the name and
    the coordinates of waypoint [i], latitude first; and its buttons are
    disabled exactly when [moveWaypoint] would have nowhere to move it: up
    on the first row, down on the last. *)
Theorem render_rows_spec ws :
  ∃ rows, render_rows (arr_of_list ws) = Some rows ∧
    length rows = length ws ∧
    ∀ i w, ws !! i = Some w →
      ∃ r, rows !! i = Some r ∧
        row_index r = i ∧ row_name r = name w ∧
        (row_lat r, row_lon r) = ((coord w).2, (coord w).1) ∧
        up_disabled r = negb (button_enabled (arr_of_list ws) i StoreSpec.Up) ∧
        down_disabled r = negb (button_enabled (arr_of_list ws) i StoreSpec.Down).
Proof.
  eexists. split; [apply render_rows_of_list|]. split; [by rewrite length_imap|].
  intros i w Hi. eexists. split; [by rewrite list_lookup_imap, Hi|].
  cbn [row_index row_name row_lat row_lon up_disabled down_disabled].
  assert (row_exists (arr_of_list ws) i = true) as Hrow
    by (apply row_exists_of_list; by eapply lookup_lt_Some).
  unfold button_enabled. rewrite Hrow, length_arr_of_list. cbn [andb].
  rewrite !negb_involutive. split_and!; try done.
  - by destruct i.
  - case_bool_decide; symmetry; [by apply Z.eqb_eq|by apply Z.eqb_neq].
Qed.

(** The turns without a request collect no waypoint. *)
Lemma newWaypoints_run_ahead names g :
  newWaypoints (run_geo (run_ahead type_error_message uri_error_message names g))
  = newWaypoints g.
Proof.
  revert g. induction names as [|name names IH]; intros g; [done|]. cbn [run_ahead].
  destruct (encodeURIComponent name); [done|]. rewrite IH. by destruct g.
Qed.

(** Past names that cannot be encoded the loop does not stop. *)
Lemma run_ahead_unencodable names g :
  Forall (λ name, encodeURIComponent name = None) names →
  run_names (run_ahead type_error_message uri_error_message names g) = [].
Proof.
  intros Hnames. revert g. induction Hnames as [|name names Hq _ IH]; intros g; [done|].
  cbn [run_ahead]. by rewrite Hq.
Qed.

(** The end of a run that located a name replaces the waypoints. *)
Lemma run_end_waypoints g p :
  view_ok (pg_view p) → newWaypoints g ≠ [] →
  waypoints (run_end g p) = arr_of_list (newWaypoints g).
Proof.
  intros Hv Hne. unfold run_end.
  destruct (finish_cases (newWaypoints g) (v_dom (pg_view p)) (vo_dom _ Hv))
    as (Hok & Hfr & _ & [[_ Hnil]|Hres]); [done|].
  rewrite Hres. unfold commit. cbn [triggers apply_update with_waypoints waypoints].
  rewrite render_rows_of_list. unfold run_renderEffect.
  cbn [with_dom with_waypoints waypoints pg_view v_dom].
  by rewrite renderEffect_completes.
Qed.

(** With a map, the end of a run that located a name fits the map to the
    waypoints collected and then renders them. *)
Lemma run_end_dom g p w ws map :
  view_ok (pg_view p) → newWaypoints g = w :: ws →
  mapRef (v_dom (pg_view p)) = Some map →
  v_dom (pg_view (run_end g p))
  = exec (renderEffect (arr_of_list (w :: ws)))
      (with_maps (alter (w_with_fit (fitBounds_request (w :: ws))) map)
         (v_dom (pg_view p))).
Proof.
  intros Hv Hnew Hmap. unfold run_end. rewrite Hnew, (finish_map w ws map) by done.
  cbn [fst snd]. unfold commit. cbn [triggers apply_update with_waypoints waypoints].
  rewrite render_rows_of_list. unfold run_renderEffect.
  cbn [with_dom with_waypoints waypoints pg_view v_dom].
  by rewrite renderEffect_completes by (apply dom_ok_on_map; [done|apply Hv]).
Qed.

(** When the reply to the last request of a run of [geocodeScenes] locates
    its name, the waypoints of the page become the waypoints the run
    collected, whatever they were before. *)
Lemma geocode_step_last p k name rest g q lon lat :
  view_ok (pg_view p) →
  pg_runs p !! k = Some {| run_names := name :: rest; run_geo := g |} →
  encodeURIComponent name = Some q →
  Forall (λ name', encodeURIComponent name' = None) rest →
  waypoints (geocode_step type_error_message uri_error_message k (Result lon lat) p)
  = arr_of_list (newWaypoints g ++
                  [{| name := name; coord := (parseFloat lon, parseFloat lat) |}]).
Proof.
  intros Hv Hk Hq Hrest. unfold geocode_step, run_on. rewrite Hk.
  destruct (lookup_step (λ _ _, Result lon lat) type_error_message
    uri_error_message name [] g) as (g' & Hg' & _ & Hnew & _).
  cbn [Geocode.lookup_all] in Hnew. rewrite Hq in Hnew. cbn in Hnew.
  replace (exec _ g) with g' by (unfold exec; by rewrite Hg').
  cbn zeta. rewrite run_ahead_unencodable by done.
  rewrite run_end_waypoints; rewrite ?newWaypoints_run_ahead, ?Hnew; [done..|].
  by destruct (newWaypoints g).
Qed.

End page_claims.

Lemma page_reachable_ok_witness :
  pg_crashed (page_run [] [] page_example page_init) = false.
Proof.
  exact (proj1 (page_reachable_ok [] [] _
    (page_run_reachable [] [] page_example page_init (page_reach_init [] [])))).
Defined.

