(* ===== verification/Session.v ===== *)
(** * Session: what sequences of events come to

    A run of [geocodeScenes] (src/unnamed/part_000, lines 202-260) waits
    for the service once per name it can encode, and the page goes on
    reacting to the user in between.  This file follows runs across the
    events of the page: how many replies a run still waits for, that a run
    left alone does what [geocodeScenes] of [Geocode] does as one function,
    which of two runs that overlap decides the waypoints, what a reply
    does after the page was unmounted, and whether the terrain button and
    the widget agree (lines 291-300 and 366) after the map has been created
    with terrain on (lines 93-96). *)

From Stdlib Require Import ZArith Lia.
From S2P Require Import Prelude JsNum JsString JsText JsNumText JsArray Effect.
From S2P Require Import Waypoints BoundingBox SelfCheck MapView Lifecycle Geocode Page.

(** ** Runs in flight *)

(** A run is at an [await] or at its end: the name it is at, if any, is
    one the loop could encode. *)
Definition run_ready (r : run) : Prop :=
  match run_names r with
  | [] => True
  | name :: _ => is_Some (encodeURIComponent name)
  end.

(** The number of replies run [k] still waits for: one for each name left
    that can be encoded, since the loop asks the service for no other. *)
Definition run_left (p : page) (k : nat) : nat :=
  match pg_runs p !! k with
  | Some r =>
      length (filter (λ name, is_Some (encodeURIComponent name)) (run_names r))
  | None => 0
  end.

(** Every run of the page is at an [await] or at its end. *)
Definition runs_ready (p : page) : Prop := Forall run_ready (pg_runs p).

(** Whether an event is a reply of the service to run [k]. *)
Definition is_reply_of (k : nat) (e : page_event) : bool :=
  match e with
  | PReply k' _ => bool_decide (k' = k)
  | _ => false
  end.

(** The replies to run [k] among a sequence of events. *)
Definition replies_of (k : nat) (es : list page_event) : nat :=
  length (filter (λ e, is_reply_of k e = true) es).

(** The replies a service gives to the requests of a loop over [names]
    whose next request is number [n]. *)
Fixpoint replies_to (service : nat → jsstring → reply) (n : nat)
    (names : list jsstring) : list reply :=
  match names with
  | [] => []
  | name :: rest =>
      match encodeURIComponent name with
      | Some q => service n (search_url q) :: replies_to service (S n) rest
      | None => replies_to service n rest
      end
  end.

(** What a reply does to the run it answers: the rest of the turn of
    the loop that asked (lines 216-231) and the loop up to its next request.
    A run that has ended waits for no reply. *)
Definition run_reply (type_error_message uri_error_message : jsstring)
    (r : run) (rep : reply) : run :=
  match run_names r with
  | [] => r
  | name :: rest =>
      run_ahead type_error_message uri_error_message rest
        (exec (lookup (λ _ _, rep) type_error_message uri_error_message name) (run_geo r))
  end.

(** The replies to run [k] in a sequence of events, in order. *)
Definition replies_in (k : nat) (es : list page_event) : list reply :=
  omap (λ e, match e with
             | PReply k' rep => if decide (k' = k) then Some rep else None
             | _ => None
             end) es.

(** ** The terrain button and the widget *)

(** The widget has terrain exactly when the flag, and with it the label
    of the button, says so. *)
Definition terrain_agrees (p : page) : Prop :=
  ∀ map, mapRef (v_dom (pg_view p)) = Some map →
    terrain_of map (v_dom (pg_view p))
    = if terrainEnabled p then Some terrain_on else None.

(** ** Runs: lemmas *)

Section runs.
Context (type_error_message uri_error_message : jsstring).
Implicit Types (p : page) (e : page_event) (es : list page_event) (k : nat).

Local Abbreviation page_handler :=
  (page_handler type_error_message uri_error_message).
Local Abbreviation page_step := (page_step type_error_message uri_error_message).
Local Abbreviation page_run := (page_run type_error_message uri_error_message).
Local Abbreviation geocode_step :=
  (geocode_step type_error_message uri_error_message).
Local Abbreviation run_ahead := (run_ahead type_error_message uri_error_message).
Local Abbreviation run_on := (run_on type_error_message uri_error_message).

Lemma pg_runs_run_renderEffect p : pg_runs (run_renderEffect p) = pg_runs p.
Proof. unfold run_renderEffect. by destruct (renderEffect _ _).1. Qed.

Lemma pg_runs_commit u p : pg_runs (commit u p) = pg_runs p.
Proof.
  unfold commit. destruct (triggers u); [|done].
  destruct (render_rows _); [|done]. by rewrite pg_runs_run_renderEffect.
Qed.

Lemma pg_runs_run_end g p : pg_runs (run_end g p) = pg_runs p.
Proof.
  unfold run_end. destruct (finish _ _).1 as [[u|]|]; [|done..].
  by rewrite pg_runs_commit.
Qed.

Lemma pg_runs_run_on k names g p :
  pg_runs (run_on k names g p) = <[k := run_ahead names g]> (pg_runs p).
Proof.
  unfold run_on, Page.run_on. destruct (run_names _); [|done].
  by rewrite pg_runs_run_end.
Qed.

(** Where the loop stops it is at an [await] or at its end, and it has
    passed no name that needs a reply. *)
Lemma run_ahead_ready names g : run_ready (run_ahead names g).
Proof.
  revert g. induction names as [|name names IH]; intros g; [done|].
  cbn [Page.run_ahead]. destruct (encodeURIComponent name) eqn:Hq; [|apply IH].
  unfold run_ready. cbn [run_names]. by rewrite Hq.
Qed.

Lemma run_ahead_left names g :
  filter (λ name, is_Some (encodeURIComponent name)) (run_names (run_ahead names g))
  = filter (λ name, is_Some (encodeURIComponent name)) names.
Proof.
  revert g. induction names as [|name names IH]; intros g; [done|].
  cbn [Page.run_ahead]. destruct (encodeURIComponent name) eqn:Hq; [done|].
  rewrite IH, (filter_cons_False _ name); [done|]. rewrite Hq. by intros [].
Qed.

(** What an event does to the runs: a reply moves its run to the next
    [await], the button starts a run after the others, nothing else
    touches them. *)
Lemma pg_runs_handler p e :
  match e with
  | PReply k r =>
      match pg_runs p !! k with
      | Some {| run_names := name :: rest; run_geo := g |} =>
          ∃ g', pg_runs (page_handler p e) = <[k := run_ahead rest g']> (pg_runs p)
      | _ => pg_runs (page_handler p e) = pg_runs p
      end
  | PGeocode =>
      ∃ rs, pg_runs (page_handler p e) = pg_runs p ++ rs ∧ Forall run_ready rs
  | _ => pg_runs (page_handler p e) = pg_runs p
  end.
Proof.
  destruct e as [hw|k|k|map| | | | |k r|e| ]; cbn [Page.page_handler]; try done.
  - by rewrite run_selfCheck_id, pg_runs_run_renderEffect.
  - case_decide; [exists []; by rewrite app_nil_r|].
    eexists [_]. rewrite pg_runs_run_on. cbn [with_runs pg_runs].
    rewrite <-(Nat.add_0_r (length (pg_runs p))), insert_app_r.
    split; [done|]. apply Forall_singleton, run_ahead_ready.
  - unfold Page.geocode_step.
    destruct (pg_runs p !! k) as [[[|name rest] g]|] eqn:Hk; [done| |done].
    eexists. apply pg_runs_run_on.
  - apply pg_runs_commit.
  - by destruct (toggleTerrain _ _).1 as [[b|]|].
Qed.

(** Every run of the page is at an [await] or at its end. *)
Lemma runs_ready_step p e : runs_ready p → runs_ready (page_step p e).
Proof.
  unfold runs_ready, page_step, Page.page_step. intros Hp.
  destruct (page_enabled p e); [|done].
  pose proof (pg_runs_handler p e) as Hruns.
  destruct e as [hw|k'|k''|map| | | | |k' r|e| ]; try by rewrite Hruns.
  - destruct Hruns as (rs & -> & Hrs). by apply Forall_app.
  - destruct (pg_runs p !! k') as [[[|name rest] g]|]; [by rewrite Hruns| |by rewrite Hruns].
    destruct Hruns as [g' ->]. apply Forall_insert; [done|apply run_ahead_ready].
Qed.

Lemma runs_ready_reachable p :
  page_reachable type_error_message uri_error_message p → runs_ready p.
Proof.
  induction 1 as [|p e _ IH He]; [by constructor|].
  pose proof (runs_ready_step p e IH) as Hstep.
  unfold page_step, Page.page_step in Hstep. by rewrite He in Hstep.
Qed.

(** One event, seen from run [k]. *)
Lemma run_left_step p e k :
  page_ok p → runs_ready p → k < length (pg_runs p) →
  run_left (page_step p e) k
  = run_left p k - (if is_reply_of k e then 1 else 0) ∧
  k < length (pg_runs (page_step p e)).
Proof.
  intros Hp Hready Hk. unfold page_step, Page.page_step, run_left.
  destruct (page_enabled p e) eqn:He.
  - pose proof (pg_runs_handler p e) as Hruns.
    destruct e as [hw|k'|k''|map| | | | |k' r|e| ]; cbn [is_reply_of];
      try (rewrite Hruns, Nat.sub_0_r; done).
    + destruct Hruns as (rs & -> & _).
      rewrite lookup_app_l, length_app, Nat.sub_0_r by done. split; [done|lia].
    + unfold page_enabled in He. rewrite (po_alive p Hp) in He. cbn in He.
      unfold run_waiting in He.
      destruct (pg_runs p !! k') as [[[|name rest] g]|] eqn:Hk'; [done| |done].
      destruct Hruns as [g' ->]. rewrite length_insert. split; [|done].
      destruct (decide (k' = k)) as [->|Hne].
      * rewrite bool_decide_true, list_lookup_insert_eq, Hk' by done.
        rewrite run_ahead_left. cbn [run_names].
        rewrite filter_cons_True; [simpl; lia|].
        apply (Forall_lookup_1 _ _ _ _ Hready Hk').
      * rewrite bool_decide_false, list_lookup_insert_ne by done. lia.
  - split; [|done]. destruct (is_reply_of k e) eqn:Hr; [|lia].
    destruct e as [| | | | | | | |k' r| | ]; try done.
    apply bool_decide_eq_true in Hr as ->.
    unfold page_enabled in He. rewrite (po_alive p Hp) in He. cbn in He.
    unfold run_waiting in He. destruct (pg_runs p !! k) as [[names g]|]; [|done].
    apply bool_decide_eq_false in He. destruct names; [done|]. by destruct He.
Qed.

Lemma page_ok_page_step p e : page_ok p → page_ok (page_step p e).
Proof.
  intros Hp. unfold page_step, Page.page_step.
  destruct (page_enabled p e) eqn:He; [by apply page_ok_step|done].
Qed.

Lemma replies_of_cons k e es :
  replies_of k (e :: es) = (if is_reply_of k e then 1 else 0) + replies_of k es.
Proof.
  unfold replies_of. rewrite filter_cons. by destruct (is_reply_of k e).
Qed.

Lemma run_left_run es p k :
  page_ok p → runs_ready p → k < length (pg_runs p) →
  run_left (page_run es p) k = run_left p k - replies_of k es.
Proof.
  revert p. induction es as [|e es IH]; intros p Hp Hready Hk.
  { unfold replies_of. simpl. lia. }
  destruct (run_left_step p e k Hp Hready Hk) as [Hstep Hk'].
  cbn [Page.page_run foldl]. fold (page_step p e).
  change (foldl page_step (page_step p e) es) with (page_run es (page_step p e)).
  rewrite IH, Hstep, replies_of_cons by auto using page_ok_page_step, runs_ready_step.
  lia.
Qed.

End runs.

(** ** Runs: theorems *)

Section run_claims.
Context (type_error_message uri_error_message : jsstring).
Implicit Types (p : page) (e : page_event) (es : list page_event) (k : nat).

Local Abbreviation page_handler :=
  (page_handler type_error_message uri_error_message).
Local Abbreviation run_reply := (run_reply type_error_message uri_error_message).
Local Abbreviation page_step := (page_step type_error_message uri_error_message).
Local Abbreviation page_run := (page_run type_error_message uri_error_message).
Local Abbreviation page_reachable :=
  (page_reachable type_error_message uri_error_message).
Local Abbreviation run_ahead := (run_ahead type_error_message uri_error_message).
Local Abbreviation run_on := (run_on type_error_message uri_error_message).
Local Abbreviation geocode_step :=
  (geocode_step type_error_message uri_error_message).

Lemma run_waiting_left p k :
  runs_ready p → run_waiting p k = true ↔ 0 < run_left p k.
Proof.
  intros Hready. unfold run_waiting, run_left.
  destruct (pg_runs p !! k) as [[names g]|] eqn:Hk; [|simpl; lia].
  rewrite bool_decide_eq_true. destruct names as [|name names]; simpl; [split; [done|lia]|].
  rewrite filter_cons_True by apply (Forall_lookup_1 _ _ _ _ Hready Hk).
  split; [simpl; lia|done].
Qed.

(** An event that is no reply to run [k] leaves the run as it is. *)
Lemma pg_runs_lookup_step p e k :
  is_reply_of k e = false → k < length (pg_runs p) →
  pg_runs (page_step p e) !! k = pg_runs p !! k.
Proof.
  intros He Hk. unfold page_step, Page.page_step.
  destruct (page_enabled p e); [|done].
  pose proof (pg_runs_handler type_error_message uri_error_message p e) as Hruns.
  destruct e as [hw|k'|k''|map| | | | |k' r|e| ]; try by rewrite Hruns.
  - destruct Hruns as (rs & -> & _). by rewrite lookup_app_l.
  - apply bool_decide_eq_false in He.
    destruct (pg_runs p !! k') as [[[|name rest] g]|]; [by rewrite Hruns| |by rewrite Hruns].
    destruct Hruns as [g' ->]. by rewrite list_lookup_insert_ne.
Qed.

Lemma pg_runs_lookup_run es p k :
  replies_of k es = 0 → k < length (pg_runs p) →
  pg_runs (page_run es p) !! k = pg_runs p !! k.
Proof.
  revert p. induction es as [|e es IH]; intros p Hes Hk; [done|].
  rewrite replies_of_cons in Hes.
  destruct (is_reply_of k e) eqn:He; [lia|].
  cbn [Page.page_run foldl]. fold (page_step p e).
  change (foldl page_step (page_step p e) es) with (page_run es (page_step p e)).
  pose proof (pg_runs_lookup_step p e k He Hk) as Hstep.
  rewrite IH, Hstep; [done..|]. apply lookup_lt_is_Some.
  rewrite Hstep. by apply lookup_lt_is_Some.
Qed.

(** What a reply does to the runs of the page. *)
Lemma pg_runs_reply p k rep :
  pg_runs (page_handler p (PReply k rep))
  = match pg_runs p !! k with
    | Some r => <[k := run_reply r rep]> (pg_runs p)
    | None => pg_runs p
    end.
Proof.
  cbn [Page.page_handler]. unfold Page.geocode_step, run_reply.
  destruct (pg_runs p !! k) as [[[|name rest] g]|] eqn:Hk; [|apply pg_runs_run_on|done].
  cbn [run_names]. by rewrite list_insert_id.
Qed.

(** One event, seen from run [k]: a reply to the run moves it on, and
    nothing else touches it. *)
Lemma run_step p e k r :
  page_ok p → pg_runs p !! k = Some r →
  pg_runs (page_step p e) !! k = Some (foldl run_reply r (replies_in k [e])).
Proof.
  intros Hp Hk. assert (k < length (pg_runs p)) as Hlen by by eapply lookup_lt_Some.
  destruct (decide (is_reply_of k e = true)) as [He|He%not_true_is_false].
  - destruct e as [| | | | | | | |k' rep| | ]; try done.
    apply bool_decide_eq_true in He as ->. cbn [replies_in omap list_omap].
    rewrite decide_True by done. cbn [foldl].
    unfold page_step, Page.page_step, page_enabled, run_waiting.
    rewrite (po_alive p Hp), Hk. cbn [negb andb]. case_bool_decide as Hnames.
    + by rewrite pg_runs_reply, Hk, list_lookup_insert_eq.
    + rewrite Hk. unfold run_reply. by destruct (run_names r).
  - rewrite pg_runs_lookup_step, Hk by done. f_equal.
    destruct e as [| | | | | | | |k' rep| | ]; try done.
    apply bool_decide_eq_false in He. cbn [replies_in omap list_omap].
    by rewrite decide_False.
Qed.

(** A run across events: it is what its own replies make of it. *)
Lemma run_steps es p k r :
  page_ok p → pg_runs p !! k = Some r →
  pg_runs (page_run es p) !! k = Some (foldl run_reply r (replies_in k es)).
Proof.
  revert p r. induction es as [|e es IH]; intros p r Hp Hk; [done|].
  cbn [Page.page_run foldl]. fold (page_step p e).
  change (foldl page_step (page_step p e) es) with (page_run es (page_step p e)).
  rewrite (IH _ _ (page_ok_page_step _ _ p e Hp) (run_step p e k r Hp Hk)).
  f_equal. change (e :: es) with ([e] ++ es).
  unfold replies_in. by rewrite omap_app, foldl_app.
Qed.

Lemma replies_in_app k es1 es2 :
  replies_in k (es1 ++ es2) = replies_in k es1 ++ replies_in k es2.
Proof. apply omap_app. Qed.

Lemma replies_in_reply k rep : replies_in k [PReply k rep] = [rep].
Proof. cbn [replies_in omap list_omap]. by rewrite decide_True. Qed.

Lemma replies_of_in k es : replies_of k es = length (replies_in k es).
Proof.
  induction es as [|e es IH]; [done|]. rewrite replies_of_cons, IH.
  destruct e as [| | | | | | | |k' rep| | ]; try done.
  cbn [is_reply_of replies_in omap list_omap]. by case_bool_decide; case_decide.
Qed.

(** A service is asked once for each name that can be encoded. *)
Lemma length_replies_to service n names :
  length (replies_to service n names)
  = length (filter (λ name, is_Some (encodeURIComponent name)) names).
Proof.
  revert n. induction names as [|name names IH]; intros n; [done|]. cbn [replies_to].
  destruct (encodeURIComponent name) eqn:Hq.
  - rewrite filter_cons_True by (by rewrite Hq). cbn [length]. by rewrite IH.
  - rewrite filter_cons_False by (rewrite Hq; by intros []). apply IH.
Qed.

(** The replies of a service, fed to a run from where it waits, take it
    through the loop of [geocodeScenes]. *)
Lemma run_reply_service service names g :
  foldl run_reply (run_ahead names g) (replies_to service (length (requests g)) names)
  = {| run_names := [];
       run_geo := exec (lookups service type_error_message uri_error_message names) g |}.
Proof.
  revert g. induction names as [|name names IH]; intros g; [done|].
  rewrite lookups_cons. cbn [replies_to Page.run_ahead].
  destruct (encodeURIComponent name) as [q|] eqn:Hq.
  - destruct (lookup_reply service type_error_message uri_error_message name q g Hq)
      as [Hone Hrq].
    rewrite <-IH, Hrq. cbn [foldl]. f_equal.
    unfold run_reply, Session.run_reply. cbn [run_names run_geo]. unfold exec.
    by rewrite Hone.
  - replace (exec (lookup _ _ _ name) g)
      with (exec (report type_error_message uri_error_message name URIError) g)
      by (unfold exec; by rewrite lookup_unencodable).
    by rewrite <-IH, requests_report.
Qed.

(** The button on a mounted page with names to look up: a new run, taken
    up to its first request. *)
Lemma page_step_PGeocode p :
  page_ok p → mounted p = true → parse_names (sceneText p) ≠ [] →
  let k := length (pg_runs p) in
  let names := parse_names (sceneText p) in
  page_step p PGeocode
  = run_on k names geo_init
      (with_runs (λ rs, rs ++ [{| run_names := names; run_geo := geo_init |}]) p) ∧
  pg_runs (page_step p PGeocode) !! k = Some (run_ahead names geo_init).
Proof.
  intros Hp Hm Hnames k names.
  assert (page_step p PGeocode
          = run_on k names geo_init
              (with_runs (λ rs, rs ++ [{| run_names := names; run_geo := geo_init |}]) p))
    as Hstep.
  { unfold Page.page_step, page_enabled. rewrite (po_alive p Hp), Hm.
    cbn [negb andb Page.page_handler]. by rewrite decide_False by by intros ?%nil_length_inv. }
  split; [done|]. rewrite Hstep, pg_runs_run_on. cbn [with_runs pg_runs].
  apply list_lookup_insert_eq. rewrite length_app. simpl. lia.
Qed.

(** The reply a run waits for, when the run ends with it: the page goes
    on from the end of the loop. *)
Lemma page_step_last_reply p k r rep g :
  page_ok p → pg_runs p !! k = Some r → run_names r ≠ [] →
  run_reply r rep = {| run_names := []; run_geo := g |} →
  page_step p (PReply k rep)
  = run_end g (with_runs <[k := {| run_names := []; run_geo := g |}]> p).
Proof.
  intros Hp Hk Hr Hfin. destruct r as [[|name rest] g1]; [done|].
  unfold Page.page_step, page_enabled, run_waiting.
  rewrite (po_alive _ Hp), Hk. cbn [negb andb run_names].
  rewrite bool_decide_true by done. cbn [Page.page_handler].
  unfold Page.geocode_step, run_on, Page.run_on. rewrite Hk.
  unfold Session.run_reply in Hfin. cbn [run_names run_geo] in Hfin.
  by rewrite Hfin.
Qed.

(** The last of the replies of a service to a run ends it. *)
Lemma run_reply_last service names g rs rep :
  rs ++ [rep] = replies_to service (length (requests g)) names →
  run_reply (foldl run_reply (run_ahead names g) rs) rep
  = {| run_names := [];
       run_geo := exec (lookups service type_error_message uri_error_message names) g |}.
Proof.
  intros Hrs. by rewrite <-(run_reply_service service names g), <-Hrs, foldl_app.
Qed.

(** The button, any events, and the last reply of the service to the
    run of the button: the run ends there, with what the loop of
    [geocodeScenes] computes, on the page as the events have left it. *)
Lemma page_run_session service p es rep :
  page_ok p → runs_ready p → mounted p = true →
  let k := length (pg_runs p) in
  let names := parse_names (sceneText p) in
  let g := exec (lookups service type_error_message uri_error_message names) geo_init in
  names ≠ [] →
  replies_in k (es ++ [PReply k rep]) = replies_to service 0 names →
  k < length (pg_runs (page_run (PGeocode :: es) p)) ∧
  page_run (PGeocode :: es ++ [PReply k rep]) p
  = run_end g (with_runs <[k := {| run_names := []; run_geo := g |}]>
                 (page_run (PGeocode :: es) p)).
Proof.
  intros Hp Hready Hm k names g Hnames Hes.
  destruct (page_step_PGeocode p Hp Hm Hnames) as [_ Hk0]. fold k names in Hk0.
  pose proof (page_ok_page_step type_error_message uri_error_message p PGeocode Hp) as Hp0.
  pose proof (runs_ready_step type_error_message uri_error_message p PGeocode Hready)
    as Hready0.
  set (p1 := page_run (PGeocode :: es) p).
  assert (page_ok p1) as Hp1
    by apply (page_ok_run type_error_message uri_error_message es _ Hp0).
  assert (pg_runs p1 !! k
          = Some (foldl run_reply (run_ahead names geo_init) (replies_in k es))) as Hk1
    by apply (run_steps es _ k _ Hp0 Hk0).
  split; [by eapply lookup_lt_Some|].
  assert (run_left p1 k = run_left (page_step p PGeocode) k - replies_of k es) as Hleft
    by apply (run_left_run type_error_message uri_error_message es _ k Hp0 Hready0
                (lookup_lt_Some _ _ _ Hk0)).
  unfold run_left in Hleft. rewrite Hk0, Hk1, run_ahead_left, replies_of_in in Hleft.
  rewrite replies_in_app, replies_in_reply in Hes.
  pose proof (f_equal length Hes) as Hlen.
  rewrite length_app, length_replies_to in Hlen. cbn [length] in Hlen.
  assert (run_names (foldl run_reply (run_ahead names geo_init) (replies_in k es)) ≠ [])
    as Hwait by (intros Hnil; rewrite Hnil in Hleft; cbn in Hleft; lia).
  change (page_run (PGeocode :: es ++ [PReply k rep]) p)
    with (foldl page_step (page_step p PGeocode) (es ++ [PReply k rep])).
  rewrite foldl_app. cbn [foldl].
  by apply (page_step_last_reply _ k _ rep g Hp1 Hk1 Hwait), (run_reply_last service).
Qed.

(** C16 (runs do not disturb each other).  From any state the page
    reaches, and whatever the events that follow, a run of [geocodeScenes]
    is what the replies to it make of it, in their order: clicks, moves,
    typing, the life of the map and the other runs with their replies leave
    its names, its waypoints, its alerts and its requests alone.  So when
    the replies of a service to its requests have come, in whatever company,
    the run has ended and holds what the loop of [geocodeScenes] computes
    against that service. *)
Theorem run_isolated p k r es :
  page_reachable p → pg_runs p !! k = Some r →
  pg_runs (page_run es p) !! k = Some (foldl run_reply r (replies_in k es)) ∧
  ∀ service names g,
    r = run_ahead names g →
    replies_in k es = replies_to service (length (requests g)) names →
    pg_runs (page_run es p) !! k
    = Some {| run_names := [];
              run_geo := exec (lookups service type_error_message uri_error_message
                                 names) g |}.
Proof.
  intros Hp%page_reachable_page_ok Hk.
  pose proof (run_steps es p k r Hp Hk) as Hrun. split; [done|].
  intros service names g -> Hes. by rewrite Hrun, Hes, run_reply_service.
Qed.

(** C15 (a run ends).  From any state the page reaches, and whatever the
    events that follow, clicks, moves, other runs and their replies
    included, a run of [geocodeScenes] that waits for [n] replies waits
    for one less after each reply to it, and for none after [n] of them:
    the loop asks the service once for each name it can encode, makes the
    turns of the other names without waiting, and is over after as many
    replies as it has names to ask for. *)
Theorem run_countdown p k es :
  page_reachable p → k < length (pg_runs p) →
  run_left (page_run es p) k = run_left p k - replies_of k es ∧
  (run_waiting (page_run es p) k = true ↔ replies_of k es < run_left p k).
Proof.
  intros Hreach Hk.
  pose proof (page_reachable_page_ok _ _ p Hreach) as Hp.
  pose proof (runs_ready_reachable _ _ p Hreach) as Hready.
  rewrite run_waiting_left
    by by apply (runs_ready_reachable type_error_message uri_error_message),
      page_run_reachable.
  rewrite (run_left_run _ _ es p k Hp Hready Hk). split; [done|lia].
Qed.

(** C17 (the last reply decides).  When the reply to the last request of
    a run of [geocodeScenes] locates its name, the waypoints of the page
    become those the run has collected, whatever happened since the run
    made that request: clicks on the map, moves, a cleared route, and
    other runs that started later or earlier and ended in between are all
    overwritten.  Of two runs that overlap, the one that ends last decides
    the route. *)
Theorem last_reply_wins p k name rest g lon lat es :
  page_reachable p →
  pg_runs p !! k = Some {| run_names := name :: rest; run_geo := g |} →
  Forall (λ name', encodeURIComponent name' = None) rest →
  replies_of k es = 0 →
  waypoints (page_run (es ++ [PReply k (Result lon lat)]) p)
  = arr_of_list (newWaypoints g ++
      [{| name := name; coord := (parseFloat lon, parseFloat lat) |}]).
Proof.
  intros Hreach Hk Hrest Hes.
  pose proof (page_reachable_page_ok _ _ p Hreach) as Hp.
  destruct (Forall_lookup_1 _ _ _ _ (runs_ready_reachable _ _ p Hreach) Hk) as [q Hq].
  assert (k < length (pg_runs p)) as Hlen by by eapply lookup_lt_Some.
  pose proof (page_ok_run type_error_message uri_error_message es p Hp) as Hp'.
  pose proof (pg_runs_lookup_run es p k Hes Hlen) as Hk'. rewrite Hk in Hk'.
  unfold page_run, Page.page_run. rewrite foldl_app. cbn [foldl].
  fold (page_run es p). unfold Page.page_step, page_enabled, run_waiting.
  rewrite (po_alive _ Hp'), Hk'. cbn [negb andb run_names]. cbn [Page.page_handler].
  rewrite bool_decide_true by done.
  by apply (geocode_step_last _ _ _ k name rest g q); [apply Hp'| | |].
Qed.

(** Writing the run that was started last. *)
Lemma with_runs_insert_last r r' p :
  with_runs <[length (pg_runs p) := r']> (with_runs (λ rs, rs ++ [r]) p)
  = with_runs (λ rs, rs ++ [r']) p.
Proof.
  unfold with_runs. cbn.
  by rewrite <-(Nat.add_0_r (length (pg_runs p))), insert_app_r.
Qed.

(** Writing run [k] twice is writing it once. *)
Lemma run_on_insert k names g r p :
  run_on k names g (with_runs <[k := r]> p) = run_on k names g p.
Proof.
  unfold run_on.
  assert (∀ r', with_runs <[k := r']> (with_runs <[k := r]> p) = with_runs <[k := r']> p)
    as Hw; [|by rewrite Hw].
  intros r'. unfold with_runs. cbn. by rewrite list_insert_insert_eq.
Qed.

(** A run whose replies come one after the other, with no other event in
    between, goes through the loop of [geocodeScenes]. *)
Lemma run_on_replies service k names g p :
  pg_crashed p = false → k < length (pg_runs p) →
  page_run (PReply k <$> replies_to service (length (requests g)) names)
    (run_on k names g p)
  = run_on k [] (exec (lookups service type_error_message uri_error_message names) g) p.
Proof.
  intros Hal Hk. revert g. induction names as [|name names IH]; intros g; [done|].
  rewrite lookups_cons. cbn [replies_to].
  destruct (encodeURIComponent name) as [q|] eqn:Hq.
  - destruct (lookup_reply service type_error_message uri_error_message name q g Hq)
      as [Hone Hrq].
    rewrite <-IH, Hrq. unfold Page.page_run. cbn [fmap list_fmap foldl].
    f_equal. unfold run_on at 1. cbn [run_ahead]. rewrite Hq. cbn [run_names].
    unfold Page.page_step, page_enabled, run_waiting. cbn [with_runs pg_crashed pg_runs].
    rewrite Hal, list_lookup_insert_eq by done. cbn [negb andb run_names].
    rewrite bool_decide_true by done. cbn [Page.page_handler].
    unfold geocode_step. cbn [with_runs pg_runs].
    rewrite list_lookup_insert_eq by done.
    fold (with_runs <[k := {| run_names := name :: names; run_geo := g |}]> p).
    rewrite run_on_insert. unfold exec. by rewrite Hone.
  - replace (exec (lookup _ _ _ name) g)
      with (exec (report type_error_message uri_error_message name URIError) g)
      by (unfold exec; by rewrite lookup_unencodable).
    rewrite <-IH, requests_report. f_equal. unfold run_on. cbn [run_ahead]. by rewrite Hq.
Qed.

(** The button and the replies to its run, one after the other: the loop
    of [geocodeScenes] over the names of the text area, and then its end. *)
Lemma page_run_PGeocode service p :
  page_ok p → mounted p = true → parse_names (sceneText p) ≠ [] →
  let g := exec (lookups service type_error_message uri_error_message
                   (parse_names (sceneText p))) geo_init in
  page_run (PGeocode :: (PReply (length (pg_runs p))
                           <$> replies_to service 0 (parse_names (sceneText p)))) p
  = run_end g (with_runs (λ rs, rs ++ [{| run_names := []; run_geo := g |}]) p).
Proof.
  intros Hp Hm Hnames g. subst g.
  pose proof (run_on_replies service (length (pg_runs p)) (parse_names (sceneText p)) geo_init
    (with_runs (λ rs, rs ++ [{| run_names := parse_names (sceneText p);
                                run_geo := geo_init |}]) p)) as Hrun.
  change (length (requests geo_init)) with 0 in Hrun.
  cbn [Page.page_run foldl fmap list_fmap]. unfold Page.page_step at 2, page_enabled.
  rewrite (po_alive p Hp), Hm. cbn [negb andb Page.page_handler].
  rewrite !decide_False by by destruct (parse_names _).
  unfold Page.page_run in Hrun. rewrite Hrun; clear Hrun.
  - unfold run_on. cbn [run_ahead run_names run_geo with_runs pg_runs].
    by rewrite with_runs_insert_last.
  - apply Hp.
  - cbn [with_runs pg_runs]. rewrite length_app. simpl. lia.
Qed.

(** C14 (the button and [geocodeScenes]).  When the replies to a run come
    one after the other with no other event in between, the page ends
    where [geocodeScenes], run as one function on the text of the text area
    against the same service, says: the run has collected the waypoints,
    the alerts and the console lines of [geocodeScenes] and asked the same
    requests; the map has been fitted as [geocodeScenes] fits it; and the
    update [geocodeScenes] hands to [setWaypoints] has been committed. *)
Theorem geocodeScenes_alone service p :
  page_reachable p → mounted p = true → parse_names (sceneText p) ≠ [] →
  let k := length (pg_runs p) in
  let out := geocodeScenes service type_error_message uri_error_message
               (sceneText p) (v_dom (pg_view p)) in
  page_run (PGeocode :: (PReply k <$> replies_to service 0 (parse_names (sceneText p)))) p
  = let p1 := with_dom out.2.2
        (with_runs (λ rs, rs ++ [{| run_names := []; run_geo := out.1 |}]) p) in
    match out.2.1 with
    | Ok (Some u) => commit u p1
    | _ => p1
    end.
Proof.
  intros Hp%page_reachable_page_ok Hm Hnames k out. subst k out.
  rewrite page_run_PGeocode by done. unfold geocodeScenes.
  by rewrite decide_False by by destruct (parse_names _).
Qed.

(** Without a map the render effect and the end of [geocodeScenes] leave
    the view as it is. *)
Lemma pg_view_with_dom p : with_dom (v_dom (pg_view p)) p = p.
Proof. by destruct p as [? ? ? ? [] ? ? ? ?]. Qed.

Lemma run_renderEffect_no_map p :
  mapRef (v_dom (pg_view p)) = None → run_renderEffect p = p.
Proof.
  intros Hmap. unfold run_renderEffect. rewrite renderEffect_no_map by done.
  apply pg_view_with_dom.
Qed.

Lemma pg_view_commit u p :
  mapRef (v_dom (pg_view p)) = None → pg_view (commit u p) = pg_view p.
Proof.
  intros Hmap. unfold commit. destruct (triggers u); [|done].
  destruct (render_rows _); [|done]. by rewrite run_renderEffect_no_map.
Qed.

Lemma pg_view_run_end g p :
  mapRef (v_dom (pg_view p)) = None → pg_view (run_end g p) = pg_view p.
Proof.
  intros Hmap. unfold run_end.
  destruct (newWaypoints g) as [|w ws].
  - rewrite finish_nil. cbn [fst snd]. by rewrite pg_view_with_dom.
  - rewrite finish_no_map by done. cbn [fst snd].
    by rewrite pg_view_with_dom, pg_view_commit.
Qed.

(** C21 (a reply after the page is gone).  Once the cleanup of the mount
    effect has run, a reply of the service, the last of its run included,
    touches neither a map nor a reference of the page: [mapRef] is empty,
    so the end of [geocodeScenes] does not call [fitBounds] and the render
    effect returns at once.  The run itself goes on as on a page that is
    there, with its requests and its alerts: [geocodeScenes] makes no test
    of liveness; the emptied reference stands in for it. *)
Theorem reply_after_unmount p k r rep :
  page_reachable p → mounted p = false → pg_runs p !! k = Some r →
  pg_view (page_handler p (PReply k rep)) = pg_view p ∧
  pg_runs (page_handler p (PReply k rep)) !! k = Some (run_reply r rep).
Proof.
  intros Hp%page_reachable_page_ok Hm%bool_decide_eq_false Hk.
  assert (mapRef (v_dom (pg_view p)) = None) as Hmap.
  { apply (vo_unmounted _ (po_view p Hp)). by destruct (v_run (pg_view p)) as [k'|];
      [destruct Hm; eexists|]. }
  split.
  - cbn [Page.page_handler]. unfold geocode_step. rewrite Hk.
    destruct r as [[|name rest] g]; [done|].
    unfold run_on. destruct (run_names _); [|done]. by rewrite pg_view_run_end.
  - rewrite pg_runs_reply, Hk. apply list_lookup_insert_eq. by eapply lookup_lt_Some.
Qed.

End run_claims.

(** ** The terrain: lemmas *)

Section terrain.
Context (type_error_message uri_error_message : jsstring).
Implicit Types (s : dom) (m map : map_id) (p : page).

Local Abbreviation page_handler :=
  (page_handler type_error_message uri_error_message).

Lemma terrain_of_renderEffect m waypoints s :
  terrain_of m (exec (renderEffect waypoints) s) = terrain_of m s.
Proof. by apply (renderEffect_field w_terrain). Qed.

Lemma terrain_of_onLoad map m s :
  terrain_of m (exec (onLoad map) s) = terrain_of m s.
Proof.
  destruct s as [ms ks r l b fl]. unfold terrain_of.
  cbv [exec onLoad map_addSource map_addLayer on_map modify mbind eff_bind
       with_maps maps snd].
  destruct (decide (map = m)) as [->|Hne].
  - rewrite !list_lookup_alter_eq. by destruct (ms !! m).
  - by rewrite !list_lookup_alter_ne.
Qed.

Lemma terrain_of_finish new m s :
  terrain_of m (exec (finish new) s) = terrain_of m s.
Proof.
  unfold exec. destruct new as [|w ws]; [by rewrite finish_nil|].
  destruct (mapRef s) as [map|] eqn:Hmap.
  - rewrite (finish_map w ws map) by done. by apply (on_map_field w_terrain).
  - by rewrite finish_no_map.
Qed.

Lemma mapRef_finish new s : mapRef (exec (finish new) s) = mapRef s.
Proof.
  unfold exec. destruct new as [|w ws]; [by rewrite finish_nil|].
  destruct (mapRef s) as [map|] eqn:Hmap.
  - rewrite (finish_map w ws map) by done. cbn [snd].
    by destruct (with_maps_frame (alter (w_with_fit (fitBounds_request (w :: ws))) map) s)
      as (-> & _).
  - by rewrite finish_no_map.
Qed.

(** A change of the map that keeps [mapRef] and every terrain. *)
Lemma terrain_agrees_with_dom s' p :
  mapRef s' = mapRef (v_dom (pg_view p)) →
  (∀ m, terrain_of m s' = terrain_of m (v_dom (pg_view p))) →
  terrain_agrees p → terrain_agrees (with_dom s' p).
Proof.
  intros Hr Ht Hp m. cbn [with_dom pg_view v_dom terrainEnabled].
  rewrite Hr, Ht. apply Hp.
Qed.

Lemma terrain_agrees_crash p : terrain_agrees p → terrain_agrees (crash p).
Proof. done. Qed.

Lemma terrain_agrees_render p :
  terrain_agrees p → terrain_agrees (run_renderEffect p).
Proof.
  intros Hp. unfold run_renderEffect.
  assert (terrain_agrees (with_dom (renderEffect (waypoints p) (v_dom (pg_view p))).2 p)).
  { apply terrain_agrees_with_dom; [apply renderEffect_keeps| |done].
    intros m. apply terrain_of_renderEffect. }
  by destruct (renderEffect _ _).1.
Qed.

Lemma terrain_agrees_commit u p : terrain_agrees p → terrain_agrees (commit u p).
Proof.
  intros Hp. unfold commit. destruct (triggers u); [|done].
  destruct (render_rows _); [by apply terrain_agrees_render|done].
Qed.

Lemma terrain_agrees_run_end g p : terrain_agrees p → terrain_agrees (run_end g p).
Proof.
  intros Hp. unfold run_end.
  assert (terrain_agrees
    (with_dom (finish (newWaypoints g) (v_dom (pg_view p))).2 p)).
  { apply terrain_agrees_with_dom;
      [apply mapRef_finish|intros m; apply terrain_of_finish|done]. }
  destruct (finish _ _).1 as [[u|]|]; [by apply terrain_agrees_commit|done..].
Qed.

Lemma terrain_agrees_run_on k names g p :
  terrain_agrees p →
  terrain_agrees (run_on type_error_message uri_error_message k names g p).
Proof.
  intros Hp. unfold run_on. destruct (run_names _); [|done].
  by apply terrain_agrees_run_end.
Qed.

Lemma terrain_agrees_reply k r p :
  terrain_agrees p →
  terrain_agrees (geocode_step type_error_message uri_error_message k r p).
Proof.
  intros Hp. unfold geocode_step.
  destruct (pg_runs p !! k) as [[[|name rest] g]|]; [done| |done].
  by apply terrain_agrees_run_on.
Qed.

End terrain.

(** ** The terrain: theorem *)

Section terrain_claims.
Context (type_error_message uri_error_message : jsstring).
Implicit Types (s : dom) (m map : map_id) (p : page) (e : page_event).

Local Abbreviation page_handler :=
  (page_handler type_error_message uri_error_message).
Local Abbreviation page_reachable :=
  (page_reachable type_error_message uri_error_message).

(** Pressing the button makes the widget and the flag agree. *)
Lemma terrain_agrees_toggle p : page_ok p → terrain_agrees (page_handler p PToggle).
Proof.
  intros Hp. cbn [Page.page_handler].
  destruct (mapRef (v_dom (pg_view p))) as [map|] eqn:Hmap.
  - rewrite (toggleTerrain_map _ map) by done. cbn [fst snd].
    intros m. cbn [with_dom pg_view v_dom terrainEnabled].
    destruct (with_maps_frame (alter (w_with_terrain
      (if terrainEnabled p then None else Some terrain_on)) map) (v_dom (pg_view p)))
      as (-> & _). intros Hm. assert (m = map) as -> by congruence.
    rewrite terrain_of_set by (destruct (ok_map_live _ (vo_dom _ (po_view p Hp)) map Hmap)
      as (w & -> & _); by eexists).
    by destruct (terrainEnabled p).
  - unfold toggleTerrain, mbind, eff_bind, get. rewrite Hmap.
    intros m. simpl. by rewrite Hmap.
Qed.

(** No event but the creation of a map breaks the agreement. *)
Lemma terrain_agrees_step p e :
  page_ok p → page_enabled p e = true → (∀ k, e ≠ PImported k) →
  terrain_agrees p → terrain_agrees (page_handler p e).
Proof.
  intros Hp He Hne Ha.
  destruct e as [hw|k|k|map| | | | |k r|e| ]; cbn [Page.page_handler]; try done.
  - rewrite run_selfCheck_id. apply terrain_agrees_render.
    intros m. cbn [with_view pg_view view_handler terrainEnabled].
    rewrite mountEffect_eq. destruct hw; cbn [v_dom]; specialize (Ha m);
      by destruct (v_dom (pg_view p)).
  - by destruct (Hne k).
  - intros m. cbn [with_view pg_view view_handler v_dom terrainEnabled].
    destruct (onLoad_refs map (v_dom (pg_view p))) as [-> _].
    rewrite terrain_of_onLoad. apply Ha.
  - intros m. cbn [with_view pg_view view_handler terrainEnabled].
    unfold page_enabled in He. rewrite (po_alive p Hp) in He. cbn in He.
    apply bool_decide_eq_true in He as [k Hrun]. rewrite Hrun. cbn [v_dom].
    by destruct (mountCleanup_refs k (with_mapContainerRef false (v_dom (pg_view p))))
      as (-> & _).
  - case_decide; [done|by apply terrain_agrees_run_on].
  - by apply terrain_agrees_reply.
  - by apply terrain_agrees_commit.
  - by apply terrain_agrees_toggle.
Qed.

(** C22 (the terrain button).  The map is created with terrain on while
    the flag of the page is off, so a new map shows terrain under a button
    that reads [Enable Terrain].  Pressing the button makes the widget and
    the flag agree, and from then on every event of the page keeps them
    in agreement, until the next map is created. *)
Theorem terrain_button p e :
  page_reachable p → page_enabled p e = true →
  (e = PToggle → terrain_agrees (page_handler p e)) ∧
  ((∀ k, e ≠ PImported k) → terrain_agrees p → terrain_agrees (page_handler p e)) ∧
  (∀ k, e = PImported k → isMounted (v_dom (pg_view p)) !! k = Some true →
        terrainEnabled p = false →
        ∃ map, mapRef (v_dom (pg_view (page_handler p e))) = Some map ∧
               terrain_of map (v_dom (pg_view (page_handler p e))) = Some terrain_on ∧
               terrainEnabled (page_handler p e) = false).
Proof.
  intros Hp%page_reachable_page_ok He. split_and!.
  - intros ->. by apply terrain_agrees_toggle.
  - by apply terrain_agrees_step.
  - intros k -> Hk Hoff. cbn [Page.page_handler with_view pg_view view_handler v_dom
      terrainEnabled].
    unfold page_enabled in He. rewrite (po_alive p Hp) in He.
    apply bool_decide_eq_true in He. rewrite exec_onImported_view by (done || apply Hp).
    destruct (imported_frame (v_dom (pg_view p))) as (_ & _ & Hr & Hms).
    eexists. split_and!; [done| |done].
    unfold terrain_of. by rewrite Hms, lookup_app_r, Nat.sub_diag.
Qed.

End terrain_claims.

Lemma run_countdown_witness :
  run_left (page_run [] [] [PStore (EvClick (num_of_Z 3) (num_of_Z 4)); PReply 0 NoResult]
              (page_run [] [] page_example page_init)) 0
  = run_left (page_run [] [] page_example page_init) 0
    - replies_of 0 [PStore (EvClick (num_of_Z 3) (num_of_Z 4)); PReply 0 NoResult].
Proof.
  refine (proj1 (run_countdown [] [] (page_run [] [] page_example page_init) 0 _ _ _)).
  - apply page_run_reachable, page_reach_init.
  - vm_compute. lia.
Defined.

Lemma geocodeScenes_alone_witness :
  let p := page_run [] []
             [PMount true; PImported 0; PLoad 0;
              PSceneText (str_lit "Paris" ++ [newline] ++ str_lit "Atlantis")]
             page_init in
  let out := geocodeScenes service_example [] [] (sceneText p) (v_dom (pg_view p)) in
  page_run [] []
    (PGeocode :: (PReply (length (pg_runs p))
                    <$> replies_to service_example 0 (parse_names (sceneText p)))) p
  = let p1 := with_dom out.2.2
        (with_runs (λ rs, rs ++ [{| run_names := []; run_geo := out.1 |}]) p) in
    match out.2.1 with
    | Ok (Some u) => commit u p1
    | _ => p1
    end.
Proof.
  intros p out.
  refine (geocodeScenes_alone [] [] service_example p _ eq_refl _).
  - apply page_run_reachable, page_reach_init.
  - by vm_compute.
Defined.

Lemma reply_after_unmount_witness :
  let p := page_run [] [] (page_example ++ [PUnmount]) page_init in
  let rep := Result (str_lit "2.3522") (str_lit "48.8566") in
  pg_view (page_handler [] [] p (PReply 0 rep)) = pg_view p.
Proof.
  intros p rep.
  assert (pg_runs p !! 0 = Some (run_ahead [] [] [str_lit "Paris"] geo_init)) as Hr
    by by vm_compute.
  refine (proj1 (reply_after_unmount [] [] p 0 _ rep _ eq_refl Hr)).
  apply page_run_reachable, page_reach_init.
Defined.

Lemma last_reply_wins_witness :
  waypoints (page_run [] [] ([PStore EvClear] ++
               [PReply 0 (Result (str_lit "2.3522") (str_lit "48.8566"))])
               (page_run [] [] page_example page_init))
  = arr_of_list ([] ++ [{| name := str_lit "Paris";
                           coord := (parseFloat (str_lit "2.3522"),
                                     parseFloat (str_lit "48.8566")) |}]).
Proof.
  assert (pg_runs (page_run [] [] page_example page_init) !! 0
          = Some {| run_names := [str_lit "Paris"]; run_geo := geo_init |}) as Hrun
    by by vm_compute.
  exact (last_reply_wins [] [] _ 0 _ [] _ _ _ [PStore EvClear]
    (page_run_reachable [] [] _ _ (page_reach_init [] [])) Hrun (Forall_nil_2 _) eq_refl).
Defined.

Lemma terrain_button_witness :
  terrain_agrees
    (page_handler [] [] (page_run [] [] [PMount true; PImported 0] page_init) PToggle).
Proof.
  refine (proj1 (terrain_button [] []
    (page_run [] [] [PMount true; PImported 0] page_init) PToggle _ _) eq_refl).
  - apply page_run_reachable, page_reach_init.
  - by vm_compute.
Defined.

Lemma run_isolated_witness :
  pg_runs (page_run [] [] [PStore (EvClick (num_of_Z 3) (num_of_Z 4)); PReply 0 NoResult]
             (page_run [] [] page_example page_init)) !! 0
  = Some (foldl (run_reply [] [])
            {| run_names := [str_lit "Paris"]; run_geo := geo_init |}
            (replies_in 0 [PStore (EvClick (num_of_Z 3) (num_of_Z 4)); PReply 0 NoResult])).
Proof.
  assert (pg_runs (page_run [] [] page_example page_init) !! 0
          = Some {| run_names := [str_lit "Paris"]; run_geo := geo_init |}) as Hrun
    by by vm_compute.
  exact (proj1 (run_isolated [] [] _ 0 _
    [PStore (EvClick (num_of_Z 3) (num_of_Z 4)); PReply 0 NoResult]
    (page_run_reachable [] [] _ _ (page_reach_init [] [])) Hrun)).
Defined.
