(* ===== verification/System.v ===== *)
(** * System: the page against the system of the specification

    The specification describes the planner as a small system: a store of
    waypoints with [append], [moveAt], [clear] and [replaceAll], a terrain
    flag, and an adapter of the map that is Uninitialized, Loading or
    Ready.  This file writes that system down, says which of its
    operations each event of [Home] (src/unnamed/part_000) stands for, and
    proves that the page implements it: under every sequence of events the
    waypoints, the flag and the phase of the page move as the operations
    of the specification say, each of them where the specification allows
    it, and nothing else moves them. *)

From Stdlib Require Import ZArith Lia.
From S2P Require Import Prelude JsNum JsString JsText JsNumText Markup JsArray Effect.
From S2P Require Import Waypoints BoundingBox SelfCheck MapView Lifecycle Geocode Page.
From S2P Require Import Session.

(** ** The system of the specification *)

Record system : Type := System {
  sys_route : StoreSpec.store;  (* the Waypoint Store *)
  sys_terrain : bool;           (* the Terrain Flag *)
  sys_phase : phase;            (* the Map View Adapter *)
}.

Definition system_init : system :=
  {| sys_route := []; sys_terrain := false; sys_phase := Uninitialized |}.

(** What can happen to the system: an action of the user on the store, the
    replace at the end of a geocode batch, a toggle of the terrain, a move
    of the adapter. *)
Inductive action : Type :=
| Store (e : store_event)
| ReplaceAll (ws : StoreSpec.store)
| ToggleTerrain
| Adapter (q : phase).

Definition system_step (s : system) (a : action) : system :=
  match a with
  | Store e =>
      {| sys_route := spec_step (sys_route s) e; sys_terrain := sys_terrain s;
         sys_phase := sys_phase s |}
  | ReplaceAll ws =>
      {| sys_route := StoreSpec.replaceAll ws (sys_route s);
         sys_terrain := sys_terrain s; sys_phase := sys_phase s |}
  | ToggleTerrain =>
      {| sys_route := sys_route s; sys_terrain := negb (sys_terrain s);
         sys_phase := sys_phase s |}
  | Adapter q =>
      {| sys_route := sys_route s; sys_terrain := sys_terrain s; sys_phase := q |}
  end.

(** Where the specification lets an action happen: clicks are accepted
    only in Ready; the list offers a move only for a row that has a
    neighbour in that direction; a batch replaces the store only by a
    result that is not empty; the adapter moves along its state machine. *)
Definition system_enabled (s : system) (a : action) : bool :=
  match a with
  | Store (EvClick _ _) => bool_decide (sys_phase s = Ready)
  | Store (EvMove index d) =>
      bool_decide (index < length (sys_route s)) &&
      bool_decide (is_Some (StoreSpec.neighbour index d (sys_route s)))
  | Store EvClear => true
  | ReplaceAll ws => bool_decide (ws ≠ [])
  | ToggleTerrain => true
  | Adapter q => phase_next (sys_phase s) q
  end.

(** A sequence of actions each of which is allowed where it happens. *)
Fixpoint system_valid (s : system) (acts : list action) : bool :=
  match acts with
  | [] => true
  | a :: acts => system_enabled s a && system_valid (system_step s a) acts
  end.

Inductive system_reachable : system → Prop :=
| system_reach_init : system_reachable system_init
| system_reach_step s a :
    system_reachable s → system_enabled s a = true →
    system_reachable (system_step s a).

(** ** The page as a state of the system *)

Definition abstract (p : page) : system :=
  {| sys_route := default [] (arr_to_list (waypoints p));
     sys_terrain := terrainEnabled p;
     sys_phase := phase_of (pg_view p) |}.

(** A step of the page is matched by operations of the system: they take
    the system from the one page to the other, each allowed where it
    happens. *)
Definition simulates (p p' : page) (acts : list action) : Prop :=
  abstract p' = foldl system_step (abstract p) acts ∧
  system_valid (abstract p) acts = true.

Section actions.
Context (type_error_message uri_error_message : jsstring).

(** The operations of the specification an event of the page stands for.
    The terrain button toggles only when there is a map (line 293); a
    reply replaces the store when it is the last of its run and the run
    located a name (line 233); typing, the start of a run, a reply inside
    a run and the [load] event of the map are no operation of the
    system. *)
Definition actions_of (p : page) (e : page_event) : list action :=
  match e with
  | PMount has_window => [Adapter (phase_after (pg_view p) (VMount has_window))]
  | PImported k => [Adapter (phase_after (pg_view p) (VImported k))]
  | PImportFailed k => [Adapter (phase_after (pg_view p) (VImportFailed k))]
  | PUnmount => [Adapter (phase_after (pg_view p) VUnmount)]
  | PStore e => [Store e]
  | PToggle =>
      match mapRef (v_dom (pg_view p)) with
      | Some _ => [ToggleTerrain]
      | None => []
      end
  | PReply k rep =>
      match pg_runs p !! k with
      | Some r =>
          let r' := run_reply type_error_message uri_error_message r rep in
          match run_names r, run_names r', newWaypoints (run_geo r') with
          | _ :: _, [], w :: ws => [ReplaceAll (w :: ws)]
          | _, _, _ => []
          end
      | None => []
      end
  | PLoad _ | PPrompt _ | PSceneText _ | PGeocode => []
  end.

(** The operations a sequence of events stands for; an event that cannot
    happen stands for none. *)
Fixpoint trace_of (es : list page_event) (p : page) : list action :=
  match es with
  | [] => []
  | e :: es =>
      (if page_enabled p e then actions_of p e else [])
      ++ trace_of es (page_step type_error_message uri_error_message p e)
  end.

End actions.

(** ** What the system sees of a page *)

Section abstraction.
Context (type_error_message uri_error_message : jsstring).
Implicit Types (p : page) (e : page_event) (es : list page_event) (s : system).

Local Abbreviation run_ahead := (run_ahead type_error_message uri_error_message).
Local Abbreviation run_on := (run_on type_error_message uri_error_message).

Lemma abstract_route p ws : waypoints p = arr_of_list ws → sys_route (abstract p) = ws.
Proof. intros Hws. unfold abstract. cbn. by rewrite Hws, arr_to_list_of_list. Qed.

(** The system sees the waypoints, the flag, and of the view what the
    phase is read from. *)
Lemma abstract_eq p p' :
  waypoints p' = waypoints p → terrainEnabled p' = terrainEnabled p →
  mapRef (v_dom (pg_view p')) = mapRef (v_dom (pg_view p)) →
  v_run (pg_view p') = v_run (pg_view p) →
  v_importing (pg_view p') = v_importing (pg_view p) →
  abstract p' = abstract p.
Proof.
  intros Hw Ht Hm Hr Hi. unfold abstract. rewrite Hw, Ht. f_equal. by apply phase_of_eq.
Qed.

(** The same with new waypoints. *)
Lemma abstract_route_eq ws p p' :
  waypoints p' = arr_of_list ws → terrainEnabled p' = terrainEnabled p →
  mapRef (v_dom (pg_view p')) = mapRef (v_dom (pg_view p)) →
  v_run (pg_view p') = v_run (pg_view p) →
  v_importing (pg_view p') = v_importing (pg_view p) →
  abstract p'
  = {| sys_route := ws; sys_terrain := sys_terrain (abstract p);
       sys_phase := sys_phase (abstract p) |}.
Proof.
  intros Hw Ht Hm Hr Hi. unfold abstract. rewrite Hw, Ht, arr_to_list_of_list.
  cbn [default sys_terrain sys_phase]. f_equal. by apply phase_of_eq.
Qed.

Lemma abstract_with_dom (d : dom) p :
  mapRef d = mapRef (v_dom (pg_view p)) → abstract (with_dom d p) = abstract p.
Proof. intros Hm. by apply abstract_eq. Qed.

Lemma abstract_with_runs f p : abstract (with_runs f p) = abstract p.
Proof. done. Qed.

Lemma abstract_run_renderEffect p : abstract (run_renderEffect p) = abstract p.
Proof.
  unfold run_renderEffect.
  destruct (renderEffect_keeps (waypoints p) (v_dom (pg_view p))) as (_ & Hm & _).
  destruct (renderEffect _ _).1; by apply abstract_with_dom.
Qed.

(** [setWaypoints]: the store takes the new array, nothing else moves. *)
Lemma abstract_commit u p :
  abstract (commit u p) = abstract (with_waypoints (apply_update (waypoints p) u) p).
Proof.
  unfold commit. destruct u as [|a]; cbn [triggers apply_update]; [by destruct p|].
  destruct (render_rows _); [apply abstract_run_renderEffect|done].
Qed.

(** The end of a run: a replace by what the run located, when it located
    a name. *)
Lemma abstract_run_end g p :
  page_ok p →
  abstract (run_end g p)
  = match newWaypoints g with
    | [] => abstract p
    | w :: ws => system_step (abstract p) (ReplaceAll (w :: ws))
    end.
Proof.
  intros Hp. unfold run_end. destruct (newWaypoints g) as [|w ws].
  { rewrite finish_nil. by apply abstract_with_dom. }
  destruct (finish_cases (w :: ws) (v_dom (pg_view p)) (vo_dom _ (po_view _ Hp)))
    as (_ & (_ & Hm & _) & _ & [[_ [=]]| ->]).
  rewrite abstract_commit. by apply abstract_route_eq.
Qed.

(** A run that goes on: to its next request, where the system sees
    nothing, or to its end. *)
Lemma abstract_run_on k names g p :
  page_ok p →
  abstract (run_on k names g p)
  = match run_names (run_ahead names g), newWaypoints g with
    | [], w :: ws => system_step (abstract p) (ReplaceAll (w :: ws))
    | _, _ => abstract p
    end.
Proof.
  intros Hp. unfold run_on, Page.run_on.
  destruct (run_names _) as [|name rest]; [|by destruct (newWaypoints g)].
  rewrite abstract_run_end, newWaypoints_run_ahead by by apply page_ok_with_runs.
  done.
Qed.

(** An event of the map's life moves the adapter to the phase of the
    new view. *)
Lemma abstract_with_view v p :
  abstract (with_view v p) = system_step (abstract p) (Adapter (phase_of v)).
Proof. done. Qed.

End abstraction.

(** ** Each event against the system *)

Section simulation.
Context (type_error_message uri_error_message : jsstring).
Implicit Types (p : page) (e : page_event) (es : list page_event) (s : system).

Local Abbreviation page_handler := (page_handler type_error_message uri_error_message).
Local Abbreviation page_step := (page_step type_error_message uri_error_message).
Local Abbreviation page_run := (page_run type_error_message uri_error_message).
Local Abbreviation page_reachable := (page_reachable type_error_message uri_error_message).
Local Abbreviation actions_of := (actions_of type_error_message uri_error_message).
Local Abbreviation trace_of := (trace_of type_error_message uri_error_message).

Lemma simulates_nil p p' : abstract p' = abstract p → simulates p p' [].
Proof. by split. Qed.

Lemma simulates_one p p' a :
  abstract p' = system_step (abstract p) a → system_enabled (abstract p) a = true →
  simulates p p' [a].
Proof. intros Hp' Ha. split; [done|]. cbn. by rewrite Ha. Qed.

(** The events of the map's life move the adapter as its state machine
    says. *)
Lemma simulates_view p ve :
  page_ok p → view_enabled (pg_view p) ve = true →
  simulates p (with_view (view_handler (pg_view p) ve) p)
    [Adapter (phase_after (pg_view p) ve)].
Proof.
  intros Hp He. apply simulates_one.
  - by rewrite abstract_with_view, phase_of_handler by (done || apply Hp).
  - apply phase_next_after; [apply Hp|done].
Qed.

(** A click on the map, a row button, "Clear Route". *)
Lemma store_enabled_system (ws : list waypoint) index d :
  button_enabled (arr_of_list ws) index d = true →
  index < length ws ∧ is_Some (StoreSpec.neighbour index d ws).
Proof.
  unfold button_enabled. rewrite length_arr_of_list.
  intros [Hrow Hd]%andb_true_iff. apply row_exists_of_list in Hrow.
  split; [done|]. unfold StoreSpec.neighbour.
  destruct d; apply negb_true_iff in Hd.
  - apply Nat.eqb_neq in Hd. destruct index; [done|by eexists].
  - apply Z.eqb_neq in Hd. rewrite decide_True by lia. by eexists.
Qed.

Lemma simulates_store p (e : store_event) :
  page_ok p → page_enabled p (PStore e) = true →
  simulates p (page_handler p (PStore e)) [Store e].
Proof.
  intros Hp He. destruct (dense_inv _ (po_dense p Hp)) as [ws Hws].
  unfold page_enabled in He. rewrite (po_alive p Hp) in He. cbn [negb andb] in He.
  apply simulates_one.
  - cbn [Page.page_handler]. rewrite abstract_commit.
    fold (store_step (waypoints p) e). rewrite Hws.
    rewrite store_step_of_list.
    + unfold system_step. rewrite (abstract_route p ws Hws).
      by apply abstract_route_eq.
    + destruct e as [lng lat|index d|]; try done.
      apply andb_true_iff in He as [_ He]. rewrite Hws in He.
      by apply store_enabled_row.
  - cbn [system_enabled]. rewrite (abstract_route p ws Hws).
    destruct e as [lng lat|index d|]; [| |done].
    + apply bool_decide_eq_true. unfold map_clickable in He. cbn [abstract sys_phase].
      unfold phase_of. by destruct (mapRef (v_dom (pg_view p))).
    + apply andb_true_iff in He as [_ He]. rewrite Hws in He.
      destruct (store_enabled_system ws index d He).
      by rewrite !bool_decide_eq_true_2.
Qed.

(** The terrain button: a toggle when there is a map, nothing
    otherwise. *)
Lemma simulates_toggle p :
  simulates p (page_handler p PToggle) (actions_of p PToggle).
Proof.
  cbn [Page.page_handler System.actions_of].
  destruct (mapRef (v_dom (pg_view p))) as [map|] eqn:Hmap.
  - rewrite (toggleTerrain_map _ map) by done. cbn [fst snd].
    apply simulates_one; [|done]. unfold abstract, system_step.
    cbn [with_dom waypoints terrainEnabled pg_view sys_route sys_terrain sys_phase].
    by f_equal.
  - apply simulates_nil. unfold toggleTerrain, mbind, eff_bind, get. rewrite Hmap.
    by apply abstract_with_dom.
Qed.

(** The button "Geocode Scenes" starts a run, which the system does not
    see. *)
Lemma simulates_geocode p :
  page_ok p → simulates p (page_handler p PGeocode) [].
Proof.
  intros Hp. apply simulates_nil. cbn [Page.page_handler]. case_decide; [done|].
  rewrite abstract_run_on by by apply page_ok_with_runs. by destruct (run_names _).
Qed.

(** A reply: the replace of the store when it ends a run that located a
    name, and nothing before. *)
Lemma simulates_reply p k rep :
  page_ok p → simulates p (page_handler p (PReply k rep)) (actions_of p (PReply k rep)).
Proof.
  intros Hp. cbn [Page.page_handler System.actions_of]. unfold geocode_step.
  destruct (pg_runs p !! k) as [[[|name rest] g]|];
    [by apply simulates_nil| |by apply simulates_nil].
  unfold run_reply. cbn [run_names run_geo].
  set (g' := exec (lookup (λ _ _, rep) type_error_message uri_error_message name) g).
  rewrite newWaypoints_run_ahead.
  pose proof (abstract_run_on type_error_message uri_error_message k rest g' p Hp) as Hon.
  destruct (run_names (run_ahead type_error_message uri_error_message rest g')),
    (newWaypoints g'); try by apply simulates_nil.
  by apply simulates_one.
Qed.

(** Every event of the page is the operations of the system it stands
    for, each allowed where it happens. *)
Lemma page_handler_simulates p e :
  page_ok p → page_enabled p e = true →
  simulates p (page_handler p e) (actions_of p e).
Proof.
  intros Hp He. pose proof He as He'. unfold page_enabled in He'.
  rewrite (po_alive p Hp) in He'. cbn [negb andb] in He'.
  destruct e as [hw|k|k|map| | | | |k r|e| ]; cbn [System.actions_of].
  - cbn [Page.page_handler]. rewrite run_selfCheck_id.
    destruct (simulates_view p (VMount hw) Hp He') as [Habs Hok].
    split; [|done]. by rewrite abstract_run_renderEffect.
  - by apply simulates_view.
  - by apply simulates_view.
  - apply simulates_nil. cbn [Page.page_handler]. rewrite abstract_with_view.
    by rewrite phase_of_handler by (done || apply Hp).
  - by apply simulates_view.
  - by apply simulates_nil.
  - by apply simulates_nil.
  - by apply simulates_geocode.
  - by apply simulates_reply.
  - by apply simulates_store.
  - apply simulates_toggle.
Qed.

End simulation.

(** ** Sequences of events against the system *)

Section refinement.
Context (type_error_message uri_error_message : jsstring).
Implicit Types (p : page) (e : page_event) (es : list page_event) (s : system).
Implicit Types (acts : list action).

Local Abbreviation page_handler := (page_handler type_error_message uri_error_message).
Local Abbreviation page_step := (page_step type_error_message uri_error_message).
Local Abbreviation page_run := (page_run type_error_message uri_error_message).
Local Abbreviation page_reachable := (page_reachable type_error_message uri_error_message).
Local Abbreviation actions_of := (actions_of type_error_message uri_error_message).
Local Abbreviation trace_of := (trace_of type_error_message uri_error_message).

Lemma system_valid_app s acts1 acts2 :
  system_valid s (acts1 ++ acts2)
  = system_valid s acts1 && system_valid (foldl system_step s acts1) acts2.
Proof.
  revert s. induction acts1 as [|a acts1 IH]; intros s; [done|].
  cbn [app system_valid foldl]. by rewrite IH, andb_assoc.
Qed.

Lemma system_reachable_valid s acts :
  system_reachable s → system_valid s acts = true →
  system_reachable (foldl system_step s acts).
Proof.
  revert s. induction acts as [|a acts IH]; intros s Hs Hv; [done|].
  apply andb_true_iff in Hv as [Ha Hv]. apply IH; [by constructor|done].
Qed.

Lemma simulates_trans p1 p2 p3 acts1 acts2 :
  simulates p1 p2 acts1 → simulates p2 p3 acts2 → simulates p1 p3 (acts1 ++ acts2).
Proof.
  intros [H1 Hv1] [H2 Hv2]. split.
  - by rewrite foldl_app, <-H1.
  - by rewrite system_valid_app, Hv1, <-H1.
Qed.

Lemma page_run_simulates es p :
  page_ok p → simulates p (page_run es p) (trace_of es p).
Proof.
  revert p. induction es as [|e es IH]; intros p Hp; [by split|].
  cbn [Page.page_run foldl System.trace_of].
  apply (simulates_trans p (page_step p e)).
  - unfold Page.page_step. destruct (page_enabled p e) eqn:He; [|by split].
    by apply page_handler_simulates.
  - by apply IH, page_ok_page_step.
Qed.

Lemma page_reachable_system p : page_reachable p → system_reachable (abstract p).
Proof.
  induction 1 as [|p e Hp IH He]; [constructor|].
  destruct (page_handler_simulates type_error_message uri_error_message p e
    (page_reachable_page_ok _ _ p Hp) He) as [-> Hv].
  by apply system_reachable_valid.
Qed.

(** C5 (the page implements the system of the specification).  The
    store, the terrain flag and the phase of the adapter of every page that
    is reached are a state the system of the specification reaches; and
    from there every sequence of events of the page is a sequence of
    operations of the system, each allowed where it happens: a click on the
    map is an [append], accepted only in Ready; a row button is a [moveAt]
    of a row that has that neighbour; "Clear Route" is [clear]; the terrain
    button is a toggle when there is a map and nothing otherwise; the events
    of the map's life move the adapter along Uninitialized, Loading, Ready;
    and of a run of [geocodeScenes] the system sees one thing only, the
    [replaceAll] by all the run located, when its last reply has come and
    it located a name.  The waypoints of the page are the array of that
    store throughout, and a map that is there shows that route or nothing
    of it. *)
Theorem page_refines_system es p :
  page_reachable p →
  system_reachable (abstract p) ∧
  system_valid (abstract p) (trace_of es p) = true ∧
  abstract (page_run es p) = foldl system_step (abstract p) (trace_of es p) ∧
  waypoints (page_run es p) = arr_of_list (sys_route (abstract (page_run es p))) ∧
  ∀ map, mapRef (v_dom (pg_view (page_run es p))) = Some map →
         shows (sys_route (abstract (page_run es p))) map (v_dom (pg_view (page_run es p))).
Proof.
  intros Hp. pose proof (page_reachable_page_ok _ _ p Hp) as Hok.
  destruct (page_run_simulates es p Hok) as [Habs Hv].
  pose proof (page_ok_run type_error_message uri_error_message es p Hok) as Hok'.
  destruct (dense_inv _ (po_dense _ Hok')) as [ws Hws].
  rewrite (abstract_route _ ws Hws).
  split_and!; [by apply page_reachable_system|done..|].
  intros map. by apply (po_shows _ Hok').
Qed.

End refinement.

Lemma page_refines_system_witness :
  let es := [PMount true; PImported 0; PLoad 0;
             PStore (EvClick (num_of_Z 1) (num_of_Z 2));
             PSceneText (str_lit "Paris" ++ [newline] ++ str_lit "Atlantis"); PGeocode;
             PToggle; PReply 0 (Result (str_lit "2.3522") (str_lit "48.8566"));
             PStore (EvClick (num_of_Z 3) (num_of_Z 4)); PReply 0 NoResult] in
  abstract (page_run [] [] es page_init)
  = foldl system_step system_init
      [Adapter Loading; Adapter Ready; Store (EvClick (num_of_Z 1) (num_of_Z 2));
       ToggleTerrain; Store (EvClick (num_of_Z 3) (num_of_Z 4));
       ReplaceAll [{| name := str_lit "Paris";
                      coord := (parseFloat (str_lit "2.3522"),
                                parseFloat (str_lit "48.8566")) |}]].
Proof.
  intros es.
  assert (trace_of [] [] es page_init
          = [Adapter Loading; Adapter Ready; Store (EvClick (num_of_Z 1) (num_of_Z 2));
             ToggleTerrain; Store (EvClick (num_of_Z 3) (num_of_Z 4));
             ReplaceAll [{| name := str_lit "Paris";
                            coord := (parseFloat (str_lit "2.3522"),
                                      parseFloat (str_lit "48.8566")) |}]]) as Htr
    by by vm_compute.
  rewrite <-Htr.
  exact (proj1 (proj2 (proj2 (page_refines_system [] [] es page_init
    (page_reach_init [] []))))).
Defined.
