(* ===== verification/Render.v ===== *)
(** * Render: what [Home] returns

    The markup of the page (src/unnamed/part_000, lines 339-397): the two
    text areas, the three buttons, the container of the map and the list
    of waypoints with its two buttons per row.  A handler of the markup is
    the event of the page it raises; the rows are those of [render_rows],
    shown with [toFixed(4)].  The theorems say which events this markup
    offers, and that they are the events [page_enabled] lets happen; when
    [Home] throws; that its markup has one row per slot visited, keys
    of their own among siblings and the container of the map as its one
    reference; and that the constructor of the map is given that
    container. *)

From Stdlib Require Import ZArith Lia.
From S2P Require Import Prelude JsNum JsString JsText JsNumText Markup JsArray Effect.
From S2P Require Import Waypoints BoundingBox SelfCheck MapView Lifecycle Geocode Page.

(** ** The markup *)

Abbreviation jsx := (node page_event).

(** The code unit of a double quote. *)
Definition quote : code_unit := 34%N.

(** The text of the paragraph, its lines joined by one space each. *)
Definition intro_text : jsstring :=
  str_lit "Describe your journey and list the places you want to visit. Click on "
  ++ [quote] ++ str_lit "Geocode Scenes" ++ [quote]
  ++ str_lit " to plot them on the map. You can also click on the map to add extra waypoints, reorder them, toggle 3D terrain or clear everything.".

Definition prompt_placeholder : jsstring :=
  str_lit "Enter your journey planning prompt here (optional)".

(** The [\n] of the placeholder is a backslash and an [n]: an attribute
    written between quotes has no escapes. *)
Definition scene_placeholder : jsstring :=
  str_lit "Enter scene names, one per line (e.g. Eiffel Tower\nLouvre Museum)".

Definition arrow_up : jsstring := [8593%N].
Definition arrow_down : jsstring := [8595%N].

(** The label of the terrain button. *)
Definition terrain_label (terrainEnabled : bool) : jsstring :=
  if terrainEnabled then str_lit "Disable Terrain" else str_lit "Enable Terrain".

Section render.
Context (number_to_string : jsnum → jsstring).

(** Lines 372-393: a row of the list. *)
Definition row_node (r : row) : jsx :=
  Element (str_lit "div")
    [Key (row_index r); Attr (str_lit "className") (str_lit "waypoint-item")]
    [Element (str_lit "span") []
       [Text (str_of_nat (row_index r + 1)); Text (str_lit ". "); Text (row_name r);
        Text (str_lit " (");
        Text (toFixed number_to_string 4 (row_lat r)); Text (str_lit ", ");
        Text (toFixed number_to_string 4 (row_lon r));
        Text (str_lit ")")];
     Element (str_lit "button")
       [OnClick (PStore (EvMove (row_index r) StoreSpec.Up));
        Disabled (up_disabled r); Attr (str_lit "title") (str_lit "Move up")]
       [Text arrow_up];
     Element (str_lit "button")
       [OnClick (PStore (EvMove (row_index r) StoreSpec.Down));
        Disabled (down_disabled r); Attr (str_lit "title") (str_lit "Move down")]
       [Text arrow_down]].

(** What a row reads: position, name, latitude and longitude with four
    decimals, and the two arrows. *)
Definition row_text (index : nat) (w : waypoint) : jsstring :=
  str_of_nat (index + 1) ++ str_lit ". " ++ name w ++ str_lit " ("
  ++ toFixed number_to_string 4 (coord w).2 ++ str_lit ", "
  ++ toFixed number_to_string 4 (coord w).1 ++ str_lit ")"
  ++ arrow_up ++ arrow_down.

(** Lines 349-354 and 357-362: a text area. *)
Definition textarea (rows : nat) (value : jsstring) (onChange : jsstring → page_event)
    (placeholder : jsstring) : jsx :=
  Element (str_lit "textarea")
    [Attr (str_lit "rows") (str_of_nat rows); Attr (str_lit "value") value;
     OnChange onChange; Attr (str_lit "placeholder") placeholder] [].

(** Lines 365-367: a button that is never disabled. *)
Definition button (onClick : page_event) (label : jsstring) : jsx :=
  Element (str_lit "button") [OnClick onClick] [Text label].

(** Lines 339-397.  [None] is the [TypeError] of the list when the array
    holds [undefined]. *)
Definition Home (p : page) : option jsx :=
  rows ← render_rows (waypoints p);
  Some (Element (str_lit "main")
    [Style [(str_lit "padding", str_lit "1rem"); (str_lit "maxWidth", str_lit "960px");
            (str_lit "margin", str_lit "0 auto")]]
    [Element (str_lit "h1") [Style [(str_lit "marginBottom", str_lit "0.5rem")]]
       [Text (str_lit "Journey Planner")];
     Element (str_lit "p") [Style [(str_lit "marginBottom", str_lit "1rem")]]
       [Text intro_text];
     Element (str_lit "div") [] [textarea 2 (prompt p) PPrompt prompt_placeholder];
     Element (str_lit "div") [] [textarea 4 (sceneText p) PSceneText scene_placeholder];
     Element (str_lit "div") [Style [(str_lit "marginBottom", str_lit "1rem")]]
       [button PGeocode (str_lit "Geocode Scenes");
        button PToggle (terrain_label (terrainEnabled p));
        button (PStore EvClear) (str_lit "Clear Route")];
     Element (str_lit "div") [Attr (str_lit "id") (str_lit "map"); Ref (str_lit "mapContainerRef")] [];
     Element (str_lit "div") [Attr (str_lit "className") (str_lit "waypoint-list")]
       (row_node <$> rows)]).

End render.

(** The events that come from the markup: typing and the buttons. *)
Definition from_markup (e : page_event) : bool :=
  match e with
  | PPrompt _ | PSceneText _ | PGeocode | PToggle => true
  | PStore (EvMove _ _) | PStore EvClear => true
  | _ => false
  end.

(** ** What the markup offers *)

Section render_lemmas.
Context (number_to_string : jsnum → jsstring).
Implicit Types (p : page) (r : row) (e : page_event) (ws : list waypoint).

Local Abbreviation Home := (Home number_to_string).
Local Abbreviation row_node := (row_node number_to_string).

(** The controls of a row: its two buttons. *)
Lemma controls_row r :
  controls (row_node r)
  = [Button (PStore (EvMove (row_index r) StoreSpec.Up)) (up_disabled r);
     Button (PStore (EvMove (row_index r) StoreSpec.Down)) (down_disabled r)].
Proof. unfold Render.row_node. by destruct (up_disabled r), (down_disabled r). Qed.

(** The controls of the page: the text areas, the three buttons and the
    buttons of the rows. *)
Lemma controls_Home p rows :
  render_rows (waypoints p) = Some rows →
  ∃ n, Home p = Some n ∧
       controls n = [Input PPrompt; Input PSceneText; Button PGeocode false;
                     Button PToggle false; Button (PStore EvClear) false]
                    ++ (rows ≫= λ r, controls (row_node r)).
Proof.
  intros Hrows. unfold Render.Home. rewrite Hrows. eexists. split; [done|].
  rewrite controls_element, !fmap_cons, fmap_nil.
  rewrite (controls_element _ _ (_ <$> rows)), controls_fmap.
  cbn [mjoin list_join]. by rewrite app_nil_r.
Qed.

(** A row is the one element of its class in itself, attaches no
    reference, has a key and no keyed child. *)
Lemma by_class_row r :
  by_class (str_lit "waypoint-item") (row_node r) = [row_node r].
Proof. done. Qed.

Lemma refs_row r : refs (row_node r) = [].
Proof. done. Qed.

Lemma key_of_row r : key_of (row_node r) = Some (row_index r).
Proof. done. Qed.

Lemma well_keyed_row r : well_keyed (row_node r) = true.
Proof. done. Qed.

(** The text of a row. *)
Lemma text_of_row r :
  text_of (row_node r)
  = row_text number_to_string (row_index r)
      {| name := row_name r; coord := (row_lon r, row_lat r) |}.
Proof.
  unfold Render.row_node, row_text. cbn [text_of fmap list_fmap mjoin list_join name coord fst snd].
  by rewrite !app_nil_r, <-!(assoc_L (++)).
Qed.

(** The structure of the page: the rows are the elements of class
    [waypoint-item], the container of the map is the one element with a
    reference, and no two siblings share a key. *)
Lemma structure_Home p rows :
  render_rows (waypoints p) = Some rows →
  ∃ n, Home p = Some n ∧
       by_class (str_lit "waypoint-item") n = row_node <$> rows ∧
       refs n = [str_lit "mapContainerRef"] ∧
       well_keyed n = true.
Proof.
  intros Hrows. unfold Render.Home. rewrite Hrows. eexists. split; [done|].
  split_and!.
  - rewrite by_class_element, !fmap_cons, fmap_nil by reflexivity.
    rewrite (by_class_element _ _ _ (_ <$> rows)) by reflexivity.
    rewrite (by_class_fmap _ _ _ by_class_row).
    cbn [mjoin list_join]. by rewrite app_nil_r.
  - rewrite refs_element, !fmap_cons, fmap_nil.
    rewrite (refs_element _ _ (_ <$> rows)), (refs_fmap _ _ refs_row).
    reflexivity.
  - cbn [well_keyed]. apply andb_true_intro. split; [done|].
    cbn [forallb]. rewrite !andb_true_r.
    apply (well_keyed_fmap _ _ row_node row_index);
      [apply key_of_row|apply well_keyed_row|by eapply render_rows_indices].
Qed.

(** The rows of a list of waypoints offer the moves that [moveWaypoint]
    has somewhere to make. *)
Lemma offered_rows ws rows e :
  render_rows (arr_of_list ws) = Some rows →
  Exists (λ c, raises c e) (rows ≫= λ r, controls (row_node r)) ↔
  ∃ i d, e = PStore (EvMove i d) ∧ button_enabled (arr_of_list ws) i d = true.
Proof.
  rewrite render_rows_of_list. intros [= <-].
  rewrite list.Exists_exists. setoid_rewrite list_elem_of_bind.
  setoid_rewrite elem_of_lookup_imap. setoid_rewrite controls_row.
  unfold button_enabled. rewrite length_arr_of_list. split.
  - intros (c & (r & Hc & i & w & -> & Hi) & Hr).
    cbn [row_index up_disabled down_disabled] in Hc.
    assert (row_exists (arr_of_list ws) i = true) as Hrow
      by (apply row_exists_of_list; by eapply lookup_lt_Some).
    apply elem_of_cons in Hc as [->|Hc];
      [|apply list_elem_of_singleton in Hc as ->]; destruct Hr as [Hd <-];
      eexists i, _; (split; [done|]); rewrite Hrow; cbn [andb];
      apply bool_decide_eq_false in Hd; apply negb_true_iff;
      [by apply Nat.eqb_neq|by apply Z.eqb_neq].
  - intros (i & d & -> & [Hrow Hd]%andb_prop).
    assert (is_Some (ws !! i)) as [w Hw].
    { by apply lookup_lt_is_Some, row_exists_of_list. }
    exists (Button (PStore (EvMove i d))
              (match d with StoreSpec.Up => bool_decide (i = 0)
               | StoreSpec.Down => bool_decide (Z.of_nat i = Z.of_nat (length ws) - 1)%Z
               end)).
    split.
    + eexists. split; [|by exists i, w]. cbn [row_index up_disabled down_disabled].
      destruct d; [apply list_elem_of_here|apply list_elem_of_further, list_elem_of_here].
    + split; [|done]. destruct d; apply negb_true_iff in Hd;
        apply bool_decide_eq_false; [by apply Nat.eqb_neq|by apply Z.eqb_neq].
Qed.

End render_lemmas.

(** ** What the user can do *)

Section render_claims.
Context (number_to_string : jsnum → jsstring).
Implicit Types (p : page) (e : page_event).

(** C10 (what the user can do).  On a mounted page that has not crashed
    and whose waypoints are an array of waypoints, the markup renders, and
    the events it offers are exactly the events of typing and of the
    buttons that [page_enabled] lets happen: any text in either text area,
    the three buttons above the map, and for each row the move up unless
    the row is the first and the move down unless it is the last.  The
    markup offers no other event. *)
Theorem Home_offers p :
  pg_crashed p = false → mounted p = true → dense (waypoints p) →
  ∃ n, Home number_to_string p = Some n ∧
       ∀ e, offered n e ↔ from_markup e = true ∧ page_enabled p e = true.
Proof.
  intros Hal Hm [ws Hws]%dense_inv.
  destruct (render_rows_dense (waypoints p)) as [rows Hrows];
    [rewrite Hws; apply dense_of_list|].
  destruct (controls_Home number_to_string p rows Hrows) as (n & Hn & Hc).
  exists n. split; [done|]. intros e.
  rewrite offered_controls, Hc, Exists_app, !Exists_cons, Exists_nil.
  rewrite Hws in Hrows. rewrite (offered_rows _ ws rows e Hrows).
  unfold page_enabled. rewrite Hal, Hws. cbn [negb andb raises]. split.
  - intros [[[s <-]|[[s <-]|[[_ <-]|[[_ <-]|[[_ <-]|[]]]]]]|(i & d & -> & Hd)];
      cbn [from_markup store_enabled]; rewrite ?Hm; by split.
  - destruct e as [| | | | |s|s| | |[| i d|]|]; intros [[=] He].
    + left; left. by exists s.
    + left; right; left. by exists s.
    + by left; do 2 right; left.
    + right. exists i, d. split; [done|]. by apply andb_prop in He as [_ ?].
    + by left; do 4 right; left.
    + by left; do 3 right; left.
Qed.

(** C11 (the markup is well formed).  [Home] throws exactly when a slot
    of the waypoints holds [undefined], which the callback of [map] then
    reads [name] of.  Otherwise the markup has one element of class
    [waypoint-item] for each slot [map] visits, no two siblings anywhere in
    it have the same key, and the container of the map is the one element
    it attaches a reference to. *)
Theorem Home_well_formed p :
  match Home number_to_string p with
  | None => Undef ∈ waypoints p
  | Some n =>
      (Undef ∉ waypoints p) ∧
      length (by_class (str_lit "waypoint-item") n) = length (arr_visited (waypoints p)) ∧
      well_keyed n = true ∧
      refs n = [str_lit "mapContainerRef"]
  end.
Proof.
  pose proof (render_rows_is_Some (waypoints p)) as Hsome.
  destruct (render_rows (waypoints p)) as [rows|] eqn:Hrows.
  - destruct (structure_Home number_to_string p rows Hrows) as (n & -> & Hcls & Hrefs & Hkeys).
    split_and!; [by apply Hsome|..|done|done].
    by rewrite Hcls, length_fmap, (render_rows_length _ _ Hrows).
  - unfold Home. rewrite Hrows. cbn [mbind option_bind].
    destruct (decide (Undef ∈ waypoints p)) as [|Hno]; [done|].
    by destruct (is_Some_None (proj2 Hsome Hno)).
Qed.

End render_claims.

Section container.
Context (type_error_message uri_error_message : jsstring).
Context (number_to_string : jsnum → jsstring).
Implicit Types (p : page) (k : nat).

Local Abbreviation page_handler := (page_handler type_error_message uri_error_message).
Local Abbreviation page_reachable := (page_reachable type_error_message uri_error_message).

(** C24 (the map is made in its container).  The constructor of the map
    throws when [mapContainerRef.current] is [null].  On the page this
    does not happen: when the import of a run of the mount effect resolves
    and the run is still mounted, [Home] has rendered the container with
    its reference, React has attached it, and the callback leaves the new
    map in [mapRef] with the page standing; when the run was cleaned up
    the callback changes nothing. *)
Theorem map_in_container p k :
  page_reachable p → page_enabled p (PImported k) = true →
  (∀ s, isMounted s !! k = Some true → mapContainerRef s = false →
     onImported k s = (Throw (Error container_message), with_maplibreRef true s)) ∧
  completes (onImported k) (v_dom (pg_view p)) = true ∧
  if decide (isMounted (v_dom (pg_view p)) !! k = Some true)
  then (∃ n, Home number_to_string p = Some n ∧ refs n = [str_lit "mapContainerRef"]) ∧
       mapContainerRef (v_dom (pg_view p)) = true ∧
       mapRef (v_dom (pg_view (page_handler p (PImported k))))
       = Some (length (maps (v_dom (pg_view p))))
  else v_dom (pg_view (page_handler p (PImported k))) = v_dom (pg_view p).
Proof.
  intros Hp%page_reachable_page_ok He. unfold page_enabled in He.
  rewrite (po_alive p Hp) in He. apply bool_decide_eq_true in He.
  pose proof (po_view p Hp) as Hv.
  split; [intros s; apply onImported_no_container|].
  unfold completes. cbn [Page.page_handler with_view pg_view view_handler v_dom].
  case_decide as Hlive.
  - pose proof (live_import_container _ k Hv He Hlive) as Hct.
    rewrite exec_onImported_view, onImported_live, mapRef_imported by done.
    split_and!; [done| |done..].
    destruct (render_rows_dense _ (po_dense p Hp)) as [rows Hrows].
    destruct (structure_Home number_to_string p rows Hrows) as (n & Hn & _ & Hrefs & _).
    by exists n.
  - by rewrite exec_onImported_dead, onImported_dead.
Qed.

End container.

Lemma Home_offers_witness :
  ∃ n, Home (λ _, []) (page_run [] [] [PMount true] page_init) = Some n ∧
       ∀ e, offered n e ↔
            from_markup e = true ∧
            page_enabled (page_run [] [] [PMount true] page_init) e = true.
Proof. apply (Home_offers (λ _, [])); [reflexivity|reflexivity|apply dense_nil]. Defined.

Lemma map_in_container_witness :
  completes (onImported 0) (v_dom (pg_view (page_run [] [] [PMount true] page_init))) = true.
Proof.
  exact (proj1 (proj2 (map_in_container [] [] (λ _, [])
    (page_run [] [] [PMount true] page_init) 0
    (page_run_reachable [] [] _ _ (page_reach_init [] [])) eq_refl))).
Defined.
