(* ===== verification/App.v ===== *)
(** * App: the wrapper of the pages and the configuration

    src/unnamed/part_001 is the component the framework renders around
    every page; src/next.config.js is the configuration the framework
    reads.  The wrapper renders the page it is given with the props it is
    given.  Of the configuration, [reactStrictMode] matters to the page: in
    development React then runs every effect, cleans it up and runs it
    again when a component is first shown. *)

From Stdlib Require Import ZArith Lia.
From S2P Require Import Prelude JsNum JsString JsText JsNumText Markup JsArray Effect.
From S2P Require Import Waypoints BoundingBox SelfCheck MapView Lifecycle Geocode Page.
From S2P Require Import Render.

(** ** The configuration (src/next.config.js) *)

Record next_config : Type := NextConfig {
  reactStrictMode : bool;
  trailingSlash : bool;
}.

Definition nextConfig : next_config :=
  {| reactStrictMode := true; trailingSlash := false |}.

(** What the framework reads from the file: [module.exports]. *)
Definition module_exports : next_config := nextConfig.

(** ** The wrapper (src/unnamed/part_001) *)

(** The style sheets the module of the wrapper imports, which apply to
    every page. *)
Definition App_styles : list jsstring := [str_lit "@/styles/globals.css"].

(** [<Component {...pageProps} />]. *)
Definition App {P V : Type} (Component : P → V) (pageProps : P) : V :=
  Component pageProps.

(** ** The first mount *)

(** The effects of a page that is shown for the first time: React runs
    them once, or under strict mode in development runs them, cleans them
    up and runs them again. *)
Definition first_mount (config : next_config) (development : bool)
    : list page_event :=
  if reactStrictMode config && development
  then [PMount true; PUnmount; PMount true]
  else [PMount true].

(** The imports a page waits for, as the events of their settling:
    [resolves] says of each run whether its import succeeds. *)
Definition imports_of (resolves : nat → bool) (p : page) : list page_event :=
  (λ k, if resolves k then PImported k else PImportFailed k)
  <$> v_importing (pg_view p).

(** ** The start of the page *)

Section start.
Context (type_error_message uri_error_message : jsstring).
Context (number_to_string : jsnum → jsstring).

Local Abbreviation page_run := (page_run type_error_message uri_error_message).

(** C34 (the start of the page).  In production and under the strict
    mode of development alike, once the imports the first mount has
    started have settled, in whatever order and whichever of them failed,
    the page has not crashed, no import is pending, the run of the mount
    effect that React ran last is the one mounted, and the wrapper renders
    what it rendered before any effect ran.  When the import of that run
    has resolved there is exactly one map, the one in [mapRef]; when it
    has failed there is none, and the map cannot be clicked. *)
Theorem App_start development resolves es :
  let p := page_run (first_mount nextConfig development) page_init in
  let k := if development then 1 else 0 in
  es ≡ₚ imports_of resolves p →
  pg_crashed (page_run es p) = false ∧
  v_importing (pg_view (page_run es p)) = [] ∧
  v_run (pg_view (page_run es p)) = Some k ∧
  isMounted (v_dom (pg_view (page_run es p)))
  = (if development then [false; true] else [true]) ∧
  (if resolves k
   then mapRef (v_dom (pg_view (page_run es p))) = Some 0 ∧
        maps (v_dom (pg_view (page_run es p))) = [widget_initial]
   else mapRef (v_dom (pg_view (page_run es p))) = None ∧
        maps (v_dom (pg_view (page_run es p))) = [] ∧
        map_clickable (page_run es p) = false) ∧
  App (Home number_to_string) (page_run es p)
  = App (Home number_to_string) page_init.
Proof.
  intros p k Hes. subst p k. symmetry in Hes. unfold imports_of in Hes.
  destruct development; cbn [first_mount] in Hes.
  - change (v_importing _) with [0; 1] in Hes. cbn [fmap list_fmap] in Hes.
    apply Permutation_length_2_inv in Hes as [-> | ->];
      destruct (resolves 0), (resolves 1); by vm_compute.
  - change (v_importing _) with [0] in Hes. cbn [fmap list_fmap] in Hes.
    apply Permutation_length_1_inv in Hes as ->.
    destruct (resolves 0); by vm_compute.
Qed.

End start.

Lemma App_start_witness :
  pg_crashed (page_run [] [] [PImportFailed 1; PImported 0]
                (page_run [] [] (first_mount nextConfig true) page_init)) = false.
Proof.
  refine (proj1 (App_start [] [] (λ _, []) true (Nat.eqb 0)
                   [PImportFailed 1; PImported 0] _)).
  apply Permutation_swap.
Defined.
