(* ===== verification/Journey.v ===== *)
(** * Journey: from the button to the map and the list

    The parts of the page meet when the user clicks "Geocode Scenes"
    (src/unnamed/part_000): [geocodeScenes] (lines 202-260) cuts the text
    area into names and asks the service for each; its end fits the map
    (lines 246-258) and hands the waypoints to [setWaypoints] (line 244);
    React renders [Home] again (lines 339-397) and runs the render effect
    (lines 164-194), which puts the markers and the route line on the map.
    This file follows one such click through all of them, on the page of
    [Page] and the markup of [Render], under any events that come in
    between, and says what the user then sees. *)

From Stdlib Require Import ZArith Lia.
From S2P Require Import Prelude JsNum JsString JsText JsNumText Markup JsArray Effect.
From S2P Require Import Waypoints BoundingBox SelfCheck MapView Lifecycle Geocode Page.
From S2P Require Import Session Render.

(** The lines of the list of waypoints as the user reads them: the text
    of each element of class [waypoint-item], in document order. *)
Definition listed {E} (n : node E) : list jsstring :=
  text_of <$> by_class (str_lit "waypoint-item") n.

Section journey.
Context (type_error_message uri_error_message : jsstring).
Context (number_to_string : jsnum → jsstring).
Implicit Types (p : page) (ws : list waypoint) (map : map_id).

Local Abbreviation page_run := (page_run type_error_message uri_error_message).
Local Abbreviation page_reachable := (page_reachable type_error_message uri_error_message).
Local Abbreviation lookup_all service :=
  (lookup_all service type_error_message uri_error_message).
Local Abbreviation Home := (Home number_to_string).
Local Abbreviation row_text := (row_text number_to_string).

(** The list of the page reads the waypoints of the page. *)
Lemma listed_Home p ws :
  waypoints p = arr_of_list ws →
  ∃ n, Home p = Some n ∧ listed n = imap row_text ws.
Proof.
  intros Hws. pose proof (render_rows_of_list ws) as Hrows. rewrite <-Hws in Hrows.
  destruct (structure_Home number_to_string p _ Hrows) as (n & Hn & Hcls & _).
  exists n. split; [done|]. unfold listed. rewrite Hcls, <-list_fmap_compose, fmap_imap.
  apply imap_ext. intros i w _. cbn [compose]. by rewrite text_of_row.
Qed.

(** What the end of a run that located [w :: ws] leaves on the map, if
    there is one. *)
Lemma run_end_map g p w ws map :
  view_ok (pg_view p) → newWaypoints g = w :: ws →
  let s := v_dom (pg_view (run_end g p)) in
  mapRef s = Some map →
  markers_on map s = labelled (w :: ws) ∧
  fit_of map s = fitBounds_request (w :: ws) ∧
  (is_Some (route_source map s) →
   route_of map s = Some (arr_of_list (coord <$> w :: ws))).
Proof.
  intros Hv Hnew s. subst s.
  destruct (mapRef (v_dom (pg_view p))) as [m|] eqn:Hmap;
    [|by rewrite pg_view_run_end, Hmap].
  rewrite (run_end_dom g p w ws m) by done.
  destruct (with_maps_frame (alter (w_with_fit (fitBounds_request (w :: ws))) m)
    (v_dom (pg_view p))) as (Hr' & _).
  set (s := with_maps _ (v_dom (pg_view p))) in *.
  assert (dom_ok s) as Hok by by apply dom_ok_on_map; [|apply Hv].
  destruct (renderEffect_keeps (arr_of_list (w :: ws)) s) as (_ & Hr & _ & Hsrc).
  rewrite Hr, Hr', Hmap. intros [= <-]. split_and!.
  - by apply renderEffect_markers.
  - unfold fit_of. rewrite (renderEffect_field w_fit) by done.
    apply fit_of_set. by destruct (ok_map_live _ (vo_dom _ Hv) m Hmap) as (w' & -> & _).
  - intros Hroute%Hsrc. by apply renderEffect_route.
Qed.

(** ** From the button to the map and the list *)

(** C6 (one click, end to end).  On a page the user reached, a click on
    "Geocode Scenes" starts a run over the names of the text area.
    Whatever else happens while the service answers (clicks on the map,
    moves, typing, other runs, the map arriving or going), when the last
    reply of the service arrives the page shows the places the service
    located, in the order of the names: they are the waypoints of the page
    and the lines of the list under the map, each with its position, its
    name and its coordinates to four decimals; a map that is on the page
    carries one marker for each, labelled from 1, was asked to show the box
    around them and, once it has loaded, draws the route through them.  The
    run has ended, and it has alerted once for each of the other names. *)
Theorem geocode_session_shows service p es rep :
  page_reachable p → mounted p = true →
  let k := length (pg_runs p) in
  let names := parse_names (sceneText p) in
  let ws := located (lookup_all service 0 names) in
  let p' := page_run (PGeocode :: es ++ [PReply k rep]) p in
  replies_in k (es ++ [PReply k rep]) = replies_to service 0 names →
  ws ≠ [] →
  waypoints p' = arr_of_list ws ∧
  name <$> ws `sublist_of` names ∧
  (∃ n, Home p' = Some n ∧ listed n = imap row_text ws) ∧
  (∃ g, pg_runs p' !! k = Some {| run_names := []; run_geo := g |} ∧
        alerts g = reported (lookup_all service 0 names)) ∧
  ∀ map, mapRef (v_dom (pg_view p')) = Some map →
    markers_on map (v_dom (pg_view p')) = labelled ws ∧
    fit_of map (v_dom (pg_view p')) = fitBounds_request ws ∧
    (is_Some (route_source map (v_dom (pg_view p'))) →
     route_of map (v_dom (pg_view p')) = Some (arr_of_list (coord <$> ws))).
Proof.
  intros Hreach Hm k names ws p' Hes Hws. subst p' k names.
  pose proof (page_reachable_page_ok _ _ p Hreach) as Hp.
  assert (parse_names (sceneText p) ≠ []) as Hnames
    by (intros Hnil; apply Hws; unfold ws; by rewrite Hnil).
  destruct (page_run_session type_error_message uri_error_message service p es rep Hp
    (runs_ready_reachable _ _ p Hreach) Hm Hnames Hes) as [Hk ->].
  destruct (lookups_spec service type_error_message uri_error_message
    (parse_names (sceneText p)) geo_init) as (g & Hg & Hnew & Hal & _).
  unfold exec. rewrite Hg. cbn [snd]. change (newWaypoints g = ws) in Hnew.
  set (p1 := with_runs _ (page_run (PGeocode :: es) p)).
  assert (view_ok (pg_view p1)) as Hv
    by apply (po_view _ (page_ok_run type_error_message uri_error_message
                           (PGeocode :: es) p Hp)).
  assert (waypoints (run_end g p1) = arr_of_list ws) as Hway
    by (rewrite <-Hnew; apply run_end_waypoints; [done|by rewrite Hnew]).
  assert (name <$> ws `sublist_of` parse_names (sceneText p)) as Hsub
    by apply located_names.
  clearbody ws. destruct ws as [|w ws]; [done|].
  split_and!; [done..|by apply listed_Home| |intros map; by apply (run_end_map g p1 w ws)].
  exists g. split; [|done]. rewrite pg_runs_run_end. cbn [with_runs pg_runs].
  by apply list_lookup_insert_eq.
Qed.

End journey.

Lemma geocode_session_shows_witness :
  let p := page_run [] []
             [PMount true; PImported 0; PLoad 0;
              PSceneText (str_lit "Paris" ++ [newline] ++ str_lit "Atlantis")]
             page_init in
  let es := [PReply 0 (Result (str_lit "2.3522") (str_lit "48.8566"));
             PStore (EvClick (num_of_Z 3) (num_of_Z 4))] in
  waypoints (page_run [] [] (PGeocode :: es ++ [PReply 0 NoResult]) p)
  = arr_of_list (located (lookup_all service_example [] [] 0 (parse_names (sceneText p)))).
Proof.
  intros p es.
  assert (located (lookup_all service_example [] [] 0 (parse_names (sceneText p))) ≠ [])
    as Hws by by vm_compute.
  exact (proj1 (geocode_session_shows [] [] (λ _, []) service_example p es NoResult
    (page_run_reachable [] [] _ _ (page_reach_init [] [])) eq_refl eq_refl Hws)).
Defined.

